(* ===== verification/_CoqProject ===== *)
-Q . S2P
Prelude.v
Crypto.v
Json.v
JsonParse.v
JsonRaw.v
Decode.v
Unicode.v
AuditKeyring.v
Store.v
Domains.v
AuditChain.v
AuditVerify.v
AuditOnce.v
Groups.v
Pump.v
Policies.v
Scim.v
ScimSync.v
Reach.v
Ledger.v
Effects.v
Spec.v
GoValue.v
GoTime.v
Base64.v
Cedar.v
Directory.v
Request.v
Engine.v
Bundle.v
Wire.v
Spool.v
LocalPDP.v
Node.v
Trust.v
Refusals.v
Http.v
Auth.v
Reload.v
Replica.v
DomainApi.v
GroupApi.v
PolicyApi.v
AccessApi.v
Search.v
AuditApi.v
Decisions.v
Routes.v
Refine.v
Service.v
Fleet.v
Pem.v
Rotation.v
RotationSafe.v
CaStore.v
CaOverlap.v
CaKept.v
CaHistory.v
BundleSeq.v
