(* ===== verification/Prelude.v ===== *)
(** * Omega

    Omega is a control plane for workload identity and authorization,
    written in Go (src/). Its server (internal/server) keeps domains,
    groups, stored Cedar policies, provisioned users and a tamper-evident
    audit chain in a SQL database (storage), decides AuthZEN access requests
    with Cedar (policy), serves both over HTTP (api), issues SPIFFE
    identities from a CA of its own or an external one (identity) and ships
    the audit chain to external sinks (audit). Its agents (internal/agent)
    decide locally with policy bundles they fetch from the server and ship
    what they decided back to it. This library models the persistence layer,
    the policy engine with its bundles, the HTTP API of domains, groups,
    policies, evaluation, search, audit and recorded decisions with its
    authentication, the agent's local decision point, the rotation of the
    server's CA, the overlap of an external issuer's CAs and the shipping of
    the audit chain, and proves what users of the program rely on.

    ** How the code is modelled

    Go's strings are byte strings ([string]), an instant is the [Z] number
    of nanoseconds since 1970 with the zero [time.Time] apart, 64-bit
    integers are [Z] with the wrap-around written out. A function that
    returns an error returns a [result]. Maps are [gmap], and where Go
    ranges over a map and then sorts, the model sorts the same elements.

    The database is a record of tables ([Store.DB]); a store method is a
    function of the monad [GoM], which threads the state and a schedule of
    faults: every statement takes the next entry, which may make it fail,
    and a commit may also fail after it took effect. A transaction keeps its
    effect only when it commits. The empty schedule is the run in which
    nothing fails. A handler of the API runs in [Http.HM], over the store,
    the engine and the server's own state, in which answering ends the
    handler. The commands that rotate the CA run in [Rotation.Fs], over a
    directory of files, where every call may succeed, fail, or be the one at
    which the process dies, having written any part of its data. Theorems
    quantify over the schedules, so they cover every way in which statements
    and calls fail. The current time and random bytes are arguments.

    Concurrency is modelled where the code has it: [Replica] interleaves
    reloads with writes, [Node] the parts of an agent between which it holds
    no lock, [Fleet] an agent with the server and other writers.

    What the program calls outside its sources is a parameter, with the
    documented behaviour as a class of laws: cedar-go and go-spiffe in
    Cedar, ECDSA in Bundle, the signature of user tokens in Auth, the sink
    in Pump, PEM decoding and X.509 in Pem. Each has an instance, on which
    the witnesses of the theorems run. The Go standard library is otherwise
    modelled: SHA-256, HMAC and hex in Crypto, encoding/json in Json,
    JsonParse, JsonRaw and Decode, strings.ToLower in Unicode, float64 in
    GoValue, RFC 3339 times in GoValue and GoTime, base64 in Base64 and Pem.

    ** The files

    - Prelude: results, machine integers, time, byte strings, tactics and
      hints.
    - Crypto, Json, JsonParse, JsonRaw, Decode, Unicode, GoValue, GoTime,
      Base64, Pem: the standard library, with the round trips the other
      files use ([JsonParse.parse_print], [Base64.b64_decode_encode]).

    The store:
    - AuditKeyring (storage/audit_keyring.go): HMAC keys and their rotation.
    - Store (storage/sqlite.go, leader.go): tables, faults, transactions.
    - Domains (storage/domains.go): the tree of domains.
    - AuditChain (storage/audit.go, audit_forward.go): appending, verifying,
      appending once per key, watermarks. AuditVerify proves what a
      verification establishes, AuditOnce that retries record once.
    - Groups (storage/groups.go): groups, memberships and their undo.
    - Policies (storage/policies.go and the change functions of
      api/policies.go): policies whose digests the chain records.
    - Scim (storage/scim.go): provisioning; ScimSync proves that the groups
      follow the provisioned members.
    - Reach: every writing method of the store together. Ledger and Effects:
      what each of them adds to the chain and does to the tables, when it
      succeeds and when it fails.
    - Pump (audit/pump.go, forwarder.go): delivery to a sink.

    The engine:
    - Cedar: the interfaces of cedar-go and go-spiffe.
    - Directory (policy/directory.go): domains and groups as entities.
    - Request (policy/engine.go, requestid.go): requests on their way into
      Cedar. Wire: their JSON.
    - Engine (policy/engine.go): loading and evaluation.
    - Bundle (policy/bundle.go): exporting the engine's state, loading it
      elsewhere, its revision and signature.

    The API:
    - Http (api/http.go): the server's state, requests, replies, handlers.
      Auth (api/auth.go, uiproxy.go): who a request comes from. Refusals
      (api/uiproxy.go): the limiter of refusal rows.
    - Reload (api/domains.go, policies.go): the engine's copy of the store;
      Replica: reloads that interleave with writes.
    - DomainApi, GroupApi, PolicyApi (api/domains.go, groups.go,
      policies.go), AccessApi, Search, AuditApi (api/http.go, searchpage.go,
      bundle.go), Decisions (api/bundle.go): the handlers. Routes: the route
      table with its gates.
    - Spec: what the API promises, without tables. Refine and Service: the
      handlers, and the whole API, implement it.

    The agent (agent/localpdp/localpdp.go):
    - Spool: the file of decisions not yet shipped. LocalPDP: syncing,
      answering, shipping. Node: an agent over time. Trust: which bundles it
      decides from. Fleet: an agent and the server together.

    The certificate authorities:
    - Rotation (identity/rotation.go and the disk authority of
      authority.go): the directory of CAs and the commands that rotate them.
      RotationSafe: what a rotation guarantees, and what not.
    - CaStore (storage/upstream_ca.go and the adapter in cli/server.go): the
      CAs of an external issuer in the database.
    - CaOverlap (identity/ca_overlap.go): the bundle that is served while an
      issuer changes its CAs. CaKept: its invariant. CaHistory: what holds
      of any history.
    - BundleSeq (identity/bundle_sequence.go): the number of the bundle.

    A definition has the name of the function it models; the part of a Go
    function that runs inside its transaction is a definition of its own
    with the suffix [_tx], the part that runs under a lock one with the
    suffix [_locked]. Methods of the same name on different types carry a
    prefix ([scim_GetGroup]).

    ** What is proved

    - The API ([Service.api_refines]): any sequence of requests, by
      whomever, with any faults, is served as the specification says, with
      the very replies given; a write is recorded in its caller's name, or
      undone, or refused for the reason the specification has.
    - The store ([Reach.store_reachable]): after any sequence of writes, by
      any callers, with any faults, the audit chain verifies, the stored
      policies are the ones the chain records, domains form a tree and every
      provisioned group has exactly its active members. A provisioning call
      is all or nothing together with its audit row.
    - The audit chain: appending keeps it verifiable also against earlier
      checkpoints; a verification against a checkpoint determines every row
      up to a hash collision; an authentic row stands where it was written;
      unkeyed rows cannot follow keyed ones; truncation is found with a
      checkpoint and only then; new keys keep old rows verifiable; retries
      under one key record one row. Some theorems state what a verification
      or a reload of the keys does not establish.
    - Stored policies: they match the chain after any history, a table
      edited behind the API is refused, an ETag is good for one write.
    - Reloading ([Replica.answered_writes_in_force]): what a request is
      evaluated with is as new as every write answered before it.
    - Refusals: each is in a row or in the count of the next row.
    - Delivery: nothing is skipped whatever fails, and everything arrives
      once the sink is up.
    - The engine: a decision is an allow only if Cedar allows and no forbid
      failed to evaluate; stored policies and request attributes never
      replace what files declare; policies that were checked one by one load
      together; after any loads the parts of the engine agree; a workload is
      in exactly the domains its SPIFFE ID names and in the groups of which
      it is a current member; numbers reach Cedar exactly or are refused.
    - Bundles: an engine that loads another's bundle answers every request
      as the other does.
    - The agent: it answers only what it has recorded and only from bundles
      the control plane signed, for its trust domain, and none older than
      what it has; no decision is lost across crashes, but for those the
      control plane rejects, which are reported; shipping ends and empties
      the queue; an agent's decisions reach the chain once.
    - Rotation of the CA ([RotationSafe.rotation_refines],
      [rotation_crash_safe]): whatever fails and wherever the process dies,
      the directory follows the abstract rotation, loads, and signs with a
      CA that was already trusted; the replaced CA stays trusted until
      RetireAfter has passed; a rotation in which nothing fails completes.
      Four theorems show what an interruption can leave behind.
    - An external issuer's CAs ([CaHistory.served_bundle] and the others):
      the bundle is the issuer's plus dropped CAs that are neither expired
      nor distrusted; a dropped CA is served for its grace; the number never
      goes back, also across restarts, and names the bundle; a CA restored
      from the database is one that was saved, unless a MAC was forged.

    ** Bounds and fuel

    The loop that reads the policy set has three rounds, as in the code
    ([Policies.policy_set_loop]). JSON nesting is bounded by the limit of
    encoding/json ([JsonParse.maxNestingDepth]), and the parser's fuel is the
    length of its input, which every recursive call shortens. The fuel of
    [CaOverlap.pem_blocks] and of [DomainApi.chain_from] is the length of
    the text, and [CaKept.pem_blocks_enough] and [Refine.chain_from_more]
    prove it enough. [Prelude.TrimSpace] has the length of its input too,
    and each space it cuts shortens it.
    [GoValue.shortest] searches 25 exponents, more than the digits a float64
    can need. A shipment of the agent's queue runs against a script of the
    control plane's answers, and [LocalPDP.flush_terminates] bounds how many
    it can take. The number of a bundle stays within 64 bits for
    [BundleSeq.max_calls] changes. Everything else is structural recursion.

    ** Not modelled

    Of the API: the JSON resources of SCIM (api/scim.go), around the
    transactions modelled in Scim; issuing SVIDs, attestation and discovery
    documents (api/http.go); token exchange, ID-JAG, OIDC and DPoP, which
    are built on JWT libraries, apart from their readers of claims. Of
    identity: the signing of SVIDs and JWTs and the clients of upstream CAs,
    values of crypto/x509, go-jose and cloud services; the parsing of the
    distrust list. Of the store: the election loop of the leader, opening
    the database, the parsing of the key file. Federation, OIDC registries,
    webhook and OTLP sinks: HTTP clients. Attestation, the workload API, the
    command line and the Kubernetes operator: system calls, gRPC, flags and
    controller-runtime. Concurrency inside the store is modelled by the
    serialisation its transactions and [auditMu] enforce;
    [Policies.PolicySet], which reads in several transactions, is run
    against the sequence of stores it can see. *)
From Stdlib Require Export Ascii.
From stdpp Require Export base gmap strings list pretty sorting.

Declare Scope go_scope.
Delimit Scope go_scope with go.

(** ** Results *)

(** The value a Go function returns with its [error]: [Ok] when the error
    is nil, [Err] otherwise. *)
Inductive result (E A : Type) : Type :=
| Ok (a : A)
| Err (e : E).
Arguments Ok {_ _} _.
Arguments Err {_ _} _.

#[global] Instance result_eq_dec {E A} `{EqDecision E, EqDecision A} : EqDecision (result E A).
Proof. solve_decision. Defined.

#[global] Instance result_ret E : MRet (result E) := λ A a, Ok a.
#[global] Instance result_bind E : MBind (result E) := λ A B f r,
  match r with Ok a => f a | Err e => Err e end.

Definition is_ok {E A} (r : result E A) : bool :=
  match r with Ok _ => true | Err _ => false end.

(** ** Machine integers and time *)

Definition two63 : Z := 9223372036854775808.
Definition two64 : Z := 18446744073709551616.

(** Two's complement reduction to [int64]. *)
Definition wrap64 (z : Z) : Z := ((z + two63) `mod` two64 - two63)%Z.

Definition in_int64 (z : Z) : Prop := (- two63 <= z < two63)%Z.

(** [time.Time] is the instant in nanoseconds since the Unix epoch; the
    zero [time.Time] is January 1 of year 1, UTC. *)
Definition zero_time : Z := (-62135596800000000000)%Z.

Definition IsZero (t : Z) : bool := bool_decide (t = zero_time).

(** [t.UnixNano()]: an [int64]; outside its range the count wraps. *)
Definition UnixNano (t : Z) : Z := wrap64 t.

(** [time.Unix(0, n).UTC()]. *)
Definition UnixTime (n : Z) : Z := n.

(** [t.Sub(u)]: a [Duration], saturated at the ends of [int64]. *)
Definition TimeSub (t u : Z) : Z := Z.max (- two63) (Z.min (two63 - 1) (t - u)).

Definition Second : Z := 1000000000.
Definition Minute : Z := 60000000000.
Definition Hour : Z := 3600000000000.

(** ** Byte strings *)

(** A Go [string] or [[]byte] is a sequence of bytes: [string] of the
    standard library, whose characters are bytes. *)
Fixpoint string_forallb (p : ascii → bool) (s : string) : bool :=
  match s with
  | "" => true
  | String a s' => p a && string_forallb p s'
  end.

Definition contains_byte (c : ascii) (s : string) : bool :=
  negb (string_forallb (λ a, bool_decide (a ≠ c)) s).

(** [strings.Split(s, c)] for a separator of one byte. *)
Fixpoint split_byte (c : ascii) (s : string) : list string :=
  match s with
  | "" => [""]
  | String a s' =>
      if decide (a = c) then "" :: split_byte c s'
      else match split_byte c s' with
           | [] => [String a ""]
           | w :: ws => String a w :: ws
           end
  end.

(** [strings.Join(ws, c)] for a separator of one byte. *)
Fixpoint join_byte (c : ascii) (ws : list string) : string :=
  match ws with
  | [] => ""
  | [w] => w
  | w :: ws' => w +:+ String c (join_byte c ws')
  end.

(** [strings.LastIndex(s, c)]; [None] stands for -1. *)
Fixpoint last_index (c : ascii) (s : string) : option nat :=
  match s with
  | "" => None
  | String a s' =>
      match last_index c s' with
      | Some i => Some (S i)
      | None => if decide (a = c) then Some 0 else None
      end
  end.

(** [s[:n]]. *)
Fixpoint string_take (n : nat) (s : string) : string :=
  match n, s with
  | S n', String a s' => String a (string_take n' s')
  | _, _ => ""
  end.

(** [s[n:]]. *)
Fixpoint string_drop (n : nat) (s : string) : string :=
  match n, s with
  | S n', String _ s' => string_drop n' s'
  | _, _ => s
  end.

(** [strings.CutPrefix(s, p)]; [None] when [s] does not start with [p]. *)
Fixpoint cut_prefix (p s : string) : option string :=
  match p, s with
  | "", _ => Some s
  | String a p', String b s' => if decide (a = b) then cut_prefix p' s' else None
  | String _ _, "" => None
  end.

Definition HasPrefix (s p : string) : bool := bool_decide (is_Some (cut_prefix p s)).

Definition bytes_string (l : list nat) : string :=
  String.string_of_list_ascii (ascii_of_nat <$> l).

(** The UTF-8 forms of the runes [unicode.IsSpace] holds of. *)
Definition space_runes : list string :=
  bytes_string <$>
    ([[9]; [10]; [11]; [12]; [13]; [32]; [194; 133]; [194; 160]; [225; 154; 128]] ++
     ((λ i, [226; 128; i]) <$> seq 128 11) ++
     [[226; 128; 168]; [226; 128; 169]; [226; 128; 175]; [226; 129; 159]; [227; 128; 128]]).

Fixpoint trim_prefixes (ps : list string) (fuel : nat) (s : string) : string :=
  match fuel with
  | 0 => s
  | S n =>
      match head (omap (λ p, cut_prefix p s) ps) with
      | Some s' => trim_prefixes ps n s'
      | None => s
      end
  end.

Definition quote : ascii := "034"%char.

(** [strings.TrimSpace]. *)
Definition TrimSpace (s : string) : string :=
  let l := trim_prefixes space_runes (String.length s) s in
  String.rev (trim_prefixes (String.rev <$> space_runes) (String.length l) (String.rev l)).

(** [sort.Strings]: bytewise order. *)
Definition sort_strings : list string → list string := merge_sort String.le.

Definition is_lower_alnum (a : ascii) : bool :=
  let n := nat_of_ascii a in
  bool_decide (97 <= n <= 122) || bool_decide (48 <= n <= 57).

Definition is_name_byte (a : ascii) : bool :=
  is_lower_alnum a || bool_decide (a = "_"%char) || bool_decide (a = "-"%char).

Fixpoint name_tail (s : string) : bool :=
  match s with
  | "" => true
  | String a "" => is_lower_alnum a
  | String a s' => is_name_byte a && name_tail s'
  end.

(** The regular expression of domain labels, group names and policy ids:
    one lower-case letter or digit, then any number of letters, digits,
    underscores and dashes of which the last is a letter or digit. *)
Definition name_match (s : string) : bool :=
  match s with
  | "" => false
  | String a s' => is_lower_alnum a && name_tail s'
  end.

(** ** Lemmas *)

Create HintDb omega discriminated.

Lemma is_ok_Ok {E A} (r : result E A) : is_ok r = true → ∃ a, r = Ok a.
Proof. destruct r; [by eexists|done]. Qed.

Lemma result_bind_Ok {E A B} (f : A → result E B) r b :
  mbind f r = Ok b ↔ ∃ a, r = Ok a ∧ f a = Ok b.
Proof. destruct r; simpl; naive_solver. Qed.

Lemma wrap64_id z : in_int64 z → wrap64 z = z.
Proof.
  unfold in_int64, wrap64, two63, two64. intros H.
  rewrite Z.mod_small; lia.
Qed.

Lemma wrap64_range z : in_int64 (wrap64 z).
Proof.
  unfold in_int64, wrap64, two63, two64.
  pose proof (Z.mod_pos_bound (z + 9223372036854775808) 18446744073709551616). lia.
Qed.

Lemma wrap64_succ_ne z : wrap64 (z + 1) ≠ z.
Proof.
  unfold wrap64, two63, two64. intros H.
  pose proof (Z.div_mod (z + 1 + 9223372036854775808) 18446744073709551616). lia.
Qed.

Lemma IsZero_spec t : IsZero t = true ↔ t = zero_time.
Proof. apply bool_decide_eq_true. Qed.

Lemma string_app_nil_r s : s +:+ "" = s.
Proof. induction s as [|a s IH]; [done|]. change (String a (s +:+ "") = String a s). by rewrite IH. Qed.

Lemma string_app_assoc s1 s2 s3 : (s1 +:+ s2) +:+ s3 = s1 +:+ s2 +:+ s3.
Proof.
  induction s1 as [|a s IH]; [done|].
  change (String a ((s +:+ s2) +:+ s3) = String a (s +:+ s2 +:+ s3)). by rewrite IH.
Qed.

Lemma string_app_cons a s1 s2 : String a s1 +:+ s2 = String a (s1 +:+ s2).
Proof. done. Qed.

Lemma string_length_app s1 s2 :
  String.length (s1 +:+ s2) = String.length s1 + String.length s2.
Proof. induction s1 as [|a s IH]; [done|]. rewrite string_app_cons; simpl. by rewrite IH. Qed.

(** Two texts cut at the same place have the same parts. *)
Lemma string_app_inj_len s1 s2 t1 t2 :
  String.length s1 = String.length s2 → s1 +:+ t1 = s2 +:+ t2 → s1 = s2 ∧ t1 = t2.
Proof.
  revert s2. induction s1 as [|a s1 IH]; intros [|b s2]; try done.
  rewrite !string_app_cons. intros [= Hl] [= -> H]. by destruct (IH s2 Hl H) as [-> ->].
Qed.

Lemma string_forallb_app p s1 s2 :
  string_forallb p (s1 +:+ s2) = string_forallb p s1 && string_forallb p s2.
Proof.
  induction s1 as [|a s IH]; [done|]. rewrite string_app_cons; simpl.
  rewrite IH. by rewrite andb_assoc.
Qed.

Lemma string_forallb_impl (p q : ascii → bool) s :
  (∀ a, p a = true → q a = true) →
  string_forallb p s = true → string_forallb q s = true.
Proof.
  intros Hpq. induction s as [|a s IH]; [done|]; simpl.
  rewrite !andb_true_iff. intros [??]; auto.
Qed.

Lemma sort_strings_Permutation l : sort_strings l ≡ₚ l.
Proof. apply merge_sort_Permutation. Qed.

Lemma sort_strings_Sorted l : Sorted String.le (sort_strings l).
Proof. apply Sorted_merge_sort, _. Qed.

(** A run known by what it returns and what it has left to consume. *)
Lemma run_result {A B C} (r : A * (B * C)) a c : r.1 = a → r.2.2 = c → r = (a, (r.2.1, c)).
Proof. destruct r as [? [? ?]]. simpl. by intros -> ->. Qed.

(** *** Splitting and joining *)

Lemma split_byte_ne c s : split_byte c s ≠ [].
Proof. destruct s as [|a s]; simpl; [done|]. case_decide; [done|]. by destruct (split_byte c s). Qed.

Lemma split_byte_app c s1 s2 :
  split_byte c (s1 +:+ String c s2) = split_byte c s1 ++ split_byte c s2.
Proof.
  induction s1 as [|a s1 IH].
  - simpl. change ("" +:+ String c s2) with (String c s2); simpl. by rewrite decide_True.
  - rewrite string_app_cons; simpl. rewrite IH. case_decide; [done|].
    destruct (split_byte c s1) eqn:E; [by apply split_byte_ne in E|done].
Qed.

Lemma last_index_None c s : last_index c s = None → split_byte c s = [s].
Proof.
  induction s as [|a s IH]; simpl; [done|].
  destruct (last_index c s); [done|]. case_decide; [done|]. intros _. by rewrite IH.
Qed.

Lemma last_index_Some c s i :
  last_index c s = Some i →
  ∃ s1 s2, s = s1 +:+ String c s2 ∧ String.length s1 = i ∧ split_byte c s2 = [s2].
Proof.
  revert i. induction s as [|a s IH]; intros i; simpl; [done|].
  destruct (last_index c s) as [j|] eqn:E.
  - intros [= <-]. destruct (IH j eq_refl) as (s1 & s2 & -> & <- & Hs2).
    by exists (String a s1), s2.
  - case_decide; [|done]. subst. intros [= <-]. exists "", s. eauto using last_index_None.
Qed.

Lemma string_take_app s1 s2 : string_take (String.length s1) (s1 +:+ s2) = s1.
Proof. induction s1 as [|a s1 IH]; [by destruct s2|]. rewrite string_app_cons; simpl. by rewrite IH. Qed.

Lemma join_split_byte c s : join_byte c (split_byte c s) = s.
Proof.
  induction s as [|a s IH]; simpl; [done|].
  destruct (split_byte c s) as [|w ws] eqn:E; [by apply split_byte_ne in E|].
  case_decide as Hac.
  - subst a. simpl in *. by rewrite IH.
  - destruct ws; simpl in *; rewrite <-IH; done.
Qed.

Lemma name_match_ne s : name_match s = true → s ≠ "".
Proof. by intros H ->. Qed.

(** *** Fields set apart by a byte *)

(** The byte does not occur in the string. *)
Definition no_byte (c : ascii) (s : string) : Prop := split_byte c s = [s].

#[global] Instance no_byte_dec c s : Decision (no_byte c s).
Proof. unfold no_byte. apply _. Defined.

Lemma no_byte_forallb c (p : ascii → bool) s :
  p c = false → string_forallb p s = true → no_byte c s.
Proof.
  intros Hc. unfold no_byte. induction s as [|a s IH]; simpl; [done|].
  rewrite andb_true_iff. intros [Ha Hs]. rewrite decide_False by congruence. by rewrite IH.
Qed.

Lemma split_byte_inj c s1 s2 : split_byte c s1 = split_byte c s2 → s1 = s2.
Proof. intros H. rewrite <-(join_split_byte c s1), <-(join_split_byte c s2). by rewrite H. Qed.

(** A string is cut at the first separator in one way only, and likewise
    at the last one. *)
Lemma cut_first_inj c s1 s2 t1 t2 :
  no_byte c s1 → no_byte c s2 → s1 +:+ String c t1 = s2 +:+ String c t2 → s1 = s2 ∧ t1 = t2.
Proof.
  intros H1 H2 H. apply (f_equal (split_byte c)) in H. rewrite !split_byte_app, H1, H2 in H.
  simplify_eq/=. eauto using split_byte_inj.
Qed.

Lemma cut_last_inj c s1 s2 t1 t2 :
  no_byte c t1 → no_byte c t2 → s1 +:+ String c t1 = s2 +:+ String c t2 → s1 = s2 ∧ t1 = t2.
Proof.
  intros H1 H2 H. apply (f_equal (split_byte c)) in H. rewrite !split_byte_app, H1, H2 in H.
  apply app_inj_tail in H as [? ?]. eauto using split_byte_inj.
Qed.

Lemma string_app_cut c s t u : s +:+ String c (t +:+ String c u) = (s +:+ String c t) +:+ String c u.
Proof. by rewrite string_app_assoc, string_app_cons. Qed.

(** *** Decimal numbers *)

Definition is_decimal_byte (a : ascii) : bool :=
  bool_decide (48 <= nat_of_ascii a <= 57) || bool_decide (a = "-"%char).

Lemma pretty_N_go_decimal x s :
  string_forallb is_decimal_byte s = true → string_forallb is_decimal_byte (pretty_N_go x s) = true.
Proof.
  revert s. induction (N.lt_wf_0 x) as [x _ IH]; intros s Hs.
  destruct (decide (x = 0)%N) as [->|Hx]; [done|].
  rewrite pretty_N_go_step by lia. apply IH; [apply N.div_lt; lia|].
  simpl. rewrite Hs, andb_true_r. unfold pretty_N_char. by repeat case_match.
Qed.

Lemma pretty_Z_decimal (z : Z) : string_forallb is_decimal_byte (pretty z) = true.
Proof.
  assert (∀ n : N, string_forallb is_decimal_byte (pretty n) = true) as HN.
  { intros n. unfold pretty, pretty_N. case_decide; [done|]. by apply pretty_N_go_decimal. }
  destruct z as [|p|p]; [done|apply (HN (Npos p))|].
  unfold pretty, pretty_Z. rewrite string_forallb_app. apply (HN (Npos p)).
Qed.

Lemma pretty_Z_no_byte c (z : Z) : is_decimal_byte c = false → no_byte c (pretty z).
Proof. intros Hc. eapply no_byte_forallb; [done|]. apply pretty_Z_decimal. Qed.

(** *** Trimming *)

Lemma rev_app_rev_app s t u : String.rev_app (String.rev_app s t) u = String.rev_app t (s +:+ u).
Proof.
  revert t u. induction s as [|a s IH]; intros t u; [done|].
  cbn [String.rev_app]. rewrite IH. cbn [String.rev_app]. by rewrite string_app_cons.
Qed.

Lemma rev_app_snoc s c t : String.rev_app (s +:+ String c "") t = String c (String.rev_app s t).
Proof.
  revert t. induction s as [|a s IH]; intros t; [done|]. rewrite string_app_cons. cbn [String.rev_app]. by rewrite IH.
Qed.

(** Text between two bytes that are no spaces has no spaces to trim. *)
Lemma TrimSpace_between a b s :
  (∀ n t, trim_prefixes space_runes n (String a t) = String a t) →
  (∀ n t, trim_prefixes (String.rev <$> space_runes) n (String b t) = String b t) →
  TrimSpace (String a (s +:+ String b "")) = String a (s +:+ String b "").
Proof.
  intros H1 H2. unfold TrimSpace. rewrite H1.
  assert (String.rev (String a (s +:+ String b "")) = String b (String.rev_app s (String a ""))) as Hr.
  { unfold String.rev. cbn [String.rev_app]. apply rev_app_snoc. }
  rewrite Hr, H2, <-Hr. unfold String.rev. rewrite rev_app_rev_app. by rewrite string_app_nil_r.
Qed.

Lemma TrimSpace_quoted s : TrimSpace (String quote (s +:+ String quote "")) = String quote (s +:+ String quote "").
Proof. apply TrimSpace_between; by intros []. Qed.

Lemma TrimSpace_braces s : TrimSpace (String "{" (s +:+ "}")) = String "{" (s +:+ "}").
Proof. apply (TrimSpace_between "{" "}"); by intros []. Qed.

#[export] Hint Resolve wrap64_range sort_strings_Permutation sort_strings_Sorted : omega.

(** ** Prefixes *)

Lemma cut_prefix_Some p s r : cut_prefix p s = Some r ↔ s = p +:+ r.
Proof.
  revert s. induction p as [|a p IH]; intros [|b s]; simpl.
  1, 2: change ("" +:+ r) with r; split; congruence.
  - split; [done|]. by rewrite string_app_cons.
  - rewrite string_app_cons. case_decide as Hab.
    + rewrite IH. subst. split; [by intros ->|by intros [=]].
    + split; [done|]. by intros [= ? ?].
Qed.
