(* ===== verification/Crypto.v ===== *)
(** * Crypto

    The hash functions of the Go standard library that the audit chain,
    the policy store and the upstream CA store rely on, written out on
    byte strings: [crypto/sha256], [crypto/hmac] over it, and the
    [encoding/hex] text form the database columns hold. *)
From S2P Require Import Prelude.

Definition mask32 : N := 4294967295.

Definition add32 (x y : N) : N := N.land (x + y) mask32.

Definition rotr32 (n x : N) : N :=
  N.lor (N.shiftr x n) (N.land (N.shiftl x (32 - n)) mask32).

Definition Ch (x y z : N) : N := N.lxor (N.land x y) (N.land (N.lxor x mask32) z).
Definition Maj (x y z : N) : N := N.lxor (N.lxor (N.land x y) (N.land x z)) (N.land y z).
Definition Sigma0 (x : N) : N := N.lxor (N.lxor (rotr32 2 x) (rotr32 13 x)) (rotr32 22 x).
Definition Sigma1 (x : N) : N := N.lxor (N.lxor (rotr32 6 x) (rotr32 11 x)) (rotr32 25 x).
Definition sigma0 (x : N) : N := N.lxor (N.lxor (rotr32 7 x) (rotr32 18 x)) (N.shiftr x 3).
Definition sigma1 (x : N) : N := N.lxor (N.lxor (rotr32 17 x) (rotr32 19 x)) (N.shiftr x 10).

(** The constants of the standard: the first 32 bits of the fractional
    parts of the cube roots of the first 64 primes, and of the square roots
    of the first 8. [int_root k b n acc] adds to [acc] the bits below [b]
    that keep its [k]-th power within [n]. *)
Fixpoint int_root (k : N) (b : nat) (n acc : N) : N :=
  match b with
  | 0 => acc
  | S b' =>
      let acc' := (acc + 2 ^ N.of_nat b')%N in
      int_root k b' n (if decide (acc' ^ k <= n)%N then acc' else acc)
  end.

Definition root_fraction (k p : N) : N := N.land (int_root k 37 (N.shiftl p (32 * k)) 0) mask32.

Definition small_primes : list N :=
  filter (λ n, Forall (λ d, n mod d ≠ 0)%N (N.of_nat <$> seq 2 (N.to_nat n - 2)))
    (N.of_nat <$> seq 2 310).

Definition sha256_k : list N := Eval vm_compute in root_fraction 3 <$> small_primes.

Definition sha256_h0 : list N := Eval vm_compute in root_fraction 2 <$> take 8 small_primes.

(** The message schedule, newest word first. *)
Fixpoint schedule (n : nat) (w : list N) : list N :=
  match n with
  | 0 => w
  | S n' =>
      let t := add32 (add32 (sigma1 (nth 1 w 0%N)) (nth 6 w 0%N))
                     (add32 (sigma0 (nth 14 w 0%N)) (nth 15 w 0%N)) in
      schedule n' (t :: w)
  end.

Definition sha256_round (st : list N) (kw : N * N) : list N :=
  match st with
  | [a; b; c; d; e; f; g; h] =>
      let t1 := add32 (add32 (add32 h (Sigma1 e)) (add32 (Ch e f g) kw.1)) kw.2 in
      let t2 := add32 (Sigma0 a) (Maj a b c) in
      [add32 t1 t2; a; b; c; add32 d t1; e; f; g]
  | _ => st
  end.

Fixpoint be_words (bs : list N) : list N :=
  match bs with
  | b0 :: b1 :: b2 :: b3 :: r =>
      (N.shiftl b0 24 + N.shiftl b1 16 + N.shiftl b2 8 + b3)%N :: be_words r
  | _ => []
  end.

Definition sha256_block (st : list N) (block : list N) : list N :=
  let w := reverse (schedule 48 (reverse (be_words block))) in
  zip_with add32 st (foldl sha256_round st (zip sha256_k w)).

Fixpoint sha256_blocks (n : nat) (st : list N) (bs : list N) : list N :=
  match n with
  | 0 => st
  | S n' => sha256_blocks n' (sha256_block st (take 64 bs)) (drop 64 bs)
  end.

Definition be_bytes (k : nat) (x : N) : list N :=
  reverse ((λ i, N.land (N.shiftr x (8 * N.of_nat i)) 255) <$> seq 0 k).

Definition bytes_of (s : string) : list N := N_of_ascii <$> String.list_ascii_of_string s.
Definition string_of_bytes (bs : list N) : string :=
  String.string_of_list_ascii (ascii_of_N <$> bs).

Definition sha256_pad (bs : list N) : list N :=
  let n := length bs in
  let z := (119 - n mod 64) mod 64 in
  bs ++ [128%N] ++ replicate z 0%N ++ be_bytes 8 (8 * N.of_nat n).

(** [sha256.Sum256]. *)
Definition sha256 (msg : string) : string :=
  let bs := sha256_pad (bytes_of msg) in
  string_of_bytes
    (mjoin (be_bytes 4 <$> sha256_blocks (length bs / 64) sha256_h0 bs)).

(** [hmac.New(sha256.New, key)] fed with [msg] and summed. *)
Definition hmac_sha256 (key msg : string) : string :=
  let k := if decide (64 < String.length key) then sha256 key else key in
  let kb := bytes_of k ++ replicate (64 - String.length k) 0%N in
  sha256 (string_of_bytes (N.lxor 92 <$> kb) +:+
          sha256 (string_of_bytes (N.lxor 54 <$> kb) +:+ msg)).

(** ** Hexadecimal text *)

Definition hex_digit (n : N) : ascii :=
  ascii_of_N (if decide (n < 10)%N then 48 + n else 87 + n).

(** [hex.EncodeToString]: two lower-case digits per byte. *)
Fixpoint hex_encode (s : string) : string :=
  match s with
  | "" => ""
  | String a s' =>
      String (hex_digit (N_of_ascii a / 16))
        (String (hex_digit (N_of_ascii a mod 16)) (hex_encode s'))
  end.

Definition hex_value (a : ascii) : option N :=
  let n := N_of_ascii a in
  if decide (48 <= n <= 57)%N then Some (n - 48)%N
  else if decide (97 <= n <= 102)%N then Some (n - 87)%N
  else if decide (65 <= n <= 70)%N then Some (n - 55)%N
  else None.

(** [hex.DecodeString]: fails on an odd length or a byte that is no
    hexadecimal digit; both letter cases are digits. *)
Fixpoint hex_decode (s : string) : option string :=
  match s with
  | "" => Some ""
  | String a (String b s') =>
      match hex_value a, hex_value b, hex_decode s' with
      | Some x, Some y, Some r => Some (String (ascii_of_N (16 * x + y)) r)
      | _, _, _ => None
      end
  | String _ "" => None
  end.

Definition sha256_hex (msg : string) : string := hex_encode (sha256 msg).

(** A digest has 32 bytes. *)
Lemma sha256_round_length st kw : length st = 8 → length (sha256_round st kw) = 8.
Proof. intros H. destruct st as [|? [|? [|? [|? [|? [|? [|? [|? [|]]]]]]]]]; done. Qed.

Lemma sha256_rounds_length kws st : length st = 8 → length (foldl sha256_round st kws) = 8.
Proof. revert st. induction kws as [|kw kws IH]; intros st H; simpl; [done|]. auto using sha256_round_length. Qed.

Lemma sha256_blocks_length n st bs : length st = 8 → length (sha256_blocks n st bs) = 8.
Proof.
  revert st bs. induction n as [|n IH]; intros st bs H; simpl; [done|]. apply IH.
  unfold sha256_block. rewrite length_zip_with, sha256_rounds_length by done. lia.
Qed.

Lemma be_bytes_join_length l : length (mjoin (be_bytes 4 <$> l)) = 4 * length l.
Proof.
  induction l as [|x l IH]; [done|]. rewrite fmap_cons.
  change (mjoin (be_bytes 4 x :: ?r)) with (be_bytes 4 x ++ mjoin r). rewrite length_app, IH.
  unfold be_bytes. rewrite length_reverse, length_fmap, length_seq. simpl. lia.
Qed.

Lemma string_of_bytes_length bs : String.length (string_of_bytes bs) = length bs.
Proof. unfold string_of_bytes. induction bs as [|b bs IH]; csimpl; [done|]. by rewrite <-IH. Qed.

Lemma sha256_length msg : String.length (sha256 msg) = 32.
Proof.
  unfold sha256. by rewrite string_of_bytes_length, be_bytes_join_length, sha256_blocks_length.
Qed.

Global Opaque sha256 hmac_sha256.

(** ** Lemmas *)

Lemma sha256_abc :
  sha256_hex "abc" = "ba7816bf8f01cfea414140de5dae2223b00361a396177a9cb410ff61f20015ad".
Proof. vm_compute. reflexivity. Qed.

Lemma sha256_empty :
  sha256_hex "" = "e3b0c44298fc1c149afbf4c8996fb92427ae41e4649b934ca495991b7852b855".
Proof. vm_compute. reflexivity. Qed.

(** RFC 4231, test case 2. *)
Lemma hmac_sha256_jefe :
  hex_encode (hmac_sha256 "Jefe" "what do ya want for nothing?")
  = "5bdcc146bf60754e6a042426089575c75a003f089d2739839dec58b964ec3843".
Proof. vm_compute. reflexivity. Qed.

(** Digits of the lower-case hexadecimal text form. *)
Definition is_hex_lower (a : ascii) : bool :=
  let n := N_of_ascii a in
  bool_decide (48 <= n <= 57)%N || bool_decide (97 <= n <= 102)%N.

Lemma hex_digits_spec a :
  hex_value (hex_digit (N_of_ascii a / 16)) = Some (N_of_ascii a / 16)%N ∧
  hex_value (hex_digit (N_of_ascii a mod 16)) = Some (N_of_ascii a mod 16)%N ∧
  is_hex_lower (hex_digit (N_of_ascii a / 16)) = true ∧
  is_hex_lower (hex_digit (N_of_ascii a mod 16)) = true.
Proof. destruct a as [[][][][][][][][]]; vm_compute; auto. Qed.

Lemma hex_decode_encode s : hex_decode (hex_encode s) = Some s.
Proof.
  induction s as [|a s IH]; [done|]; cbn [hex_encode hex_decode].
  destruct (hex_digits_spec a) as (-> & -> & _). rewrite IH.
  rewrite <-N.div_mod by done. by rewrite ascii_N_embedding.
Qed.

#[global] Instance hex_encode_inj : Inj (=) (=) hex_encode.
Proof.
  intros s1 s2 H. apply (f_equal hex_decode) in H.
  rewrite !hex_decode_encode in H. by simplify_eq.
Qed.

Lemma hex_encode_lower s : string_forallb is_hex_lower (hex_encode s) = true.
Proof.
  induction s as [|a s IH]; [done|]; cbn [hex_encode string_forallb].
  destruct (hex_digits_spec a) as (_ & _ & -> & ->). done.
Qed.

(** Every byte of a string that decodes is a digit. *)
Lemma hex_decode_digits s b :
  hex_decode s = Some b → string_forallb (λ a, bool_decide (is_Some (hex_value a))) s = true.
Proof.
  revert b. enough (∀ n s b, String.length s ≤ n → hex_decode s = Some b →
    string_forallb (λ a, bool_decide (is_Some (hex_value a))) s = true) by eauto.
  clear s. induction n as [|n IH]; intros [|a1 [|a2 s]] b Hn H; simpl in *; try done; try lia.
  destruct (hex_value a1), (hex_value a2), (hex_decode s) eqn:E; try done.
  rewrite (IH s s0) by (done || lia). by rewrite !bool_decide_eq_true_2 by eauto.
Qed.

Lemma hex_encode_length s : String.length (hex_encode s) = 2 * String.length s.
Proof. induction s as [|a s IH]; [done|]; simpl. rewrite IH. lia. Qed.

#[export] Hint Resolve hex_encode_lower : omega.
