(* ===== verification/Json.v ===== *)
(** * Json

    The part of Go's [encoding/json] the program's stored text goes
    through: [json.Marshal] of maps, structs and strings, and
    [json.Unmarshal] of an object into a generic value. Text is a byte
    string; a number is kept as its literal. *)
From S2P Require Import Prelude.

Inductive json :=
| JNull
| JBool (b : bool)
| JNum (lit : string)
| JStr (s : string)
| JArr (l : list json)
| JObj (l : list (string * json)).

(** ** UTF-8 *)

Definition byte_in (lo hi : nat) (a : ascii) : bool :=
  bool_decide (lo ≤ nat_of_ascii a ≤ hi).

Definition is_cont : ascii → bool := byte_in 128 191.

(** The encodings [utf8.DecodeRune] accepts of two, three and four bytes. *)
Definition is_rune2 (a b : ascii) : bool := byte_in 194 223 a && is_cont b.

Definition is_rune3 (a b c : ascii) : bool :=
  is_cont c &&
  ((byte_in 224 224 a && byte_in 160 191 b) ||
   ((byte_in 225 236 a || byte_in 238 239 a) && is_cont b) ||
   (byte_in 237 237 a && byte_in 128 159 b)).

Definition is_rune4 (a b c d : ascii) : bool :=
  is_cont c && is_cont d &&
  ((byte_in 240 240 a && byte_in 144 191 b) ||
   (byte_in 241 243 a && is_cont b) ||
   (byte_in 244 244 a && byte_in 128 143 b)).

Definition replacement : string := bytes_string [239; 191; 189].

(** What a string becomes when it is encoded and decoded again: each byte
    that is not part of a valid encoding is replaced by U+FFFD. *)
Fixpoint to_valid_utf8 (s : string) : string :=
  match s with
  | "" => ""
  | String a s1 =>
      if byte_in 0 127 a then String a (to_valid_utf8 s1) else
      match s1 with
      | String b s2 =>
          if is_rune2 a b then String a (String b (to_valid_utf8 s2)) else
          match s2 with
          | String c s3 =>
              if is_rune3 a b c then String a (String b (String c (to_valid_utf8 s3))) else
              match s3 with
              | String d s4 =>
                  if is_rune4 a b c d then String a (String b (String c (String d (to_valid_utf8 s4))))
                  else replacement +:+ to_valid_utf8 s1
              | "" => replacement +:+ to_valid_utf8 s1
              end
          | "" => replacement +:+ to_valid_utf8 s1
          end
      | "" => replacement
      end
  end.

(** ** Encoding *)

Definition backslash : ascii := "092"%char.

Definition hex_nibble (n : nat) : ascii :=
  ascii_of_nat (if decide (n < 10) then 48 + n else 87 + n).

(** The escape of one ASCII byte, HTML characters included. *)
Definition escape_ascii (a : ascii) : string :=
  let n := nat_of_ascii a in
  if decide (n = 92 ∨ n = 34) then String backslash (String a "")
  else if decide (n = 8) then String backslash "b"
  else if decide (n = 12) then String backslash "f"
  else if decide (n = 10) then String backslash "n"
  else if decide (n = 13) then String backslash "r"
  else if decide (n = 9) then String backslash "t"
  else if decide (n < 32 ∨ n = 60 ∨ n = 62 ∨ n = 38)
       then String backslash ("u00" +:+ String (hex_nibble (n / 16)) (String (hex_nibble (n mod 16)) ""))
  else String a "".

(** U+2028 and U+2029 are escaped; every other rune is copied. *)
Definition escape_rune3 (a b c : ascii) : string :=
  if decide (nat_of_ascii a = 226 ∧ nat_of_ascii b = 128 ∧ nat_of_ascii c = 168)
  then String backslash "u2028"
  else if decide (nat_of_ascii a = 226 ∧ nat_of_ascii b = 128 ∧ nat_of_ascii c = 169)
       then String backslash "u2029"
  else String a (String b (String c "")).

Definition escape_invalid : string := String backslash "ufffd".

Fixpoint json_escape (s : string) : string :=
  match s with
  | "" => ""
  | String a s1 =>
      if byte_in 0 127 a then escape_ascii a +:+ json_escape s1 else
      match s1 with
      | String b s2 =>
          if is_rune2 a b then String a (String b (json_escape s2)) else
          match s2 with
          | String c s3 =>
              if is_rune3 a b c then escape_rune3 a b c +:+ json_escape s3 else
              match s3 with
              | String d s4 =>
                  if is_rune4 a b c d then String a (String b (String c (String d (json_escape s4))))
                  else escape_invalid +:+ json_escape s1
              | "" => escape_invalid +:+ json_escape s1
              end
          | "" => escape_invalid +:+ json_escape s1
          end
      | "" => escape_invalid
      end
  end.

Definition json_string (s : string) : string :=
  String quote (json_escape s +:+ String quote "").

Fixpoint json_print (v : json) : string :=
  match v with
  | JNull => "null"
  | JBool true => "true"
  | JBool false => "false"
  | JNum lit => lit
  | JStr s => json_string s
  | JArr l => "[" +:+ join_byte "," (map json_print l) +:+ "]"
  | JObj l =>
      "{" +:+ join_byte "," (map (λ kv, json_string kv.1 +:+ ":" +:+ json_print kv.2) l) +:+ "}"
  end.

Definition JInt (z : Z) : json := JNum (pretty z).

(** A [map[string]any]: [json.Marshal] writes its keys in sorted order. *)
Definition JMap (m : gmap string json) : json :=
  JObj (merge_sort (λ a b, String.le a.1 b.1) (map_to_list m)).

(** A field that [omitempty] leaves out when its value is empty. *)
Definition omit_empty {A} (is_empty : bool) (kv : A) : list A := if is_empty then [] else [kv].

Lemma json_print_example :
  json_print (JMap (<["b" := JStr "<x>"]> (<["a" := JInt (-7)]> ∅)))
  = "{" +:+ json_string "a" +:+ ":-7," +:+ json_string "b" +:+ ":" +:+ json_string "<x>" +:+ "}".
Proof. vm_compute. reflexivity. Qed.
