(* ===== verification/JsonParse.v ===== *)
(** * JsonParse

    Decoding JSON text as [encoding/json] does: the scanner's grammar with
    its nesting limit, the unquoting of strings, and the assignment of an
    object's fields to a struct's. Parsing what [json_print] wrote gives
    the value back. *)
From Stdlib Require Import FunInd.
From S2P Require Import Prelude Json.

(** ** Strings *)

Definition hex_digit_value (a : ascii) : option nat :=
  let n := nat_of_ascii a in
  if decide (48 ≤ n ≤ 57) then Some (n - 48)
  else if decide (97 ≤ n ≤ 102) then Some (n - 87)
  else if decide (65 ≤ n ≤ 70) then Some (n - 55)
  else None.

(** Four hexadecimal digits. *)
Definition hex4 (a b c d : ascii) : option N :=
  match hex_digit_value a, hex_digit_value b, hex_digit_value c, hex_digit_value d with
  | Some w, Some x, Some y, Some z =>
      Some (N.of_nat w * 4096 + N.of_nat x * 256 + N.of_nat y * 16 + N.of_nat z)%N
  | _, _, _, _ => None
  end.

(** [utf8.AppendRune] for a rune that is no surrogate. *)
Definition encode_rune (r : N) : string :=
  let b (n : N) := ascii_of_N n in
  if decide (r < 128)%N then String (b r) ""
  else if decide (r < 2048)%N then String (b (192 + r / 64)%N) (String (b (128 + r mod 64)%N) "")
  else if decide (r < 65536)%N then
    String (b (224 + r / 4096)%N) (String (b (128 + (r / 64) mod 64)%N) (String (b (128 + r mod 64)%N) ""))
  else
    String (b (240 + r / 262144)%N) (String (b (128 + (r / 4096) mod 64)%N)
      (String (b (128 + (r / 64) mod 64)%N) (String (b (128 + r mod 64)%N) ""))).

Definition is_high (r : N) : bool := bool_decide (55296 <= r < 56320)%N.
Definition is_low (r : N) : bool := bool_decide (56320 <= r < 57344)%N.

(** The rune of [\u] followed by these digits, and what is left: a pair of
    surrogates is one rune, a lone one is U+FFFD. *)
Definition unescape_u (r : N) (rest : string) : string * string :=
  if is_high r || is_low r then
    match rest with
    | String e (String u (String a (String b (String c (String d rest'))))) =>
        match hex4 a b c d with
        | Some r2 =>
            if bool_decide (e = backslash) && bool_decide (u = "u"%char) && is_high r && is_low r2
            then (encode_rune (65536 + (r - 55296) * 1024 + (r2 - 56320)), rest')
            else (replacement, rest)
        | None => (replacement, rest)
        end
    | _ => (replacement, rest)
    end
  else (encode_rune r, rest).

Definition simple_escape (a : ascii) : option ascii :=
  let n := nat_of_ascii a in
  if decide (n = 34 ∨ n = 92 ∨ n = 47) then Some a
  else if decide (n = 98) then Some "008"%char
  else if decide (n = 102) then Some "012"%char
  else if decide (n = 110) then Some "010"%char
  else if decide (n = 114) then Some "013"%char
  else if decide (n = 116) then Some "009"%char
  else None.

(** The characters up to the closing quote, decoded, and what follows it. *)
Fixpoint parse_chars (fuel : nat) (s : string) : option (string * string) :=
  match fuel with
  | 0 => None
  | S n =>
      match s with
      | "" => None
      | String a s1 =>
          if decide (a = quote) then Some ("", s1)
          else if decide (nat_of_ascii a < 32) then None
          else if decide (a = backslash) then
            match s1 with
            | "" => None
            | String e s2 =>
                match simple_escape e with
                | Some c => prod_map (String c) id <$> parse_chars n s2
                | None =>
                    if decide (e = "u"%char) then
                      match s2 with
                      | String h1 (String h2 (String h3 (String h4 s3))) =>
                          r ← hex4 h1 h2 h3 h4;
                          let '(u, rest) := unescape_u r s3 in
                          prod_map (λ t, u +:+ t) id <$> parse_chars n rest
                      | _ => None
                      end
                    else None
                end
            end
          else prod_map (String a) id <$> parse_chars n s1
      end
  end.

(** A string literal after its opening quote. Bytes that are no valid
    UTF-8 become U+FFFD. *)
Definition parse_string (s : string) : option (string * string) :=
  prod_map to_valid_utf8 id <$> parse_chars (S (String.length s)) s.

(** ** Numbers *)

Definition is_digit : ascii → bool := byte_in 48 57.

Fixpoint span (p : ascii → bool) (s : string) : string * string :=
  match s with
  | String a s' => if p a then let '(x, y) := span p s' in (String a x, y) else ("", s)
  | "" => ("", "")
  end.

(** One or more digits. *)
Definition digits1 (s : string) : option (string * string) :=
  let '(x, y) := span is_digit s in if decide (x = "") then None else Some (x, y).

(** An optional part introduced by one byte. *)
Definition frac_part (s : string) : option (string * string) :=
  match s with
  | String a s' => if decide (a = "."%char) then prod_map (String a) id <$> digits1 s' else Some ("", s)
  | "" => Some ("", "")
  end.

Definition exp_part (s : string) : option (string * string) :=
  match s with
  | String e s' =>
      if decide (e = "e"%char ∨ e = "E"%char) then
        match s' with
        | String g s'' =>
            if decide (g = "+"%char ∨ g = "-"%char)
            then prod_map (λ t, String e (String g t)) id <$> digits1 s''
            else prod_map (String e) id <$> digits1 s'
        | "" => None
        end
      else Some ("", s)
  | "" => Some ("", "")
  end.

(** A zero, or digits that do not start with one. *)
Definition int_part (s : string) : option (string * string) :=
  match s with
  | String a s' => if decide (a = "0"%char) then Some ("0", s') else digits1 s
  | "" => None
  end.

Definition sign_part (s : string) : string * string :=
  match s with
  | String a s' => if decide (a = "-"%char) then ("-", s') else ("", s)
  | "" => ("", "")
  end.

Definition parse_number (s : string) : option (string * string) :=
  let '(sign, s1) := sign_part s in
  '(i, s2) ← int_part s1;
  '(f, s3) ← frac_part s2;
  '(e, s4) ← exp_part s3;
  Some (sign +:+ i +:+ f +:+ e, s4).

(** ** Values *)

Definition is_space (a : ascii) : bool :=
  bool_decide (a = " "%char ∨ a = "009"%char ∨ a = "010"%char ∨ a = "013"%char).

Fixpoint skip_space (s : string) : string :=
  match s with
  | String a s' => if is_space a then skip_space s' else s
  | "" => ""
  end.

(** The text after the next byte that is no space, when it is [c]. *)
Definition after_byte (c : ascii) (s : string) : option string :=
  match skip_space s with
  | String a s' => if decide (a = c) then Some s' else None
  | "" => None
  end.

Definition maxNestingDepth : N := 10000.

Fixpoint parse_value (fuel : nat) (depth : N) (s : string) : option (json * string) :=
  match fuel with
  | 0 => None
  | S n =>
      match skip_space s with
      | String a s1 =>
          if decide (a = quote) then prod_map JStr id <$> parse_string s1
          else if decide (a = "["%char) then
            if decide (maxNestingDepth < depth + 1)%N then None
            else match after_byte "]" s1 with
                 | Some s2 => Some (JArr [], s2)
                 | None => prod_map JArr id <$> parse_elems n (depth + 1)%N s1
                 end
          else if decide (a = "{"%char) then
            if decide (maxNestingDepth < depth + 1)%N then None
            else match after_byte "}" s1 with
                 | Some s2 => Some (JObj [], s2)
                 | None => prod_map JObj id <$> parse_fields n (depth + 1)%N s1
                 end
          else if decide (a = "-"%char ∨ is_digit a = true) then
            prod_map JNum id <$> parse_number (String a s1)
          else match cut_prefix "null" (String a s1) with
               | Some r => Some (JNull, r)
               | None =>
                   match cut_prefix "true" (String a s1) with
                   | Some r => Some (JBool true, r)
                   | None => (λ r, (JBool false, r)) <$> cut_prefix "false" (String a s1)
                   end
               end
      | "" => None
      end
  end
with parse_elems (fuel : nat) (depth : N) (s : string) : option (list json * string) :=
  match fuel with
  | 0 => None
  | S n =>
      '(v, s1) ← parse_value n depth s;
      match after_byte "," s1 with
      | Some s2 => prod_map (cons v) id <$> parse_elems n depth s2
      | None => pair [v] <$> after_byte "]" s1
      end
  end
with parse_fields (fuel : nat) (depth : N) (s : string) : option (list (string * json) * string) :=
  match fuel with
  | 0 => None
  | S n =>
      s1 ← after_byte quote s;
      '(k, s2) ← parse_string s1;
      s3 ← after_byte ":" s2;
      '(v, s4) ← parse_value n depth s3;
      match after_byte "," s4 with
      | Some s5 => prod_map (cons (k, v)) id <$> parse_fields n depth s5
      | None => pair [(k, v)] <$> after_byte "}" s4
      end
  end.

(** The whole text is one value. Each byte accounts for at most two calls,
    so the fuel does not run out. *)
Definition json_parse (s : string) : option json :=
  match parse_value (S (2 * String.length s)) 0 s with
  | Some (v, rest) => if decide (skip_space rest = "") then Some v else None
  | None => None
  end.

(** ** Printing and parsing strings *)

Functional Scheme json_escape_scheme := Induction for json_escape Sort Prop.
Functional Scheme to_valid_utf8_scheme := Induction for to_valid_utf8 Sort Prop.

Lemma to_valid_utf8_replacement t : to_valid_utf8 (replacement +:+ t) = replacement +:+ to_valid_utf8 t.
Proof. reflexivity. Qed.

(** Evaluates the case distinctions of a case of the schemes. *)
Ltac rune_cases :=
  repeat match goal with
  | H : byte_in 0 127 ?a = _ |- context [byte_in 0 127 ?a] => rewrite H
  | H : is_rune2 ?a ?b = _ |- context [is_rune2 ?a ?b] => rewrite H
  | H : is_rune3 ?a ?b ?c = _ |- context [is_rune3 ?a ?b ?c] => rewrite H
  | H : is_rune4 ?a ?b ?c ?d = _ |- context [is_rune4 ?a ?b ?c ?d] => rewrite H
  end.

Lemma to_valid_utf8_idemp s : to_valid_utf8 (to_valid_utf8 s) = to_valid_utf8 s.
Proof.
  functional induction (to_valid_utf8 s) using to_valid_utf8_scheme; try done;
    first [ rewrite to_valid_utf8_replacement | cbn [to_valid_utf8]; rune_cases ];
    match goal with H : to_valid_utf8 (to_valid_utf8 _) = _ |- _ => by rewrite H end.
Qed.

Lemma parse_escape_ascii a n t :
  byte_in 0 127 a = true →
  parse_chars (S n) (escape_ascii a +:+ t) = prod_map (String a) id <$> parse_chars n t.
Proof. destruct a as [[][][][][][][][]]; intros H; try (by vm_compute in H); reflexivity. Qed.

Lemma parse_escape_invalid n t :
  parse_chars (S n) (escape_invalid +:+ t) = prod_map (λ x, replacement +:+ x) id <$> parse_chars n t.
Proof. reflexivity. Qed.

(** A byte of a longer encoding is copied. *)
Lemma parse_high_byte a n t :
  byte_in 0 127 a = false → parse_chars (S n) (String a t) = prod_map (String a) id <$> parse_chars n t.
Proof.
  intros Ha. cbn [parse_chars]. apply bool_decide_eq_false in Ha.
  rewrite decide_False by (intros ->; apply Ha; vm_compute; lia).
  rewrite decide_False by (pose proof (nat_ascii_bounded a); lia).
  rewrite decide_False by (intros ->; apply Ha; vm_compute; lia). done.
Qed.

Lemma fmap_prod_map_Some {A B} (f : A → B) (r : option (A * string)) x y :
  r = Some (x, y) → prod_map f id <$> r = Some (f x, y).
Proof. by intros ->. Qed.

Lemma byte_in_high lo hi a : 127 < lo → byte_in lo hi a = true → byte_in 0 127 a = false.
Proof. unfold byte_in. rewrite bool_decide_eq_true, bool_decide_eq_false. lia. Qed.

(** The bytes of a longer encoding after its first. *)
Lemma rune_bytes :
  (∀ a b, is_rune2 a b = true → byte_in 0 127 b = false) ∧
  (∀ a b c, is_rune3 a b c = true → byte_in 0 127 b = false ∧ byte_in 0 127 c = false) ∧
  (∀ a b c d, is_rune4 a b c d = true → byte_in 0 127 b = false ∧ byte_in 0 127 c = false ∧ byte_in 0 127 d = false).
Proof.
  unfold is_rune2, is_rune3, is_rune4, is_cont. split_and!; intros *;
    repeat rewrite ?andb_true_iff, ?orb_true_iff; intros H; destruct_and?; destruct_or?; destruct_and?;
    split_and?; (eapply byte_in_high; [|eassumption]; lia).
Qed.

Lemma parse_line_separators n t :
  parse_chars (S n) (String backslash "u2028" +:+ t) =
    prod_map (λ x, bytes_string [226; 128; 168] +:+ x) id <$> parse_chars n t ∧
  parse_chars (S n) (String backslash "u2029" +:+ t) =
    prod_map (λ x, bytes_string [226; 128; 169] +:+ x) id <$> parse_chars n t.
Proof. split; reflexivity. Qed.

Lemma parse_escape_rune3 a b c n t x y :
  byte_in 0 127 a = false → is_rune3 a b c = true → parse_chars n t = Some (x, y) →
  ∃ k, k ≤ String.length (escape_rune3 a b c) ∧
  parse_chars (k + n) (escape_rune3 a b c +:+ t) = Some (String a (String b (String c x)), y).
Proof.
  intros Ha Hr Ht. destruct (proj1 (proj2 rune_bytes) a b c Hr) as [Hb Hc]. unfold escape_rune3.
  case_decide as H1; [|case_decide as H2].
  - exists 1. split; [simpl; lia|]. rewrite <-(ascii_nat_embedding a), <-(ascii_nat_embedding b), <-(ascii_nat_embedding c).
    destruct H1 as (-> & -> & ->). change (1 + n) with (S n). by rewrite (proj1 (parse_line_separators n t)), Ht.
  - exists 1. split; [simpl; lia|]. rewrite <-(ascii_nat_embedding a), <-(ascii_nat_embedding b), <-(ascii_nat_embedding c).
    destruct H2 as (-> & -> & ->). change (1 + n) with (S n). by rewrite (proj2 (parse_line_separators n t)), Ht.
  - exists 3. split; [simpl; lia|]. rewrite !string_app_cons. change (3 + n) with (S (S (S n))).
    rewrite !parse_high_byte by done. change ("" +:+ t) with t. by rewrite Ht.
Qed.

(** More fuel does not change a result. *)
Lemma parse_chars_mono n m s r : parse_chars n s = Some r → n ≤ m → parse_chars m s = Some r.
Proof.
  revert m s r. induction n as [|n IH]; intros m s r H Hm; [done|].
  destruct m as [|m]; [lia|]. assert (n ≤ m) as Hnm by lia. cbn [parse_chars] in *.
  destruct s as [|a s]; [done|]. case_decide; [done|]. case_decide; [done|]. case_decide.
  - destruct s as [|e s2]; [done|]. destruct (simple_escape e).
    + apply fmap_Some in H as (p & Hp & ->). by rewrite (IH m _ _ Hp Hnm).
    + case_decide; [|done]. destruct s2 as [|h1 [|h2 [|h3 [|h4 s3]]]]; try done.
      destruct (hex4 h1 h2 h3 h4) as [u|]; [|done]. simpl in *. destruct (unescape_u u s3) as [v rest].
      apply fmap_Some in H as (p & Hp & ->). by rewrite (IH m _ _ Hp Hnm).
  - apply fmap_Some in H as (p & Hp & ->). by rewrite (IH m _ _ Hp Hnm).
Qed.

(** Parsing an escaped string gives the string, with its invalid bytes
    replaced. *)
Lemma parse_json_escape s rest :
  ∃ k, k ≤ String.length (json_escape s) ∧
  parse_chars (S k) (json_escape s +:+ String quote rest) = Some (to_valid_utf8 s, rest).
Proof.
  destruct rune_bytes as (R2 & R3 & R4).
  functional induction (json_escape s) using json_escape_scheme.
  all: try match goal with H : ∃ k, _ |- _ => destruct H as (k & Hk & Hp) end.
  all: try (exists (S k); split; [rewrite string_length_app; change (String.length escape_invalid) with 6; lia|];
            rewrite string_app_assoc, parse_escape_invalid, Hp;
            cbn [to_valid_utf8]; rune_cases; done).
  - by exists 0.
  - exists (S k). rewrite string_app_assoc, parse_escape_ascii, Hp by done. split.
    + rewrite string_length_app. unfold escape_ascii. repeat case_decide; cbn; lia.
    + cbn [to_valid_utf8]. rune_cases. done.
  - exists 1. split; [cbn; lia|]. rewrite parse_escape_invalid. cbn [to_valid_utf8]. rune_cases. done.
  - exists (S (S k)). split; [cbn; lia|]. rewrite !string_app_cons, !parse_high_byte, Hp by eauto.
    cbn [to_valid_utf8]. rune_cases. done.
  - destruct (parse_escape_rune3 a b c (S k) (json_escape s3 +:+ String quote rest) _ _ ltac:(done) ltac:(done) Hp) as (k' & Hk' & Hp').
    exists (k' + k). split; [rewrite string_length_app; lia|]. rewrite string_app_assoc, <-Nat.add_succ_r, Hp'.
    cbn [to_valid_utf8]. rune_cases. done.
  - destruct (R4 a b c d) as (Hb & Hc & Hd); [done|].
    exists (S (S (S (S k)))). split; [cbn; lia|]. rewrite !string_app_cons, !parse_high_byte, Hp by eauto.
    cbn [to_valid_utf8]. rune_cases. done.
Qed.

Lemma parse_json_string s rest :
  parse_string (json_escape s +:+ String quote rest) = Some (to_valid_utf8 s, rest).
Proof.
  unfold parse_string. destruct (parse_json_escape s rest) as (k & Hk & Hp).
  erewrite parse_chars_mono; [..|exact Hp|].
  - simpl. by rewrite to_valid_utf8_idemp.
  - rewrite string_length_app. simpl. lia.
Qed.

(** ** Numbers that stand by themselves *)

(** The text after a value in a larger one. *)
Definition ends_value (rest : string) : Prop :=
  match rest with
  | "" => True
  | String a _ => a = ","%char ∨ a = "]"%char ∨ a = "}"%char
  end.

(** A literal the number grammar takes whole. *)
Definition num_ok (lit : string) : Prop := parse_number lit = Some (lit, "").

Lemma span_app p s x y rest :
  span p s = (x, y) → (y = "" → match rest with String a _ => p a = false | "" => True end) →
  span p (s +:+ rest) = (x, y +:+ rest).
Proof.
  revert x y. induction s as [|a s IH]; intros x y H Hr.
  - simplify_eq/=. change ("" +:+ rest) with rest. destruct rest as [|b rest]; [done|]. simpl.
    by rewrite (Hr eq_refl).
  - rewrite string_app_cons. cbn [span] in *. destruct (p a) eqn:Hp; [|by simplify_eq].
    destruct (span p s) as [x' y'] eqn:E. injection H as <- <-. by rewrite (IH x' y').
Qed.

Lemma ends_no_digit rest : ends_value rest → match rest with String a _ => is_digit a = false | "" => True end.
Proof. destruct rest; [done|]. by intros [->|[->| ->]]. Qed.

Lemma digits1_app s x y rest :
  digits1 s = Some (x, y) → ends_value rest → digits1 (s +:+ rest) = Some (x, y +:+ rest).
Proof.
  unfold digits1. destruct (span is_digit s) as [x' y'] eqn:E. intros H Hr.
  rewrite (span_app _ _ _ _ rest E); [|intros _; by apply ends_no_digit]. case_decide; by simplify_eq.
Qed.

Lemma int_part_app s x y rest :
  int_part s = Some (x, y) → ends_value rest → int_part (s +:+ rest) = Some (x, y +:+ rest).
Proof.
  destruct s as [|a s]; [done|]. rewrite string_app_cons. cbn [int_part]. case_decide; [by intros [= <- <-]|].
  rewrite <-string_app_cons. apply digits1_app.
Qed.

Lemma frac_part_app s x y rest :
  frac_part s = Some (x, y) → ends_value rest → frac_part (s +:+ rest) = Some (x, y +:+ rest).
Proof.
  intros H Hr. destruct s as [|a s].
  - injection H as <- <-. change ("" +:+ rest) with rest. destruct rest as [|b rest]; [done|].
    unfold frac_part. rewrite decide_False; [done|]. destruct Hr as [->|[->| ->]]; naive_solver.
  - rewrite string_app_cons. unfold frac_part in *. case_decide; [|by simplify_eq].
    apply fmap_Some in H as ([x' y'] & Hd & [= -> ->]). by rewrite (digits1_app _ _ _ rest Hd).
Qed.

Lemma exp_part_app s x y rest :
  exp_part s = Some (x, y) → ends_value rest → exp_part (s +:+ rest) = Some (x, y +:+ rest).
Proof.
  intros H Hr. destruct s as [|a s].
  - injection H as <- <-. change ("" +:+ rest) with rest. destruct rest as [|b rest]; [done|].
    unfold exp_part. rewrite decide_False; [done|]. destruct Hr as [->|[->| ->]]; naive_solver.
  - rewrite string_app_cons. unfold exp_part in *. case_decide; [|by simplify_eq].
    destruct s as [|g s]; [done|]. rewrite string_app_cons.
    case_decide; apply fmap_Some in H as ([x' y'] & Hd & [= -> ->]).
    + by rewrite (digits1_app _ _ _ rest Hd).
    + rewrite <-string_app_cons. by rewrite (digits1_app _ _ _ rest Hd).
Qed.

Lemma parse_number_app lit rest :
  num_ok lit → ends_value rest → parse_number (lit +:+ rest) = Some (lit, rest).
Proof.
  intros H Hr. unfold num_ok, parse_number in *.
  assert (∀ x y, sign_part lit = (x, y) → y ≠ "" → sign_part (lit +:+ rest) = (x, y +:+ rest)) as Hs.
  { intros x y E Hy. destruct lit as [|a lit]; [by simplify_eq/=|]. rewrite string_app_cons.
    unfold sign_part in *. case_decide; by simplify_eq. }
  destruct (sign_part lit) as [sg s1] eqn:Es.
  destruct (int_part s1) as [[i s2]|] eqn:Ei; [|done]. simpl in H.
  destruct (frac_part s2) as [[fr s3]|] eqn:Ef; [|done]. simpl in H.
  destruct (exp_part s3) as [[ex s4]|] eqn:Ee; [|done]. simpl in H.
  rewrite (Hs sg s1 eq_refl) by (by intros ->). rewrite (int_part_app _ _ _ rest Ei Hr). simpl.
  rewrite (frac_part_app _ _ _ rest Ef Hr). simpl. rewrite (exp_part_app _ _ _ rest Ee Hr). simpl.
  by simplify_eq.
Qed.

(** ** Printing and parsing values *)

(** Induction over values with the parts of arrays and objects. *)
Section json_ind.
Context (P : json → Prop).
Context (Hnull : P JNull) (Hbool : ∀ b, P (JBool b)) (Hnum : ∀ lit, P (JNum lit)) (Hstr : ∀ s, P (JStr s)).
Context (Harr : ∀ l, Forall P l → P (JArr l)).
Context (Hobj : ∀ l, Forall (λ kv, P kv.2) l → P (JObj l)).

Fixpoint json_nested_ind (v : json) : P v :=
  match v with
  | JNull => Hnull
  | JBool b => Hbool b
  | JNum lit => Hnum lit
  | JStr s => Hstr s
  | JArr l => Harr l ((fix go l : Forall P l :=
      match l with [] => Forall_nil_2 P | x :: l' => Forall_cons_2 P x l' (json_nested_ind x) (go l') end) l)
  | JObj l => Hobj l ((fix go l : Forall (λ kv, P kv.2) l :=
      match l with [] => Forall_nil_2 _ | x :: l' => Forall_cons_2 _ x l' (json_nested_ind x.2) (go l') end) l)
  end.
End json_ind.

(** A value as it is read back: strings with invalid bytes replaced. *)
Fixpoint json_norm (v : json) : json :=
  match v with
  | JStr s => JStr (to_valid_utf8 s)
  | JArr l => JArr (map json_norm l)
  | JObj l => JObj (map (λ kv, (to_valid_utf8 kv.1, json_norm kv.2)) l)
  | _ => v
  end.

Fixpoint json_depth (v : json) : N :=
  match v with
  | JArr l => 1 + foldr N.max 0 (map json_depth l)
  | JObj l => 1 + foldr N.max 0 (map (λ kv, json_depth kv.2) l)
  | _ => 0
  end%N.

(** Every number literal follows the grammar. *)
Fixpoint json_wf (v : json) : Prop :=
  match v with
  | JNum lit => num_ok lit
  | JArr l => foldr and True (map json_wf l)
  | JObj l => foldr and True (map (λ kv, json_wf kv.2) l)
  | _ => True
  end.

(** The byte a printed value starts with. *)
Definition starts_value (a : ascii) : Prop :=
  is_space a = false ∧ a ≠ "]"%char ∧ a ≠ "}"%char.

Lemma num_ok_head lit :
  num_ok lit → ∃ a t, lit = String a t ∧ (a = "-"%char ∨ is_digit a = true).
Proof.
  unfold num_ok, parse_number. destruct lit as [|a t]; [done|]. intros H. exists a, t. split; [done|].
  cbn [sign_part] in H. case_decide as Ha; [by left|]. right.
  unfold int_part in H. case_decide as H0; [by subst|].
  destruct (is_digit a) eqn:E; [done|]. unfold digits1 in H. cbn [span] in H. by rewrite E in H.
Qed.

Lemma wf_Forall {A} (f : A → Prop) l : foldr and True (map f l) → Forall f l.
Proof. induction l as [|x l IH]; simpl; [constructor|]. intros [? ?]. constructor; auto. Qed.

Lemma wf_obj l : json_wf (JObj l) ↔ Forall (λ kv, json_wf kv.2) l.
Proof. split; [apply wf_Forall|]. induction 1; simpl; eauto. Qed.

Lemma wf_arr l : json_wf (JArr l) ↔ Forall json_wf l.
Proof. split; [apply wf_Forall|]. induction 1; simpl; eauto. Qed.

Lemma json_depth_obj l k : Forall (λ kv, (json_depth kv.2 <= k)%N) l → (json_depth (JObj l) <= 1 + k)%N.
Proof. induction 1; simpl in *; lia. Qed.

Lemma json_depth_arr l k : Forall (λ v, (json_depth v <= k)%N) l → (json_depth (JArr l) <= 1 + k)%N.
Proof. induction 1; simpl in *; lia. Qed.

Lemma print_head v : json_wf v → ∃ a t, json_print v = String a t ∧ starts_value a.
Proof.
  assert (∀ a, a = "-"%char ∨ is_digit a = true → starts_value a) as Hnum.
  { intros a [->|Ha]; [by split_and!|]. apply bool_decide_eq_true in Ha.
    split_and!; [|intros ->; vm_compute in Ha; lia..]. apply bool_decide_eq_false.
    intros [->|[->|[->| ->]]]; vm_compute in Ha; lia. }
  destruct v as [|[]|lit|s|l|l]; intros Hwf; try (do 2 eexists; split; [reflexivity|by split_and!]).
  destruct (num_ok_head lit Hwf) as (a & t & -> & Ha). eauto.
Qed.

Lemma skip_space_head a t : is_space a = false → skip_space (String a t) = String a t.
Proof. intros H. simpl. by rewrite H. Qed.

(** Evaluates [parse_value] on text whose first byte is known. *)
Lemma parse_value_head f d a t :
  is_space a = false →
  parse_value (S f) d (String a t) =
  if decide (a = quote) then prod_map JStr id <$> parse_string t
  else if decide (a = "["%char) then
    if decide (maxNestingDepth < d + 1)%N then None
    else match after_byte "]" t with
         | Some s2 => Some (JArr [], s2)
         | None => prod_map JArr id <$> parse_elems f (d + 1) t
         end
  else if decide (a = "{"%char) then
    if decide (maxNestingDepth < d + 1)%N then None
    else match after_byte "}" t with
         | Some s2 => Some (JObj [], s2)
         | None => prod_map JObj id <$> parse_fields f (d + 1) t
         end
  else if decide (a = "-"%char ∨ is_digit a = true) then prod_map JNum id <$> parse_number (String a t)
  else match cut_prefix "null" (String a t) with
       | Some r => Some (JNull, r)
       | None =>
           match cut_prefix "true" (String a t) with
           | Some r => Some (JBool true, r)
           | None => (λ r, (JBool false, r)) <$> cut_prefix "false" (String a t)
           end
       end.
Proof. intros H. cbn [parse_value]. by rewrite skip_space_head. Qed.

(** What the induction needs of one value. *)
Definition parses (v : json) : Prop :=
  ∀ f d rest, 2 * String.length (json_print v) < f → (d + json_depth v <= maxNestingDepth)%N → ends_value rest →
  parse_value f d (json_print v +:+ rest) = Some (json_norm v, rest).

Lemma parses_num lit : num_ok lit → parses (JNum lit).
Proof.
  intros H [|f] d rest Hf _ Hr; [simpl in Hf; lia|]. destruct (num_ok_head lit H) as (a & t & -> & Ha).
  destruct (print_head (JNum (String a t)) H) as (a' & t' & [= <- <-] & Hsp & _).
  cbn [json_print]. rewrite string_app_cons, parse_value_head by done.
  assert (a ≠ quote ∧ a ≠ "["%char ∧ a ≠ "{"%char) as (? & ? & ?).
  { destruct Ha as [->|Ha]; [done|]. apply bool_decide_eq_true in Ha.
    split_and!; intros ->; vm_compute in Ha; lia. }
  rewrite !decide_False by done. rewrite decide_True by done. rewrite <-string_app_cons.
  by rewrite parse_number_app.
Qed.

Lemma after_byte_ne c a t : is_space a = false → a ≠ c → after_byte c (String a t) = None.
Proof. intros Ha Hc. unfold after_byte. rewrite skip_space_head by done. by rewrite decide_False. Qed.

Lemma max_depth_cons d x xs :
  (d + foldr N.max 0 (x :: xs) <= maxNestingDepth)%N →
  (d + x <= maxNestingDepth)%N ∧ (d + foldr N.max 0 xs <= maxNestingDepth)%N.
Proof. simpl. lia. Qed.

Lemma parse_elems_print l f d rest :
  l ≠ [] → Forall parses l → 2 * String.length (join_byte "," (map json_print l)) + 2 ≤ f →
  (d + foldr N.max 0 (map json_depth l) <= maxNestingDepth)%N →
  parse_elems f d (join_byte "," (map json_print l) +:+ String "]" rest) = Some (map json_norm l, rest).
Proof.
  intros Hne Hall. revert f. induction Hall as [|x l Hx Hl IH]; intros f Hf Hd; [done|].
  apply max_depth_cons in Hd as [Hd1 Hd2]. destruct f as [|f]; [lia|]. cbn [map] in *.
  destruct l as [|y l].
  - cbn [join_byte map] in *. cbn [parse_elems]. rewrite Hx by (lia || done || (simpl; auto)). done.
  - change (join_byte "," (json_print x :: map json_print (y :: l)))
      with (json_print x +:+ String "," (join_byte "," (map json_print (y :: l)))) in *.
    rewrite string_length_app in Hf. cbn [String.length] in Hf.
    rewrite string_app_assoc, string_app_cons. cbn [parse_elems].
    rewrite Hx by (lia || done || (simpl; auto)). simpl (_ ≫= _).
    rewrite IH by (done || lia). done.
Qed.

Lemma parse_fields_print l f d rest :
  l ≠ [] → Forall (λ kv, parses kv.2) l →
  2 * String.length (join_byte "," (map (λ kv, json_string kv.1 +:+ ":" +:+ json_print kv.2) l)) + 2 ≤ f →
  (d + foldr N.max 0 (map (λ kv, json_depth kv.2) l) <= maxNestingDepth)%N →
  parse_fields f d (join_byte "," (map (λ kv, json_string kv.1 +:+ ":" +:+ json_print kv.2) l) +:+ String "}" rest)
  = Some (map (λ kv, (to_valid_utf8 kv.1, json_norm kv.2)) l, rest).
Proof.
  intros Hne Hall. revert f. induction Hall as [|[k v] l Hx Hl IH]; intros f Hf Hd; [done|].
  apply max_depth_cons in Hd as [Hd1 Hd2]. destruct f as [|f]; [lia|]. cbn [map fst snd] in *.
  assert (∀ tail, parse_fields (S f) d ((json_string k +:+ ":" +:+ json_print v) +:+ tail) =
    '(v', s4) ← parse_value f d (json_print v +:+ tail);
    match after_byte "," s4 with
    | Some s5 => prod_map (cons (to_valid_utf8 k, v')) id <$> parse_fields f d s5
    | None => pair [(to_valid_utf8 k, v')] <$> after_byte "}" s4
    end) as Hstep.
  { intros tail. unfold json_string. rewrite string_app_cons, !string_app_assoc, !string_app_cons.
    cbn [parse_fields]. simpl (after_byte _ _ ≫= _). cbn [String.append].
    change (":" +:+ ?x) with (String ":" x). change ("" +:+ ?x) with x.
    rewrite string_app_assoc, !string_app_cons, parse_json_string. done. }
  assert (2 * String.length (json_print v) < f) as Hfv.
  { destruct l; cbn [join_byte map] in Hf; rewrite !string_length_app in Hf; simpl in Hf; lia. }
  destruct l as [|y l].
  - cbn [join_byte map] in *. rewrite Hstep, Hx by (done || (simpl; auto)). done.
  - set (ps := map _ (y :: l)) in *. assert (ps ≠ []) by done. destruct ps as [|w ws] eqn:Eps; [done|].
    change (join_byte "," (?p :: w :: ws)) with (p +:+ String "," (join_byte "," (w :: ws))) in *.
    rewrite string_length_app in Hf. cbn [String.length] in Hf. rewrite string_length_app in Hf.
    rewrite (string_app_assoc (_ +:+ _)), Hstep, string_app_cons, Hx by (done || (simpl; auto)).
    simpl (_ ≫= _). rewrite IH by (done || lia). done.
Qed.

Lemma Forall_mp {A} (P Q : A → Prop) l : Forall (λ x, Q x → P x) l → Forall Q l → Forall P l.
Proof. induction 1; inversion 1; constructor; auto. Qed.

(** The byte a joined list starts with is that of its first part. *)
Lemma join_head c w ws a t : w = String a t → ∃ t', join_byte c (w :: ws) = String a t'.
Proof. intros ->. destruct ws; by eexists. Qed.

Lemma json_print_parses v : json_wf v → parses v.
Proof.
  induction v as [|b|lit|s|l IH|l IH] using json_nested_ind; intros Hwf;
    [| |by apply parses_num|..]; intros [|f] d rest Hf Hd Hr; try lia; try done.
  - by destruct b.
  - cbn [json_print]. unfold json_string.
    rewrite string_app_cons, parse_value_head, string_app_assoc, string_app_cons by done.
    rewrite decide_True by done. by rewrite parse_json_string.
  - cbn [json_print json_wf json_depth json_norm] in *. apply wf_Forall in Hwf.
    rewrite !string_length_app in Hf. simpl in Hf.
    change ("[" +:+ ?x) with (String "[" x). rewrite string_app_cons, parse_value_head by done.
    rewrite decide_False, decide_True, decide_False by (done || lia).
    rewrite string_app_assoc. change ("]" +:+ rest) with (String "]" rest).
    destruct l as [|x l]; [done|]. pose proof (Forall_mp _ _ _ IH Hwf) as Hall.
    apply Forall_cons in Hwf as [Hx _]. destruct (print_head x Hx) as (a & t & Ha & Hsp & Hb & _).
    pose proof (parse_elems_print (x :: l) f (d + 1) rest) as Hp. cbn [map] in *.
    destruct (join_head "," _ (map json_print l) _ _ Ha) as [t' Ht']. rewrite Ht' in *.
    rewrite string_app_cons in *. rewrite after_byte_ne by done. by rewrite Hp by (done || lia).
  - cbn [json_print json_wf json_depth json_norm] in *. apply wf_Forall in Hwf.
    rewrite !string_length_app in Hf. simpl in Hf.
    change ("{" +:+ ?x) with (String "{" x). rewrite string_app_cons, parse_value_head by done.
    rewrite decide_False, decide_False, decide_True, decide_False by (done || lia).
    rewrite string_app_assoc. change ("}" +:+ rest) with (String "}" rest).
    destruct l as [|[k x] l]; [done|]. pose proof (Forall_mp _ _ _ IH Hwf) as Hall.
    pose proof (parse_fields_print ((k, x) :: l) f (d + 1) rest) as Hp. cbn [map fst snd] in *.
    destruct (join_head "," (json_string k +:+ ":" +:+ json_print x)
      (map (λ kv, json_string kv.1 +:+ ":" +:+ json_print kv.2) l) _ _ eq_refl) as [t' Ht']. rewrite Ht' in *.
    rewrite string_app_cons in *. rewrite after_byte_ne by done. by rewrite Hp by (done || lia).
Qed.

(** Printing and parsing are inverse: the text [json.Marshal] writes
    for a value, of any nesting the decoder allows, is decoded to that
    value, with the bytes of its strings that are no UTF-8 replaced. *)
Lemma parse_print v :
  json_wf v → (json_depth v <= maxNestingDepth)%N → json_parse (json_print v) = Some (json_norm v).
Proof.
  intros Hwf Hd. unfold json_parse.
  rewrite <-(string_app_nil_r (json_print v)) at 2. by rewrite json_print_parses by (done || lia).
Qed.

(** ** Integers *)

Lemma pretty_N_go_digits x s :
  (0 < x)%N → ∃ c t, pretty_N_go x s = String c t +:+ s ∧ c ≠ "0"%char ∧ string_forallb is_digit (String c t) = true.
Proof.
  revert s. induction (N.lt_wf_0 x) as [x _ IH]; intros s Hx. rewrite pretty_N_go_step by done.
  assert (is_digit (pretty_N_char (x mod 10)) = true) as Hd by (unfold pretty_N_char; by repeat case_match).
  destruct (decide (x < 10)%N) as [Hlt|Hge].
  - exists (pretty_N_char (x mod 10)), "". rewrite N.div_small, pretty_N_go_0 by done. split_and!; [done| |].
    + rewrite N.mod_small by done. intros E. apply (pretty_N_char_inj x 0) in E; lia.
    + simpl. by rewrite Hd.
  - destruct (IH (x / 10)%N) with (s := String (pretty_N_char (x mod 10)) s) as (c & t & -> & Hc & Ht).
    + apply N.div_lt; lia.
    + apply N.div_str_pos. lia.
    + exists c, (t +:+ String (pretty_N_char (x mod 10)) ""). split_and!; [|done|].
      * by rewrite !string_app_cons, string_app_assoc, string_app_cons.
      * rewrite <-string_app_cons, string_forallb_app, Ht. simpl. by rewrite Hd.
Qed.

Lemma span_all p s : string_forallb p s = true → span p s = (s, "").
Proof.
  induction s as [|a s IH]; simpl; [done|]. rewrite andb_true_iff. intros [-> Hs]. by rewrite IH.
Qed.

Lemma int_part_digits c t :
  c ≠ "0"%char → string_forallb is_digit (String c t) = true → int_part (String c t) = Some (String c t, "").
Proof.
  intros Hc Hd. cbn [int_part]. rewrite decide_False by done. unfold digits1. by rewrite span_all.
Qed.

(** A decimal integer follows the number grammar. *)
Lemma num_ok_pretty (z : Z) : num_ok (pretty z).
Proof.
  assert (∀ p : positive, ∃ c t, pretty p = String c t ∧ c ≠ "0"%char ∧ string_forallb is_digit (String c t) = true) as Hp.
  { intros p. destruct (pretty_N_go_digits (Npos p) "") as (c & t & E & Hc & Ht); [lia|].
    exists c, t. rewrite string_app_nil_r in E. done. }
  unfold num_ok, parse_number. destruct z as [|p|p]; [done|..]; destruct (Hp p) as (c & t & E & Hc & Ht).
  - unfold pretty, pretty_Z. rewrite E. assert (c ≠ "-"%char).
    { intros ->. by vm_compute in Ht. }
    cbn [sign_part]. rewrite decide_False, int_part_digits by done. simpl. by rewrite !string_app_nil_r.
  - unfold pretty, pretty_Z. rewrite E. change ("-" +:+ String c t) with (String "-" (String c t)).
    cbn [sign_part]. rewrite decide_True, int_part_digits by done. simpl. by rewrite !string_app_nil_r.
Qed.

(** ** Decoding into a struct *)

(** The name a key is compared under: letters without regard to case; the
    long s and the Kelvin sign fold to the letters s and k. *)
Fixpoint fold_name (s : string) : string :=
  match s with
  | "" => ""
  | String a s1 =>
      let n := nat_of_ascii a in
      let lower := String (if decide (65 ≤ n ≤ 90) then ascii_of_nat (n + 32) else a) (fold_name s1) in
      match s1 with
      | String b s2 =>
          if decide (n = 197 ∧ nat_of_ascii b = 191) then String "s" (fold_name s2)
          else match s2 with
               | String c s3 =>
                   if decide (n = 226 ∧ nat_of_ascii b = 132 ∧ nat_of_ascii c = 170)
                   then String "k" (fold_name s3) else lower
               | "" => lower
               end
      | "" => lower
      end
  end.

(** The fields of the object [json.Unmarshal] assigns to a struct field of
    this name, in order; a null object assigns nothing, and any other
    value is an error. *)
Definition fields_named (name : string) (v : json) : option (list json) :=
  match v with
  | JObj l => Some ((filter (λ kv, fold_name kv.1 = fold_name name) l).*2)
  | JNull => Some []
  | _ => None
  end.

(** A field of type [string]: the last assignment wins, null leaves it, and
    a value of another type is an error. *)
Definition unmarshal_string_field (name text : string) : option string :=
  v ← json_parse text;
  vs ← fields_named name v;
  foldl (λ acc x,
    cur ← acc;
    match x with
    | JStr s => Some s
    | JNull => Some cur
    | _ => None
    end) (Some "") vs.
