(* ===== verification/JsonRaw.v ===== *)
(** * JsonRaw

    Encoded JSON inside JSON ([json.RawMessage]): how it is written, how a
    field of that type is cut out of a text, and that a text cut short is
    no JSON. *)
From Stdlib Require Import FunInd.
From S2P Require Import Prelude Json JsonParse.

Inductive compact_state := outside | inside | escaped.

(** [json.Marshal] of a [json.RawMessage]: spaces outside strings go, and
    HTML characters and line separators are escaped. *)
Fixpoint compact (st : compact_state) (s : string) : string :=
  match s with
  | "" => ""
  | String a s1 =>
      match st with
      | outside =>
          if is_space a then compact outside s1
          else String a (compact (if decide (a = quote) then inside else outside) s1)
      | escaped => String a (compact inside s1)
      | inside =>
          if decide (a = "<"%char ∨ a = ">"%char ∨ a = "&"%char) then escape_ascii a +:+ compact inside s1
          else if decide (a = quote) then String a (compact outside s1)
          else if decide (a = backslash) then String a (compact escaped s1)
          else
            match s1 with
            | String b (String c s3) =>
                if decide (nat_of_ascii a = 226 ∧ nat_of_ascii b = 128 ∧ (nat_of_ascii c = 168 ∨ nat_of_ascii c = 169))
                then escape_rune3 a b c +:+ compact inside s3
                else String a (compact inside s1)
            | _ => String a (compact inside s1)
            end
      end
  end.

(** An object of encoded values. *)
Definition obj_text (fields : list (string * string)) : string :=
  "{" +:+ join_byte "," ((λ kv, json_string kv.1 +:+ ":" +:+ kv.2) <$> fields) +:+ "}".

(** ** Compacting what was printed *)

(** A byte that is copied inside a string. *)
Definition plain_byte (a : ascii) : Prop :=
  a ≠ "<"%char ∧ a ≠ ">"%char ∧ a ≠ "&"%char ∧ a ≠ quote ∧ a ≠ backslash.

Lemma compact_plain a s :
  plain_byte a → nat_of_ascii a ≠ 226 → compact inside (String a s) = String a (compact inside s).
Proof.
  intros (? & ? & ? & ? & ?) Ha.
  destruct s as [|b [|c s]]; cbn [compact]; rewrite !decide_False by (by intros [?|[?|?]]) || tauto; done.
Qed.

Lemma high_plain lo hi a : 127 < lo → byte_in lo hi a = true → plain_byte a.
Proof.
  intros Hlo Ha. apply bool_decide_eq_true in Ha.
  split_and!; intros ->; vm_compute in Ha; lia.
Qed.

Lemma cont_plain a : is_cont a = true → plain_byte a ∧ nat_of_ascii a ≠ 226.
Proof.
  intros Ha. split; [eapply high_plain; [|done]; lia|]. apply bool_decide_eq_true in Ha. lia.
Qed.

(** The text of an escape passes unchanged. *)
Definition passes (e : string) : Prop := ∀ t, compact inside (e +:+ t) = e +:+ compact inside t.

Lemma passes_plain a e : plain_byte a → nat_of_ascii a ≠ 226 → passes e → passes (String a e).
Proof. intros Hp Ha He t. rewrite !string_app_cons, compact_plain by done. by rewrite He. Qed.

Lemma passes_escape a e : passes e → passes (String backslash (String a e)).
Proof. intros He t. rewrite !string_app_cons. cbn [compact]. rewrite !decide_False, decide_True by naive_solver. by rewrite He. Qed.

Lemma passes_nil : passes "".
Proof. by intros t. Qed.

Lemma passes_app e f : passes e → passes f → passes (e +:+ f).
Proof. intros He Hf t. by rewrite !string_app_assoc, He, Hf. Qed.

Lemma hex_nibble_plain n : n < 16 → plain_byte (hex_nibble n) ∧ nat_of_ascii (hex_nibble n) ≠ 226.
Proof.
  intros Hn. assert (n ∈ seq 0 16) as H by (apply elem_of_seq; lia). revert H. clear.
  repeat (intros [->|H]%elem_of_cons; [by split_and!|revert H]). by intros ?%elem_of_nil.
Qed.

Lemma passes_escape_ascii a : byte_in 0 127 a = true → passes (escape_ascii a).
Proof.
  intros Ha%bool_decide_eq_true. unfold escape_ascii.
  repeat (case_decide; [first [apply passes_escape; repeat apply passes_plain; solve [by split_and!|done|apply passes_nil]|idtac]|]).
  - apply passes_escape. do 2 (apply passes_plain; [by split_and!|done|]).
    do 2 (apply passes_plain; [apply hex_nibble_plain; first [apply Nat.mod_upper_bound; lia|apply Nat.Div0.div_lt_upper_bound; lia]..|]).
    apply passes_nil.
  - apply passes_plain; [|lia|apply passes_nil]. split_and!; intros ->; vm_compute in *; lia.
Qed.

Lemma rune3_bytes a b c : is_rune3 a b c = true → plain_byte a ∧ is_cont b = true ∧ is_cont c = true.
Proof.
  unfold is_rune3. intros H. repeat rewrite ?andb_true_iff, ?orb_true_iff in H. destruct H as [Hc H].
  assert (∀ lo hi, 128 ≤ lo → hi ≤ 191 → byte_in lo hi b = true → is_cont b = true) as Hb.
  { unfold is_cont, byte_in. intros lo hi ??. rewrite !bool_decide_eq_true. lia. }
  split_and!; [| |done].
  - destruct H as [[[H _]|[[H|H] _]]|[H _]]; eapply high_plain; try exact H; lia.
  - destruct H as [[[_ H]|[_ H]]|[_ H]]; (exact H || eapply Hb; try exact H; lia).
Qed.

Lemma passes_rune3 a b c : is_rune3 a b c = true → passes (escape_rune3 a b c).
Proof.
  intros (Ha & [Hb Hb']%cont_plain & [Hc Hc']%cont_plain)%rune3_bytes. unfold escape_rune3.
  case_decide; [|case_decide].
  1-2: apply passes_escape; repeat (apply passes_plain; [by split_and!|done|]); apply passes_nil.
  intros t. rewrite !string_app_cons. destruct Ha as (? & ? & ? & ? & ?).
  change ("" +:+ t) with t. change ("" +:+ compact inside t) with (compact inside t).
  rewrite <-(compact_plain c t), <-(compact_plain b (String c t)) by done.
  remember (String b (String c t)) as r eqn:Hr. cbn [compact].
  rewrite decide_False, !(decide_False (P := a = _)) by tauto. subst r. by rewrite decide_False by tauto.
Qed.

Lemma passes_json_escape s : passes (json_escape s).
Proof.
  functional induction (json_escape s) using json_escape_scheme;
    repeat first [apply passes_app | apply passes_nil | by apply passes_escape_ascii | by apply passes_rune3 | done].
  all: try (apply passes_escape; repeat (apply passes_plain; [by split_and!|done|]); apply passes_nil).
  - unfold is_rune2 in *. match goal with H : _ && _ = true |- _ => apply andb_true_iff in H as [Ha [Hb Hb']%cont_plain] end.
    apply passes_plain; [by eapply high_plain; [|exact Ha]; lia| |by apply passes_plain].
    apply bool_decide_eq_true in Ha. lia.
  - unfold is_rune4 in *.
    match goal with H : _ && _ = true |- _ => apply andb_true_iff in H as [[Hc Hd]%andb_true_iff Hab] end.
    assert (byte_in 240 244 a = true ∧ is_cont b = true) as [Ha Hb].
    { clear - Hab. unfold is_cont, byte_in in *.
      repeat rewrite ?andb_true_iff, ?orb_true_iff, ?bool_decide_eq_true in Hab. rewrite !bool_decide_eq_true. lia. }
    apply cont_plain in Hb as [? ?], Hc as [? ?], Hd as [? ?].
    apply passes_plain; [by eapply high_plain; [|exact Ha]; lia| |].
    + apply bool_decide_eq_true in Ha. lia.
    + by repeat apply passes_plain.
Qed.

(** Text that is already compact. *)
Definition compacted (x : string) : Prop := ∀ t, compact outside (x +:+ t) = x +:+ compact outside t.

Lemma compacted_app x y : compacted x → compacted y → compacted (x +:+ y).
Proof. intros Hx Hy t. by rewrite !string_app_assoc, Hx, Hy. Qed.

Lemma compacted_byte a x : is_space a = false → a ≠ quote → compacted x → compacted (String a x).
Proof.
  intros Ha Hq Hx t. rewrite !string_app_cons. cbn [compact]. by rewrite Ha, decide_False, Hx.
Qed.

Lemma compacted_nil : compacted "".
Proof. by intros t. Qed.

Lemma compacted_string s : compacted (json_string s).
Proof.
  intros t. unfold json_string. rewrite !string_app_cons, string_app_assoc. cbn [compact].
  change (is_space quote) with false. cbn iota. rewrite decide_True by done.
  rewrite passes_json_escape, string_app_assoc, !string_app_cons. change ("" +:+ t) with t.
  remember (json_escape s) as e. cbn [compact]. by rewrite !decide_False, decide_True by (done || by intros [?|[?|?]]).
Qed.

Lemma compacted_join c ws : is_space c = false → c ≠ quote → Forall compacted ws → compacted (join_byte c ws).
Proof.
  intros Hc Hq. induction 1 as [|w ws Hw Hws IH]; [apply compacted_nil|].
  destruct ws as [|w' ws]; [done|]. apply compacted_app; [done|]. by apply compacted_byte.
Qed.

(** ** The bytes of numbers *)

Definition is_num_byte (a : ascii) : bool :=
  is_digit a || bool_decide (a = "-"%char ∨ a = "+"%char ∨ a = "."%char ∨ a = "e"%char ∨ a = "E"%char).

Lemma span_bytes p s x y : span p s = (x, y) → string_forallb p x = true.
Proof.
  revert x y. induction s as [|a s IH]; simpl; intros x y; [by intros [= <- <-]|].
  destruct (p a) eqn:Hp; [|by intros [= <- <-]]. destruct (span p s) as [x' y'] eqn:E.
  intros [= <- <-]. simpl. by rewrite Hp, (IH x' y').
Qed.

Lemma digits1_bytes s x y : digits1 s = Some (x, y) → string_forallb is_num_byte x = true.
Proof.
  unfold digits1. destruct (span is_digit s) as [x' y'] eqn:E. case_decide; [done|]. intros [= <- <-].
  eapply string_forallb_impl; [|by eapply span_bytes]. intros a Ha. unfold is_num_byte. by rewrite Ha.
Qed.

Lemma number_bytes s x y : parse_number s = Some (x, y) → string_forallb is_num_byte x = true.
Proof.
  unfold parse_number. destruct (sign_part s) as [sg s1] eqn:Es.
  destruct (int_part s1) as [[i s2]|] eqn:Ei; [|done]. simpl.
  destruct (frac_part s2) as [[fr s3]|] eqn:Ef; [|done]. simpl.
  destruct (exp_part s3) as [[ex s4]|] eqn:Ee; [|done]. simpl. intros [= <- <-].
  rewrite !string_forallb_app, !andb_true_iff. split_and!.
  - destruct s as [|a s]; simpl in Es; [by simplify_eq|]. case_decide; by simplify_eq.
  - destruct s1 as [|a s1]; [done|]. unfold int_part in Ei. case_decide; [by simplify_eq|]. by eapply digits1_bytes.
  - destruct s2 as [|a s2]; [by simplify_eq/=|]. unfold frac_part in Ef. case_decide; [|by simplify_eq].
    apply fmap_Some in Ef as ([x' y'] & Hd%digits1_bytes & [= -> ->]). subst a. by simpl.
  - destruct s3 as [|a s3]; [by simplify_eq/=|]. unfold exp_part in Ee. case_decide as Ha; [|by simplify_eq].
    destruct s3 as [|g s3]; [done|]. case_decide as Hg;
      apply fmap_Some in Ee as ([x' y'] & Hd%digits1_bytes & [= -> ->]); cbn [string_forallb];
      rewrite !andb_true_iff; split_and?; first [done | by destruct Ha as [->| ->] | by destruct Hg as [->| ->]].
Qed.

Lemma compacted_num s : string_forallb is_num_byte s = true → compacted s.
Proof.
  induction s as [|a s IH]; [intros _; apply compacted_nil|]. simpl. rewrite andb_true_iff. intros [Ha Hs].
  apply compacted_byte; [| |by apply IH].
  - unfold is_space. apply bool_decide_eq_false. by intros [->|[->|[->| ->]]].
  - by intros ->.
Qed.

Lemma compacted_print v : json_wf v → compacted (json_print v).
Proof.
  induction v as [|b|lit|s|l IH|l IH] using json_nested_ind; intros Hwf; cbn [json_print].
  - intros t. done.
  - by destruct b; intros t.
  - apply compacted_num. by eapply number_bytes.
  - apply compacted_string.
  - apply compacted_byte; [done..|]. apply compacted_app; [|by apply compacted_byte, compacted_nil].
    apply compacted_join; [done..|]. apply Forall_map. apply wf_Forall in Hwf. by eapply Forall_mp.
  - apply compacted_byte; [done..|]. apply compacted_app; [|by apply compacted_byte, compacted_nil].
    apply compacted_join; [done..|]. apply Forall_map. apply wf_Forall in Hwf.
    pose proof (Forall_mp _ _ _ IH Hwf) as Hall. eapply Forall_impl; [exact Hall|]. intros [k v] Hv.
    apply compacted_app; [apply compacted_string|]. by apply compacted_byte.
Qed.

(** What [json.Marshal] wrote is embedded as it is. *)
Lemma compact_print v : json_wf v → compact outside (json_print v) = json_print v.
Proof.
  intros Hwf. rewrite <-(string_app_nil_r (json_print v)) at 1. rewrite (compacted_print v Hwf).
  by rewrite string_app_nil_r.
Qed.

(** ** Printed text has no control characters *)

Definition is_print (a : ascii) : bool := bool_decide (32 ≤ nat_of_ascii a).

Lemma high_print a : byte_in 0 127 a = false → is_print a = true.
Proof. unfold byte_in, is_print. rewrite bool_decide_eq_false, bool_decide_eq_true. lia. Qed.

Lemma escape_ascii_print a : byte_in 0 127 a = true → string_forallb is_print (escape_ascii a) = true.
Proof. destruct a as [[][][][][][][][]]; intros H; first [by vm_compute in H | reflexivity]. Qed.

Lemma json_escape_print s : string_forallb is_print (json_escape s) = true.
Proof.
  destruct rune_bytes as (R2 & R3 & R4).
  functional induction (json_escape s) using json_escape_scheme;
    try reflexivity; rewrite ?string_forallb_app; cbn [string_forallb]; repeat (apply andb_true_iff; split);
    try first [assumption | reflexivity | by apply high_print | by apply escape_ascii_print].
  - match goal with H : is_rune2 _ _ = true |- _ => by apply high_print, (R2 _ _ H) end.
  - match goal with H : is_rune3 _ _ _ = true |- _ => pose proof (R3 _ _ _ H) as [??] end.
    unfold escape_rune3. repeat case_decide; [done..|]. cbn [string_forallb].
    by rewrite !high_print.
  - match goal with H : is_rune4 _ _ _ _ = true |- _ => by apply high_print, (R4 _ _ _ _ H) end.
  - match goal with H : is_rune4 _ _ _ _ = true |- _ => by apply high_print, (R4 _ _ _ _ H) end.
  - match goal with H : is_rune4 _ _ _ _ = true |- _ => by apply high_print, (R4 _ _ _ _ H) end.
Qed.

Lemma json_string_print s : string_forallb is_print (json_string s) = true.
Proof. unfold json_string. cbn [string_forallb]. by rewrite string_forallb_app, json_escape_print. Qed.

Lemma join_forallb p c ws :
  p c = true → Forall (λ w, string_forallb p w = true) ws → string_forallb p (join_byte c ws) = true.
Proof.
  intros Hc. induction 1 as [|w ws Hw Hws IH]; [done|]. destruct ws as [|w' ws]; [done|].
  change (join_byte c (w :: w' :: ws)) with (w +:+ String c (join_byte c (w' :: ws))).
  rewrite string_forallb_app, Hw. change (p c && string_forallb p (join_byte c (w' :: ws)) = true). by rewrite Hc, IH.
Qed.

Lemma json_print_print v : json_wf v → string_forallb is_print (json_print v) = true.
Proof.
  induction v as [|b|lit|s|l IH|l IH] using json_nested_ind; intros Hwf; cbn [json_print].
  - done.
  - by destruct b.
  - eapply string_forallb_impl; [|by eapply number_bytes]. intros a.
    unfold is_num_byte, is_print, is_digit, byte_in. rewrite orb_true_iff, !bool_decide_eq_true.
    intros [?|[->|[->|[->|[->| ->]]]]]; [lia|vm_compute; lia..].
  - apply json_string_print.
  - rewrite !string_forallb_app, join_forallb; [done..|]. apply Forall_map. apply wf_Forall in Hwf. by eapply Forall_mp.
  - rewrite !string_forallb_app, join_forallb; [done..|]. apply Forall_map. apply wf_Forall in Hwf.
    pose proof (Forall_mp _ _ _ IH Hwf) as Hall. eapply Forall_impl; [exact Hall|]. intros [k v] Hv.
    by rewrite !string_forallb_app, json_string_print.
Qed.

(** ** Reading on past the end of a value *)

Lemma span_extend p s x y t : span p s = (x, y) → y ≠ "" → span p (s +:+ t) = (x, y +:+ t).
Proof. intros H Hy. by apply span_app. Qed.

Lemma digits1_extend s x y t : digits1 s = Some (x, y) → y ≠ "" → digits1 (s +:+ t) = Some (x, y +:+ t).
Proof.
  unfold digits1. destruct (span is_digit s) as [x' y'] eqn:E. intros H Hy.
  case_decide; [done|]. injection H as -> ->. rewrite (span_extend _ _ _ _ t E Hy). by rewrite decide_False.
Qed.

Lemma parse_number_extend s x y t :
  parse_number s = Some (x, y) → y ≠ "" → parse_number (s +:+ t) = Some (x, y +:+ t).
Proof.
  unfold parse_number. destruct (sign_part s) as [sg s1] eqn:Es.
  destruct (int_part s1) as [[i s2]|] eqn:Ei; [|done]. simpl.
  destruct (frac_part s2) as [[fr s3]|] eqn:Ef; [|done]. simpl.
  destruct (exp_part s3) as [[ex s4]|] eqn:Ee; [|done]. simpl. intros [= <- <-] Hy.
  assert (s3 ≠ "") as H3 by (intros ->; by injection Ee as <- <-).
  assert (s2 ≠ "") as H2 by (intros ->; by injection Ef as <- <-).
  assert (sign_part (s +:+ t) = (sg, s1 +:+ t)) as ->.
  { destruct s as [|a s]; simpl in Es; [by simplify_eq|]. rewrite string_app_cons. simpl. case_decide; by simplify_eq. }
  assert (int_part (s1 +:+ t) = Some (i, s2 +:+ t)) as ->.
  { destruct s1 as [|a s1]; [done|]. rewrite string_app_cons. cbn [int_part] in *.
    case_decide; [by simplify_eq|]. rewrite <-string_app_cons. by apply digits1_extend. }
  simpl. assert (frac_part (s2 +:+ t) = Some (fr, s3 +:+ t)) as ->.
  { destruct s2 as [|a s2]; [done|]. rewrite string_app_cons. cbn [frac_part] in *. case_decide; [|by simplify_eq].
    apply fmap_Some in Ef as ([x' y'] & Hd & [= -> ->]). by rewrite (digits1_extend _ _ _ t Hd). }
  simpl. assert (exp_part (s3 +:+ t) = Some (ex, s4 +:+ t)) as ->; [|done].
  destruct s3 as [|a s3]; [done|]. rewrite string_app_cons. cbn [exp_part] in *. case_decide; [|by simplify_eq].
  destruct s3 as [|g s3]; [done|]. rewrite string_app_cons.
  case_decide; apply fmap_Some in Ee as ([x' y'] & Hd & [= -> ->]).
  - by rewrite (digits1_extend _ _ _ t Hd).
  - rewrite <-string_app_cons. by rewrite (digits1_extend _ _ _ t Hd).
Qed.

Lemma skip_space_extend s t : skip_space s ≠ "" → skip_space (s +:+ t) = skip_space s +:+ t.
Proof.
  induction s as [|a s IH]; [done|]. rewrite string_app_cons. cbn [skip_space]. by destruct (is_space a).
Qed.

Lemma after_byte_nonempty c s r : after_byte c s = Some r → skip_space s ≠ "".
Proof. unfold after_byte. by destruct (skip_space s). Qed.

Lemma after_byte_extend c s t : skip_space s ≠ "" → after_byte c (s +:+ t) = (λ r, r +:+ t) <$> after_byte c s.
Proof.
  intros H. unfold after_byte. rewrite skip_space_extend by done. destruct (skip_space s) as [|a r]; [done|].
  rewrite string_app_cons. by case_decide.
Qed.

Lemma skip_space_nil s : skip_space s ≠ "" → s ≠ "".
Proof. by intros H ->. Qed.

(** Without a second escape to look at, a surrogate stands alone. *)
Lemma unescape_u_alone u s :
  is_high u || is_low u = true → (∀ s', s ≠ String backslash (String "u" s')) → unescape_u u s = (replacement, s).
Proof.
  intros Hu Hs. unfold unescape_u. rewrite Hu. destruct s as [|e [|w [|a [|b [|c [|d s]]]]]]; try done.
  destruct (hex4 a b c d); [|done]. destruct (decide (e = backslash)) as [->|He].
  - destruct (decide (w = "u"%char)) as [->|Hw]; [by destruct (Hs (String a (String b (String c (String d s)))))|].
    rewrite (bool_decide_eq_false_2 _ Hw). by rewrite andb_false_r.
  - by rewrite (bool_decide_eq_false_2 _ He).
Qed.

Lemma unescape_u_extend u s v rest n p t :
  unescape_u u s = (v, rest) → parse_chars n rest = Some p → unescape_u u (s +:+ t) = (v, rest +:+ t).
Proof.
  destruct (is_high u || is_low u) eqn:Hu; [|by unfold unescape_u; rewrite Hu; intros [= <- <-]].
  destruct n as [|n]; [done|]. intros H Hp.
  assert ((∃ s', s = String backslash (String "u" s')) ∨ (∀ s', s ≠ String backslash (String "u" s'))) as [[s' ->]|Hs].
  { destruct s as [|e [|w s]]; [by right..|]. destruct (decide (e = backslash ∧ w = "u"%char)) as [[-> ->]|?]; [by left; eexists|].
    right. naive_solver. }
  - destruct s' as [|a [|b [|c [|d s]]]].
    1-4: unfold unescape_u in H; rewrite Hu in H; injection H as <- <-; by cbn in Hp.
    unfold unescape_u in *. rewrite Hu in *. rewrite !string_app_cons.
    destruct (hex4 a b c d); [|by simplify_eq]. destruct (_ && _); by simplify_eq.
  - rewrite unescape_u_alone in H by done. injection H as <- <-.
    rewrite unescape_u_alone; [done..|]. intros s'' E. destruct s as [|e [|w s]]; [done| |].
    + injection E as -> E. by cbn in Hp.
    + rewrite !string_app_cons in E. injection E as -> -> E. by apply (Hs s).
Qed.

Lemma parse_chars_extend n s x r t : parse_chars n s = Some (x, r) → parse_chars n (s +:+ t) = Some (x, r +:+ t).
Proof.
  revert s x r. induction n as [|n IH]; [done|]. intros [|a s] x r; [done|]. rewrite string_app_cons.
  cbn [parse_chars]. case_decide; [by intros [= <- <-]|]. case_decide; [done|]. case_decide.
  - destruct s as [|e s2]; [done|]. rewrite string_app_cons. destruct (simple_escape e).
    + intros ([x' r'] & Hp & [= -> ->])%fmap_Some. by rewrite (IH _ _ _ Hp).
    + case_decide; [|done]. destruct s2 as [|h1 [|h2 [|h3 [|h4 s3]]]]; try done. rewrite !string_app_cons.
      destruct (hex4 h1 h2 h3 h4) as [u|]; [|done]. cbn [mbind option_bind].
      destruct (unescape_u u s3) as [v rest] eqn:Hu. intros ([x' r'] & Hp & [= -> ->])%fmap_Some.
      rewrite (unescape_u_extend _ _ _ _ _ _ t Hu Hp). by rewrite (IH _ _ _ Hp).
  - intros ([x' r'] & Hp & [= -> ->])%fmap_Some. by rewrite (IH _ _ _ Hp).
Qed.

Lemma parse_string_extend s x r t : parse_string s = Some (x, r) → parse_string (s +:+ t) = Some (x, r +:+ t).
Proof.
  unfold parse_string. intros ([x' r'] & Hp & [= -> ->])%fmap_Some.
  erewrite parse_chars_mono; [..|by eapply parse_chars_extend|]; [done|]. rewrite string_length_app. lia.
Qed.

Lemma cut_prefix_extend p s r t : cut_prefix p s = Some r → cut_prefix p (s +:+ t) = Some (r +:+ t).
Proof.
  revert s. induction p as [|a p IH]; intros s; [by destruct s; intros [= <-]|].
  destruct s as [|b s]; [done|]. rewrite string_app_cons. cbn [cut_prefix]. case_decide; [apply IH|done].
Qed.

Lemma parse_keyword_extend s v r t :
  match cut_prefix "null" s with
  | Some r => Some (JNull, r)
  | None =>
      match cut_prefix "true" s with
      | Some r => Some (JBool true, r)
      | None => (λ r, (JBool false, r)) <$> cut_prefix "false" s
      end
  end = Some (v, r) →
  match cut_prefix "null" (s +:+ t) with
  | Some r => Some (JNull, r)
  | None =>
      match cut_prefix "true" (s +:+ t) with
      | Some r => Some (JBool true, r)
      | None => (λ r, (JBool false, r)) <$> cut_prefix "false" (s +:+ t)
      end
  end = Some (v, r +:+ t).
Proof.
  destruct (cut_prefix "null" s) as [r'|] eqn:E1.
  { intros [= <- <-]. by rewrite (cut_prefix_extend _ _ _ t E1). }
  destruct (cut_prefix "true" s) as [r'|] eqn:E2.
  { intros [= <- <-]. apply cut_prefix_Some in E2 as ->. done. }
  intros (r' & ->%cut_prefix_Some & [= -> ->])%fmap_Some. done.
Qed.

(** A value that was read whole is read the same when more text follows;
    a number may go on in that text. *)
Lemma parse_extend n :
  (∀ d s v r t, parse_value n d s = Some (v, r) → (r = "" → ∀ lit, v ≠ JNum lit) →
     parse_value n d (s +:+ t) = Some (v, r +:+ t)) ∧
  (∀ d s l r t, parse_elems n d s = Some (l, r) → parse_elems n d (s +:+ t) = Some (l, r +:+ t)) ∧
  (∀ d s l r t, parse_fields n d s = Some (l, r) → parse_fields n d (s +:+ t) = Some (l, r +:+ t)).
Proof.
  induction n as [|n (IHv & IHe & IHf)]; [done|].
  assert (∀ d s l r, parse_elems n d s = Some (l, r) → skip_space s ≠ "") as Ee.
  { intros d s l r H Hs. destruct n as [|n]; [done|]. cbn [parse_elems] in H.
    destruct n as [|n]; [done|]. cbn [parse_value] in H. by rewrite Hs in H. }
  assert (∀ d s l r, parse_fields n d s = Some (l, r) → skip_space s ≠ "") as Ef.
  { intros d s l r H Hs. destruct n as [|n]; [done|]. cbn [parse_fields] in H.
    unfold after_byte in H. by rewrite Hs in H. }
  split_and!.
  - intros d s v r t H Hnum. cbn [parse_value] in *.
    assert (skip_space s ≠ "") as Hs by (intros E; by rewrite E in H).
    rewrite skip_space_extend by done. destruct (skip_space s) as [|a s1]; [done|]. clear s Hs.
    rewrite string_app_cons. case_decide.
    { apply fmap_Some in H as ([x y] & Hp & [= -> ->]). by rewrite (parse_string_extend _ _ _ t Hp). }
    case_decide.
    { case_decide; [done|]. destruct (after_byte "]" s1) as [s2|] eqn:E.
      - injection H as <- <-. by rewrite after_byte_extend, E by by eapply after_byte_nonempty.
      - apply fmap_Some in H as ([x y] & Hp & [= -> ->]).
        rewrite after_byte_extend, E by by eapply Ee. simpl. by rewrite (IHe _ _ _ _ t Hp). }
    case_decide.
    { case_decide; [done|]. destruct (after_byte "}" s1) as [s2|] eqn:E.
      - injection H as <- <-. by rewrite after_byte_extend, E by by eapply after_byte_nonempty.
      - apply fmap_Some in H as ([x y] & Hp & [= -> ->]).
        rewrite after_byte_extend, E by by eapply Ef. simpl. by rewrite (IHf _ _ _ _ t Hp). }
    case_decide.
    { apply fmap_Some in H as ([x y] & Hp & [= -> ->]). rewrite <-string_app_cons.
      rewrite (parse_number_extend _ _ _ t Hp); [done|]. intros E. by eapply Hnum. }
    rewrite <-string_app_cons. by apply parse_keyword_extend.
  - intros d s l r t H. cbn [parse_elems] in *.
    destruct (parse_value n d s) as [[v s1]|] eqn:Hv; [|done]. cbn [mbind option_bind] in H.
    assert (skip_space s1 ≠ "") as Hs1.
    { destruct (after_byte "," s1) eqn:E; [by eapply after_byte_nonempty|].
      apply fmap_Some in H as (x & E' & _). by eapply after_byte_nonempty. }
    rewrite (IHv _ _ _ _ t Hv) by (intros ->; by destruct Hs1). cbn [mbind option_bind].
    rewrite !after_byte_extend by done. destruct (after_byte "," s1) as [s2|]; simpl.
    + apply fmap_Some in H as ([x y] & Hp & [= -> ->]). by rewrite (IHe _ _ _ _ t Hp).
    + apply fmap_Some in H as (x & -> & [= -> ->]). done.
  - intros d s l r t H. cbn [parse_fields] in *.
    destruct (after_byte quote s) as [s1|] eqn:E1; [|done]. cbn [mbind option_bind] in H.
    rewrite after_byte_extend, E1 by by eapply after_byte_nonempty. cbn [mbind option_bind fmap option_fmap option_map].
    destruct (parse_string s1) as [[k s2]|] eqn:E2; [|done]. cbn [mbind option_bind] in H.
    rewrite (parse_string_extend _ _ _ t E2). cbn [mbind option_bind].
    destruct (after_byte ":" s2) as [s3|] eqn:E3; [|done]. cbn [mbind option_bind] in H.
    rewrite after_byte_extend, E3 by by eapply after_byte_nonempty. cbn [mbind option_bind fmap option_fmap option_map].
    destruct (parse_value n d s3) as [[v s4]|] eqn:Hv; [|done]. cbn [mbind option_bind] in H.
    assert (skip_space s4 ≠ "") as Hs4.
    { destruct (after_byte "," s4) eqn:E; [by eapply after_byte_nonempty|].
      apply fmap_Some in H as (x & E' & _). by eapply after_byte_nonempty. }
    rewrite (IHv _ _ _ _ t Hv) by (intros ->; by destruct Hs4). cbn [mbind option_bind].
    rewrite !after_byte_extend by done. destruct (after_byte "," s4) as [s5|]; simpl.
    + apply fmap_Some in H as ([x y] & Hp & [= -> ->]). by rewrite (IHf _ _ _ _ t Hp).
    + apply fmap_Some in H as (x & -> & [= -> ->]). done.
Qed.

(** More fuel does not change a result. *)
Lemma parse_mono n :
  (∀ m d s r, n ≤ m → parse_value n d s = Some r → parse_value m d s = Some r) ∧
  (∀ m d s r, n ≤ m → parse_elems n d s = Some r → parse_elems m d s = Some r) ∧
  (∀ m d s r, n ≤ m → parse_fields n d s = Some r → parse_fields m d s = Some r).
Proof.
  induction n as [|n (IHv & IHe & IHf)]; [done|].
  split_and!; intros [|m] d s r Hm H; try lia; apply le_S_n in Hm.
  - cbn [parse_value] in *. destruct (skip_space s) as [|a s1]; [done|].
    case_decide; [done|]. case_decide.
    { case_decide; [done|]. destruct (after_byte "]" s1); [done|].
      apply fmap_Some in H as (x & Hp & ->). by rewrite (IHe _ _ _ _ Hm Hp). }
    case_decide; [|done]. case_decide; [done|]. destruct (after_byte "}" s1); [done|].
    apply fmap_Some in H as (x & Hp & ->). by rewrite (IHf _ _ _ _ Hm Hp).
  - cbn [parse_elems] in *. destruct (parse_value n d s) as [[v s1]|] eqn:Hv; [|done].
    rewrite (IHv _ _ _ _ Hm Hv). simpl in *. destruct (after_byte "," s1); [|done].
    apply fmap_Some in H as (x & Hp & ->). by rewrite (IHe _ _ _ _ Hm Hp).
  - cbn [parse_fields] in *. destruct (after_byte quote s); [|done]. simpl in *.
    destruct (parse_string _) as [[k s2]|]; [|done]. simpl in *.
    destruct (after_byte ":" s2) as [s3|]; [|done]. simpl in *.
    destruct (parse_value n d s3) as [[v s4]|] eqn:Hv; [|done].
    rewrite (IHv _ _ _ _ Hm Hv). simpl in *. destruct (after_byte "," s4); [|done].
    apply fmap_Some in H as (x & Hp & ->). by rewrite (IHf _ _ _ _ Hm Hp).
Qed.

(** The text of an object that is cut short is not JSON, and does not even
    begin with a value. *)
Lemma parse_prefix_None l p a t :
  json_wf (JObj l) → (json_depth (JObj l) <= maxNestingDepth)%N →
  json_print (JObj l) = p +:+ String a t → parse_value (S (2 * String.length p)) 0 p = None.
Proof.
  intros Hwf Hd Hp. destruct (parse_value (S (2 * String.length p)) 0 p) as [[v r]|] eqn:E; [|done].
  assert (∀ lit, v ≠ JNum lit) as Hv.
  { intros lit ->. destruct p as [|b p]; [done|]. injection Hp as <- _. cbn [parse_value] in E.
    change (skip_space (String "{" p)) with (String "{" p) in E. cbn iota in E.
    rewrite decide_False, decide_False, decide_True in E by done.
    case_decide; [done|]. destruct (after_byte "}" p); [done|].
    by apply fmap_Some in E as (x & _ & [=]). }
  pose proof (proj1 (parse_extend _) _ _ _ _ (String a t) E (λ _, Hv)) as E'. rewrite <-Hp in E'.
  set (f := S (2 * String.length (json_print (JObj l)))).
  pose proof (json_print_parses _ Hwf f 0%N "" ltac:(unfold f; lia) Hd I) as E2. rewrite string_app_nil_r in E2.
  assert (S (2 * String.length p) ≤ f) as Hle.
  { unfold f. rewrite Hp, string_length_app. lia. }
  rewrite (proj1 (parse_mono _) _ _ _ _ Hle E') in E2. injection E2 as _ Hr. by destruct r.
Qed.

Lemma json_prefix_None l p a t :
  json_wf (JObj l) → (json_depth (JObj l) <= maxNestingDepth)%N →
  json_print (JObj l) = p +:+ String a t → json_parse p = None.
Proof. intros Hwf Hd Hp. unfold json_parse. by erewrite parse_prefix_None. Qed.

(** ** Fields of type [json.RawMessage] *)

(** The fields of an object, each with its key and the text of its value. *)
Fixpoint raw_fields (fuel : nat) (s : string) : option (list (string * string)) :=
  match fuel with
  | 0 => None
  | S n =>
      s1 ← after_byte quote s;
      '(k, s2) ← parse_string s1;
      s3 ← after_byte ":" s2;
      let s3 := skip_space s3 in
      '(_, s4) ← parse_value (S (2 * String.length s3)) 1 s3;
      let raw := string_take (String.length s3 - String.length s4) s3 in
      match after_byte "," s4 with
      | Some s5 => cons (k, raw) <$> raw_fields n s5
      | None => _ ← after_byte "}" s4; Some [(k, raw)]
      end
  end.

(** The fields of a text that is one JSON object. *)
Definition raw_object (text : string) : option (list (string * string)) :=
  v ← json_parse text;
  match v with
  | JObj [] => Some []
  | JObj _ => s ← after_byte "{" text; raw_fields (S (String.length s)) s
  | _ => None
  end.

Lemma raw_fields_print l n rest :
  l ≠ [] → Forall (λ kv, parses kv.2) l → Forall (λ kv, json_wf kv.2) l →
  (1 + foldr N.max 0 (map (λ kv, json_depth kv.2) l) <= maxNestingDepth)%N →
  length l ≤ n →
  raw_fields n (join_byte "," (map (λ kv, json_string kv.1 +:+ ":" +:+ json_print kv.2) l) +:+ String "}" rest) =
  Some (map (λ kv, (to_valid_utf8 kv.1, json_print kv.2)) l).
Proof.
  intros Hne Hall. revert n. induction Hall as [|[k v] l Hx Hl IH]; intros n Hwf Hd Hn; [done|].
  apply max_depth_cons in Hd as [Hd1 Hd2]. apply Forall_cons in Hwf as [Hwf Hwfs]. simpl in Hwf, Hx, Hd1.
  destruct n as [|n]; [simpl in Hn; lia|].
  destruct (print_head v Hwf) as (a & u & Ha & Hsp & _).
  assert (∀ tail, ends_value tail → raw_fields (S n) ((json_string k +:+ ":" +:+ json_print v) +:+ tail) =
    match after_byte "," tail with
    | Some s5 => cons (to_valid_utf8 k, json_print v) <$> raw_fields n s5
    | None => _ ← after_byte "}" tail; Some [(to_valid_utf8 k, json_print v)]
    end) as Hstep.
  { intros tail Ht.
    assert ((json_string k +:+ ":" +:+ json_print v) +:+ tail =
            String quote (json_escape k +:+ String quote (String ":" (json_print v +:+ tail)))) as ->
      by (unfold json_string; rewrite !string_app_cons, !string_app_assoc; done).
    cbn [raw_fields]. set (text := json_escape k +:+ _).
    change (after_byte quote (String quote text)) with (Some text). unfold text. cbn [mbind option_bind].
    rewrite parse_json_string. cbn [mbind option_bind].
    change (after_byte ":" (String ":" (json_print v +:+ tail))) with (Some (json_print v +:+ tail)).
    cbn [mbind option_bind].
    assert (skip_space (json_print v +:+ tail) = json_print v +:+ tail) as ->
      by (rewrite Ha, string_app_cons; by apply skip_space_head).
    rewrite Hx by (done || rewrite string_length_app; lia). cbn [mbind option_bind].
    rewrite string_length_app, Nat.add_sub, string_take_app. done. }
  cbn [map fst snd].
  destruct l as [|y l].
  - cbn [map join_byte]. rewrite Hstep by (simpl; auto). done.
  - set (fld := λ kv : string * json, json_string kv.1 +:+ ":" +:+ json_print kv.2) in *.
    change (join_byte "," (?p :: map fld (y :: l))) with (p +:+ String "," (join_byte "," (map fld (y :: l)))).
    rewrite (string_app_assoc (_ +:+ _)), Hstep, string_app_cons by (simpl; auto).
    change (after_byte "," (String "," ?x)) with (Some x). cbn iota.
    rewrite IH by (done || simpl in *; lia). done.
Qed.

Lemma raw_object_print l :
  json_wf (JObj l) → (json_depth (JObj l) <= maxNestingDepth)%N →
  raw_object (json_print (JObj l)) = Some (map (λ kv, (to_valid_utf8 kv.1, json_print kv.2)) l).
Proof.
  intros Hwf Hd. unfold raw_object. rewrite parse_print by done. cbn [mbind option_bind json_norm].
  destruct l as [|kv l]; [done|].
  change (map _ (kv :: l)) with ((to_valid_utf8 kv.1, json_norm kv.2) :: map (λ kv, (to_valid_utf8 kv.1, json_norm kv.2)) l) at 1.
  cbn iota. cbn [json_print]. change ("{" +:+ ?x) with (String "{" x).
  set (body := join_byte _ _ +:+ "}").
  change (after_byte "{" (String "{" body)) with (Some body). cbn [mbind option_bind]. unfold body.
  apply wf_Forall in Hwf. apply raw_fields_print; [done| |done|exact Hd|].
  - eapply Forall_impl; [exact Hwf|]. intros. by apply json_print_parses.
  - rewrite string_length_app. clear. induction (kv :: l) as [|x l' IH]; [simpl; lia|].
    cbn [map length]. destruct l' as [|y l']; [simpl; rewrite string_length_app; simpl; lia|].
    cbn [map] in *. set (w := json_string y.1 +:+ _) in *.
    change (join_byte "," (?p :: w :: ?ws)) with (p +:+ String "," (join_byte "," (w :: ws))).
    rewrite string_length_app. cbn [String.length] in *. lia.
Qed.

(** ** The elements of an array *)

Fixpoint raw_elems (fuel : nat) (s : string) : option (list string) :=
  match fuel with
  | 0 => None
  | S n =>
      let s1 := skip_space s in
      '(_, s2) ← parse_value (S (2 * String.length s1)) 1 s1;
      let raw := string_take (String.length s1 - String.length s2) s1 in
      match after_byte "," s2 with
      | Some s3 => cons raw <$> raw_elems n s3
      | None => _ ← after_byte "]" s2; Some [raw]
      end
  end.

(** The elements of a text that is one JSON array. *)
Definition raw_array (text : string) : option (list string) :=
  v ← json_parse text;
  match v with
  | JArr [] => Some []
  | JArr _ => s ← after_byte "[" text; raw_elems (S (String.length s)) s
  | _ => None
  end.

Lemma raw_elems_print l n rest :
  l ≠ [] → Forall json_wf l → (1 + foldr N.max 0 (map json_depth l) <= maxNestingDepth)%N → length l ≤ n →
  raw_elems n (join_byte "," (map json_print l) +:+ String "]" rest) = Some (map json_print l).
Proof.
  intros Hne Hwf. revert n. induction Hwf as [|v l Hv Hl IH]; intros n Hd Hn; [done|].
  apply max_depth_cons in Hd as [Hd1 Hd2]. destruct n as [|n]; [simpl in Hn; lia|].
  destruct (print_head v Hv) as (a & u & Ha & Hsp & _).
  assert (∀ tail, ends_value tail → raw_elems (S n) (json_print v +:+ tail) =
    match after_byte "," tail with
    | Some s3 => cons (json_print v) <$> raw_elems n s3
    | None => _ ← after_byte "]" tail; Some [json_print v]
    end) as Hstep.
  { intros tail Ht. cbn [raw_elems].
    assert (skip_space (json_print v +:+ tail) = json_print v +:+ tail) as ->
      by (rewrite Ha, string_app_cons; by apply skip_space_head).
    rewrite (json_print_parses v Hv) by (done || rewrite string_length_app; lia). cbn [mbind option_bind].
    rewrite string_length_app, Nat.add_sub, string_take_app. done. }
  destruct l as [|y l].
  - cbn [map join_byte]. rewrite Hstep by (simpl; auto). done.
  - change (map json_print (v :: y :: l)) with (json_print v :: map json_print (y :: l)).
    change (join_byte "," (?p :: map json_print (y :: l))) with (p +:+ String "," (join_byte "," (map json_print (y :: l)))).
    rewrite string_app_assoc, Hstep, string_app_cons by (simpl; auto).
    change (after_byte "," (String "," ?x)) with (Some x). cbn iota.
    rewrite IH by (done || simpl in *; lia). done.
Qed.

Lemma raw_array_print l :
  Forall json_wf l → (json_depth (JArr l) <= maxNestingDepth)%N →
  raw_array (json_print (JArr l)) = Some (map json_print l).
Proof.
  intros Hwf Hd. unfold raw_array. rewrite parse_print by (done || by apply wf_arr). cbn [mbind option_bind json_norm].
  destruct l as [|v l]; [done|]. change (map json_norm (v :: l)) with (json_norm v :: map json_norm l). cbn iota.
  cbn [json_print]. change ("[" +:+ ?x) with (String "[" x). set (body := join_byte _ _ +:+ "]").
  change (after_byte "[" (String "[" body)) with (Some body). cbn [mbind option_bind]. unfold body.
  apply raw_elems_print; [done|done|exact Hd|].
  rewrite string_length_app. clear. induction (v :: l) as [|x l' IH]; [simpl; lia|].
  cbn [map length]. destruct l' as [|y l']; [simpl; lia|].
  cbn [map] in *. set (w := json_print y) in *.
  change (join_byte "," (?p :: w :: ?ws)) with (p +:+ String "," (join_byte "," (w :: ws))).
  rewrite string_length_app. cbn [String.length] in *. lia.
Qed.
