(* ===== verification/Decode.v ===== *)
(** * Decode

    [json.Unmarshal] into Go values of a fixed type. A decoder takes the
    text of one JSON value and the Go value it is stored in, which it may
    leave as it is (null does, for most types); an error of any field is an
    error of the whole. *)
From S2P Require Import Prelude Json JsonParse JsonRaw.

Definition decoder (A : Type) : Type := string → A → option A.

Definition dec_string : decoder string := λ raw cur,
  match json_parse raw with
  | Some (JStr s) => Some s
  | Some JNull => Some cur
  | _ => None
  end.

Definition dec_bool : decoder bool := λ raw cur,
  match json_parse raw with
  | Some (JBool b) => Some b
  | Some JNull => Some cur
  | _ => None
  end.

(** The value of decimal digits. *)
Fixpoint decimal (acc : Z) (s : string) : option Z :=
  match s with
  | "" => Some acc
  | String a s' => if is_digit a then decimal (10 * acc + (Z.of_nat (nat_of_ascii a) - 48)) s' else None
  end.

(** [strconv.ParseInt] with base 10 of a JSON number. *)
Definition parse_int (lit : string) : option Z :=
  z ← match lit with
      | String "-" s => Z.opp <$> decimal 0 s
      | _ => decimal 0 lit
      end;
  if decide (in_int64 z) then Some z else None.

Definition dec_int : decoder Z := λ raw cur,
  match json_parse raw with
  | Some (JNum lit) => parse_int lit
  | Some JNull => Some cur
  | _ => None
  end.

(** [json.RawMessage] takes the text, null included. *)
Definition dec_raw : decoder string := λ raw _, Some raw.

(** ** Structs *)

(** The field a key names: by its exact name, else without regard to case. *)
Definition find_field {A} (fields : list (string * decoder A)) (key : string) : option (decoder A) :=
  match filter (λ f, f.1 = key) fields, filter (λ f, fold_name f.1 = fold_name key) fields with
  | f :: _, _ => Some f.2
  | [], f :: _ => Some f.2
  | [], [] => None
  end.

(** One field of an object; keys that name no field are ignored. *)
Definition dec_field {A} (fields : list (string * decoder A)) (acc : option A) (kv : string * string) : option A :=
  cur ← acc;
  match find_field fields kv.1 with
  | Some dec => dec kv.2 cur
  | None => Some cur
  end.

Definition dec_struct {A} (fields : list (string * decoder A)) : decoder A := λ raw cur,
  match json_parse raw with
  | Some JNull => Some cur
  | Some (JObj _) => l ← raw_object raw; foldl (dec_field fields) (Some cur) l
  | _ => None
  end.

(** A decoder of a part, as a decoder of the whole. *)
Definition dec_part {A B} (get : A → B) (set : B → A → A) (dec : decoder B) : decoder A := λ raw cur,
  b ← dec raw (get cur); Some (set b cur).

(** ** Printed text *)

Lemma dec_string_print s cur : dec_string (json_print (JStr s)) cur = Some (to_valid_utf8 s).
Proof. unfold dec_string. by rewrite parse_print by done. Qed.

(** An object that was printed is decoded field by field. *)
Lemma dec_struct_print {A} (fields : list (string * decoder A)) l cur :
  json_wf (JObj l) → (json_depth (JObj l) <= maxNestingDepth)%N →
  dec_struct fields (json_print (JObj l)) cur =
  foldl (dec_field fields) (Some cur) (map (λ kv, (to_valid_utf8 kv.1, json_print kv.2)) l).
Proof. intros Hwf Hd. unfold dec_struct. rewrite parse_print by done. by rewrite raw_object_print. Qed.

Lemma dec_field_part {A B} (fields : list (string * decoder A)) k raw get set (dec : decoder B) cur b :
  find_field fields k = Some (dec_part get set dec) → dec raw (get cur) = Some b →
  dec_field fields (Some cur) (k, raw) = Some (set b cur).
Proof. intros Hf Hd. unfold dec_field. simpl. rewrite Hf. unfold dec_part. by rewrite Hd. Qed.

(** Text that is not JSON is an error of every struct. *)
Lemma dec_struct_invalid {A} (fields : list (string * decoder A)) raw cur :
  json_parse raw = None → dec_struct fields raw cur = None.
Proof. intros H. unfold dec_struct. by rewrite H. Qed.

Lemma foldl_dec_None {A} (fields : list (string * decoder A)) l : foldl (dec_field fields) None l = None.
Proof. by induction l. Qed.

(** What every decoder of a struct leaves alone, decoding leaves alone. *)
Lemma dec_fields_keep {A B} (P : A → B) (fields : list (string * decoder A)) l cur a :
  Forall (λ kv, ∀ dec cur a, find_field fields kv.1 = Some dec → dec kv.2 cur = Some a → P a = P cur) l →
  foldl (dec_field fields) (Some cur) l = Some a → P a = P cur.
Proof.
  intros Hall. revert cur. induction Hall as [|kv l Hkv _ IH]; intros cur; [by intros [= <-]|]. simpl.
  destruct (find_field fields kv.1) as [dec|] eqn:E; [|apply IH].
  destruct (dec kv.2 cur) as [cur'|] eqn:E'; [|by rewrite foldl_dec_None].
  intros H%IH. rewrite H. by eapply Hkv.
Qed.

(** ** Slices and pointers *)

(** The elements, each decoded into the one it takes the place of. *)
Fixpoint dec_elems {A} (dec : decoder A) (zero : A) (raws : list string) (cur : list A) : option (list A) :=
  match raws with
  | [] => Some []
  | raw :: raws' =>
      x ← dec raw (default zero (head cur));
      cons x <$> dec_elems dec zero raws' (tail cur)
  end.

(** A slice: null empties it. Memory beyond its length, which Go may use
    again when a key comes for the third time, is taken to be zero. *)
Definition dec_slice {A} (dec : decoder A) (zero : A) : decoder (list A) := λ raw cur,
  match json_parse raw with
  | Some JNull => Some []
  | Some (JArr _) => raws ← raw_array raw; dec_elems dec zero raws cur
  | _ => None
  end.

(** A pointer: null clears it. *)
Definition dec_ptr {A} (dec : decoder A) (zero : A) : decoder (option A) := λ raw cur,
  match json_parse raw with
  | Some JNull => Some None
  | _ => Some <$> dec raw (default zero cur)
  end.

Lemma dec_elems_fresh {A} (dec : decoder A) zero raws :
  dec_elems dec zero raws [] = mapM (λ raw, dec raw zero) raws.
Proof. induction raws as [|raw raws IH]; [done|]. simpl. rewrite IH. by destruct (dec raw zero), (mapM _ _). Qed.

(** An array that was printed is decoded element by element. *)
Lemma dec_slice_print {A} (dec : decoder A) zero l :
  Forall json_wf l → (json_depth (JArr l) <= maxNestingDepth)%N →
  dec_slice dec zero (json_print (JArr l)) [] = mapM (λ v, dec (json_print v) zero) l.
Proof.
  intros Hwf Hd. unfold dec_slice. rewrite parse_print by (done || by apply wf_arr). cbn [json_norm].
  rewrite raw_array_print by done. cbn [mbind option_bind]. rewrite dec_elems_fresh.
  clear. induction l as [|v l IH]; [done|]. simpl. by rewrite IH.
Qed.

(** ** Fields that are not there *)

(** Decoding leaves [P] alone. *)
Definition keeps {A B} (P : A → B) (dec : decoder A) : Prop := ∀ raw cur a, dec raw cur = Some a → P a = P cur.

Lemma keeps_part {A B C} (P : A → C) (get : A → B) set dec :
  (∀ x c, P (set x c) = P c) → keeps P (dec_part get set dec).
Proof. intros H raw cur a. unfold dec_part. destruct (dec raw (get cur)); [|done]. intros [= <-]. apply H. Qed.

Lemma find_field_elem {A} (fields : list (string * decoder A)) key dec :
  find_field fields key = Some dec → ∃ name, (name, dec) ∈ fields ∧ fold_name name = fold_name key.
Proof.
  unfold find_field. destruct (filter (λ f, f.1 = key) fields) as [|f l] eqn:E1.
  - destruct (filter (λ f, fold_name f.1 = fold_name key) fields) as [|f l] eqn:E2; [done|]. intros [= <-].
    assert (f ∈ filter (λ f, fold_name f.1 = fold_name key) fields) as Hf by (rewrite E2; by left).
    apply list_elem_of_filter in Hf as [Hk Hf]. exists f.1. by destruct f.
  - intros [= <-]. assert (f ∈ filter (λ f, f.1 = key) fields) as Hf by (rewrite E1; by left).
    apply list_elem_of_filter in Hf as [Hk Hf]. exists f.1. destruct f. simpl in *. by subst.
Qed.

(** What only fields of other names set, decoding leaves alone. *)
Lemma dec_fields_other {A B} (P : A → B) (fields : list (string * decoder A)) l cur a :
  Forall (λ f, fold_name f.1 ∈ (λ kv, fold_name kv.1) <$> l → keeps P f.2) fields →
  foldl (dec_field fields) (Some cur) l = Some a → P a = P cur.
Proof.
  intros Hf. apply dec_fields_keep, list.Forall_forall. intros kv Hkv dec c x (name & Hin & Hn)%find_field_elem.
  rewrite list.Forall_forall in Hf. apply (Hf _ Hin). simpl. rewrite Hn.
  by apply (list_elem_of_fmap_2 (λ kv : string * string, fold_name kv.1)).
Qed.

Lemma dec_printed_other {A B} (P : A → B) (fields : list (string * decoder A)) (l : list (string * json)) cur a :
  Forall (λ f, fold_name f.1 ∈ (λ k, fold_name (to_valid_utf8 k)) <$> l.*1 → keeps P f.2) fields →
  foldl (dec_field fields) (Some cur) (map (λ kv, (to_valid_utf8 kv.1, json_print kv.2)) l) = Some a → P a = P cur.
Proof.
  intros Hf. apply dec_fields_other. eapply Forall_impl; [exact Hf|]. cbv beta. intros f Hk Hin. apply Hk.
  clear -Hin. induction l as [|kv l IH]; [done|]. simpl in *. apply elem_of_cons in Hin as [->|Hin]; [by left|right; auto].
Qed.
