(* ===== verification/Unicode.v ===== *)
(** * Unicode

    Letter case as Go's [unicode] and [strings] packages have it: the
    simple lower case mapping of the Unicode Character Database, and
    [strings.ToLower], which maps the runes of a string and replaces the
    bytes that are not part of one. *)
From S2P Require Import Prelude Json JsonParse.

(** The code points that have another one as their lower case: first and
    last of a run, its stride, and the distance to the lower case. *)
Definition lower_runs : list (Z * Z * Z * Z) :=
  [
    (65, 90, 1, 32); (192, 214, 1, 32); (216, 222, 1, 32); (256, 302, 2, 1); (304, 304, 1, -199);
    (306, 310, 2, 1); (313, 327, 2, 1); (330, 374, 2, 1); (376, 376, 1, -121); (377, 381, 2, 1);
    (385, 385, 1, 210); (386, 388, 2, 1); (390, 390, 1, 206); (391, 391, 1, 1); (393, 394, 1, 205);
    (395, 395, 1, 1); (398, 398, 1, 79); (399, 399, 1, 202); (400, 400, 1, 203); (401, 401, 1, 1);
    (403, 403, 1, 205); (404, 404, 1, 207); (406, 406, 1, 211); (407, 407, 1, 209); (408, 408, 1, 1);
    (412, 412, 1, 211); (413, 413, 1, 213); (415, 415, 1, 214); (416, 420, 2, 1); (422, 422, 1, 218);
    (423, 423, 1, 1); (425, 425, 1, 218); (428, 428, 1, 1); (430, 430, 1, 218); (431, 431, 1, 1);
    (433, 434, 1, 217); (435, 437, 2, 1); (439, 439, 1, 219); (440, 440, 1, 1); (444, 444, 1, 1);
    (452, 452, 1, 2); (453, 453, 1, 1); (455, 455, 1, 2); (456, 456, 1, 1); (458, 458, 1, 2); (459, 475, 2, 1);
    (478, 494, 2, 1); (497, 497, 1, 2); (498, 500, 2, 1); (502, 502, 1, -97); (503, 503, 1, -56);
    (504, 542, 2, 1); (544, 544, 1, -130); (546, 562, 2, 1); (570, 570, 1, 10795); (571, 571, 1, 1);
    (573, 573, 1, -163); (574, 574, 1, 10792); (577, 577, 1, 1); (579, 579, 1, -195); (580, 580, 1, 69);
    (581, 581, 1, 71); (582, 590, 2, 1); (880, 882, 2, 1); (886, 886, 1, 1); (895, 895, 1, 116);
    (902, 902, 1, 38); (904, 906, 1, 37); (908, 908, 1, 64); (910, 911, 1, 63); (913, 929, 1, 32);
    (931, 939, 1, 32); (975, 975, 1, 8); (984, 1006, 2, 1); (1012, 1012, 1, -60); (1015, 1015, 1, 1);
    (1017, 1017, 1, -7); (1018, 1018, 1, 1); (1021, 1023, 1, -130); (1024, 1039, 1, 80); (1040, 1071, 1, 32);
    (1120, 1152, 2, 1); (1162, 1214, 2, 1); (1216, 1216, 1, 15); (1217, 1229, 2, 1); (1232, 1326, 2, 1);
    (1329, 1366, 1, 48); (4256, 4293, 1, 7264); (4295, 4295, 1, 7264); (4301, 4301, 1, 7264);
    (5024, 5103, 1, 38864); (5104, 5109, 1, 8); (7312, 7354, 1, -3008); (7357, 7359, 1, -3008);
    (7680, 7828, 2, 1); (7838, 7838, 1, -7615); (7840, 7934, 2, 1); (7944, 7951, 1, -8); (7960, 7965, 1, -8);
    (7976, 7983, 1, -8); (7992, 7999, 1, -8); (8008, 8013, 1, -8); (8025, 8031, 2, -8); (8040, 8047, 1, -8);
    (8072, 8079, 1, -8); (8088, 8095, 1, -8); (8104, 8111, 1, -8); (8120, 8121, 1, -8); (8122, 8123, 1, -74);
    (8124, 8124, 1, -9); (8136, 8139, 1, -86); (8140, 8140, 1, -9); (8152, 8153, 1, -8); (8154, 8155, 1, -100);
    (8168, 8169, 1, -8); (8170, 8171, 1, -112); (8172, 8172, 1, -7); (8184, 8185, 1, -128);
    (8186, 8187, 1, -126); (8188, 8188, 1, -9); (8486, 8486, 1, -7517); (8490, 8490, 1, -8383);
    (8491, 8491, 1, -8262); (8498, 8498, 1, 28); (8544, 8559, 1, 16); (8579, 8579, 1, 1); (9398, 9423, 1, 26);
    (11264, 11311, 1, 48); (11360, 11360, 1, 1); (11362, 11362, 1, -10743); (11363, 11363, 1, -3814);
    (11364, 11364, 1, -10727); (11367, 11371, 2, 1); (11373, 11373, 1, -10780); (11374, 11374, 1, -10749);
    (11375, 11375, 1, -10783); (11376, 11376, 1, -10782); (11378, 11378, 1, 1); (11381, 11381, 1, 1);
    (11390, 11391, 1, -10815); (11392, 11490, 2, 1); (11499, 11501, 2, 1); (11506, 11506, 1, 1);
    (42560, 42604, 2, 1); (42624, 42650, 2, 1); (42786, 42798, 2, 1); (42802, 42862, 2, 1);
    (42873, 42875, 2, 1); (42877, 42877, 1, -35332); (42878, 42886, 2, 1); (42891, 42891, 1, 1);
    (42893, 42893, 1, -42280); (42896, 42898, 2, 1); (42902, 42920, 2, 1); (42922, 42922, 1, -42308);
    (42923, 42923, 1, -42319); (42924, 42924, 1, -42315); (42925, 42925, 1, -42305); (42926, 42926, 1, -42308);
    (42928, 42928, 1, -42258); (42929, 42929, 1, -42282); (42930, 42930, 1, -42261); (42931, 42931, 1, 928);
    (42932, 42946, 2, 1); (42948, 42948, 1, -48); (42949, 42949, 1, -42307); (42950, 42950, 1, -35384);
    (42951, 42953, 2, 1); (42960, 42960, 1, 1); (42966, 42968, 2, 1); (42997, 42997, 1, 1);
    (65313, 65338, 1, 32); (66560, 66599, 1, 40); (66736, 66771, 1, 40); (66928, 66938, 1, 39);
    (66940, 66954, 1, 39); (66956, 66962, 1, 39); (66964, 66965, 1, 39); (68736, 68786, 1, 64);
    (71840, 71871, 1, 32); (93760, 93791, 1, 32); (125184, 125217, 1, 34)
  ]%Z.

Definition in_run (r : Z) (x : Z * Z * Z * Z) : bool :=
  let '(lo, hi, stride, _) := x in
  bool_decide (lo <= r <= hi)%Z && bool_decide ((r - lo) mod stride = 0)%Z.

(** [unicode.ToLower]. *)
Definition lower_rune (r : N) : N :=
  match filter (λ x, in_run (Z.of_N r) x = true) lower_runs with
  | (_, _, _, d) :: _ => Z.to_N (Z.of_N r + d)
  | [] => r
  end.

Definition byte_val (a : ascii) : N := N_of_ascii a.

(** The runes of a string, as [range] and [strings.Map] read them: U+FFFD
    for a byte that is not part of an encoding. *)
Fixpoint runes (s : string) : list N :=
  match s with
  | "" => []
  | String a s1 =>
      if byte_in 0 127 a then byte_val a :: runes s1 else
      match s1 with
      | String b s2 =>
          if is_rune2 a b then ((byte_val a mod 32) * 64 + byte_val b mod 64)%N :: runes s2 else
          match s2 with
          | String c s3 =>
              if is_rune3 a b c
              then ((byte_val a mod 16) * 4096 + (byte_val b mod 64) * 64 + byte_val c mod 64)%N :: runes s3 else
              match s3 with
              | String d s4 =>
                  if is_rune4 a b c d
                  then ((byte_val a mod 8) * 262144 + (byte_val b mod 64) * 4096
                        + (byte_val c mod 64) * 64 + byte_val d mod 64)%N :: runes s4
                  else 65533%N :: runes s1
              | "" => 65533%N :: runes s1
              end
          | "" => 65533%N :: runes s1
          end
      | "" => [65533%N]
      end
  end.

Definition string_of_runes (l : list N) : string := foldr (λ r s, encode_rune r +:+ s) "" l.

(** [strings.ToLower]. *)
Definition ToLower (s : string) : string := string_of_runes (lower_rune <$> runes s).

(** ** ASCII text *)

Definition is_ascii (s : string) : Prop := string_forallb (byte_in 0 127) s = true.

(** What lower case does to an ASCII byte. *)
Definition lower_byte (a : ascii) : ascii := if byte_in 65 90 a then ascii_of_nat (nat_of_ascii a + 32) else a.

Fixpoint string_map (f : ascii → ascii) (s : string) : string :=
  match s with "" => "" | String a s' => String (f a) (string_map f s') end.

Lemma lower_ascii_byte a : byte_in 0 127 a = true → encode_rune (lower_rune (byte_val a)) = String (lower_byte a) "".
Proof. destruct a as [[][][][][][][][]]; vm_compute; congruence. Qed.

Lemma ToLower_ascii s : is_ascii s → ToLower s = string_map lower_byte s.
Proof.
  unfold ToLower, is_ascii. induction s as [|a s IH]; [done|]. cbn [string_forallb runes]. rewrite andb_true_iff.
  intros [Ha Hs]. rewrite Ha. cbn [fmap list_fmap string_of_runes foldr string_map].
  rewrite lower_ascii_byte by done. specialize (IH Hs). unfold string_of_runes in IH. by rewrite IH.
Qed.
