(* ===== verification/AuditKeyring.v ===== *)
(** * AuditKeyring

    The HMAC key material of the audit chain
    (internal/server/storage/audit_keyring.go): the active key that
    authenticates new rows and the retired keys kept to verify old ones. *)
From S2P Require Import Prelude.

Inductive keyring_error :=
| KeyIDRequired
| KeyIDReserved
| NoKeys
| ActiveKeyMissing (id : string)
| EmptyKeyID
| KeyTooShort (id : string) (len : nat)
| NotFileBacked
| ReloadDropsKey (id : string)
| KeyringFile (msg : string).

Abbreviation keyset := (gmap string string).

Record AuditKeyring := mkAuditKeyring {
  kr_path : string;
  activeID : string;
  keys : gmap string string;
}.

Definition keyIDUnkeyed : string := "unkeyed".
Definition minAuditKeyBytes : nat := 16.

(** One iteration of the loop over the key set: [None] continues. Go
    visits the keys in an unspecified order, so which of several errors is
    reported is unspecified; the model visits them in the map's order. *)
Definition check_key (kv : string * string) : option keyring_error :=
  if decide (TrimSpace kv.1 = "") then Some EmptyKeyID
  else if decide (kv.1 = keyIDUnkeyed) then Some KeyIDReserved
  else if decide (String.length kv.2 < minAuditKeyBytes)
       then Some (KeyTooShort kv.1 (String.length kv.2))
  else None.

Definition validateKeyset (active : string) (ks : keyset) : option keyring_error :=
  if decide (TrimSpace active = "") then Some KeyIDRequired
  else if decide (active = keyIDUnkeyed) then Some KeyIDReserved
  else if decide (ks = ∅) then Some NoKeys
  else match ks !! active with
       | None => Some (ActiveKeyMissing active)
       | Some _ => head (omap check_key (map_to_list ks))
       end.

Definition NewAuditKeyring (active : string) (ks : keyset) : result keyring_error AuditKeyring :=
  match validateKeyset active ks with
  | Some e => Err e
  | None => Ok (mkAuditKeyring "" active ks)
  end.

(** [readKeyringFile] as the caller sees it: the active id and the keys of
    the file, or why it cannot be read. *)
Abbreviation keyring_file := (result keyring_error (string * keyset)).

Definition LoadAuditKeyring (path : string) (file : keyring_file) : result keyring_error AuditKeyring :=
  match file with
  | Err e => Err e
  | Ok (active, ks) =>
      match NewAuditKeyring active ks with
      | Err e => Err e
      | Ok kr => Ok (mkAuditKeyring path (activeID kr) (keys kr))
      end
  end.

(** [Reload]: the keyring after the call, and its error. *)
Definition Reload (file : keyring_file) (kr : AuditKeyring) : option keyring_error * AuditKeyring :=
  if decide (kr_path kr = "") then (Some NotFileBacked, kr)
  else match file with
       | Err e => (Some e, kr)
       | Ok (active, ks) =>
           match validateKeyset active ks with
           | Some e => (Some e, kr)
           | None =>
               match filter (λ id, ks !! id = None) (map_to_list (keys kr)).*1 with
               | id :: _ => (Some (ReloadDropsKey id), kr)
               | [] => (None, mkAuditKeyring (kr_path kr) active ks)
               end
           end
       end.

(** [active]: the key new rows are authenticated under; reading an absent
    map entry gives the empty byte string. *)
Definition active (kr : AuditKeyring) : string * string :=
  (activeID kr, default "" (keys kr !! activeID kr)).

Definition lookup_key (kr : AuditKeyring) (id : string) : option string := keys kr !! id.

Definition Snapshot (kr : AuditKeyring) : keyset := keys kr.

(** ** Invariant *)

(** What every keyring in use satisfies: the active key is one of the
    keys, and no key is short, unnamed or named like the sentinel of
    unkeyed rows. *)
Record keyring_ok (kr : AuditKeyring) : Prop := {
  ok_active : ∃ k, keys kr !! activeID kr = Some k;
  ok_len : ∀ id k, keys kr !! id = Some k → minAuditKeyBytes ≤ String.length k;
  ok_id : ∀ id k, keys kr !! id = Some k → id ≠ "" ∧ id ≠ keyIDUnkeyed;
}.

Lemma head_omap_None {A B} (f : A → option B) l :
  head (omap f l) = None ↔ ∀ x, x ∈ l → f x = None.
Proof.
  induction l as [|x l IH]; csimpl; [set_solver|].
  destruct (f x) eqn:E; csimpl.
  - split; [done|]. intros H. rewrite <-E, H by set_solver. done.
  - rewrite IH. set_solver.
Qed.

Lemma check_key_None id k :
  check_key (id, k) = None ↔
  TrimSpace id ≠ "" ∧ id ≠ keyIDUnkeyed ∧ minAuditKeyBytes ≤ String.length k.
Proof. unfold check_key; simpl. repeat case_decide; naive_solver lia. Qed.

Lemma validateKeyset_None active ks :
  validateKeyset active ks = None ↔
  TrimSpace active ≠ "" ∧ active ≠ keyIDUnkeyed ∧ is_Some (ks !! active) ∧
  ∀ id k, ks !! id = Some k →
    TrimSpace id ≠ "" ∧ id ≠ keyIDUnkeyed ∧ minAuditKeyBytes ≤ String.length k.
Proof.
  unfold validateKeyset.
  case_decide as H1; [naive_solver|]. case_decide as H2; [naive_solver|].
  case_decide as H3; [subst; rewrite lookup_empty; naive_solver|].
  destruct (ks !! active) as [k|] eqn:Hk; [|naive_solver].
  rewrite head_omap_None. split.
  - intros H. repeat split; eauto; apply (check_key_None id k0), H; by apply elem_of_map_to_list.
  - intros (_ & _ & _ & H) [id k'] ?%elem_of_map_to_list. by apply check_key_None, H.
Qed.

Lemma validateKeyset_ok path active ks :
  validateKeyset active ks = None → keyring_ok (mkAuditKeyring path active ks).
Proof.
  intros (H1 & H2 & [k Hk] & H)%validateKeyset_None. split; simpl; [by exists k|naive_solver|].
  intros id k' (Hs & ? & ?)%H. split; [|done]. intros ->. by apply Hs.
Qed.

Lemma active_key_nonempty kr :
  keyring_ok kr → (active kr).2 ≠ "" ∧ keys kr !! (active kr).1 = Some (active kr).2.
Proof.
  intros [[k Hk] Hlen _]. unfold active; simpl. rewrite Hk; simpl. split; [|done].
  intros ->. apply Hlen in Hk. by compute in Hk; lia.
Qed.

(** A reload keeps the keyring sound whatever the file holds, changes
    nothing when it reports an error, and never loses a key id. *)
Theorem reload_keeps_ids file kr e kr' :
  keyring_ok kr → Reload file kr = (e, kr') →
  keyring_ok kr' ∧ (e ≠ None → kr' = kr) ∧
  (∀ id, is_Some (keys kr !! id) → is_Some (keys kr' !! id)).
Proof.
  intros Hok H. unfold Reload in H.
  destruct (decide (kr_path kr = "")); [by simplify_eq|].
  destruct file as [[a ks]|]; [|by simplify_eq].
  destruct (validateKeyset a ks) eqn:Hval; [by simplify_eq|].
  destruct (filter _ _) as [|id l] eqn:Hf; simplify_eq; [|done].
  split_and!; [by apply validateKeyset_ok|done|]. intros id [k Hk]. simpl.
  destruct (ks !! id) eqn:E; [by eexists|].
  assert (id ∈ filter (λ id, ks !! id = None) (map_to_list (keys kr)).*1) as Hin.
  { apply list_elem_of_filter. split; [done|]. apply list_elem_of_fmap. exists (id, k).
    split; [done|]. by apply elem_of_map_to_list. }
  rewrite Hf in Hin. by apply not_elem_of_nil in Hin.
Qed.

Lemma reload_keeps_ids_witness :
  let kr := mkAuditKeyring "keys.json" "a" {["a" := "0123456789abcdef"]} in
  let kr' := mkAuditKeyring "keys.json" "b" (<["b" := "fedcba9876543210"]> {["a" := "0123456789abcdef"]}) in
  keyring_ok kr' ∧ (∀ id, is_Some (keys kr !! id) → is_Some (keys kr' !! id)).
Proof.
  intros kr kr'.
  destruct (reload_keeps_ids (Ok ("b", <["b" := "fedcba9876543210"]> {["a" := "0123456789abcdef"]})) kr None kr')
    as (Hok & _ & Hids).
  - apply validateKeyset_ok. vm_compute. reflexivity.
  - vm_compute. reflexivity.
  - exact (conj Hok Hids).
Defined.

(** Only the ids are compared: a file that gives a known id another secret
    is loaded, and the secret that rows were authenticated under is gone. *)
Theorem reload_replaces_secret :
  let kr := mkAuditKeyring "keys.json" "a" {["a" := "0123456789abcdef"]} in
  let '(e, kr') := Reload (Ok ("a", {["a" := "fedcba9876543210"]})) kr in
  e = None ∧ keys kr !! "a" = Some "0123456789abcdef" ∧ keys kr' !! "a" = Some "fedcba9876543210".
Proof. vm_compute. by repeat split. Qed.
