(* ===== verification/Store.v ===== *)
(** * Store

    The control plane's persistence layer (internal/server/storage): the
    database tables of sqlite.go's schema, the [Store] value and its
    leader state, and the monad in which the store's methods are written.

    A statement sent to the database can fail, and a commit can fail after
    it took effect (the connection is lost before the acknowledgement), so
    every run is given a schedule of faults, one entry per statement; the
    empty schedule is the run in which nothing fails. A transaction is run
    on the database alone, and its effect is kept only when it commits. *)
From S2P Require Import Prelude AuditKeyring.

(** ** Errors *)

Inductive error :=
| ErrNotLeader
| ErrNotFound
| ErrAlreadyExists
| ErrParentNotFound (parent : string)
| ErrHasChildren
| ErrHasGroups
| ErrChanged
| ErrUnknownMember (user : string)
| ErrSCIMManaged (idp : string)
| ErrAuditRowUnverified (seq : Z)
| ErrNoUpstreamCAKey
| ErrIO (what msg : string)
| ErrInvalid (what value : string)
| ErrSCIMBadRequest (scimType msg : string)
| ErrSCIMConfig (msg : string)
| ErrMsg (msg : string).

#[global] Instance error_eq_dec : EqDecision error.
Proof. solve_decision. Defined.

(** ** Tables *)

Record domain_row := mkDomainRow {
  dr_parent : string;
  dr_description : string;
  dr_created_at : Z;
}.

Record group_row := mkGroupRow {
  gr_description : string;
  gr_created_at : Z;
}.

Record audit_row := mkAuditRow {
  ar_seq : Z;
  ar_ts : Z;
  ar_kind : string;
  ar_actor : string;
  ar_subject : string;
  ar_decision : string;
  ar_payload : string;
  ar_prev_hash : string;
  ar_hash : string;
  ar_key_id : string;
}.

Record once_row := mkOnceRow {
  or_digest : string;
  or_created_at : Z;
}.

Record forward_row := mkForwardRow {
  fr_last_seq : Z;
  fr_updated_at : Z;
}.

Record policy_row := mkPolicyRow {
  pr_text : string;
  pr_version : Z;
  pr_created_by : string;
  pr_created_at : Z;
  pr_updated_by : string;
  pr_updated_at : Z;
}.

Record scim_user_row := mkScimUserRow {
  su_user_name : string;
  su_user_name_lc : string;
  su_external_id : string;
  su_display_name : string;
  su_active : Z;
  su_principal : string;
  su_created_at : Z;
  su_updated_at : Z;
}.

Record scim_group_row := mkScimGroupRow {
  sg_display_name : string;
  sg_external_id : string;
  sg_domain : string;
  sg_grp : string;
  sg_created_at : Z;
  sg_updated_at : Z;
}.

Record upstream_ca_row := mkUpstreamCARow {
  uc_der : string;
  uc_kept_at : Z;
  uc_kept_until : Z;
  uc_saved_at : Z;
  uc_key_id : string;
  uc_mac : string;
}.

Record bundle_sequence_row := mkBundleSequenceRow {
  bs_seq : Z;
  bs_digest : string;
  bs_updated_at : Z;
}.

(** The database. A table with a primary key is a map from the key, or a
    set when the key is the whole row; [audit_log] is the list of its rows
    in primary key order, with the counter its [AUTOINCREMENT] or
    [BIGSERIAL] key is drawn from. *)
Record DB := mkDB {
  domains : gmap string domain_row;
  domain_admins : gset (string * string);
  groups : gmap (string * string) group_row;
  group_members : gmap (string * string * string) Z;
  scim_users : gmap (string * string) scim_user_row;
  scim_groups : gmap (string * string) scim_group_row;
  scim_members : gset (string * string * string);
  audit_log : list audit_row;
  audit_seq : Z;
  audit_once : gmap string once_row;
  audit_forward_state : gmap string forward_row;
  audit_meta : gmap string Z;
  policies : gmap string policy_row;
  upstream_cas : gmap (string * string * string) upstream_ca_row;
  bundle_sequence : gmap string bundle_sequence_row;
}.

Definition empty_db : DB := mkDB ∅ ∅ ∅ ∅ ∅ ∅ ∅ [] 0 ∅ ∅ ∅ ∅ ∅ ∅.

Definition set_domains v d := mkDB v (domain_admins d) (groups d) (group_members d) (scim_users d) (scim_groups d) (scim_members d) (audit_log d) (audit_seq d) (audit_once d) (audit_forward_state d) (audit_meta d) (policies d) (upstream_cas d) (bundle_sequence d).
Definition set_domain_admins v d := mkDB (domains d) v (groups d) (group_members d) (scim_users d) (scim_groups d) (scim_members d) (audit_log d) (audit_seq d) (audit_once d) (audit_forward_state d) (audit_meta d) (policies d) (upstream_cas d) (bundle_sequence d).
Definition set_groups v d := mkDB (domains d) (domain_admins d) v (group_members d) (scim_users d) (scim_groups d) (scim_members d) (audit_log d) (audit_seq d) (audit_once d) (audit_forward_state d) (audit_meta d) (policies d) (upstream_cas d) (bundle_sequence d).
Definition set_group_members v d := mkDB (domains d) (domain_admins d) (groups d) v (scim_users d) (scim_groups d) (scim_members d) (audit_log d) (audit_seq d) (audit_once d) (audit_forward_state d) (audit_meta d) (policies d) (upstream_cas d) (bundle_sequence d).
Definition set_scim_users v d := mkDB (domains d) (domain_admins d) (groups d) (group_members d) v (scim_groups d) (scim_members d) (audit_log d) (audit_seq d) (audit_once d) (audit_forward_state d) (audit_meta d) (policies d) (upstream_cas d) (bundle_sequence d).
Definition set_scim_groups v d := mkDB (domains d) (domain_admins d) (groups d) (group_members d) (scim_users d) v (scim_members d) (audit_log d) (audit_seq d) (audit_once d) (audit_forward_state d) (audit_meta d) (policies d) (upstream_cas d) (bundle_sequence d).
Definition set_scim_members v d := mkDB (domains d) (domain_admins d) (groups d) (group_members d) (scim_users d) (scim_groups d) v (audit_log d) (audit_seq d) (audit_once d) (audit_forward_state d) (audit_meta d) (policies d) (upstream_cas d) (bundle_sequence d).
Definition set_audit_log v d := mkDB (domains d) (domain_admins d) (groups d) (group_members d) (scim_users d) (scim_groups d) (scim_members d) v (audit_seq d) (audit_once d) (audit_forward_state d) (audit_meta d) (policies d) (upstream_cas d) (bundle_sequence d).
Definition set_audit_seq v d := mkDB (domains d) (domain_admins d) (groups d) (group_members d) (scim_users d) (scim_groups d) (scim_members d) (audit_log d) v (audit_once d) (audit_forward_state d) (audit_meta d) (policies d) (upstream_cas d) (bundle_sequence d).
Definition set_audit_once v d := mkDB (domains d) (domain_admins d) (groups d) (group_members d) (scim_users d) (scim_groups d) (scim_members d) (audit_log d) (audit_seq d) v (audit_forward_state d) (audit_meta d) (policies d) (upstream_cas d) (bundle_sequence d).
Definition set_audit_forward_state v d := mkDB (domains d) (domain_admins d) (groups d) (group_members d) (scim_users d) (scim_groups d) (scim_members d) (audit_log d) (audit_seq d) (audit_once d) v (audit_meta d) (policies d) (upstream_cas d) (bundle_sequence d).
Definition set_audit_meta v d := mkDB (domains d) (domain_admins d) (groups d) (group_members d) (scim_users d) (scim_groups d) (scim_members d) (audit_log d) (audit_seq d) (audit_once d) (audit_forward_state d) v (policies d) (upstream_cas d) (bundle_sequence d).
Definition set_policies v d := mkDB (domains d) (domain_admins d) (groups d) (group_members d) (scim_users d) (scim_groups d) (scim_members d) (audit_log d) (audit_seq d) (audit_once d) (audit_forward_state d) (audit_meta d) v (upstream_cas d) (bundle_sequence d).
Definition set_upstream_cas v d := mkDB (domains d) (domain_admins d) (groups d) (group_members d) (scim_users d) (scim_groups d) (scim_members d) (audit_log d) (audit_seq d) (audit_once d) (audit_forward_state d) (audit_meta d) (policies d) v (bundle_sequence d).
Definition set_bundle_sequence v d := mkDB (domains d) (domain_admins d) (groups d) (group_members d) (scim_users d) (scim_groups d) (scim_members d) (audit_log d) (audit_seq d) (audit_once d) (audit_forward_state d) (audit_meta d) (policies d) (upstream_cas d) v.

(** ** The store *)

Inductive driverKind := driverSQLite | driverPostgres.

#[global] Instance driverKind_eq_dec : EqDecision driverKind.
Proof. solve_decision. Defined.

Record leaderState := mkLeaderState {
  enabled : bool;
  isLeader : bool;
}.

Record Store := mkStore {
  db : DB;
  driver : driverKind;
  leader : leaderState;
  auditKeyring : option AuditKeyring;
  keyedEpochRecorded : bool;
  oncePrunedAt : Z;
}.

Definition set_db v s := mkStore v (driver s) (leader s) (auditKeyring s) (keyedEpochRecorded s) (oncePrunedAt s).
Definition set_auditKeyring v s := mkStore (db s) (driver s) (leader s) v (keyedEpochRecorded s) (oncePrunedAt s).
Definition set_keyedEpochRecorded v s := mkStore (db s) (driver s) (leader s) (auditKeyring s) v (oncePrunedAt s).
Definition set_oncePrunedAt v s := mkStore (db s) (driver s) (leader s) (auditKeyring s) (keyedEpochRecorded s) v.

(** A store as [openSQLite] or [openPostgres] returns it on an empty
    database. *)
Definition new_store (drv : driverKind) : Store :=
  mkStore empty_db drv (mkLeaderState false false) None false zero_time.

Definition IsLeader (s : Store) : bool :=
  if enabled (leader s) then isLeader (leader s) else true.

(** ** The monad of the store's methods *)

(** How one database statement fails; [Lost] is a commit that took effect
    and whose acknowledgement was lost. *)
Inductive fault := Fail (msg : string) | Lost (msg : string).

Definition fault_msg (f : fault) : string :=
  match f with Fail m | Lost m => m end.

Abbreviation faults := (list (option fault)).

(** A computation over a state that can fail, run under a fault schedule. *)
Definition GoM (S A : Type) : Type := S * faults → result error A * (S * faults).

#[global] Instance GoM_ret S : MRet (GoM S) := λ A a w, (Ok a, w).
#[global] Instance GoM_bind S : MBind (GoM S) := λ A B f m w,
  match m w with
  | (Ok a, w') => f a w'
  | (Err e, w') => (Err e, w')
  end.

Definition throw {S A} (e : error) : GoM S A := λ w, (Err e, w).
Definition gets {S A} (f : S → A) : GoM S A := λ w, (Ok (f w.1), w).
Definition modify {S} (f : S → S) : GoM S () := λ w, (Ok tt, (f w.1, w.2)).

(** Sending one statement: [fmt.Errorf("<what>: %w", err)] when it fails. *)
Definition io {S} (what : string) : GoM S () := λ w,
  match w.2 with
  | [] => (Ok tt, w)
  | None :: q => (Ok tt, (w.1, q))
  | Some f :: q => (Err (ErrIO what (fault_msg f)), (w.1, q))
  end.

(** A query, and a statement that changes the database. *)
Definition query {S A} (what : string) (f : S → A) : GoM S A := io what ;; gets f.
Definition exec {S} (what : string) (f : S → S) : GoM S () := io what ;; modify f.

(** An [INSERT] into a table with a primary key or unique index: [dup]
    tells whether the row collides with one already there. *)
Definition insert_row {S} (what : string) (dup : S → bool) (on_dup : error) (f : S → S) : GoM S () :=
  io what ;;
  clash ← gets dup;
  if (clash : bool) then throw on_dup else modify f.

(** [for _, x := range xs] over statements that may fail. *)
Fixpoint for_each {S A} (xs : list A) (f : A → GoM S ()) : GoM S () :=
  match xs with
  | [] => mret tt
  | x :: xs' => f x ;; for_each xs' f
  end.

(** [fmt.Errorf("<what>: %w", err)]. *)
Definition wrap_error (what : string) (e : error) : error :=
  match e with
  | ErrIO "" m => ErrIO what m
  | ErrIO w m => ErrIO (what +:+ ": " +:+ w) m
  | _ => e
  end.

(** Runs [m] and hands its error, if any, to [h]. *)
Definition catch {S A B} (m : GoM S A) (h : result error A → GoM S B) : GoM S B := λ w,
  let '(r, w') := m w in h r w'.

Abbreviation Tx := (GoM DB).
Abbreviation M := (GoM Store).

(** How a transaction's function leaves it: [Commit] ends in
    [tx.Commit()], [Return] returns without it, and the deferred
    [tx.Rollback()] discards what it wrote. *)
Inductive tx_end (A : Type) := Commit (a : A) | Return (a : A).
Arguments Commit {_} _.
Arguments Return {_} _.

(** A rolled back database. A Postgres sequence keeps the values drawn
    from it. *)
Definition rollback (drv : driverKind) (before after : DB) : DB :=
  match drv with
  | driverSQLite => before
  | driverPostgres => set_audit_seq (Z.max (audit_seq before) (audit_seq after)) before
  end.

(** [s.db.BeginTx], the transaction's function, and [tx.Commit]. *)
Definition with_tx {A} (lbegin lcommit : string) (body : Tx (tx_end A)) : M A := λ '(s, q),
  match io lbegin (db s, q) with
  | (Err e, (_, q1)) => (Err e, (s, q1))
  | (Ok _, (_, q1)) =>
      match body (db s, q1) with
      | (Err e, (d, q2)) => (Err e, (set_db (rollback (driver s) (db s) d) s, q2))
      | (Ok (Return a), (d, q2)) => (Ok a, (set_db (rollback (driver s) (db s) d) s, q2))
      | (Ok (Commit a), (d, q2)) =>
          match q2 with
          | [] => (Ok a, (set_db d s, []))
          | None :: q3 => (Ok a, (set_db d s, q3))
          | Some (Lost m) :: q3 => (Err (ErrIO lcommit m), (set_db d s, q3))
          | Some (Fail m) :: q3 =>
              (Err (ErrIO lcommit m), (set_db (rollback (driver s) (db s) d) s, q3))
          end
      end
  end.

(** Writes are refused on a replica that is not the leader. *)
Definition leader_only {A} (m : M A) : M A :=
  ok ← gets IsLeader;
  if (ok : bool) then m else throw ErrNotLeader.

(** A statement outside a transaction commits by itself, and like a commit
    it can be lost. [f] gives what the statement reports and what it
    leaves. *)
Definition statement {A} (what : string) (f : DB → A * DB) : M A := λ '(s, q),
  let done := set_db (f (db s)).2 s in
  match q with
  | [] => (Ok (f (db s)).1, (done, []))
  | None :: q' => (Ok (f (db s)).1, (done, q'))
  | Some (Lost m) :: q' => (Err (ErrIO what m), (done, q'))
  | Some (Fail m) :: q' => (Err (ErrIO what m), (s, q'))
  end.

Definition on_db {A} (what : string) (f : DB → A) : M A := query what (f ∘ db).

(** ** Reasoning about runs *)

Section runs.
Context {S : Type}.
Implicit Types w : S * faults.

Lemma bind_Ok {A B} (m : GoM S A) (f : A → GoM S B) w b w' :
  (m ≫= f) w = (Ok b, w') ↔ ∃ a w1, m w = (Ok a, w1) ∧ f a w1 = (Ok b, w').
Proof.
  unfold mbind, GoM_bind. destruct (m w) as [[a|e] w1]; naive_solver.
Qed.

Lemma ret_Ok {A} (a b : A) w w' : (mret a : GoM S A) w = (Ok b, w') ↔ a = b ∧ w = w'.
Proof. unfold mret, GoM_ret. naive_solver. Qed.

Lemma throw_Ok {A} e w (b : A) w' : (throw e : GoM S A) w = (Ok b, w') ↔ False.
Proof. unfold throw. naive_solver. Qed.

Lemma gets_Ok {A} (f : S → A) w b w' : gets f w = (Ok b, w') ↔ b = f w.1 ∧ w' = w.
Proof. unfold gets. naive_solver. Qed.

Lemma modify_Ok (f : S → S) w b w' : modify f w = (Ok b, w') ↔ w' = (f w.1, w.2).
Proof. unfold modify. destruct b. naive_solver. Qed.

Lemma io_state what w : (io what w).2.1 = w.1.
Proof. unfold io. by destruct w as [s [|[f|] q]]. Qed.

Lemma io_Ok what w b w' : io what w = (Ok b, w') → w'.1 = w.1.
Proof. intros H. pose proof (io_state what w) as Hs. by rewrite H in Hs. Qed.

Lemma query_Ok {A} what (f : S → A) w b w' :
  query what f w = (Ok b, w') → b = f w.1 ∧ w'.1 = w.1.
Proof.
  intros ([] & w1 & Hio & [-> ->]%gets_Ok)%bind_Ok. apply io_Ok in Hio. by rewrite Hio.
Qed.

Lemma exec_Ok what (f : S → S) w b w' :
  exec what f w = (Ok b, w') → w'.1 = f w.1.
Proof.
  intros ([] & w1 & Hio & ->%modify_Ok)%bind_Ok. apply io_Ok in Hio. by rewrite Hio.
Qed.

Lemma catch_Ok {A B} (m : GoM S A) (h : result error A → GoM S B) w b w' :
  catch m h w = (Ok b, w') → ∃ r w1, m w = (r, w1) ∧ h r w1 = (Ok b, w').
Proof. unfold catch. destruct (m w) as [r w1]. eauto. Qed.

Lemma insert_row_Ok what dup e (f : S → S) w b w' :
  insert_row what dup e f w = (Ok b, w') → dup w.1 = false ∧ w'.1 = f w.1.
Proof.
  intros ([] & w1 & Hio & (c & w2 & [-> ->]%gets_Ok & Hm)%bind_Ok)%bind_Ok.
  apply io_Ok in Hio. destruct (dup w1.1) eqn:E; [by apply throw_Ok in Hm|].
  apply modify_Ok in Hm as ->. by rewrite <-Hio.
Qed.

(** Runs in which nothing fails. *)
Lemma bind_run {A B} (m : GoM S A) (f : A → GoM S B) w a w1 :
  m w = (Ok a, w1) → (m ≫= f) w = f a w1.
Proof. intros H. unfold mbind, GoM_bind. by rewrite H. Qed.

Lemma bind_run_Err {A B} (m : GoM S A) (f : A → GoM S B) w e w1 :
  m w = (Err e, w1) → (m ≫= f) w = (Err e, w1).
Proof. intros H. unfold mbind, GoM_bind. by rewrite H. Qed.

Lemma query_run {A} what (f : S → A) s : query what f (s, []) = (Ok (f s), (s, [])).
Proof. done. Qed.

Lemma exec_run what (f : S → S) s : exec what f (s, []) = (Ok tt, (f s, [])).
Proof. done. Qed.

Lemma modify_run (f : S → S) s q : modify f (s, q) = (Ok tt, (f s, q)).
Proof. done. Qed.

Lemma insert_row_run what dup e (f : S → S) s :
  dup s = false → insert_row what dup e f (s, []) = (Ok tt, (f s, [])).
Proof. intros H. unfold insert_row, mbind, GoM_bind, io, gets, modify; simpl. by rewrite H. Qed.

Lemma insert_row_dup what dup e (f : S → S) s :
  dup s = true → insert_row what dup e f (s, []) = (Err e, (s, [])).
Proof. intros H. unfold insert_row, mbind, GoM_bind, io, gets, throw; simpl. by rewrite H. Qed.

Lemma catch_run {A B} (m : GoM S A) (h : result error A → GoM S B) w r w1 :
  m w = (r, w1) → catch m h w = h r w1.
Proof. intros H. unfold catch. by rewrite H. Qed.

Lemma for_each_Ok_ind {A} (f : A → GoM S ()) (P : list A → S → Prop) xs w b w' :
  P xs w.1 →
  (∀ x xs' w1 w2, P (x :: xs') w1.1 → f x w1 = (Ok tt, w2) → P xs' w2.1) →
  for_each xs f w = (Ok b, w') → P [] w'.1.
Proof.
  intros HP Hstep. revert w HP. induction xs as [|x xs IH]; intros w HP; simpl.
  - by intros [_ ->]%ret_Ok.
  - intros ([] & w1 & Hx & Hrest)%bind_Ok. eauto.
Qed.
End runs.

Lemma statement_Ok {A} what (f : DB → A * DB) s q a s' q' :
  statement what f (s, q) = (Ok a, (s', q')) → a = (f (db s)).1 ∧ s' = set_db (f (db s)).2 s.
Proof. unfold statement. intros. repeat case_match; naive_solver. Qed.

(** Splits a successful run into the successful runs of its parts, and
    solves for the states between them. *)
Ltac run_split H :=
  lazymatch type of H with
  | (mbind _ _) _ = (Ok _, _) =>
      let a := fresh "a" in let s := fresh "s" in let q := fresh "q" in
      let H1 := fresh "Hrun" in let H2 := fresh "Hrun" in
      apply bind_Ok in H as (a & [s q] & H1 & H2); run_split H1; run_split H2
  | mret _ _ = (Ok _, _) => apply ret_Ok in H as [? ?]; simplify_eq/=
  | throw _ _ = (Ok _, _) => apply throw_Ok in H; destruct H
  | gets _ _ = (Ok _, _) => apply gets_Ok in H as [? ?]; simplify_eq/=
  | modify _ _ = (Ok _, _) => apply modify_Ok in H; simplify_eq/=
  | query _ _ _ = (Ok _, _) => apply query_Ok in H as [? ?]; simplify_eq/=
  | exec _ _ _ = (Ok _, _) => apply exec_Ok in H; simplify_eq/=
  | insert_row _ _ _ _ _ = (Ok _, _) => apply insert_row_Ok in H as [? ?]; simplify_eq/=
  | statement _ _ _ = (Ok _, _) => apply statement_Ok in H as [? ?]; simplify_eq/=
  | io _ _ = (Ok _, _) => apply io_Ok in H; simplify_eq/=
  | (if decide _ then _ else _) _ = (Ok _, _) => case_decide; run_split H
  | (if ?b then _ else _) _ = (Ok _, _) =>
      let E := fresh "E" in destruct b eqn:E; run_split H
  | (match ?x with _ => _ end) _ = (Ok _, _) =>
      let E := fresh "E" in destruct x eqn:E; run_split H
  | _ => idtac
  end.

(** One step of a run in which nothing fails. *)
Ltac run_step :=
  first [ erewrite bind_run by apply query_run
        | erewrite bind_run by apply exec_run
        | erewrite bind_run by apply modify_run ].

(** ** Transactions *)

(** [d'] is [d], up to sequence values a rolled back transaction drew. *)
Definition rolled_back (d d' : DB) : Prop :=
  ∃ n, (audit_seq d <= n)%Z ∧ d' = set_audit_seq n d.

Lemma set_audit_seq_id d : set_audit_seq (audit_seq d) d = d.
Proof. by destruct d. Qed.

Lemma rolled_back_refl d : rolled_back d d.
Proof. exists (audit_seq d). by rewrite set_audit_seq_id. Qed.

Lemma rollback_rolled_back drv d d' : rolled_back d (rollback drv d d').
Proof.
  destruct drv; simpl; [apply rolled_back_refl|].
  eexists. split; [|reflexivity]. lia.
Qed.

Lemma set_db_id s : set_db (db s) s = s.
Proof. by destruct s. Qed.

(** Every run of a transaction either leaves the tables as they were, or
    its function reached [Commit] and what it wrote is in force. *)
Lemma with_tx_cases {A} lb lc (body : Tx (tx_end A)) s q r s' q' :
  with_tx lb lc body (s, q) = (r, (s', q')) →
  (∃ d, s' = set_db d s ∧ rolled_back (db s) d ∧
        (∀ a, r = Ok a → ∃ w w', body (db s, w) = (Ok (Return a), w'))) ∨
  (∃ w d w' a, body (db s, w) = (Ok (Commit a), (d, w')) ∧ s' = set_db d s ∧
        (r = Ok a ∨ ∃ m, r = Err (ErrIO lc m))).
Proof.
  unfold with_tx, io; simpl. intros H.
  repeat case_match; simplify_eq/=;
    first [ right; by naive_solver
          | left; eexists; split_and!;
            [reflexivity|apply rollback_rolled_back|naive_solver]
          | left; exists (db s'); rewrite set_db_id; split_and!;
            [done|apply rolled_back_refl|naive_solver] ].
Qed.

Lemma rollback_id drv d d' : audit_seq d' = audit_seq d → rollback drv d d' = d.
Proof.
  intros H. destruct drv; [done|]. simpl. rewrite H, Z.max_id. apply set_audit_seq_id.
Qed.

Lemma with_tx_run_Commit {A} lb lc (body : Tx (tx_end A)) s a d :
  body (db s, []) = (Ok (Commit a), (d, [])) →
  with_tx lb lc body (s, []) = (Ok a, (set_db d s, [])).
Proof. intros H. unfold with_tx; simpl. by rewrite H. Qed.

Lemma with_tx_run_Err {A} lb lc (body : Tx (tx_end A)) s e d :
  body (db s, []) = (Err e, (d, [])) → audit_seq d = audit_seq (db s) →
  with_tx lb lc body (s, []) = (Err e, (s, [])).
Proof. intros H Hq. unfold with_tx; simpl. rewrite H, rollback_id by done. by rewrite set_db_id. Qed.

Lemma with_tx_run_Return {A} lb lc (body : Tx (tx_end A)) s a d :
  body (db s, []) = (Ok (Return a), (d, [])) → audit_seq d = audit_seq (db s) →
  with_tx lb lc body (s, []) = (Ok a, (s, [])).
Proof. intros H Hq. unfold with_tx; simpl. rewrite H, rollback_id by done. by rewrite set_db_id. Qed.

(** An invariant that does not bound the sequence counter from above
    survives rollbacks. *)
Class SeqStable (I : DB → Prop) : Prop :=
  seq_stable : ∀ d n, I d → (audit_seq d <= n)%Z → I (set_audit_seq n d).

Lemma rolled_back_inv (I : DB → Prop) `{!SeqStable I} d d' :
  rolled_back d d' → I d → I d'.
Proof. intros (n & Hn & ->) HI. by apply seq_stable. Qed.

(** A method keeps an invariant of the database whatever fails. *)
Definition preserves {A} (I : DB → Prop) (m : M A) : Prop :=
  ∀ s q, I (db s) → I (db (m (s, q)).2.1).

Definition commits_inv {A} (I : DB → Prop) (body : Tx (tx_end A)) : Prop :=
  ∀ d q a d' q', I d → body (d, q) = (Ok (Commit a), (d', q')) → I d'.

Lemma with_tx_preserves {A} (I : DB → Prop) `{!SeqStable I} lb lc (body : Tx (tx_end A)) :
  commits_inv I body → preserves I (with_tx lb lc body).
Proof.
  intros Hc s q HI. destruct (with_tx lb lc body (s, q)) as [r [s' q']] eqn:E; simpl.
  apply with_tx_cases in E as [(d & -> & Hrb & _)|(w & d & w' & a & Hb & -> & _)]; simpl.
  - by eapply rolled_back_inv.
  - by eapply Hc.
Qed.

Lemma bind_preserves {A B} (I : DB → Prop) (m : M A) (f : A → M B) :
  preserves I m → (∀ a, preserves I (f a)) → preserves I (m ≫= f).
Proof.
  intros Hm Hf s q HI. unfold mbind, GoM_bind.
  specialize (Hm s q HI). destruct (m (s, q)) as [[a|e] [s' q']]; simpl in *; [|done].
  by apply Hf.
Qed.

Lemma throw_preserves {A} (I : DB → Prop) e : preserves I (throw e : M A).
Proof. by intros s q HI. Qed.

Lemma ret_preserves {A} (I : DB → Prop) (a : A) : preserves I (mret a : M A).
Proof. by intros s q HI. Qed.

Lemma gets_preserves {A} (I : DB → Prop) (f : Store → A) : preserves I (gets f).
Proof. by intros s q HI. Qed.

Lemma io_preserves (I : DB → Prop) what : preserves I (io what : M ()).
Proof. intros s q HI. by rewrite io_state. Qed.

Lemma modify_preserves (I : DB → Prop) (f : Store → Store) :
  (∀ s, I (db s) → I (db (f s))) → preserves I (modify f).
Proof. intros Hf s q HI. simpl. auto. Qed.

Lemma query_preserves {A} (I : DB → Prop) what (f : Store → A) : preserves I (query what f).
Proof. intros s q HI. unfold query. apply bind_preserves; auto using io_preserves, gets_preserves. Qed.

Lemma exec_preserves (I : DB → Prop) what (f : Store → Store) :
  (∀ s, I (db s) → I (db (f s))) → preserves I (exec what f).
Proof. intros Hf. apply bind_preserves; auto using io_preserves, modify_preserves. Qed.

Lemma leader_only_preserves {A} (I : DB → Prop) (m : M A) :
  preserves I m → preserves I (leader_only m).
Proof. intros Hm. apply bind_preserves; [apply gets_preserves|]. intros []; [done|apply throw_preserves]. Qed.

Lemma statement_preserves {A} (I : DB → Prop) what (f : DB → A * DB) :
  (∀ d, I d → I (f d).2) → preserves I (statement what f).
Proof. intros Hf s q HI. destruct q as [|[[m|m]|] q]; simpl; auto. Qed.

Lemma statement_run {A} what (f : DB → A * DB) s :
  statement what f (s, []) = (Ok (f (db s)).1, (set_db (f (db s)).2 s, [])).
Proof. done. Qed.

Lemma on_db_preserves {A} (I : DB → Prop) what (f : DB → A) : preserves I (on_db what f).
Proof. apply query_preserves. Qed.

Lemma catch_preserves {A B} (I : DB → Prop) (m : M A) (h : result error A → M B) :
  preserves I m → (∀ r, preserves I (h r)) → preserves I (catch m h).
Proof.
  intros Hm Hh s q HI. unfold catch. specialize (Hm s q HI).
  destruct (m (s, q)) as [r [s' q']]. by apply Hh.
Qed.

#[export] Hint Resolve on_db_preserves throw_preserves ret_preserves gets_preserves io_preserves
  query_preserves leader_only_preserves with_tx_preserves : omega.

(** A method a follower refuses leaves everything as it was. *)
Lemma leader_only_follower {A} (m : M A) s q :
  IsLeader s = false → leader_only m (s, q) = (Err ErrNotLeader, (s, q)).
Proof. intros H. unfold leader_only, mbind, GoM_bind, gets; simpl. by rewrite H. Qed.

(** The two shapes in which the state of a run is rewritten. *)
Lemma leader_only_leader {A} (m : M A) s q :
  IsLeader s = true → leader_only m (s, q) = m (s, q).
Proof. intros H. unfold leader_only, mbind, GoM_bind, gets; simpl. by rewrite H. Qed.

Lemma leader_only_cases {A} (m : M A) s q x :
  leader_only m (s, q) = x →
  (IsLeader s = false ∧ x = (Err ErrNotLeader, (s, q))) ∨ (IsLeader s = true ∧ m (s, q) = x).
Proof.
  destruct (IsLeader s) eqn:HL.
  - rewrite leader_only_leader by done. auto.
  - rewrite leader_only_follower by done. auto.
Qed.

(** The two outcomes of a bind. *)
Lemma bind_cases {S A B} (m : GoM S A) (f : A → GoM S B) w x :
  (m ≫= f) w = x →
  (∃ a w1, m w = (Ok a, w1) ∧ f a w1 = x) ∨ (∃ e w1, m w = (Err e, w1) ∧ x = (Err e, w1)).
Proof. unfold mbind, GoM_bind. destruct (m w) as [[a|e] w1]; intros <-; eauto 10. Qed.
