(* ===== verification/Domains.v ===== *)
(** * Domains

    The domain tree (internal/server/storage/domains.go): dotted names
    whose parent is the name without its last label, and the principals
    that administer a domain and everything below it. *)
From S2P Require Import Prelude AuditKeyring Store.

Record Domain := mkDomain {
  Name : string;
  Parent : string;
  Description : string;
  Admins : list string;
  CreatedAt : Z;
}.

Definition domainLabel : string → bool := name_match.

(** [ValidateDomainName]: [None] is a nil error. *)
Definition ValidateDomainName (name : string) : option error :=
  if decide (name = "") then Some (ErrMsg "domain name is required")
  else if decide (253 < String.length name)
       then Some (ErrMsg "domain name is longer than 253 characters")
  else match filter (λ l, domainLabel l = false) (split_byte "." name) with
       | l :: _ => Some (ErrInvalid "domain label" l)
       | [] => None
       end.

Definition ParentOf (name : string) : string :=
  match last_index "." name with
  | Some i => if decide (0 < i) then string_take i name else ""
  | None => ""
  end.

(** The loop of [dedupe], in order of first appearance. *)
Fixpoint dedupe_go (seen : gset string) (l : list string) : list string :=
  match l with
  | [] => []
  | v :: l' =>
      if decide (v ≠ "" ∧ v ∉ seen) then v :: dedupe_go ({[v]} ∪ seen) l'
      else dedupe_go seen l'
  end.

Definition dedupe (l : list string) : list string := sort_strings (dedupe_go ∅ l).

(** [lockDomain]: a row lock on Postgres; in either dialect the
    transaction that holds it is not interleaved with one that writes the
    row. *)
Definition lockDomain (name : string) : Tx () :=
  row ← query "" (λ d, domains d !! name);
  match row with
  | Some _ => mret tt
  | None => throw ErrNotFound
  end.

(** [DELETE FROM domain_admins WHERE domain = name]. *)
Definition delete_admins (name : string) (d : DB) : DB :=
  set_domain_admins (filter (λ r, r.1 ≠ name) (domain_admins d)) d.

Definition insert_admin (name p : string) : Tx () :=
  insert_row "insert admin" (λ d, bool_decide ((name, p) ∈ domain_admins d))
    (ErrIO "insert admin" "UNIQUE constraint")
    (λ d, set_domain_admins ({[(name, p)]} ∪ domain_admins d) d).

(** The transaction of [CreateDomain]. *)
Definition create_domain_tx (d : Domain) : Tx (tx_end Domain) :=
  (if decide (Parent d ≠ "") then
     catch (lockDomain (Parent d)) (λ r,
       match r with
       | Ok _ => mret tt
       | Err ErrNotFound => throw (ErrParentNotFound (Parent d))
       | Err e => throw (wrap_error "query parent" e)
       end)
   else mret tt) ;;
  exec "clear admins" (delete_admins (Name d)) ;;
  insert_row "insert domain" (λ b, bool_decide (is_Some (domains b !! Name d))) ErrAlreadyExists
    (λ b, set_domains (<[Name d := mkDomainRow (Parent d) (Description d) (UnixNano (CreatedAt d))]> (domains b)) b) ;;
  for_each (Admins d) (insert_admin (Name d)) ;;
  mret (Commit d).

(** [now] is what [time.Now().UTC()] reads. *)
Definition CreateDomain (now : Z) (d : Domain) : M Domain :=
  leader_only
    match ValidateDomainName (Name d) with
    | Some e => throw e
    | None =>
        let parent := ParentOf (Name d) in
        if decide (Parent d ≠ "" ∧ Parent d ≠ parent) then throw (ErrInvalid "parent" (Parent d))
        else
          with_tx "begin" "commit"
            (create_domain_tx
               (mkDomain (Name d) parent (Description d) (dedupe (Admins d))
                  (if IsZero (CreatedAt d) then now else CreatedAt d)))
    end.

Definition count_children (name : string) (d : DB) : nat :=
  size (filter (λ r, dr_parent r.2 = name) (domains d)).

Definition count_groups (name : string) (d : DB) : nat :=
  size (filter (λ r, r.1.1 = name) (groups d)).

Definition delete_domain_tx (name : string) : Tx (tx_end ()) :=
  lockDomain name ;;
  children ← query "count children" (count_children name);
  if decide (0 < children) then throw ErrHasChildren
  else
    ngroups ← query "count groups" (count_groups name);
    if decide (0 < ngroups) then throw ErrHasGroups
    else
      exec "delete domain" (λ d, set_domains (delete name (domains d)) d) ;;
      exec "delete admins" (delete_admins name) ;;
      mret (Commit tt).

Definition DeleteDomain (name : string) : M () :=
  leader_only (with_tx "begin" "" (delete_domain_tx name)).

Definition add_admin_tx (domain principal : string) : Tx (tx_end bool) :=
  lockDomain domain ;;
  existed ← query "insert admin" (λ d, bool_decide ((domain, principal) ∈ domain_admins d));
  modify (λ d, set_domain_admins ({[(domain, principal)]} ∪ domain_admins d) d) ;;
  mret (Commit (negb existed)).

Definition AddDomainAdmin (domain principal : string) : M bool :=
  leader_only (with_tx "begin" "" (add_admin_tx domain principal)).

Definition RemoveDomainAdmin (domain principal : string) : M () :=
  leader_only (
    existed ← statement "delete admin" (λ d,
      (bool_decide ((domain, principal) ∈ domain_admins d),
       set_domain_admins (domain_admins d ∖ {[(domain, principal)]}) d));
    if (existed : bool) then mret tt else throw ErrNotFound).

(** Rows of [domain_admins] grouped by domain, in row order. *)
Definition group_rows (rows : list (string * string)) : gmap string (list string) :=
  foldl (λ m r, <[r.1 := default [] (m !! r.1) ++ [r.2]]> m) ∅ rows.

Definition admins_where (p : string → bool) (d : DB) : gmap string (list string) :=
  group_rows (filter (λ r, p r.1 = true) (elements (domain_admins d))).

Definition AdminsOf (names : list string) : M (gmap string (list string)) :=
  if decide (names = []) then mret ∅
  else on_db "query admins" (admins_where (λ n, bool_decide (n ∈ names))).

Definition adminsByDomain (domain : string) : M (gmap string (list string)) :=
  m ← on_db "query admins"
        (admins_where (λ n, if decide (domain = "") then true else bool_decide (n = domain)));
  mret (sort_strings <$> m).

Definition domain_of_row (admins : gmap string (list string)) (name : string) (r : domain_row) : Domain :=
  mkDomain name (dr_parent r) (dr_description r) (default [] (admins !! name)) (UnixTime (dr_created_at r)).

Definition GetDomain (name : string) : M Domain :=
  row ← on_db "query domain" (λ d, domains d !! name);
  match row with
  | None => throw ErrNotFound
  | Some r =>
      admins ← adminsByDomain name;
      mret (domain_of_row admins name r)
  end.

(** [SELECT ... FROM domains ORDER BY name] (bytewise collation). *)
Definition domain_rows (d : DB) : list (string * domain_row) :=
  merge_sort (λ a b, String.le a.1 b.1) (map_to_list (domains d)).

Definition ListDomains : M (list Domain) :=
  rows ← on_db "query domains" domain_rows;
  admins ← adminsByDomain "";
  mret ((λ r, domain_of_row admins r.1 r.2) <$> rows).

(** ** Names *)

Lemma ParentOf_cases name :
  (split_byte "." name = [name] ∧ ParentOf name = "") ∨
  (∃ l, name = ParentOf name +:+ String "." l ∧ split_byte "." l = [l] ∧
        split_byte "." name = split_byte "." (ParentOf name) ++ [l]).
Proof.
  unfold ParentOf. destruct (last_index "." name) as [i|] eqn:E.
  - right. apply last_index_Some in E as (p & l & -> & <- & Hl). exists l.
    assert ((if decide (0 < String.length p)
             then string_take (String.length p) (p +:+ String "." l) else "") = p) as ->.
    { case_decide; [apply string_take_app|]. destruct p; simpl in *; [done|lia]. }
    rewrite split_byte_app, Hl. done.
  - left. auto using last_index_None.
Qed.

Lemma ParentOf_shorter name : name ≠ "" → String.length (ParentOf name) < String.length name.
Proof.
  intros Hne. destruct (ParentOf_cases name) as [[_ ->]|(l & Hn & _)].
  - destruct name; simpl; [done|lia].
  - rewrite Hn at 2. rewrite string_length_app. simpl. lia.
Qed.

Lemma ValidateDomainName_None name :
  ValidateDomainName name = None ↔
  name ≠ "" ∧ String.length name ≤ 253 ∧
  Forall (λ l, domainLabel l = true) (split_byte "." name).
Proof.
  unfold ValidateDomainName. repeat case_decide; [naive_solver|naive_solver lia|].
  rewrite Forall_forall. split.
  - intros H'. split_and!; [done|lia|]. intros l Hl. apply not_false_is_true. intros Hf.
    destruct (filter _ _) eqn:E; [|done].
    assert (l ∈ filter (λ l, domainLabel l = false) (split_byte "." name)) as Hin
      by (apply list_elem_of_filter; auto).
    rewrite E in Hin. by apply not_elem_of_nil in Hin.
  - intros (_ & _ & H'). destruct (filter _ _) as [|l ls] eqn:E; [done|].
    assert (l ∈ l :: ls) as Hin by left. rewrite <-E in Hin.
    apply list_elem_of_filter in Hin as [Hf Hin]. apply H' in Hin. congruence.
Qed.

(** The ancestors of a valid name are valid names. *)
Lemma ValidateDomainName_parent name :
  ValidateDomainName name = None → ParentOf name ≠ "" →
  ValidateDomainName (ParentOf name) = None.
Proof.
  rewrite !ValidateDomainName_None. intros (Hne & Hlen & Hl) Hp. split_and!; [done|..].
  - pose proof (ParentOf_shorter name Hne). lia.
  - destruct (ParentOf_cases name) as [[_ ?]|(l & _ & _ & Hs)]; [done|].
    rewrite Hs in Hl. by apply Forall_app in Hl as [??].
Qed.

(** ** The tree invariant *)

(** Names are valid and stored under the parent they imply, every parent
    exists, and no grant or group outlives its domain. *)
Record dir_ok (d : DB) : Prop := {
  dok_name : ∀ n r, domains d !! n = Some r → ValidateDomainName n = None ∧ dr_parent r = ParentOf n;
  dok_parent : ∀ n r, domains d !! n = Some r → dr_parent r ≠ "" → is_Some (domains d !! dr_parent r);
  dok_admin : ∀ n p, (n, p) ∈ domain_admins d → is_Some (domains d !! n);
  dok_group : ∀ n g, is_Some (groups d !! (n, g)) → is_Some (domains d !! n);
  dok_created : ∀ n r, domains d !! n = Some r → in_int64 (dr_created_at r);
}.

#[global] Instance dir_ok_stable : SeqStable dir_ok.
Proof. intros d n [] _. by split. Qed.

Lemma lockDomain_Ok name d q b d' q' :
  lockDomain name (d, q) = (Ok b, (d', q')) → is_Some (domains d !! name) ∧ d' = d.
Proof. unfold lockDomain. intros H. run_split H. eauto. Qed.

Lemma insert_admins_Ok name l d q b d' q' :
  for_each l (insert_admin name) (d, q) = (Ok b, (d', q')) →
  d' = set_domain_admins (list_to_set (pair name <$> l) ∪ domain_admins d) d.
Proof.
  revert d q. induction l as [|x l IH]; intros d q H; simpl in H.
  - run_split H. rewrite (left_id_L ∅ _). by destruct d'.
  - apply bind_Ok in H as ([] & [d1 q1] & Hx & H). unfold insert_admin in Hx. run_split Hx.
    rewrite (IH _ _ H). unfold set_domain_admins; simpl. f_equal. set_solver.
Qed.

Lemma insert_admins_run name l d :
  NoDup l → (∀ p, p ∈ l → (name, p) ∉ domain_admins d) →
  for_each l (insert_admin name) (d, []) =
    (Ok tt, (set_domain_admins (list_to_set (pair name <$> l) ∪ domain_admins d) d, [])).
Proof.
  revert d. induction l as [|x l IH]; intros d Hnd Hd; simpl.
  - rewrite (left_id_L ∅ _). by destruct d.
  - apply NoDup_cons in Hnd as [Hx Hnd].
    unfold mbind, GoM_bind, insert_admin, insert_row, mbind, GoM_bind, io, gets, modify; simpl.
    rewrite bool_decide_eq_false_2 by (apply Hd; left). rewrite IH; [|done|].
    + unfold set_domain_admins; simpl. do 3 f_equal. set_solver.
    + intros p Hp. simpl. assert (p ≠ x) by set_solver.
      assert ((name, p) ∉ domain_admins d) by (apply Hd; by right). set_solver.
Qed.

Lemma create_domain_tx_Ok d b q a b' q' :
  create_domain_tx d (b, q) = (Ok a, (b', q')) →
  a = Commit d ∧ domains b !! Name d = None ∧
  (Parent d ≠ "" → is_Some (domains b !! Parent d)) ∧
  domains b' = <[Name d := mkDomainRow (Parent d) (Description d) (UnixNano (CreatedAt d))]> (domains b) ∧
  groups b' = groups b ∧ group_members b' = group_members b ∧
  domain_admins b' = list_to_set (pair (Name d) <$> Admins d) ∪ filter (λ r, r.1 ≠ Name d) (domain_admins b).
Proof.
  unfold create_domain_tx. intros H.
  assert (∀ w, (if decide (Parent d ≠ "") then
     catch (lockDomain (Parent d)) (λ r,
       match r with
       | Ok _ => mret tt
       | Err ErrNotFound => throw (ErrParentNotFound (Parent d))
       | Err e => throw (wrap_error "query parent" e)
       end)
     else mret tt) (b, q) = (Ok tt, w) → w.1 = b ∧ (Parent d ≠ "" → is_Some (domains b !! Parent d))) as Hlock.
  { intros [b1 q1] H1. case_decide; [|by run_split H1].
    apply catch_Ok in H1 as ([[]|e] & [b2 q2] & H1 & H2).
    - apply lockDomain_Ok in H1 as [? ->]. by run_split H2.
    - destruct e; run_split H2. }
  apply bind_Ok in H as ([] & [b1 q1] & H1 & H). apply Hlock in H1 as [Hb Hp]. simpl in Hb. subst b1.
  run_split H.
  match goal with Hf : for_each _ _ _ = _ |- _ =>
    apply insert_admins_Ok in Hf; subst; simpl in * end.
  match goal with Hf : bool_decide _ = false |- _ => apply bool_decide_eq_false in Hf end.
  split_and!; try done. by apply eq_None_not_Some.
Qed.

Lemma create_domain_tx_commits_inv d :
  ValidateDomainName (Name d) = None → Parent d = ParentOf (Name d) →
  commits_inv dir_ok (create_domain_tx d).
Proof.
  intros Hv Hpar b q a b' q' Hok H.
  apply create_domain_tx_Ok in H as (_ & Hfree & Hp & Hdom & Hg & _ & Hadm).
  split; rewrite ?Hdom, ?Hg, ?Hadm.
  - intros n r [[<- <-]|[? ?]]%lookup_insert_Some; [done|by eapply dok_name].
  - intros n r [[<- <-]|[? Hn]]%lookup_insert_Some Hr; simpl in *.
    + rewrite lookup_insert_is_Some'. auto.
    + rewrite lookup_insert_is_Some'. right. by eapply dok_parent.
  - intros n p [Hin|Hin]%elem_of_union; rewrite lookup_insert_is_Some'.
    + left. set_solver.
    + right. apply elem_of_filter in Hin as [_ Hin]. by eapply dok_admin.
  - intros n g Hn. rewrite lookup_insert_is_Some'. right. by eapply dok_group.
  - intros n r [[<- <-]|[? ?]]%lookup_insert_Some; [apply wrap64_range|by eapply dok_created].
Qed.

Lemma CreateDomain_preserves now d : preserves dir_ok (CreateDomain now d).
Proof.
  apply leader_only_preserves. destruct (ValidateDomainName (Name d)) eqn:Hv; [eauto with omega|]. cbv zeta.
  case_decide; [eauto with omega|].
  apply with_tx_preserves; [apply _|]. by apply create_domain_tx_commits_inv.
Qed.

Lemma size_filter_pos {K A} `{Countable K} (P : K * A → Prop) `{!∀ x, Decision (P x)} (m : gmap K A) k x :
  m !! k = Some x → P (k, x) → 0 < size (filter P m).
Proof.
  intros Hk HP. apply Nat.neq_0_lt_0. intros Hz%map_size_empty_inv.
  assert (filter P m !! k = Some x) as Hf by by apply map_lookup_filter_Some.
  by rewrite Hz, lookup_empty in Hf.
Qed.

Lemma delete_domain_tx_Ok name d q a d' q' :
  delete_domain_tx name (d, q) = (Ok a, (d', q')) →
  is_Some (domains d !! name) ∧
  (∀ n r, domains d !! n = Some r → dr_parent r ≠ name) ∧
  (∀ g, groups d !! (name, g) = None) ∧
  d' = delete_admins name (set_domains (delete name (domains d)) d).
Proof.
  unfold delete_domain_tx. intros H. run_split H.
  match goal with Hl : lockDomain _ _ = _ |- _ => apply lockDomain_Ok in Hl as [Hl ->] end.
  split_and!; [done|..|done].
  - intros n r Hn Hr. pose proof (size_filter_pos (λ r, dr_parent r.2 = name) _ _ _ Hn Hr).
    unfold count_children in *. lia.
  - intros g. apply eq_None_not_Some. intros [r Hr].
    pose proof (size_filter_pos (λ r, r.1.1 = name) _ _ _ Hr eq_refl).
    unfold count_groups in *. lia.
Qed.

Lemma DeleteDomain_preserves name : preserves dir_ok (DeleteDomain name).
Proof.
  apply leader_only_preserves, with_tx_preserves; [apply _|].
  intros d q a d' q' Hok (Hex & Hch & Hgr & ->)%delete_domain_tx_Ok.
  split; unfold delete_admins; simpl.
  - intros n r [_ ?]%lookup_delete_Some. by eapply dok_name.
  - intros n r [Hne Hn]%lookup_delete_Some Hr.
    rewrite lookup_delete_ne; [by eapply dok_parent|]. intros ->. by eapply Hch.
  - intros n p [Hne Hin]%elem_of_filter; simpl in *.
    rewrite lookup_delete_ne by done. by eapply dok_admin.
  - intros n g Hn. destruct (decide (n = name)) as [->|]; [by rewrite Hgr in Hn; destruct Hn|].
    rewrite lookup_delete_ne by done. by eapply dok_group.
  - intros n r [_ ?]%lookup_delete_Some. by eapply dok_created.
Qed.

Lemma AddDomainAdmin_preserves domain principal : preserves dir_ok (AddDomainAdmin domain principal).
Proof.
  apply leader_only_preserves, with_tx_preserves; [apply _|].
  intros d q a d' q' Hok H. unfold add_admin_tx in H. run_split H.
  match goal with Hl : lockDomain _ _ = _ |- _ => apply lockDomain_Ok in Hl as [Hl ->] end.
  split; simpl; try by apply Hok.
  intros n p [?|?]%elem_of_union; [|by eapply dok_admin].
  by assert (n = domain) as -> by set_solver.
Qed.

Lemma RemoveDomainAdmin_preserves domain principal :
  preserves dir_ok (RemoveDomainAdmin domain principal).
Proof.
  apply leader_only_preserves, bind_preserves.
  - apply statement_preserves. intros d Hok. split; simpl; try by apply Hok.
    intros n p [? _]%elem_of_difference. by eapply dok_admin.
  - intros []; eauto with omega.
Qed.

(** ** What the methods return *)

Lemma group_rows_lookup rows n :
  default [] (group_rows rows !! n) = (filter (λ r, r.1 = n) rows).*2.
Proof.
  unfold group_rows. induction rows as [|r rows IH] using rev_ind; [done|].
  rewrite foldl_snoc, filter_app, fmap_app, <-IH. simpl.
  destruct (decide (r.1 = n)) as [<-|Hne].
  - rewrite lookup_insert_eq, filter_cons_True by done. done.
  - rewrite lookup_insert_ne, filter_cons_False by done. simpl. by rewrite app_nil_r.
Qed.

(** The admins of a domain in byte order, as the read methods return them. *)
Definition sorted_admins (d : DB) (n : string) : list string :=
  sort_strings ((filter (λ r, r.1 = n) (elements (domain_admins d))).*2).

Lemma admins_where_lookup p d n :
  p n = true →
  default [] (admins_where p d !! n) = (filter (λ r, r.1 = n) (elements (domain_admins d))).*2.
Proof.
  intros Hp. unfold admins_where. rewrite group_rows_lookup, list_filter_filter. f_equal.
  apply list_filter_iff. intros r. split; [naive_solver|]. intros <-. done.
Qed.

Lemma admins_fmap_lookup p d n :
  p n = true →
  default [] ((sort_strings <$> admins_where p d) !! n) = sorted_admins d n.
Proof.
  intros Hp. rewrite lookup_fmap. unfold sorted_admins.
  rewrite <-(admins_where_lookup p) by done. by destruct (admins_where p d !! n).
Qed.

Definition stored_domain (d : DB) (n : string) (r : domain_row) : Domain :=
  mkDomain n (dr_parent r) (dr_description r) (sorted_admins d n) (UnixTime (dr_created_at r)).

Lemma GetDomain_run name s :
  GetDomain name (s, []) =
    match domains (db s) !! name with
    | None => (Err ErrNotFound, (s, []))
    | Some r => (Ok (stored_domain (db s) name r), (s, []))
    end.
Proof.
  unfold GetDomain, adminsByDomain, on_db, query, mbind, GoM_bind, io, gets, mret, GoM_ret; simpl.
  destruct (domains (db s) !! name) as [r|]; [|done]. simpl.
  unfold stored_domain, domain_of_row. rewrite admins_fmap_lookup; [done|].
  case_decide; [done|]. by apply bool_decide_eq_true.
Qed.

Lemma dedupe_go_spec seen l :
  NoDup (dedupe_go seen l) ∧
  ∀ x, x ∈ dedupe_go seen l ↔ x ∈ l ∧ x ≠ "" ∧ x ∉ seen.
Proof.
  revert seen. induction l as [|v l IH]; intros seen; simpl.
  - split; [constructor|set_solver].
  - case_decide as Hv.
    + destruct (IH ({[v]} ∪ seen)) as [Hnd Hin]. split.
      * constructor; [|done]. rewrite Hin. set_solver.
      * intros x. rewrite !elem_of_cons, Hin. destruct (decide (x = v)); set_solver.
    + destruct (IH seen) as [Hnd Hin]. split; [done|]. intros x.
      rewrite elem_of_cons, Hin. split; [set_solver|].
      intros ([->|?] & ? & ?); [naive_solver|done].
Qed.

Lemma dedupe_spec l :
  NoDup (dedupe l) ∧ Sorted String.le (dedupe l) ∧ ∀ x, x ∈ dedupe l ↔ x ∈ l ∧ x ≠ "".
Proof.
  unfold dedupe. destruct (dedupe_go_spec ∅ l) as [Hnd Hin]. split_and!.
  - by rewrite sort_strings_Permutation.
  - apply sort_strings_Sorted.
  - intros x. rewrite sort_strings_Permutation, Hin. set_solver.
Qed.

Lemma sorted_admins_spec d n :
  NoDup (sorted_admins d n) ∧ Sorted String.le (sorted_admins d n) ∧
  ∀ p, p ∈ sorted_admins d n ↔ (n, p) ∈ domain_admins d.
Proof.
  unfold sorted_admins. split_and!.
  - rewrite sort_strings_Permutation. apply NoDup_fmap_2_strong.
    + intros [??] [??] [??]%list_elem_of_filter [??]%list_elem_of_filter ?. by simplify_eq/=.
    + apply NoDup_filter, NoDup_elements.
  - apply sort_strings_Sorted.
  - intros p. rewrite sort_strings_Permutation, list_elem_of_fmap. split.
    + intros ([? ?] & -> & [? ?%elem_of_elements]%list_elem_of_filter). by simplify_eq/=.
    + intros Hp. exists (n, p). split; [done|]. apply list_elem_of_filter.
      by rewrite elem_of_elements.
Qed.

(** Sorting the grants of a domain gives back the sorted list it was
    granted to. *)
Lemma sorted_admins_eq d n l :
  NoDup l → Sorted String.le l →
  (∀ p, (n, p) ∈ domain_admins d ↔ p ∈ l) → sorted_admins d n = l.
Proof.
  intros Hnd Hs Hin. destruct (sorted_admins_spec d n) as (Hnd' & Hs' & Hin').
  apply (Sorted_unique String.le); [done..|]. apply NoDup_Permutation; [done..|].
  intros p. by rewrite Hin', Hin.
Qed.

Lemma sorted_admins_ext d1 d2 n :
  (∀ p, (n, p) ∈ domain_admins d1 ↔ (n, p) ∈ domain_admins d2) →
  sorted_admins d1 n = sorted_admins d2 n.
Proof.
  intros H. destruct (sorted_admins_spec d2 n) as (? & ? & Hin).
  apply sorted_admins_eq; [done..|]. intros p. by rewrite Hin.
Qed.

(** The domain [CreateDomain] stores for a request. *)
Definition normalised (now : Z) (d : Domain) : Domain :=
  mkDomain (Name d) (ParentOf (Name d)) (Description d) (dedupe (Admins d))
    (if IsZero (CreatedAt d) then now else CreatedAt d).

Definition created_db (d : Domain) (b : DB) : DB :=
  set_domain_admins (list_to_set (pair (Name d) <$> Admins d) ∪ filter (λ r, r.1 ≠ Name d) (domain_admins b))
    (set_domains (<[Name d := mkDomainRow (Parent d) (Description d) (UnixNano (CreatedAt d))]> (domains b)) b).

Lemma lockDomain_run name d :
  lockDomain name (d, []) =
    (if decide (is_Some (domains d !! name)) then Ok tt else Err ErrNotFound, (d, [])).
Proof.
  unfold lockDomain, query, mbind, GoM_bind, io, gets; simpl.
  destruct (domains d !! name) eqn:E; case_decide as Hd; try done. by destruct Hd.
Qed.

Lemma create_domain_tx_run d b :
  (Parent d ≠ "" → is_Some (domains b !! Parent d)) → domains b !! Name d = None → NoDup (Admins d) →
  create_domain_tx d (b, []) = (Ok (Commit d), (created_db d b, [])).
Proof.
  intros Hp Hfree Hnd. unfold create_domain_tx.
  erewrite bind_run; [|instantiate (1 := (b, [])); instantiate (1 := tt)].
  - run_step.
    erewrite bind_run by (apply insert_row_run, bool_decide_eq_false_2; simpl; rewrite Hfree; by intros [? ?]).
    erewrite bind_run; [done|].
    apply insert_admins_run; [done|]. intros p _. simpl. rewrite elem_of_filter. naive_solver.
  - case_decide; [|done].
    erewrite catch_run by apply lockDomain_run. by rewrite decide_True by auto.
Qed.

Lemma CreateDomain_run now d s :
  IsLeader s = true → ValidateDomainName (Name d) = None →
  Parent d = "" ∨ Parent d = ParentOf (Name d) →
  ParentOf (Name d) = "" ∨ is_Some (domains (db s) !! ParentOf (Name d)) →
  domains (db s) !! Name d = None →
  CreateDomain now d (s, []) =
    (Ok (normalised now d), (set_db (created_db (normalised now d) (db s)) s, [])).
Proof.
  intros Hl Hv Hpar Hex Hfree. unfold CreateDomain. rewrite leader_only_leader, Hv by done.
  cbv zeta. rewrite decide_False by naive_solver.
  change (mkDomain _ _ _ _ _) with (normalised now d).
  rewrite (with_tx_run_Commit _ _ _ _ (normalised now d) (created_db (normalised now d) (db s))); [done|].
  apply create_domain_tx_run; simpl; [naive_solver|done|apply dedupe_spec].
Qed.

Lemma created_db_admins d b n p :
  (n, p) ∈ domain_admins (created_db d b) ↔
  if decide (n = Name d) then p ∈ Admins d else (n, p) ∈ domain_admins b.
Proof.
  simpl. rewrite elem_of_union, elem_of_list_to_set, list_elem_of_fmap, elem_of_filter. simpl.
  case_decide; naive_solver.
Qed.

(** A domain that can be created is created, reading it back returns
    exactly what the creation returned (admins deduplicated and sorted, the
    parent implied by the name), and every other domain reads as before. *)
Theorem create_then_get now d s :
  IsLeader s = true → ValidateDomainName (Name d) = None →
  Parent d = "" ∨ Parent d = ParentOf (Name d) →
  ParentOf (Name d) = "" ∨ is_Some (domains (db s) !! ParentOf (Name d)) →
  domains (db s) !! Name d = None → in_int64 (CreatedAt (normalised now d)) →
  ∃ s', CreateDomain now d (s, []) = (Ok (normalised now d), (s', [])) ∧
        GetDomain (Name d) (s', []) = (Ok (normalised now d), (s', [])) ∧
        ∀ n, n ≠ Name d → (GetDomain n (s', [])).1 = (GetDomain n (s, [])).1.
Proof.
  intros Hl Hv Hpar Hex Hfree Ht. eexists. split; [by apply CreateDomain_run|]. split.
  - rewrite GetDomain_run; simpl. rewrite lookup_insert_eq. unfold stored_domain; simpl.
    rewrite (sorted_admins_eq _ _ (dedupe (Admins d))).
    + unfold UnixTime, UnixNano. by rewrite wrap64_id.
    + apply dedupe_spec.
    + apply dedupe_spec.
    + intros p. rewrite created_db_admins. simpl. by rewrite decide_True.
  - intros n Hne. rewrite !GetDomain_run; simpl. rewrite lookup_insert_ne by done.
    destruct (domains (db s) !! n) as [r|]; [|done]. simpl. unfold stored_domain.
    rewrite (sorted_admins_ext _ (db s)); [done|]. intros p.
    rewrite created_db_admins. simpl. by rewrite decide_False.
Qed.

Lemma CreateDomain_errors now d s :
  (IsLeader s = false → CreateDomain now d (s, []) = (Err ErrNotLeader, (s, []))) ∧
  (IsLeader s = true →
   (∀ e, ValidateDomainName (Name d) = Some e → CreateDomain now d (s, []) = (Err e, (s, []))) ∧
   (ValidateDomainName (Name d) = None →
    (Parent d ≠ "" → Parent d ≠ ParentOf (Name d) →
     CreateDomain now d (s, []) = (Err (ErrInvalid "parent" (Parent d)), (s, []))) ∧
    (Parent d = "" ∨ Parent d = ParentOf (Name d) →
     (ParentOf (Name d) ≠ "" → domains (db s) !! ParentOf (Name d) = None →
      CreateDomain now d (s, []) = (Err (ErrParentNotFound (ParentOf (Name d))), (s, []))) ∧
     (ParentOf (Name d) = "" ∨ is_Some (domains (db s) !! ParentOf (Name d)) →
      is_Some (domains (db s) !! Name d) →
      CreateDomain now d (s, []) = (Err ErrAlreadyExists, (s, [])))))).
Proof.
  unfold CreateDomain. split; [apply leader_only_follower|].
  intros Hl. rewrite leader_only_leader by done. split; [by intros e ->|].
  intros ->. cbv zeta. split; [intros; by rewrite decide_True|].
  intros Hpar. rewrite decide_False by naive_solver. split.
  - intros Hne Hno. apply (with_tx_run_Err _ _ _ _ _ (db s)); [|done].
    unfold create_domain_tx; simpl. erewrite bind_run_Err; [done|].
    rewrite decide_True by done. erewrite catch_run by apply lockDomain_run.
    by rewrite decide_False by (rewrite Hno; by intros [? ?]).
  - intros Hex Htaken. apply (with_tx_run_Err _ _ _ _ _ (delete_admins (Name d) (db s))); [|done].
    unfold create_domain_tx; simpl.
    erewrite bind_run; [|instantiate (1 := (db s, [])); instantiate (1 := tt)].
    + run_step. erewrite bind_run_Err; [done|]. apply insert_row_dup. by apply bool_decide_eq_true.
    + case_decide; [|done]. erewrite catch_run by apply lockDomain_run.
      rewrite decide_True; [done|naive_solver].
Qed.

(** A creation that cannot succeed is refused with the error of the
    first check that fails, in the order the method makes them, and leaves
    the store as it was. *)
Theorem create_refused now d s :
  (IsLeader s = false → CreateDomain now d (s, []) = (Err ErrNotLeader, (s, []))) ∧
  (IsLeader s = true →
   (∀ e, ValidateDomainName (Name d) = Some e → CreateDomain now d (s, []) = (Err e, (s, []))) ∧
   (ValidateDomainName (Name d) = None →
    (Parent d ≠ "" → Parent d ≠ ParentOf (Name d) →
     CreateDomain now d (s, []) = (Err (ErrInvalid "parent" (Parent d)), (s, []))) ∧
    (Parent d = "" ∨ Parent d = ParentOf (Name d) →
     (ParentOf (Name d) ≠ "" → domains (db s) !! ParentOf (Name d) = None →
      CreateDomain now d (s, []) = (Err (ErrParentNotFound (ParentOf (Name d))), (s, []))) ∧
     (ParentOf (Name d) = "" ∨ is_Some (domains (db s) !! ParentOf (Name d)) →
      is_Some (domains (db s) !! Name d) →
      CreateDomain now d (s, []) = (Err ErrAlreadyExists, (s, [])))))).
Proof. exact (CreateDomain_errors now d s). Qed.

Lemma delete_domain_tx_run name d :
  is_Some (domains d !! name) → count_children name d = 0 → count_groups name d = 0 →
  delete_domain_tx name (d, []) =
    (Ok (Commit tt), (delete_admins name (set_domains (delete name (domains d)) d), [])).
Proof.
  intros Hex Hc Hg. unfold delete_domain_tx.
  erewrite bind_run by (by rewrite lockDomain_run, decide_True).
  run_step. rewrite Hc. simpl. run_step. rewrite Hg. simpl. run_step. run_step. done.
Qed.

Lemma leader_only_Ok {A} (m : M A) s q a w :
  leader_only m (s, q) = (Ok a, w) → IsLeader s = true ∧ m (s, q) = (Ok a, w).
Proof.
  destruct (IsLeader s) eqn:Hl; [by rewrite leader_only_leader|].
  by rewrite leader_only_follower.
Qed.

Lemma DeleteDomain_Ok name s q s' q' :
  DeleteDomain name (s, q) = (Ok tt, (s', q')) →
  is_Some (domains (db s) !! name) ∧
  (∀ n r, domains (db s) !! n = Some r → dr_parent r ≠ name) ∧
  (∀ g, groups (db s) !! (name, g) = None) ∧
  s' = set_db (delete_admins name (set_domains (delete name (domains (db s))) (db s))) s.
Proof.
  intros [_ H]%leader_only_Ok.
  apply with_tx_cases in H as [(d & -> & _ & Hr)|(w & d & w' & a & Hb & -> & _)].
  - destruct (Hr tt eq_refl) as (w & [d' w'] & Hb). unfold delete_domain_tx in Hb. run_split Hb.
  - apply delete_domain_tx_Ok in Hb as (? & ? & ? & ->). done.
Qed.

Lemma CreateDomain_Ok now d s d' s' :
  CreateDomain now d (s, []) = (Ok d', (s', [])) →
  ValidateDomainName (Name d) = None ∧
  domains (db s) !! Name d = None ∧
  d' = normalised now d ∧ s' = set_db (created_db (normalised now d) (db s)) s.
Proof.
  intros H. destruct (CreateDomain_errors now d s) as [_ Href].
  destruct (leader_only_Ok _ _ _ _ _ H) as [Hl _]. destruct (Href Hl) as [Hv Href']. clear Href.
  destruct (ValidateDomainName (Name d)) as [e|] eqn:Ev; [by rewrite (Hv e eq_refl) in H|].
  destruct (Href' eq_refl) as [Hpar Href'']. clear Href' Hv.
  destruct (decide (Parent d = "" ∨ Parent d = ParentOf (Name d))) as [Hp|Hp];
    [|rewrite Hpar in H by naive_solver; done].
  destruct (Href'' Hp) as [Hno Htaken]. clear Href'' Hpar.
  destruct (decide (ParentOf (Name d) = "" ∨ is_Some (domains (db s) !! ParentOf (Name d)))) as [Hex|Hex];
    [|rewrite Hno in H; [done|naive_solver|apply eq_None_not_Some; naive_solver]].
  destruct (domains (db s) !! Name d) eqn:Ef; [by rewrite Htaken in H by eauto|].
  rewrite CreateDomain_run in H by done. by simplify_eq.
Qed.

Lemma size_filter_0 {K A} `{Countable K} (P : K * A → Prop) `{!∀ x, Decision (P x)} (m : gmap K A) :
  (∀ k x, m !! k = Some x → ¬ P (k, x)) → size (filter P m) = 0.
Proof.
  intros HP. apply map_size_empty_iff, map_empty. intros k.
  apply map_lookup_filter_None. right. by apply HP.
Qed.

(** A free name has no children, no grants and no groups. *)
Lemma dir_ok_free d n :
  dir_ok d → domains d !! n = None →
  (n ≠ "" → ∀ m r, domains d !! m = Some r → dr_parent r ≠ n) ∧
  filter (λ r, r.1 ≠ n) (domain_admins d) = domain_admins d ∧
  (∀ g, groups d !! (n, g) = None).
Proof.
  intros Hok Hn. split_and!.
  - intros Hne m r Hm <-. destruct (dok_parent _ Hok _ _ Hm Hne) as [? ?]. congruence.
  - apply set_eq. intros [m p]. rewrite elem_of_filter; simpl. split; [by intros []|].
    intros Hin. split; [|done]. intros ->. destruct (dok_admin _ Hok _ _ Hin). congruence.
  - intros g. apply eq_None_not_Some. intros [? ?]%(dok_group _ Hok). congruence.
Qed.

Lemma create_undone now d s s1 d' :
  dir_ok (db s) → IsLeader s = true → CreateDomain now d (s, []) = (Ok d', (s1, [])) →
  ∃ s2, DeleteDomain (Name d') (s1, []) = (Ok tt, (s2, [])) ∧ db s2 = db s.
Proof.
  intros Hok Hl (Hv & Hfree & -> & ->)%CreateDomain_Ok.
  assert (Name d ≠ "") as Hne by (by apply ValidateDomainName_None in Hv as [? _]).
  destruct (dir_ok_free _ _ Hok Hfree) as (Hch & Hadm & Hgr).
  unfold DeleteDomain. rewrite leader_only_leader by done.
  eexists. split; [eapply with_tx_run_Commit, delete_domain_tx_run; simpl|].
  - by rewrite lookup_insert_eq.
  - apply size_filter_0. simpl. intros k r [[<- <-]|[_ Hk]]%lookup_insert_Some; simpl.
    + intros Heq. pose proof (ParentOf_shorter _ Hne). rewrite Heq in *. lia.
    + by eapply Hch.
  - apply size_filter_0. simpl. intros [m g] r Hk ?; simpl in *; subst. by rewrite Hgr in Hk.
  - unfold delete_admins, created_db, set_domain_admins, set_domains; simpl.
    rewrite delete_insert_id by done.
    replace (filter _ _) with (domain_admins (db s)); [by destruct (db s)|].
    rewrite <-Hadm at 1. apply set_eq. intros [m p].
    rewrite !elem_of_filter, elem_of_union, elem_of_list_to_set, list_elem_of_fmap, elem_of_filter; simpl.
    naive_solver.
Qed.

Lemma delete_undone now n d s s1 :
  dir_ok (db s) → IsLeader s = true →
  GetDomain n (s, []) = (Ok d, (s, [])) → "" ∉ Admins d →
  DeleteDomain n (s, []) = (Ok tt, (s1, [])) →
  ∃ d' s2, CreateDomain now d (s1, []) = (Ok d', (s2, [])) ∧ db s2 = db s.
Proof.
  intros Hok Hl Hget Hadm (Hex & Hch & Hgr & ->)%DeleteDomain_Ok.
  rewrite GetDomain_run in Hget. destruct (domains (db s) !! n) as [r|] eqn:Hr; [|done].
  injection Hget as <-. simpl in Hadm.
  destruct (dok_name _ Hok _ _ Hr) as [Hv Hpar]. pose proof (dok_created _ Hok _ _ Hr) as Hc.
  assert (n ≠ "") as Hne by (by apply ValidateDomainName_None in Hv as [? _]).
  assert (ParentOf n ≠ n) as Hpn.
  { intros Heq. pose proof (ParentOf_shorter _ Hne). rewrite Heq in *. lia. }
  do 2 eexists. split; [apply CreateDomain_run; simpl|].
  - done.
  - done.
  - by right.
  - destruct (decide (ParentOf n = "")); [by left|]. right.
    rewrite lookup_delete_ne by done. rewrite <-Hpar in *. by eapply dok_parent.
  - apply lookup_delete_eq.
  - unfold created_db, delete_admins, set_domain_admins, set_domains, normalised, stored_domain; simpl.
    assert (IsZero (UnixTime (dr_created_at r)) = false) as ->.
    { apply bool_decide_eq_false. unfold UnixTime, zero_time, in_int64, two63 in *. lia. }
    rewrite insert_delete_eq. unfold UnixNano, UnixTime. rewrite wrap64_id by done.
    replace (mkDomainRow (ParentOf n) (dr_description r) (dr_created_at r)) with r
      by (destruct r; simpl in *; by subst).
    rewrite insert_id by done.
    replace (_ ∪ _) with (domain_admins (db s)); [by destruct (db s)|].
    apply set_eq. intros [m p].
    rewrite elem_of_union, elem_of_list_to_set, list_elem_of_fmap, !elem_of_filter; simpl.
    destruct (dedupe_spec (sorted_admins (db s) n)) as (_ & _ & Hd).
    destruct (sorted_admins_spec (db s) n) as (_ & _ & Hs).
    split.
    + intros Hin. destruct (decide (m = n)) as [->|]; [left|naive_solver].
      exists p. split; [done|]. rewrite Hd. apply Hs in Hin. split; [done|]. by intros ->.
    + intros [(p' & ? & [Hp _]%Hd)|?]; [|naive_solver]. simplify_eq. by apply Hs.
Qed.

(** The two reverts of the audited domain handlers restore the tables
    exactly: deleting the domain just created undoes the creation, and
    creating the domain read before a deletion undoes the deletion. *)
Theorem domain_undo now s :
  dir_ok (db s) → IsLeader s = true →
  (∀ d s1 d', CreateDomain now d (s, []) = (Ok d', (s1, [])) →
     ∃ s2, DeleteDomain (Name d') (s1, []) = (Ok tt, (s2, [])) ∧ db s2 = db s) ∧
  (∀ n d s1, GetDomain n (s, []) = (Ok d, (s, [])) → "" ∉ Admins d →
     DeleteDomain n (s, []) = (Ok tt, (s1, [])) →
     ∃ d' s2, CreateDomain now d (s1, []) = (Ok d', (s2, [])) ∧ db s2 = db s).
Proof.
  intros Hok Hl. split; intros; [by eapply create_undone|by eapply delete_undone].
Qed.

(** ** Witnesses *)

Definition org : Domain := mkDomain "org" "" "root" ["alice"; "bob"] zero_time.
Definition org_web : Domain := mkDomain "org.web" "org" "" ["carol"] zero_time.

(** A store that holds [org]. *)
Definition org_store : Store := (CreateDomain 1 org (new_store driverSQLite, [])).2.1.

Lemma empty_dir_ok : dir_ok empty_db.
Proof. split; simpl; intros *; rewrite ?lookup_empty; done || set_solver || by intros [? ?]. Qed.

Lemma org_store_ok : dir_ok (db org_store).
Proof. apply (CreateDomain_preserves 1 org). apply empty_dir_ok. Qed.

Lemma create_then_get_witness :
  ∃ s', CreateDomain 2 org_web (org_store, []) = (Ok (normalised 2 org_web), (s', [])) ∧
        GetDomain "org.web" (s', []) = (Ok (normalised 2 org_web), (s', [])) ∧
        ∀ n, n ≠ "org.web" → (GetDomain n (s', [])).1 = (GetDomain n (org_store, [])).1.
Proof.
  apply (create_then_get 2 org_web org_store); [reflexivity|reflexivity|by right|right|reflexivity|].
  - eexists. vm_compute. reflexivity.
  - split; vm_compute; congruence.
Defined.

Lemma domain_undo_witness :
  ∃ s1 s2, CreateDomain 2 org_web (org_store, []) = (Ok (normalised 2 org_web), (s1, [])) ∧
    DeleteDomain "org.web" (s1, []) = (Ok tt, (s2, [])) ∧ db s2 = db org_store.
Proof.
  pose proof (run_result (CreateDomain 2 org_web (org_store, [])) (Ok (normalised 2 org_web)) []) as Hrun.
  specialize (Hrun ltac:(vm_compute; reflexivity) ltac:(vm_compute; reflexivity)).
  destruct (domain_undo 2 org_store org_store_ok eq_refl) as [Hc _].
  destruct (Hc org_web _ _ Hrun) as (s2 & Hdel & Hdb). eexists. exists s2. exact (conj Hrun (conj Hdel Hdb)).
Defined.
