(* ===== verification/AuditChain.v ===== *)
(** * AuditChain

    The tamper-evident audit chain (internal/server/storage/audit.go):
    appending a row whose MAC covers it and the hash of the row before,
    walking the chain to verify it, and appending an event at most once
    per key; and the delivery watermark of the forwarders
    (audit_forward.go). *)
From S2P Require Import Prelude Crypto Json AuditKeyring Store.

Record AuditEvent := mkAuditEvent {
  Seq : Z;
  Ts : Z;
  Kind : string;
  Actor : string;
  Subject : string;
  evDecision : string;
  Payload : option string;
  PrevHash : string;
  Hash : string;
  KeyID : string;
}.

(** The zero value, which an error is returned with. *)
Definition zero_event : AuditEvent := mkAuditEvent 0 zero_time "" "" "" "" None "" "" "".

(** An event as a caller fills it. *)
Definition new_event (kind actor subject decision : string) (payload : option string) : AuditEvent :=
  mkAuditEvent 0 zero_time kind actor subject decision payload "" "" "".

Definition genesisHash : string := "GENESIS".

Record AuditAnchor := mkAuditAnchor {
  aa_HeadHash : string;
  aa_Count : Z;
}.

Record AuditVerification := mkAuditVerification {
  Valid : bool;
  FirstBadSeq : Z;
  Truncated : bool;
  Count : Z;
  HeadHash : string;
}.

(** ** The MAC *)

(** What [macAuditEvent] writes into the hash. *)
Definition mac_input (ev : AuditEvent) (key : string) : string :=
  pretty (Seq ev) +:+ "|" +:+ pretty (UnixNano (Ts ev)) +:+ "|" +:+ Kind ev +:+ "|" +:+
  Actor ev +:+ "|" +:+ Subject ev +:+ "|" +:+ evDecision ev +:+ "|" +:+
  default "" (Payload ev) +:+ "|" +:+ PrevHash ev +:+
  (if decide (key = "") then "" else "|keyid|" +:+ KeyID ev).

Definition macAuditEvent (ev : AuditEvent) (key : string) : string :=
  if decide (key = "") then sha256 (mac_input ev key) else hmac_sha256 key (mac_input ev key).

Definition hashAuditEvent (ev : AuditEvent) (key : string) : string :=
  hex_encode (macAuditEvent ev key).

(** ** Rows and events *)

(** A row as [rows.Scan] reads it into an event. *)
Definition scan_event (r : audit_row) : AuditEvent :=
  mkAuditEvent (ar_seq r) (UnixTime (ar_ts r)) (ar_kind r) (ar_actor r) (ar_subject r)
    (ar_decision r) (Some (ar_payload r)) (ar_prev_hash r) (ar_hash r) (ar_key_id r).

(** The row an event is stored as. *)
Definition event_row (ev : AuditEvent) : audit_row :=
  mkAuditRow (Seq ev) (UnixNano (Ts ev)) (Kind ev) (Actor ev) (Subject ev) (evDecision ev)
    (default "" (Payload ev)) (PrevHash ev) (Hash ev) (KeyID ev).

Definition set_Hash (h : string) (ev : AuditEvent) : AuditEvent :=
  mkAuditEvent (Seq ev) (Ts ev) (Kind ev) (Actor ev) (Subject ev) (evDecision ev)
    (Payload ev) (PrevHash ev) h (KeyID ev).

(** [INSERT] keeps the table in primary key order. *)
Fixpoint insert_by_seq (r : audit_row) (l : list audit_row) : list audit_row :=
  match l with
  | [] => [r]
  | x :: l' => if decide (ar_seq r < ar_seq x)%Z then r :: l else x :: insert_by_seq r l'
  end.

(** [UPDATE audit_log SET hash = h WHERE seq = n]. *)
Definition update_hash (n : Z) (h : string) (l : list audit_row) : list audit_row :=
  (λ r, if decide (ar_seq r = n) then event_row (set_Hash h (scan_event r)) else r) <$> l.

(** ** Appending *)

Definition lastAuditHash (d : DB) : string :=
  match last (audit_log d) with
  | Some r => ar_hash r
  | None => genesisHash
  end.

Definition auditMetaKeyedFromSeq : string := "keyed_from_seq".

(** The event as it is inserted: the time, payload and key id filled in,
    chained onto [prev], under the primary key [seq]. *)
Definition prepare_event (kr : option AuditKeyring) (now : Z) (ev : AuditEvent) (prev : string) (seq : Z) : AuditEvent :=
  mkAuditEvent seq (if IsZero (Ts ev) then now else Ts ev) (Kind ev) (Actor ev) (Subject ev)
    (evDecision ev) (Some (default "{}" (Payload ev))) prev "pending"
    (match kr with Some k => (active k).1 | None => keyIDUnkeyed end).

Definition active_secret (kr : option AuditKeyring) : string :=
  match kr with Some k => (active k).2 | None => "" end.

(** [INSERT INTO audit_log ... RETURNING seq] with the hash "pending": the
    primary key comes from the table's counter. *)
Definition insert_audit (mk : Z → AuditEvent) : Tx AuditEvent :=
  io "audit: insert" ;;
  seq ← gets (λ d, (audit_seq d + 1)%Z);
  (if decide (two63 <= seq)%Z then throw (ErrIO "audit: insert" "the key counter is exhausted")
   else modify (set_audit_seq seq)) ;;
  clash ← gets (λ d, bool_decide (Exists (λ r, ar_seq r = seq ∨ ar_hash r = "pending") (audit_log d)));
  if (clash : bool) then throw (ErrIO "audit: insert" "UNIQUE constraint")
  else
    modify (λ d, set_audit_log (insert_by_seq (event_row (mk seq)) (audit_log d)) d) ;;
    mret (mk seq).

Definition appendAuditTx (kr : option AuditKeyring) (epoch_recorded : bool) (now : Z) (ev : AuditEvent) : Tx AuditEvent :=
  prev ← query "audit: last hash" lastAuditHash;
  ev1 ← insert_audit (prepare_event kr now ev prev);
  let ev2 := set_Hash (hashAuditEvent ev1 (active_secret kr)) ev1 in
  insert_row "audit: update hash"
    (λ d, bool_decide (Exists (λ r, ar_seq r ≠ Seq ev2 ∧ ar_hash r = Hash ev2) (audit_log d)))
    (ErrIO "audit: update hash" "UNIQUE constraint")
    (λ d, set_audit_log (update_hash (Seq ev2) (Hash ev2) (audit_log d)) d) ;;
  (if decide (is_Some kr ∧ epoch_recorded = false) then
     exec "audit: record keying epoch" (λ d,
       match audit_meta d !! auditMetaKeyedFromSeq with
       | Some _ => d
       | None => set_audit_meta (<[auditMetaKeyedFromSeq := Seq ev2]> (audit_meta d)) d
       end)
   else mret tt) ;;
  mret ev2.

(** [auditCommitted]. *)
Definition auditCommitted : M () :=
  modify (λ s, match auditKeyring s with
               | Some _ => set_keyedEpochRecorded true s
               | None => s
               end).

Definition AppendAudit (now : Z) (ev : AuditEvent) : M AuditEvent :=
  leader_only
    (if decide (Kind ev = "") then throw (ErrMsg "audit: kind is required")
     else
       s ← gets id;
       ev' ← with_tx "audit: begin tx" "audit: commit"
               (e ← appendAuditTx (auditKeyring s) (keyedEpochRecorded s) now ev; mret (Commit e));
       auditCommitted ;;
       mret ev').

Definition UseAuditKeyring (kr : option AuditKeyring) (s : Store) : Store := set_auditKeyring kr s.

(** ** Appending once per key *)

Definition auditOnceRetention : Z := (30 * 24 * Hour)%Z.

Definition once_digest (ev : AuditEvent) : string :=
  sha256_hex (Kind ev +:+ String "000" (Actor ev +:+ String "000" (Subject ev +:+ String "000"
    (evDecision ev +:+ String "000" (default "" (Payload ev)))))).

(** [mustMarshal] of the conflict's map. *)
Definition conflict_payload (key recorded resent : string) : string :=
  json_print (JMap (<["key" := JStr key]> (<["recorded_digest" := JStr recorded]>
    (<["resent_digest" := JStr resent]> ∅)))).

Definition conflict_event (key seen digest : string) (ev : AuditEvent) : AuditEvent :=
  new_event (Kind ev +:+ ".conflict") (Actor ev) (Subject ev) "error"
    (Some (conflict_payload key seen digest)).

(** How the transaction of [AppendAuditOnce] ended. *)
Inductive once_outcome := OnceAppended | OnceSeen | OnceConflict.

Definition append_once_tx (kr : option AuditKeyring) (epoch_recorded : bool) (now : Z) (key : string) (ev : AuditEvent)
    : Tx (tx_end once_outcome) :=
  let digest := once_digest ev in
  row ← query "audit: record key" (λ d, audit_once d !! key);
  match row with
  | Some _ =>
      seen ← query "audit: read key" (λ d, default "" (or_digest <$> audit_once d !! key));
      if decide (seen = digest) then mret (Return OnceSeen)
      else appendAuditTx kr epoch_recorded now (conflict_event key seen digest ev) ;;
           mret (Commit OnceConflict)
  | None =>
      modify (λ d, set_audit_once (<[key := mkOnceRow digest (UnixNano now)]> (audit_once d)) d) ;;
      appendAuditTx kr epoch_recorded now ev ;;
      mret (Commit OnceAppended)
  end.

(** The hourly housekeeping; its failure is only logged. *)
Definition prune_once (now : Z) : M () :=
  s ← gets id;
  if decide (TimeSub now (oncePrunedAt s) > Hour)%Z then
    modify (set_oncePrunedAt now) ;;
    catch (statement "" (λ d, (tt, set_audit_once
             (filter (λ kv, ¬ (or_created_at kv.2 < UnixNano (now - auditOnceRetention))%Z) (audit_once d)) d)))
      (λ _, mret tt)
  else mret tt.

Definition AppendAuditOnce (now : Z) (key : string) (ev : AuditEvent) : M bool :=
  leader_only
    (if decide (Kind ev = "" ∨ key = "") then throw (ErrMsg "audit: kind and key are required")
     else
       s ← gets id;
       out ← with_tx "audit: begin tx" "audit: commit"
               (append_once_tx (auditKeyring s) (keyedEpochRecorded s) now key ev);
       match out with
       | OnceSeen => mret false
       | OnceConflict => auditCommitted ;; mret false
       | OnceAppended => auditCommitted ;; prune_once now ;; mret true
       end).

(** ** Reading *)

Definition ListAudit (since limit : Z) : M (list AuditEvent) :=
  let limit := if decide (limit <= 0)%Z then 100%Z else limit in
  let limit := if decide (limit > 1000)%Z then 1000%Z else limit in
  on_db "audit: list" (λ d,
    scan_event <$> take (Z.to_nat limit) (filter (λ r, (ar_seq r > since)%Z) (audit_log d))).

Definition auditKeyedFromSeq : M (option Z) :=
  on_db "audit: read keying epoch" (λ d, audit_meta d !! auditMetaKeyedFromSeq).

(** ** Verifying *)

(** The walk's variables. *)
Record walk := mkWalk {
  w_first_bad : Z;
  w_count : Z;
  w_head : string;
  w_prev : string;
  w_saw_anchor : bool;
  w_saw_keyed : bool;
}.

Definition isUnkeyed (ev : AuditEvent) : bool :=
  bool_decide (KeyID ev = "" ∨ KeyID ev = keyIDUnkeyed).

(** The checks of one row: the new value of [FirstBadSeq]. [keys] is the
    snapshot of the keyring ([None] without one), [epoch] the keying epoch. *)
Definition check_row (keys : option keyset) (epoch : option Z) (w : walk) (ev : AuditEvent) : Z :=
  let keyring := bool_decide (is_Some keys) in
  let since_epoch := match epoch with Some keyedFrom => bool_decide (keyedFrom <= Seq ev)%Z | None => false end in
  if keyring && isUnkeyed ev && since_epoch then Seq ev
  else if keyring && isUnkeyed ev && w_saw_keyed w then Seq ev
  else
    match (if isUnkeyed ev then Some "" else keys ≫= lookup (KeyID ev)) with
    | None => Seq ev
    | Some key =>
        if bool_decide (PrevHash ev = w_prev w) &&
           bool_decide (hex_decode (Hash ev) = Some (macAuditEvent ev key))
        then 0%Z else Seq ev
    end.

Definition walk_row (keys : option keyset) (epoch : option Z) (anchor : option AuditAnchor) (w : walk) (ev : AuditEvent) : walk :=
  mkWalk (check_row keys epoch w ev) (w_count w + 1) (Hash ev) (Hash ev)
    (w_saw_anchor w || match anchor with Some a => bool_decide (Hash ev = aa_HeadHash a) | None => false end)
    (w_saw_keyed w || negb (isUnkeyed ev)).

(** The loop over the rows: it stops at the first bad row. *)
Fixpoint walk_rows (keys : option keyset) (epoch : option Z) (anchor : option AuditAnchor) (w : walk) (evs : list AuditEvent) : walk :=
  match evs with
  | [] => w
  | ev :: evs' =>
      let w' := walk_row keys epoch anchor w ev in
      if decide (w_first_bad w' = 0%Z) then walk_rows keys epoch anchor w' evs' else w'
  end.

Definition walk_start (anchor : option AuditAnchor) : walk :=
  mkWalk 0 0 genesisHash genesisHash
    (match anchor with Some a => bool_decide (aa_HeadHash a = genesisHash) | None => false end) false.

Definition walk_result (anchor : option AuditAnchor) (w : walk) : AuditVerification :=
  let truncated :=
    match anchor with
    | Some a => bool_decide (w_first_bad w = 0%Z) &&
                (bool_decide (w_count w < aa_Count a)%Z || negb (w_saw_anchor w))
    | None => false
    end in
  mkAuditVerification (bool_decide (w_first_bad w = 0%Z) && negb truncated)
    (w_first_bad w) truncated (w_count w) (w_head w).

Definition VerifyAudit (anchor : option AuditAnchor) : M AuditVerification :=
  kr ← gets auditKeyring;
  epoch ← match kr with Some _ => auditKeyedFromSeq | None => mret None end;
  rows ← on_db "audit: verify query" (λ d, scan_event <$> audit_log d);
  mret (walk_result anchor (walk_rows (Snapshot <$> kr) epoch anchor (walk_start anchor) rows)).

(** ** Forwarding watermarks *)

Definition AuditForwardSeq (name : string) : M Z :=
  if decide (name = "") then throw (ErrMsg "audit forward: name is required")
  else on_db "audit forward: read seq" (λ d, default 0%Z (fr_last_seq <$> audit_forward_state d !! name)).

Definition SetAuditForwardSeq (now : Z) (name : string) (seq : Z) : M () :=
  if decide (name = "") then throw (ErrMsg "audit forward: name is required")
  else if decide (seq < 0)%Z then throw (ErrInvalid "audit forward: seq" (pretty seq))
  else statement "audit forward: write seq" (λ d,
    (tt, set_audit_forward_state (<[name := mkForwardRow seq (UnixNano now)]> (audit_forward_state d)) d)).

(** ** Appending a row *)

(** The keying epoch, and whether a row is keyed. *)
Definition epoch_of (d : DB) : option Z := audit_meta d !! auditMetaKeyedFromSeq.
Definition keyed (r : audit_row) : Prop := isUnkeyed (scan_event r) = false.

Definition seqs_below (n : Z) (l : list audit_row) : Prop := Forall (λ r, (ar_seq r < n)%Z) l.

Lemma insert_by_seq_last r l : seqs_below (ar_seq r) l → insert_by_seq r l = l ++ [r].
Proof.
  induction 1 as [|x l Hx _ IH]; simpl; [done|]. rewrite decide_False by lia. by rewrite IH.
Qed.

Lemma event_row_scan r : in_int64 (ar_ts r) → event_row (scan_event r) = r.
Proof. intros H. destruct r; unfold event_row; simpl in *. unfold UnixNano, UnixTime. by rewrite wrap64_id. Qed.

Lemma update_hash_last ev h l :
  seqs_below (Seq ev) l → 
  update_hash (Seq ev) h (l ++ [event_row ev]) = l ++ [event_row (set_Hash h ev)].
Proof.
  intros Hl. unfold update_hash. rewrite fmap_app. f_equal.
  - induction Hl as [|x l Hx Hl IH]; csimpl; [done|]. rewrite decide_False by lia. by rewrite IH.
  - csimpl. rewrite decide_True by done. unfold event_row, scan_event, UnixNano, UnixTime; simpl.
    by rewrite (wrap64_id (wrap64 _)) by apply wrap64_range.
Qed.

Lemma set_update_hash ev h l d d0 :
  seqs_below (Seq ev) l → d0 = set_audit_log (l ++ [event_row ev]) d →
  set_audit_log (update_hash (Seq ev) h (audit_log d0)) d0 =
  set_audit_log (l ++ [event_row (set_Hash h ev)]) d.
Proof.
  intros Hl ->. unfold set_audit_log at 1 2 3; simpl.
  by rewrite update_hash_last.
Qed.

(** What [appendAuditTx] leaves: the prepared event, hashed, at the end of
    the log, and the epoch recorded with the first keyed row. *)
Definition appended_event (kr : option AuditKeyring) (now : Z) (ev : AuditEvent) (d : DB) : AuditEvent :=
  let ev1 := prepare_event kr now ev (lastAuditHash d) (audit_seq d + 1) in
  set_Hash (hashAuditEvent ev1 (active_secret kr)) ev1.

Definition record_epoch (kr : option AuditKeyring) (epoch_recorded : bool) (seq : Z) (d : DB) : DB :=
  if decide (is_Some kr ∧ epoch_recorded = false ∧ epoch_of d = None)
  then set_audit_meta (<[auditMetaKeyedFromSeq := seq]> (audit_meta d)) d else d.

Definition appended_db (kr : option AuditKeyring) (epoch_recorded : bool) (now : Z) (ev : AuditEvent) (d : DB) : DB :=
  let ev2 := appended_event kr now ev d in
  record_epoch kr epoch_recorded (audit_seq d + 1)
    (set_audit_log (audit_log d ++ [event_row ev2]) (set_audit_seq (audit_seq d + 1) d)).

Lemma record_epoch_eq kr er seq d :
  (if decide (is_Some kr ∧ er = false)
   then match audit_meta d !! auditMetaKeyedFromSeq with
        | Some _ => d
        | None => set_audit_meta (<[auditMetaKeyedFromSeq := seq]> (audit_meta d)) d
        end
   else d) = record_epoch kr er seq d.
Proof. unfold record_epoch, epoch_of. repeat case_decide; repeat case_match; naive_solver. Qed.

Lemma insert_audit_Ok mk d q ev d' q' :
  seqs_below (audit_seq d + 1) (audit_log d) → (∀ n, Seq (mk n) = n) →
  insert_audit mk (d, q) = (Ok ev, (d', q')) →
  ev = mk (audit_seq d + 1)%Z ∧ (audit_seq d + 1 < two63)%Z ∧
  d' = set_audit_log (audit_log d ++ [event_row ev]) (set_audit_seq (audit_seq d + 1) d).
Proof.
  intros Hb Hmk H. unfold insert_audit in H. run_split H.
  split_and!; [done|lia|]. unfold set_audit_log; simpl.
  by rewrite insert_by_seq_last by (simpl; by rewrite Hmk).
Qed.

Lemma appendAuditTx_Ok kr er now ev d q ev' d' q' :
  seqs_below (audit_seq d + 1) (audit_log d) →
  appendAuditTx kr er now ev (d, q) = (Ok ev', (d', q')) →
  ev' = appended_event kr now ev d ∧ d' = appended_db kr er now ev d ∧ (audit_seq d + 1 < two63)%Z.
Proof.
  intros Hb H. unfold appendAuditTx in H.
  apply bind_Ok in H as (prev & [d1 q1] & Hp & H). run_split Hp.
  apply bind_Ok in H as (ev1 & [d2 q2] & Hi & H).
  apply insert_audit_Ok in Hi as (-> & Hlt & ->); [|done|done].
  apply bind_Ok in H as ([] & [d3 q3] & [_ Hu]%insert_row_Ok & H).
  apply bind_Ok in H as ([] & [d4 q4] & He & [<- [= <- <-]]%ret_Ok).
  split_and!; [done| |done]. unfold appended_db. rewrite <-record_epoch_eq.
  cbn [fst] in Hu. erewrite set_update_hash in Hu by done. subst d3.
  case_decide; run_split He; done.
Qed.

(** In a run in which nothing fails the append succeeds, unless the hash
    of the new row is already in the table. *)
Lemma appendAuditTx_run kr er now ev d :
  seqs_below (audit_seq d + 1) (audit_log d) → (audit_seq d + 1 < two63)%Z →
  Forall (λ r, ar_hash r ≠ "pending" ∧ ar_hash r ≠ Hash (appended_event kr now ev d)) (audit_log d) →
  appendAuditTx kr er now ev (d, []) = (Ok (appended_event kr now ev d), (appended_db kr er now ev d, [])).
Proof.
  intros Hb Hlt Hf. unfold appendAuditTx. run_step.
  set (mk := prepare_event kr now ev (lastAuditHash d)).
  assert (insert_audit mk (d, []) =
    (Ok (mk (audit_seq d + 1)%Z),
     (set_audit_log (audit_log d ++ [event_row (mk (audit_seq d + 1)%Z)]) (set_audit_seq (audit_seq d + 1) d), []))) as Hi.
  { unfold insert_audit, mbind, GoM_bind, io, gets, modify, throw, mret, GoM_ret; simpl.
    rewrite decide_False by lia. simpl. rewrite bool_decide_eq_false_2.
    - simpl. unfold set_audit_log; simpl. by rewrite insert_by_seq_last.
    - rewrite Exists_exists. intros (r & Hr & [Hs|Hh]).
      + eapply Forall_forall in Hb; [|done]. simpl in *. lia.
      + eapply Forall_forall in Hf; [|done]. by destruct Hf. }
  erewrite bind_run by apply Hi. cbv zeta.
  erewrite bind_run.
  2:{ apply insert_row_run, bool_decide_eq_false_2. simpl. rewrite Exists_app.
      intros [(r & Hr & _ & Hh)%Exists_exists|[[Hs _]|?%Exists_nil]%Exists_cons]; [|done|done].
      eapply Forall_forall in Hf; [|done]. by destruct Hf. }
  unfold appended_db. rewrite <-record_epoch_eq.
  cbn [fst Seq Hash set_Hash]. erewrite set_update_hash by done.
  case_decide; [run_step|]; done.
Qed.

(** ** What the walk accepts *)

(** The secret a row is checked under. *)
Definition row_key (ks : option keyset) (r : audit_row) : option string :=
  if isUnkeyed (scan_event r) then Some "" else ks ≫= lookup (ar_key_id r).

Definition row_mac (ks : option keyset) (r : audit_row) : option string :=
  macAuditEvent (scan_event r) <$> row_key ks r.

(** The hash of the last row, or [prev] when there is none. *)
Definition last_hash (prev : string) (rows : list audit_row) : string :=
  default prev (ar_hash <$> last rows).

(** The rows form a chain from [prev], each with a MAC that verifies, and
    with a keyring no unkeyed row comes after keying began. *)
Fixpoint accepted (ks : option keyset) (epoch : option Z) (saw_keyed : bool) (prev : string) (rows : list audit_row) : Prop :=
  match rows with
  | [] => True
  | r :: rows' =>
      ar_prev_hash r = prev ∧
      (∃ mac, row_mac ks r = Some mac ∧ hex_decode (ar_hash r) = Some mac) ∧
      (is_Some ks → ¬ keyed r → saw_keyed = false ∧ ∀ e, epoch = Some e → (ar_seq r < e)%Z) ∧
      accepted ks epoch (saw_keyed || negb (isUnkeyed (scan_event r))) (ar_hash r) rows'
  end.

Definition no_zero_seq (rows : list audit_row) : Prop := Forall (λ r, ar_seq r ≠ 0%Z) rows.

#[global] Instance no_zero_seq_dec rows : Decision (no_zero_seq rows).
Proof. unfold no_zero_seq. apply _. Defined.

Lemma keyed_dec r : keyed r ∨ isUnkeyed (scan_event r) = true.
Proof. unfold keyed. destruct (isUnkeyed _); auto. Qed.

(** The last branch of the switch: linkage and MAC. *)
Lemma check_mac_0 ks prev r :
  ar_seq r ≠ 0%Z →
  match row_key ks r with
  | None => ar_seq r
  | Some key =>
      if bool_decide (ar_prev_hash r = prev) &&
         bool_decide (hex_decode (ar_hash r) = Some (macAuditEvent (scan_event r) key))
      then 0%Z else ar_seq r
  end = 0%Z ↔
  ar_prev_hash r = prev ∧ ∃ mac, row_mac ks r = Some mac ∧ hex_decode (ar_hash r) = Some mac.
Proof.
  intros Hz. unfold row_mac. destruct (row_key ks r) as [key|]; csimpl; [|naive_solver].
  case_bool_decide; case_bool_decide; naive_solver.
Qed.

Lemma check_row_0 ks epoch w r :
  ar_seq r ≠ 0%Z →
  check_row ks epoch w (scan_event r) = 0%Z ↔
  ar_prev_hash r = w_prev w ∧
  (∃ mac, row_mac ks r = Some mac ∧ hex_decode (ar_hash r) = Some mac) ∧
  (is_Some ks → ¬ keyed r → w_saw_keyed w = false ∧ ∀ e, epoch = Some e → (ar_seq r < e)%Z).
Proof.
  intros Hz. rewrite (assoc (∧)), <-(check_mac_0 _ _ _ Hz). unfold check_row, keyed.
  change (Seq (scan_event r)) with (ar_seq r). change (KeyID (scan_event r)) with (ar_key_id r).
  change (PrevHash (scan_event r)) with (ar_prev_hash r). change (Hash (scan_event r)) with (ar_hash r).
  change (if isUnkeyed (scan_event r) then Some "" else ks ≫= lookup (ar_key_id r)) with (row_key ks r).
  rewrite not_false_iff_true. set (mac0 := match row_key ks r with Some _ => _ | None => _ end). clearbody mac0.
  destruct (isUnkeyed (scan_event r)); [|rewrite !andb_false_r; naive_solver].
  case_bool_decide as Hks; [|simpl; naive_solver]. simpl.
  destruct epoch as [e|]; [case_bool_decide|]; destruct (w_saw_keyed w); simpl.
  - split; [by intros ?%Hz|]. intros [_ H']. by destruct (H' Hks eq_refl).
  - split; [by intros ?%Hz|]. intros [_ H']. destruct (H' Hks eq_refl) as [_ H2]. specialize (H2 e eq_refl). lia.
  - split; [by intros ?%Hz|]. intros [_ H']. by destruct (H' Hks eq_refl).
  - split; [|by intros [? _]]. intros ->. split; [done|]. intros _ _. split; [done|]. intros ? [= <-]. lia.
  - split; [by intros ?%Hz|]. intros [_ H']. by destruct (H' Hks eq_refl).
  - split; [|by intros [? _]]. by intros ->.
Qed.

(** The walk stops nowhere exactly on the rows [accepted] describes; it
    then has seen them all. *)
Lemma walk_rows_0 ks epoch anchor rows w :
  no_zero_seq rows → w_first_bad w = 0%Z →
  let w' := walk_rows ks epoch anchor w (scan_event <$> rows) in
  (w_first_bad w' = 0%Z ↔ accepted ks epoch (w_saw_keyed w) (w_prev w) rows) ∧
  (w_first_bad w' = 0%Z →
   w_count w' = (w_count w + Z.of_nat (length rows))%Z ∧
   w_head w' = last_hash (w_head w) rows ∧
   (w_saw_anchor w' = true ↔ w_saw_anchor w = true ∨
      ∃ a r, anchor = Some a ∧ r ∈ rows ∧ ar_hash r = aa_HeadHash a)).
Proof.
  intros Hz. revert w. induction Hz as [|r rows Hr Hz IH]; intros w Hw; csimpl.
  - split; [done|]. intros _. split_and!; [lia|done|].
    split; [auto|]. by intros [?|(a & r & _ & []%not_elem_of_nil & _)].
  - destruct (decide _) as [H0|H0].
    + destruct (IH (walk_row ks epoch anchor w (scan_event r)) H0) as [Hacc Hres].
      simpl in H0. apply check_row_0 in H0 as (H1 & H2 & H3); [|done]. split.
      * rewrite Hacc. simpl. naive_solver.
      * intros Hw'. destruct (Hres Hw') as (Hc & Hh & Ha). split_and!.
        -- rewrite Hc. simpl. lia.
        -- rewrite Hh. unfold last_hash. rewrite last_cons. by destruct (last rows).
        -- rewrite Ha. simpl. rewrite orb_true_iff. destruct anchor as [a|]; [|naive_solver].
           rewrite bool_decide_eq_true. setoid_rewrite elem_of_cons.
           change (Hash (scan_event r)) with (ar_hash r). clear. naive_solver.
    + split; [|done]. split; [done|]. intros (H1 & H2 & H3 & _). exfalso. apply H0. simpl.
      by apply check_row_0.
Qed.

(** ** The invariant of the chain *)

(** A chain from [prev] as the store writes it: the stored hash is the
    encoding of the MAC. *)
Fixpoint linked (ks : option keyset) (prev : string) (rows : list audit_row) : Prop :=
  match rows with
  | [] => True
  | r :: rows' =>
      ar_prev_hash r = prev ∧
      (∃ mac, row_mac ks r = Some mac ∧ ar_hash r = hex_encode mac) ∧
      linked ks (ar_hash r) rows'
  end.

Record audit_inv (kr : option AuditKeyring) (d : DB) : Prop := {
  ai_counter : (0 <= audit_seq d)%Z;
  ai_sorted : StronglySorted Z.lt (ar_seq <$> audit_log d);
  ai_seqs : Forall (λ r, (0 < ar_seq r <= audit_seq d)%Z) (audit_log d);
  ai_ts : Forall (λ r, in_int64 (ar_ts r)) (audit_log d);
  ai_linked : linked (Snapshot <$> kr) genesisHash (audit_log d);
  ai_epoch : ∀ e, epoch_of d = Some e → is_Some kr ∧ (e <= audit_seq d)%Z;
  ai_keyed : Forall (λ r, keyed r ↔ ∃ e, epoch_of d = Some e ∧ (e <= ar_seq r)%Z) (audit_log d);
}.

(** The invariant of a store: the chain is sound under its keyring, and
    the flag that skips writing the epoch is only set when it is there. *)
Record audit_ok (s : Store) : Prop := {
  as_inv : audit_inv (auditKeyring s) (db s);
  as_flag : keyedEpochRecorded s = true → is_Some (epoch_of (db s));
  as_keyring : ∀ kr, auditKeyring s = Some kr → keyring_ok kr;
}.

Lemma audit_inv_ext kr d d' :
  audit_log d' = audit_log d → audit_seq d' = audit_seq d → audit_meta d' = audit_meta d →
  audit_inv kr d → audit_inv kr d'.
Proof. intros Hl Hs Hm []. split; unfold epoch_of in *; rewrite ?Hl, ?Hs, ?Hm; done. Qed.

#[global] Instance audit_inv_stable kr : SeqStable (audit_inv kr).
Proof.
  intros d n [] Hn. split; simpl; try done; [lia| |].
  - eapply Forall_impl; [exact ai_seqs0|]. simpl. lia.
  - intros e [? ?]%ai_epoch0. split; [done|lia].
Qed.

Lemma last_hash_cons p r rows : last_hash p (r :: rows) = last_hash (ar_hash r) rows.
Proof. unfold last_hash. rewrite last_cons. by destruct (last rows). Qed.

Lemma linked_app ks p l1 l2 :
  linked ks p (l1 ++ l2) ↔ linked ks p l1 ∧ linked ks (last_hash p l1) l2.
Proof.
  revert p. induction l1 as [|r l1 IH]; intros p; simpl; [naive_solver|].
  rewrite IH, last_hash_cons. naive_solver.
Qed.

Lemma lastAuditHash_eq d : lastAuditHash d = last_hash genesisHash (audit_log d).
Proof. unfold lastAuditHash, last_hash. by destruct (last _). Qed.

Lemma mac_event_row ev key :
  macAuditEvent (scan_event (event_row ev)) key = macAuditEvent ev key.
Proof.
  unfold macAuditEvent, mac_input, event_row, scan_event, UnixNano, UnixTime; simpl.
  by rewrite (wrap64_id (wrap64 _)) by apply wrap64_range.
Qed.

(** An appended row is checked under the key it was MACed with. *)
Lemma appended_row_mac kr now ev d :
  (∀ k, kr = Some k → keyring_ok k) →
  let r := event_row (appended_event kr now ev d) in
  (keyed r ↔ is_Some kr) ∧
  ∃ mac, row_mac (Snapshot <$> kr) r = Some mac ∧ ar_hash r = hex_encode mac.
Proof.
  intros Hk r. unfold row_mac, row_key. subst r.
  set (ev1 := prepare_event kr now ev (lastAuditHash d) (audit_seq d + 1)).
  assert (∀ key, macAuditEvent (scan_event (event_row (appended_event kr now ev d))) key = macAuditEvent ev1 key)
    as Hmac by (intros; by rewrite mac_event_row).
  assert (ar_hash (event_row (appended_event kr now ev d)) = hex_encode (macAuditEvent ev1 (active_secret kr)))
    as -> by done.
  destruct kr as [k|]; csimpl.
  - destruct (Hk k eq_refl) as [[sec Hsec] _ Hid].
    assert (isUnkeyed (scan_event (event_row (appended_event (Some k) now ev d))) = false) as Hu.
    { apply bool_decide_eq_false. simpl. apply Hid in Hsec as [??]. naive_solver. }
    unfold keyed. rewrite Hu. split; [naive_solver|]. unfold Snapshot. simpl. rewrite Hsec; simpl.
    eexists; split; [done|]. by rewrite Hmac.
  - assert (isUnkeyed (scan_event (event_row (appended_event None now ev d))) = true) as Hu
      by (apply bool_decide_eq_true; by right).
    unfold keyed. rewrite Hu. split; [by split; [|intros [? ?]]|]. simpl.
    eexists; split; [done|]. by rewrite Hmac.
Qed.

Lemma epoch_record_epoch kr er n d :
  (kr ≠ None → er = true → is_Some (epoch_of d)) →
  epoch_of (record_epoch kr er n d) =
  match kr, epoch_of d with Some _, None => Some n | _, e => e end.
Proof.
  intros Her. unfold record_epoch, epoch_of in *. case_decide as H; simpl.
  - destruct H as ([k ->] & _ & ->). by rewrite lookup_insert_eq.
  - destruct kr as [k|]; [|done]. destruct (audit_meta d !! _) eqn:E; [done|].
    destruct er; [|naive_solver]. by destruct Her.
Qed.

Lemma record_epoch_log kr er n d :
  audit_log (record_epoch kr er n d) = audit_log d ∧ audit_seq (record_epoch kr er n d) = audit_seq d.
Proof. unfold record_epoch. by case_decide. Qed.

Lemma seqs_below_inv kr d : audit_inv kr d → seqs_below (audit_seq d + 1) (audit_log d).
Proof. intros H. eapply Forall_impl; [apply (ai_seqs _ _ H)|]. simpl. lia. Qed.

Lemma appended_db_inv kr er now ev d :
  audit_inv kr d → (∀ k, kr = Some k → keyring_ok k) →
  (kr ≠ None → er = true → is_Some (epoch_of d)) →
  audit_inv kr (appended_db kr er now ev d).
Proof.
  intros Hinv Hkr Her. pose proof (seqs_below_inv _ _ Hinv) as Hb. destruct Hinv as [Hc Hso Hs Ht Hl He Hk].
  destruct (appended_row_mac kr now ev d Hkr) as [Hkeyed Hmac].
  unfold appended_db. set (r := event_row (appended_event kr now ev d)) in *.
  set (d1 := set_audit_log (audit_log d ++ [r]) (set_audit_seq (audit_seq d + 1) d)).
  assert (epoch_of d1 = epoch_of d) as Hd1 by done.
  destruct (record_epoch_log kr er (audit_seq d + 1) d1) as [Elog Eseq].
  assert (epoch_of (record_epoch kr er (audit_seq d + 1) d1) =
    match kr, epoch_of d with Some _, None => Some (audit_seq d + 1)%Z | _, e => e end) as Eep
    by (rewrite epoch_record_epoch; by rewrite Hd1).
  split; rewrite ?Elog, ?Eseq, ?Eep; simpl.
  - lia.
  - rewrite fmap_app. apply StronglySorted_app_2; [|done|repeat constructor].
    intros x1 x2 Hx1. csimpl. rewrite list_elem_of_singleton. intros ->.
    apply list_elem_of_fmap in Hx1 as (r1 & -> & Hr1). eapply Forall_forall in Hb; [|done]. done.
  - rewrite Forall_app, Forall_singleton. split; [|simpl; lia].
    eapply Forall_impl; [exact Hs|]. simpl. lia.
  - rewrite Forall_app, Forall_singleton. split; [done|]. apply wrap64_range.
  - rewrite linked_app. split; [done|]. simpl. rewrite <-lastAuditHash_eq. auto.
  - intros e Hep. destruct kr as [k|]; [split; [done|]|by apply He in Hep as [[? ?] _]].
    destruct (epoch_of d) eqn:E; simplify_eq; [destruct (He e eq_refl); lia|lia].
  - rewrite Forall_app, Forall_singleton. split.
    + apply Forall_forall. intros x Hx. eapply Forall_forall in Hk; [|done].
      eapply Forall_forall in Hb; [|done]. rewrite Hk. destruct kr, (epoch_of d); naive_solver lia.
    + rewrite Hkeyed. change (ar_seq r) with (audit_seq d + 1)%Z.
      destruct kr as [k|]; destruct (epoch_of d) as [e|] eqn:E.
      * destruct (He e eq_refl). split; [|done]. intros _. exists e. split; [done|lia].
      * split; [|done]. intros _. eexists. split; [done|lia].
      * destruct (He e eq_refl) as [[? ?] _]. done.
      * split; [by intros [? ?]|]. by intros (? & ? & _).
Qed.

(** A chain the store wrote is accepted. *)
Lemma linked_accepted ks epoch rows saw prev :
  linked ks prev rows → StronglySorted Z.lt (ar_seq <$> rows) →
  Forall (λ r, keyed r ↔ ∃ e, epoch = Some e ∧ (e <= ar_seq r)%Z) rows →
  (saw = true → ∃ e, epoch = Some e ∧ Forall (λ r, (e <= ar_seq r)%Z) rows) →
  accepted ks epoch saw prev rows.
Proof.
  revert saw prev. induction rows as [|r rows IH]; intros saw prev; csimpl; [done|].
  intros (Hp & (mac & Hm & Hh) & Hl) [Hso Hlt]%StronglySorted_inv [Hk Hks]%Forall_cons Hsaw.
  split_and!; [done|..].
  - exists mac. split; [done|]. by rewrite Hh, hex_decode_encode.
  - intros _ Hun. split.
    + destruct saw; [|done]. destruct Hsaw as (e & ? & [? ?]%Forall_cons); [done|]. naive_solver.
    + intros e ->. destruct (decide (ar_seq r < e)%Z); [done|]. destruct Hun. apply Hk. eauto with lia.
  - apply IH; [done|done|done|]. intros Hsaw'.
    assert (∃ e, epoch = Some e ∧ (e <= ar_seq r)%Z) as (e & -> & Hle).
    { apply orb_true_iff in Hsaw' as [->|Hu%negb_true_iff].
      - destruct Hsaw as (e & ? & [? ?]%Forall_cons); eauto.
      - by apply Hk. }
    exists e. split; [done|]. apply Forall_forall. intros x Hx.
    eapply Forall_forall in Hlt; [|by apply list_elem_of_fmap_2]. lia.
Qed.

Lemma audit_inv_accepted kr d :
  audit_inv kr d → accepted (Snapshot <$> kr) (epoch_of d) false genesisHash (audit_log d).
Proof. intros []. by apply linked_accepted. Qed.

Lemma audit_inv_no_zero kr d : audit_inv kr d → no_zero_seq (audit_log d).
Proof. intros H. eapply Forall_impl; [apply (ai_seqs _ _ H)|]. simpl. lia. Qed.

(** The verification of a store whose log is [rows] and epoch [epoch]. *)
Definition verdict (kr : option AuditKeyring) (anchor : option AuditAnchor) (d : DB) : AuditVerification :=
  let epoch := match kr with Some _ => epoch_of d | None => None end in
  walk_result anchor (walk_rows (Snapshot <$> kr) epoch anchor (walk_start anchor) (scan_event <$> audit_log d)).

Lemma VerifyAudit_run anchor s :
  VerifyAudit anchor (s, []) = (Ok (verdict (auditKeyring s) anchor (db s)), (s, [])).
Proof.
  unfold VerifyAudit, verdict, auditKeyedFromSeq, on_db. erewrite bind_run by done. simpl fst.
  destruct (auditKeyring s); erewrite bind_run by done; by run_step.
Qed.

(** What a valid verdict says, and when it is given. *)
Lemma verdict_valid kr anchor d :
  no_zero_seq (audit_log d) →
  Valid (verdict kr anchor d) = true ↔
  accepted (Snapshot <$> kr) (match kr with Some _ => epoch_of d | None => None end) false genesisHash (audit_log d) ∧
  ∀ a, anchor = Some a → (aa_Count a <= Z.of_nat (length (audit_log d)))%Z ∧
    (aa_HeadHash a = genesisHash ∨ ∃ r, r ∈ audit_log d ∧ ar_hash r = aa_HeadHash a).
Proof.
  intros Hz. unfold verdict.
  destruct (walk_rows_0 (Snapshot <$> kr) (match kr with Some _ => epoch_of d | None => None end)
              anchor (audit_log d) (walk_start anchor) Hz eq_refl) as [Hacc Hres].
  set (w := walk_rows _ _ _ _ _) in *. simpl in Hacc, Hres. unfold walk_result; simpl.
  rewrite <-Hacc. case_bool_decide as H0; simpl; [|naive_solver].
  destruct (Hres H0) as (Hc & _ & Ha). destruct anchor as [a|]; simpl; [|naive_solver].
  rewrite negb_true_iff, orb_false_iff, negb_false_iff, bool_decide_eq_false, Ha, bool_decide_eq_true, Hc.
  split.
  - intros [Hle Hsaw]. split; [done|]. intros ? [= <-]. split; [lia|]. naive_solver.
  - intros [_ H]. destruct (H a eq_refl) as [Hle Hh]. split; [lia|]. naive_solver.
Qed.

Lemma verdict_summary kr anchor d :
  no_zero_seq (audit_log d) → FirstBadSeq (verdict kr anchor d) = 0%Z →
  Count (verdict kr anchor d) = Z.of_nat (length (audit_log d)) ∧
  HeadHash (verdict kr anchor d) = lastAuditHash d.
Proof.
  intros Hz H0. destruct (walk_rows_0 (Snapshot <$> kr) (match kr with Some _ => epoch_of d | None => None end)
              anchor (audit_log d) (walk_start anchor) Hz eq_refl) as [_ Hres].
  destruct (Hres H0) as (Hc & Hh & _). rewrite lastAuditHash_eq. done.
Qed.

(** ** Appending keeps the chain sound *)

(** The audit tables of two databases agree. *)
Definition same_audit (d d' : DB) : Prop :=
  audit_log d' = audit_log d ∧ audit_seq d' = audit_seq d ∧ audit_meta d' = audit_meta d.

Lemma audit_ok_set_db s d :
  audit_ok s → audit_inv (auditKeyring s) d → (is_Some (epoch_of (db s)) → is_Some (epoch_of d)) →
  audit_ok (set_db d s).
Proof. intros [] ? Hep. split; simpl; auto. Qed.

Lemma audit_ok_rolled_back s d : audit_ok s → rolled_back (db s) d → audit_ok (set_db d s).
Proof.
  intros Hok (n & Hn & ->). apply audit_ok_set_db; [done| |done]. apply seq_stable; [apply Hok|done].
Qed.

Lemma audit_ok_same s d : audit_ok s → same_audit (db s) d → audit_ok (set_db d s).
Proof.
  intros Hok (Hl & Hs & Hm). apply audit_ok_set_db; [done| |unfold epoch_of; by rewrite Hm].
  eapply audit_inv_ext; [..|apply Hok]; done.
Qed.

Lemma audit_ok_append s now ev :
  audit_ok s → 
  audit_ok (set_db (appended_db (auditKeyring s) (keyedEpochRecorded s) now ev (db s)) s) ∧
  (is_Some (auditKeyring s) →
   is_Some (epoch_of (appended_db (auditKeyring s) (keyedEpochRecorded s) now ev (db s)))).
Proof.
  intros Hok. unfold appended_db.
  assert (is_Some (epoch_of (db s)) ∨ is_Some (auditKeyring s) →
    is_Some (epoch_of (appended_db (auditKeyring s) (keyedEpochRecorded s) now ev (db s)))) as Hep.
  { unfold appended_db. rewrite epoch_record_epoch by (intros _; apply Hok).
    change (epoch_of _) with (epoch_of (db s)).
    destruct (auditKeyring s), (epoch_of (db s)); naive_solver. }
  split; [|auto]. apply audit_ok_set_db; [done| |auto].
  apply appended_db_inv; [apply Hok|apply Hok|]. intros _. apply Hok.
Qed.

(** [auditCommitted] after a commit. *)
Lemma auditCommitted_ok s q :
  audit_ok s → (is_Some (auditKeyring s) → is_Some (epoch_of (db s))) →
  ∃ s', auditCommitted (s, q) = (Ok tt, (s', q)) ∧ audit_ok s' ∧ db s' = db s ∧ auditKeyring s' = auditKeyring s.
Proof.
  intros Hok Hep. unfold auditCommitted, modify; simpl.
  destruct (auditKeyring s) as [k|] eqn:Hk; [|by exists s].
  eexists; split_and!; [done|..|done|done]. destruct Hok. split; simpl; auto.
Qed.

Lemma appended_db_log kr er now ev d :
  audit_log (appended_db kr er now ev d) = audit_log d ++ [event_row (appended_event kr now ev d)].
Proof. unfold appended_db. by rewrite (proj1 (record_epoch_log _ _ _ _)). Qed.

Lemma appendAuditTx_commit s now ev d q ev' d' q' :
  audit_ok s → same_audit (db s) d →
  appendAuditTx (auditKeyring s) (keyedEpochRecorded s) now ev (d, q) = (Ok ev', (d', q')) →
  ev' = appended_event (auditKeyring s) now ev (db s) ∧
  audit_log d' = audit_log (db s) ++ [event_row ev'] ∧
  audit_ok (set_db d' s) ∧
  (is_Some (auditKeyring s) → is_Some (epoch_of d')) ∧
  d' = appended_db (auditKeyring s) (keyedEpochRecorded s) now ev d.
Proof.
  intros Hok Hsame H. assert (audit_ok (set_db d s)) as Hok1 by by apply audit_ok_same.
  apply appendAuditTx_Ok in H as (-> & -> & _); [|apply (seqs_below_inv (auditKeyring s)); apply Hok1].
  destruct (audit_ok_append _ now ev Hok1) as [Hok2 Hep].
  rewrite appended_db_log. destruct Hsame as (Hl & Hs & Hm).
  unfold appended_event, lastAuditHash. rewrite Hl, Hs. auto.
Qed.

(** Whatever fails, an append leaves a sound chain that extends the one
    before by at most its row, and by exactly its row when it succeeds. *)
Lemma AppendAudit_cases now ev s q r s' q' :
  audit_ok s → AppendAudit now ev (s, q) = (r, (s', q')) →
  audit_ok s' ∧ auditKeyring s' = auditKeyring s ∧
  ((is_ok r = false ∧ rolled_back (db s) (db s')) ∨
   (∃ ev', ev' = appended_event (auditKeyring s) now ev (db s) ∧
      db s' = appended_db (auditKeyring s) (keyedEpochRecorded s) now ev (db s) ∧
      audit_log (db s') = audit_log (db s) ++ [event_row ev'] ∧ (r = Ok ev' ∨ is_ok r = false))).
Proof.
  intros Hok H. pose proof (rolled_back_refl (db s)).
  apply leader_only_cases in H as [[_ [= -> -> ->]]|[_ H]]; [by auto|].
  case_decide; [injection H as <- <- <-; by auto|].
  erewrite bind_run in H by done.
  apply bind_cases in H as [(a & [s1 q1] & Htx & H)|(e & [s1 q1] & Htx & [= -> -> ->])];
    apply with_tx_cases in Htx as [(d & -> & Hrb & Hr)|(w & d & w' & a' & Hb & -> & Hr)].
  - destruct (Hr a eq_refl) as (w & w' & Hb). run_split Hb.
  - run_split Hb. destruct Hr as [[= <-]|[? ?]]; [|done].
    apply appendAuditTx_commit in Hrun as (-> & Hlog & Hok1 & Hep & Hd); [|done|done].
    destruct (auditCommitted_ok _ q1 Hok1 Hep) as (s2 & Hc & Hok2 & Hdb & Hkr).
    erewrite bind_run in H by done. injection H as <- <- <-. rewrite Hdb, Hkr. subst d. eauto 10.
  - split_and!; [by apply audit_ok_rolled_back|done|by left].
  - run_split Hb. apply appendAuditTx_commit in Hrun as (-> & Hlog & Hok1 & Hep & Hd); [|done|done].
    split_and!; [done|done|]. right. eexists. split_and!; [done|done|done|]. destruct Hr as [[=]|[? [= ->]]]; auto.
Qed.
