(* ===== verification/AuditVerify.v ===== *)
(** * AuditVerify

    What a walk of the audit chain establishes: a chain the store wrote
    verifies, and a chain that verifies against a published anchor, or in
    which a keyed row was not forged, is the chain the store wrote, unless
    two rows collide under the hash. The rows are those of any database,
    so everything a writer of the database could have done to the table is
    covered. *)
From S2P Require Import Prelude Crypto Json AuditKeyring Store AuditChain.

(** ** Fields of the MAC *)

(** The five fields between the time and the previous hash. *)
Definition row_content (r : audit_row) : string :=
  ar_kind r +:+ "|" +:+ ar_actor r +:+ "|" +:+ ar_subject r +:+ "|" +:+
  ar_decision r +:+ "|" +:+ ar_payload r.

Lemma mac_input_eq r key :
  mac_input (scan_event r) key =
  pretty (ar_seq r) +:+ String "|" (pretty (UnixNano (ar_ts r)) +:+ String "|"
    (row_content r +:+ String "|" (ar_prev_hash r +:+
      if decide (key = "") then "" else String "|" ("keyid" +:+ String "|" (ar_key_id r))))).
Proof. unfold mac_input, row_content; simpl. rewrite !string_app_assoc. by repeat case_decide. Qed.

(** The two rows are checked alike: same fields, with the boundaries
    between the five inner ones left open, and the same key. *)
Record same_row (r r' : audit_row) : Prop := {
  sr_seq : ar_seq r' = ar_seq r;
  sr_ts : UnixNano (ar_ts r') = UnixNano (ar_ts r);
  sr_content : row_content r' = row_content r;
  sr_prev : ar_prev_hash r' = ar_prev_hash r;
  sr_key : ar_key_id r' = ar_key_id r ∨ ¬ keyed r ∧ ¬ keyed r';
}.

(** Cutting the MAC input back into its fields. *)
Lemma mac_input_fields r r' key key' :
  mac_input (scan_event r) key = mac_input (scan_event r') key' → (key = "" ↔ key' = "") →
  no_byte "|" (ar_prev_hash r) → no_byte "|" (ar_prev_hash r') →
  (key ≠ "" → no_byte "|" (ar_key_id r) ∧ no_byte "|" (ar_key_id r')) →
  ar_seq r' = ar_seq r ∧ UnixNano (ar_ts r') = UnixNano (ar_ts r) ∧
  row_content r' = row_content r ∧ ar_prev_hash r' = ar_prev_hash r ∧
  (key ≠ "" → ar_key_id r' = ar_key_id r).
Proof.
  rewrite !mac_input_eq. intros H Hk Hp Hp' Hid.
  apply cut_first_inj in H as [?%(inj pretty) H]; [|by apply pretty_Z_no_byte..].
  apply cut_first_inj in H as [?%(inj pretty) H]; [|by apply pretty_Z_no_byte..].
  destruct (decide (key = "")) as [Hkey|Hkey], (decide (key' = "")) as [Hkey'|Hkey']; try naive_solver.
  - rewrite !string_app_nil_r in H. apply cut_last_inj in H as [? ?]; [|done..]. by split_and!.
  - destruct (Hid Hkey) as [Hi Hi'].
    rewrite !string_app_cut in H. apply cut_last_inj in H as [H ?]; [|done..].
    apply cut_last_inj in H as [H _]; [|done..]. apply cut_last_inj in H as [? ?]; [|done..].
    by split_and!.
Qed.

(** ** Chains *)

Definition verified (ks : option keyset) (r : audit_row) : Prop :=
  ∃ mac, row_mac ks r = Some mac ∧ hex_decode (ar_hash r) = Some mac.

(** The linkage and MACs alone. *)
Fixpoint chained (ks : option keyset) (prev : string) (rows : list audit_row) : Prop :=
  match rows with
  | [] => True
  | r :: rows' => ar_prev_hash r = prev ∧ verified ks r ∧ chained ks (ar_hash r) rows'
  end.

Lemma accepted_chained ks epoch saw prev rows : accepted ks epoch saw prev rows → chained ks prev rows.
Proof.
  revert saw prev. induction rows as [|r rows IH]; intros saw prev; simpl; [done|].
  intros (? & ? & _ & ?). eauto.
Qed.

Lemma linked_chained ks prev rows : linked ks prev rows → chained ks prev rows.
Proof.
  revert prev. induction rows as [|r rows IH]; intros prev; simpl; [done|].
  intros (? & (mac & ? & Hh) & ?). split_and!; [done| |auto].
  exists mac. by rewrite Hh, hex_decode_encode.
Qed.

Lemma chained_app ks p l1 l2 : chained ks p (l1 ++ l2) ↔ chained ks p l1 ∧ chained ks (last_hash p l1) l2.
Proof.
  revert p. induction l1 as [|r l1 IH]; intros p; simpl; [naive_solver|].
  rewrite IH, last_hash_cons. naive_solver.
Qed.

Lemma chained_snoc ks p l r :
  chained ks p (l ++ [r]) ↔ chained ks p l ∧ ar_prev_hash r = last_hash p l ∧ verified ks r.
Proof. rewrite chained_app. simpl. naive_solver. Qed.

Lemma last_hash_snoc p l r : last_hash p (l ++ [r]) = ar_hash r.
Proof. unfold last_hash. by rewrite last_snoc. Qed.

Lemma verified_no_bar ks r : verified ks r → no_byte "|" (ar_hash r).
Proof. intros (mac & _ & H). eapply no_byte_forallb; [|by eapply hex_decode_digits]. done. Qed.

(** No verified row has the hash a chain starts from. *)
Lemma verified_not_genesis ks r : verified ks r → ar_hash r ≠ genesisHash.
Proof. intros (mac & _ & H) Hg. rewrite Hg in H. by vm_compute in H. Qed.

Lemma chained_last_hash ks l :
  chained ks genesisHash l →
  no_byte "|" (last_hash genesisHash l) ∧ (last_hash genesisHash l = genesisHash ↔ l = []).
Proof.
  destruct l as [|r l _] using rev_ind; [done|].
  intros (_ & _ & Hv)%chained_snoc. rewrite last_hash_snoc. split; [by eapply verified_no_bar|].
  split; [intros Hg; by destruct (verified_not_genesis _ _ Hv)|]. by intros [_ ?]%app_nil.
Qed.

(** Two rows with one MAC and different inputs: for the unkeyed rows a
    collision of SHA-256, for keyed ones of HMAC-SHA-256. *)
Definition collision (ks : option keyset) (r r' : audit_row) : Prop :=
  ∃ k k', row_key ks r = Some k ∧ row_key ks r' = Some k' ∧
    (k, mac_input (scan_event r) k) ≠ (k', mac_input (scan_event r') k') ∧
    macAuditEvent (scan_event r) k = macAuditEvent (scan_event r') k'.

(** A key set usable for the chain: no secret is empty, and no id holds
    the byte that sets the fields apart. *)
Definition keyset_ok (ks : option keyset) : Prop :=
  ∀ m id k, ks = Some m → m !! id = Some k → k ≠ "" ∧ no_byte "|" id.

Lemma row_mac_same ks r r' :
  ar_key_id r = ar_key_id r' →
  mac_input (scan_event r) (default "" (row_key ks r')) = mac_input (scan_event r') (default "" (row_key ks r')) →
  row_mac ks r = row_mac ks r'.
Proof.
  intros Hid Hin. unfold row_mac. assert (row_key ks r = row_key ks r') as ->.
  { unfold row_key, isUnkeyed. simpl. by rewrite Hid. }
  destruct (row_key ks r') as [k|]; [|done]. simpl in *. f_equal.
  unfold macAuditEvent. by rewrite Hin.
Qed.

Section matching.
Context (ks : option keyset) (Hks : keyset_ok ks).

Lemma row_key_cases r k :
  row_key ks r = Some k →
  (k = "" ∧ ¬ keyed r) ∨ (k ≠ "" ∧ keyed r ∧ no_byte "|" (ar_key_id r)).
Proof.
  unfold row_key, keyed. destruct (isUnkeyed _).
  - intros [= <-]. by left.
  - intros Hk. destruct ks as [m|]; [|done]. simpl in Hk.
    destruct (Hks m (ar_key_id r) k) as [??]; [done|done|]. by right.
Qed.

Lemma same_input_same_row r r' k :
  row_key ks r = Some k → row_key ks r' = Some k →
  no_byte "|" (ar_prev_hash r) → no_byte "|" (ar_prev_hash r') →
  mac_input (scan_event r) k = mac_input (scan_event r') k → same_row r r'.
Proof.
  intros Hr Hr' Hp Hp' H. apply row_key_cases in Hr, Hr'.
  apply mac_input_fields in H as (? & ? & ? & ? & Hid); [|done|done|done|naive_solver].
  split; try done. destruct Hr as [[-> ?]|(Hk & _)], Hr' as [[? ?]|(? & _)]; naive_solver.
Qed.

Lemma match_or_collide r r' :
  verified ks r → verified ks r' → hex_decode (ar_hash r) = hex_decode (ar_hash r') →
  no_byte "|" (ar_prev_hash r) → no_byte "|" (ar_prev_hash r') →
  same_row r r' ∨ collision ks r r'.
Proof.
  unfold verified, row_mac. intros (mac & Hm & Hh) (mac' & Hm' & Hh') Hd Hp Hp'.
  destruct (row_key ks r) as [k|] eqn:Hk; [|done]. destruct (row_key ks r') as [k'|] eqn:Hk'; [|done].
  simplify_eq/=. destruct (decide ((k, mac_input (scan_event r) k) = (k', mac_input (scan_event r') k'))) as [He|Hne].
  - left. simplify_eq. by eapply same_input_same_row.
  - right. exists k, k'. split_and!; try done. congruence.
Qed.

(** Two chains that end in the same hash are the same chain, or hold a
    collision. *)
Lemma chain_match l r l' r' :
  chained ks genesisHash (l ++ [r]) → chained ks genesisHash (l' ++ [r']) →
  hex_decode (ar_hash r) = hex_decode (ar_hash r') →
  Forall2 same_row (l ++ [r]) (l' ++ [r']) ∨
  ∃ x x', x ∈ l ++ [r] ∧ x' ∈ l' ++ [r'] ∧ collision ks x x'.
Proof.
  revert r l' r'. induction l as [|x l IH] using rev_ind; intros r l' r';
    rewrite (chained_snoc _ _ _ r), (chained_snoc _ _ _ r'); intros (Hc & Hp & Hv) (Hc' & Hp' & Hv') Hd.
  all: destruct (chained_last_hash _ _ Hc) as [Hb Hg], (chained_last_hash _ _ Hc') as [Hb' Hg'].
  all: destruct (match_or_collide r r') as [Hsame|Hcol]; [done|done|done|congruence|congruence| |
         right; exists r, r'; rewrite !elem_of_app, !list_elem_of_singleton; auto].
  - left. assert (l' = []) as ->; [|by apply Forall2_cons].
    apply Hg'. rewrite <-Hp', (sr_prev _ _ Hsame). done.
  - destruct l' as [|x' l' _] using rev_ind.
    + exfalso. pose proof (sr_prev _ _ Hsame) as Hsp. rewrite Hp, Hp' in Hsp.
      symmetry in Hsp. apply Hg, app_nil in Hsp as [_ ?]. done.
    + assert (ar_hash x = ar_hash x') as Hxx.
      { pose proof (sr_prev _ _ Hsame) as Hsp. rewrite Hp, Hp', !last_hash_snoc in Hsp. done. }
      destruct (IH x l' x' Hc Hc') as [Hall|(y & y' & Hy & Hy' & Hcol)]; [by rewrite Hxx|..].
      * left. apply Forall2_app; [done|]. by apply Forall2_cons.
      * right. exists y, y'. rewrite !(elem_of_app (_ ++ [_])). auto.
Qed.
End matching.

(** ** Chains the store wrote *)

Lemma audit_inv_empty kr n : (0 <= n)%Z → audit_inv kr (set_audit_seq n empty_db).
Proof. intros Hn. split; simpl; try done; constructor. Qed.

(** A store on a new database, with or without a keyring. *)
Lemma audit_ok_new drv kr :
  (∀ k, kr = Some k → keyring_ok k) → audit_ok (UseAuditKeyring kr (new_store drv)).
Proof. intros Hk. split; simpl; [by apply (audit_inv_empty kr 0)|done|done]. Qed.

Lemma verdict_ok kr anchor d :
  audit_inv kr d →
  (∀ a, anchor = Some a → (aa_Count a <= Z.of_nat (length (audit_log d)))%Z ∧
    (aa_HeadHash a = genesisHash ∨ ∃ r, r ∈ audit_log d ∧ ar_hash r = aa_HeadHash a)) →
  Valid (verdict kr anchor d) = true.
Proof.
  intros Hinv Ha. apply verdict_valid; [by eapply audit_inv_no_zero|]. split; [|done].
  destruct kr; [by apply audit_inv_accepted|].
  assert (epoch_of d = None) as <-; [|by apply (audit_inv_accepted None)].
  destruct (epoch_of d) eqn:E; [|done]. by apply (ai_epoch _ _ Hinv) in E as [[? ?] _].
Qed.

Lemma verdict_valid_bad kr anchor d :
  Valid (verdict kr anchor d) = true → FirstBadSeq (verdict kr anchor d) = 0%Z.
Proof. unfold verdict, walk_result; simpl. case_bool_decide; done. Qed.

(** The checkpoint [VerifyAudit] returns for publishing. *)
Definition anchor_of (s : Store) : AuditAnchor :=
  mkAuditAnchor (lastAuditHash (db s)) (Z.of_nat (length (audit_log (db s)))).

(** A log that extends the one an anchor was taken of satisfies it. *)
Lemma anchor_of_prefix s rows :
  audit_log (db s) `prefix_of` rows →
  (aa_Count (anchor_of s) <= Z.of_nat (length rows))%Z ∧
  (aa_HeadHash (anchor_of s) = genesisHash ∨ ∃ r, r ∈ rows ∧ ar_hash r = aa_HeadHash (anchor_of s)).
Proof.
  intros [l ->]. unfold anchor_of, lastAuditHash; simpl. rewrite length_app. split; [lia|].
  destruct (last (audit_log (db s))) as [r|] eqn:E; [|by left]. right. exists r. split; [|done].
  apply elem_of_app. left. apply last_Some in E as [l' ->]. set_solver.
Qed.

(** C10. Whatever statement fails during [AppendAudit], and also when the
    acknowledgement of its commit is lost, the store is left with a chain
    that [VerifyAudit] finds valid, that extends the chain before, and
    that still verifies against every checkpoint published before; the
    summary it returns is that of the whole chain. *)
Theorem append_keeps_verified now ev s q r s' q' s0 :
  audit_ok s → audit_log (db s0) `prefix_of` audit_log (db s) →
  AppendAudit now ev (s, q) = (r, (s', q')) →
  audit_ok s' ∧ audit_log (db s) `prefix_of` audit_log (db s') ∧
  (∃ v, VerifyAudit None (s', []) = (Ok v, (s', [])) ∧ Valid v = true ∧
        Count v = Z.of_nat (length (audit_log (db s'))) ∧ HeadHash v = lastAuditHash (db s')) ∧
  (∃ v, VerifyAudit (Some (anchor_of s0)) (s', []) = (Ok v, (s', [])) ∧ Valid v = true).
Proof.
  intros Hok Hpre H. apply AppendAudit_cases in H as (Hok' & _ & Hcases); [|done].
  assert (audit_log (db s) `prefix_of` audit_log (db s')) as Hext.
  { destruct Hcases as [[_ (n & _ & ->)]|(ev' & _ & _ & -> & _)]; [done|by apply prefix_app_r]. }
  split_and!; [done|done|..].
  - assert (Valid (verdict (auditKeyring s') None (db s')) = true) as Hv by (by apply verdict_ok; [apply Hok'|]).
    eexists; split; [apply VerifyAudit_run|]. split; [done|].
    apply verdict_summary; [eapply audit_inv_no_zero, Hok'|]. by apply verdict_valid_bad.
  - eexists; split; [apply VerifyAudit_run|]. apply verdict_ok; [apply Hok'|]. intros ? [= <-].
    apply anchor_of_prefix. by trans (audit_log (db s)).
Qed.



Lemma accepted_unkeyed ks epoch saw prev rows i r :
  is_Some ks → accepted ks epoch saw prev rows → rows !! i = Some r → ¬ keyed r →
  (∀ e, epoch = Some e → (ar_seq r < e)%Z) ∧ saw = false ∧ Forall (λ x, ¬ keyed x) (take i rows).
Proof.
  intros Hks. revert saw prev rows. induction i as [|i IH]; intros saw prev [|x rows]; simpl; try done.
  - intros (_ & _ & H & _) [= ->] Hun. destruct (H Hks Hun). auto.
  - intros (_ & _ & _ & Hacc) Hi Hun.
    destruct (IH _ _ _ Hacc Hi Hun) as (He & [Hsaw Hx]%orb_false_iff & Hf).
    split_and!; [done|done|]. constructor; [|done].
    apply negb_false_iff in Hx. unfold keyed. congruence.
Qed.

(** With a keyring, a valid verdict rules out downgrades: every row
    not under a key lies before the recorded epoch, and no keyed row comes
    before it. *)
Theorem no_downgrade s s' k anchor v i r :
  auditKeyring s = Some k → no_zero_seq (audit_log (db s)) →
  VerifyAudit anchor (s, []) = (Ok v, (s', [])) → Valid v = true →
  audit_log (db s) !! i = Some r → ¬ keyed r →
  (∀ e, audit_meta (db s) !! auditMetaKeyedFromSeq = Some e → (ar_seq r < e)%Z) ∧
  Forall (λ x, ¬ keyed x) (take i (audit_log (db s))).
Proof.
  intros Hk Hz Hrun Hv Hi Hun. rewrite VerifyAudit_run, Hk in Hrun. injection Hrun as <- _.
  apply verdict_valid in Hv as [Hacc _]; [|done].
  by apply (accepted_unkeyed _ _ _ _ _ i r) in Hacc as (He & _ & Hf).
Qed.

Lemma audit_inv_take kr d n : audit_inv kr d → audit_inv kr (set_audit_log (take n (audit_log d)) d).
Proof.
  intros [? Hso ? ? Hl ? ?]. rewrite <-(take_drop n (audit_log d)) in Hso, Hl.
  split; simpl; auto using Forall_take.
  - rewrite fmap_app in Hso. by apply StronglySorted_app in Hso as (_ & ? & _).
  - by apply linked_app in Hl as [? _].
Qed.

(** The database after the rows from position [n] on are deleted. *)
Definition truncate (n : nat) (s : Store) : Store :=
  set_db (set_audit_log (take n (audit_log (db s))) (db s)) s.

(** Deleting the newest rows leaves a chain that verifies on its own,
    and is reported as truncated against a checkpoint that counted them. *)
Theorem truncation_needs_anchor s n :
  audit_ok s → n < length (audit_log (db s)) →
  (∃ v, VerifyAudit None (truncate n s, []) = (Ok v, (truncate n s, [])) ∧ Valid v = true) ∧
  (∃ v, VerifyAudit (Some (anchor_of s)) (truncate n s, []) = (Ok v, (truncate n s, [])) ∧
        Valid v = false ∧ FirstBadSeq v = 0%Z ∧ Truncated v = true).
Proof.
  intros Hok Hn. pose proof (audit_inv_take _ _ n (as_inv _ Hok)) as Hinv.
  assert (∀ anchor, FirstBadSeq (verdict (auditKeyring s) anchor (db (truncate n s))) = 0%Z) as Hbad.
  { intros anchor. pose proof (verdict_ok _ None _ Hinv) as Hv.
    apply walk_rows_0; [by eapply audit_inv_no_zero|done|].
    apply verdict_valid in Hv as [Hv _]; [done|by eapply audit_inv_no_zero|done]. }
  split; (eexists; split; [apply VerifyAudit_run|]).
  - by apply verdict_ok.
  - split_and!; [|apply Hbad|].
    + apply not_true_iff_false. intros [_ Ha]%verdict_valid; [|by eapply audit_inv_no_zero].
      destruct (Ha _ eq_refl) as [Hle _]. simpl in Hle. rewrite length_take in Hle. lia.
    + unfold verdict, walk_result; simpl.
      rewrite bool_decide_eq_true_2 by apply (Hbad (Some (anchor_of s))). simpl.
      rewrite bool_decide_eq_true_2; [done|].
      destruct (verdict_summary (auditKeyring s) (Some (anchor_of s)) (db (truncate n s))) as [Hc _];
        [by eapply audit_inv_no_zero|apply Hbad|].
      unfold verdict, walk_result in Hc; simpl in Hc. rewrite Hc, length_take. lia.
Qed.

(** ** Changing the keyring *)

Lemma linked_mono ks ks' prev rows :
  (∀ r mac, row_mac ks r = Some mac → row_mac ks' r = Some mac) →
  linked ks prev rows → linked ks' prev rows.
Proof.
  intros Hm. revert prev. induction rows as [|r rows IH]; intros prev; simpl; [done|]. naive_solver.
Qed.

(** Attaching a keyring to a store without one, or replacing a
    keyring by one that kept every id with its secret, keeps the chain
    sound: the rows written before still verify. *)
Theorem keyring_grows s kr' :
  audit_ok s → keyring_ok kr' →
  (∀ kr id k, auditKeyring s = Some kr → keys kr !! id = Some k → keys kr' !! id = Some k) →
  let s' := UseAuditKeyring (Some kr') s in
  audit_ok s' ∧ ∃ v, VerifyAudit None (s', []) = (Ok v, (s', [])) ∧ Valid v = true.
Proof.
  intros [[] Hflag Hkr] Hok' Hgrow s'.
  assert (audit_ok s') as Hs'.
  { split; [|done|by intros ? [= <-]]. split; try done; [|naive_solver].
    eapply linked_mono; [|done]. intros r mac. unfold row_mac, row_key.
    destruct (isUnkeyed _); [done|]. destruct (auditKeyring s) as [kr|]; [|done]. simpl.
    unfold Snapshot. destruct (keys kr !! ar_key_id r) as [k|] eqn:E; [|done].
    by rewrite (Hgrow kr (ar_key_id r) k eq_refl E). }
  split; [done|]. eexists; split; [apply VerifyAudit_run|]. apply verdict_ok; [apply Hs'|done].
Qed.

(** ** What the walk does not see *)

(** C40. The walk takes a first bad row with primary key 0 for none: an
    unkeyed row of any content, put in front of the chain under the key 0
    with the hash the chain starts from, is accepted. *)
Theorem zero_row_accepted s f :
  audit_ok s → ar_seq f = 0%Z → ar_hash f = genesisHash → ar_key_id f = keyIDUnkeyed →
  let s' := set_db (set_audit_log (f :: audit_log (db s)) (db s)) s in
  ∃ v, VerifyAudit None (s', []) = (Ok v, (s', [])) ∧ Valid v = true ∧
       Count v = Z.of_nat (S (length (audit_log (db s)))) ∧ HeadHash v = lastAuditHash (db s').
Proof.
  intros Hok Hseq Hhash Hkey s'. eexists. split; [apply VerifyAudit_run|].
  set (ep := match auditKeyring s with Some _ => epoch_of (db s) | None => None end).
  assert (walk_row (Snapshot <$> auditKeyring s) ep None (walk_start None) (scan_event f) =
          mkWalk 0 1 genesisHash genesisHash false false) as Hrow.
  { unfold walk_row. f_equal; [|done|done|].
    - unfold check_row. change (Seq (scan_event f)) with (ar_seq f). rewrite Hseq.
      repeat case_match; done.
    - unfold isUnkeyed; simpl. by rewrite Hkey. }
  pose proof (verdict_ok (auditKeyring s) None (db s) (as_inv _ Hok)) as Hv.
  apply verdict_valid in Hv as [Hacc _]; [|by eapply audit_inv_no_zero, Hok|done].
  destruct (walk_rows_0 (Snapshot <$> auditKeyring s) ep None (audit_log (db s))
              (mkWalk 0 1 genesisHash genesisHash false false)) as [Hiff Hres];
    [eapply audit_inv_no_zero, Hok|done|].
  apply Hiff in Hacc as H0. destruct (Hres H0) as (Hc & Hh & _).
  assert (verdict (auditKeyring s') None (db s') = walk_result None
    (walk_rows (Snapshot <$> auditKeyring s) ep None (mkWalk 0 1 genesisHash genesisHash false false)
       (scan_event <$> audit_log (db s)))) as ->.
  { unfold verdict. change (match auditKeyring s' with Some _ => epoch_of (db s') | None => None end) with ep.
    change (auditKeyring s') with (auditKeyring s). change (audit_log (db s')) with (f :: audit_log (db s)).
    cbv zeta. rewrite fmap_cons. cbn [walk_rows]. by rewrite Hrow. }
  split_and!.
  - unfold walk_result; simpl. by rewrite bool_decide_eq_true_2.
  - unfold walk_result; simpl. rewrite Hc. simpl. lia.
  - unfold walk_result; simpl. rewrite Hh, lastAuditHash_eq. simpl. by rewrite last_hash_cons, Hhash.
Qed.

(** Rows that differ only in where the five inner fields are divided. *)
Record same_but_boundaries (r r' : audit_row) : Prop := {
  sb_same : same_row r r';
  sb_key : ar_key_id r' = ar_key_id r;
  sb_hash : ar_hash r' = ar_hash r;
}.

Lemma walk_row_boundaries ks epoch anchor w r r' :
  same_but_boundaries r r' →
  walk_row ks epoch anchor w (scan_event r') = walk_row ks epoch anchor w (scan_event r).
Proof.
  intros [[Hs Ht Hc Hp _] Hk Hh].
  assert (∀ key, macAuditEvent (scan_event r') key = macAuditEvent (scan_event r) key) as Hmac.
  { intros key. unfold macAuditEvent. rewrite !mac_input_eq. by rewrite Hs, Ht, Hc, Hp, Hk. }
  unfold walk_row, check_row, isUnkeyed; simpl. rewrite Hs, Hp, Hk, Hh.
  repeat (case_match; try done); rewrite Hmac in *; congruence.
Qed.

Lemma walk_rows_boundaries ks epoch anchor w l i r r' :
  l !! i = Some r → same_but_boundaries r r' →
  walk_rows ks epoch anchor w (scan_event <$> <[i := r']> l) = walk_rows ks epoch anchor w (scan_event <$> l).
Proof.
  intros Hi Hsb. revert i Hi w. induction l as [|x l IH]; intros [|i] Hi w; [done|done|..]; simpl in Hi.
  - injection Hi as ->. change (<[0 := r']> (r :: l)) with (r' :: l).
    rewrite !fmap_cons. cbn [walk_rows]. by rewrite (walk_row_boundaries _ _ _ _ r r').
  - change (<[S i := r']> (x :: l)) with (x :: <[i := r']> l).
    rewrite !fmap_cons. cbn [walk_rows]. by rewrite IH.
Qed.

(** The MAC does not cover where one field ends and the next begins:
    replacing a row by one with another division of the same text leaves
    every verdict as it was. *)
Theorem boundaries_not_covered s i r r' anchor :
  audit_log (db s) !! i = Some r → same_but_boundaries r r' →
  let s' := set_db (set_audit_log (<[i := r']> (audit_log (db s))) (db s)) s in
  (VerifyAudit anchor (s', [])).1 = (VerifyAudit anchor (s, [])).1.
Proof.
  intros Hi Hsb s'. rewrite !VerifyAudit_run. cbn [fst]. f_equal. unfold verdict.
  subst s'. cbn [auditKeyring db set_db audit_log set_audit_log]. by erewrite walk_rows_boundaries.
Qed.

(** ** Witnesses *)

Definition demo_keyring : AuditKeyring :=
  mkAuditKeyring "" "2026-06" {["2026-06" := "0123456789abcdef"]}.

Lemma demo_keyring_ok : keyring_ok demo_keyring.
Proof. apply validateKeyset_ok. reflexivity. Qed.

Definition demo_deny : AuditEvent := new_event "access.evaluate" "alice" "db|allow" "deny" None.
Definition demo_start : Store := UseAuditKeyring (Some demo_keyring) (new_store driverPostgres).
Definition demo_store1 : Store := (AppendAudit 5 demo_deny (demo_start, [])).2.1.
Definition demo_store : Store :=
  (AppendAudit 6 (new_event "domain.create" "bob" "org" "ok" (Some "{}")) (demo_store1, [])).2.1.

Lemma AppendAudit_ok now ev s q : audit_ok s → audit_ok (AppendAudit now ev (s, q)).2.1.
Proof.
  intros Hok. destruct (AppendAudit now ev (s, q)) as [r [s' q']] eqn:E.
  by apply AppendAudit_cases in E as [? _].
Qed.

Lemma demo_store_ok : audit_ok demo_store.
Proof. do 2 apply AppendAudit_ok. apply audit_ok_new. intros k [= <-]. apply demo_keyring_ok. Qed.

(** The rows of the example, evaluated once. *)
Definition demo_rows : list audit_row := Eval vm_compute in audit_log (db demo_store).

Lemma demo_rows_eq : audit_log (db demo_store) = demo_rows.
Proof. vm_compute. reflexivity. Qed.

Lemma demo_keyset_ok : keyset_ok (Snapshot <$> auditKeyring demo_store).
Proof.
  assert (auditKeyring demo_store = Some demo_keyring) as -> by (vm_compute; reflexivity).
  intros m id k [= <-]. intros [<- <-]%lookup_singleton_Some. split; [congruence|reflexivity].
Qed.

(** The example's chain with one more row after it. *)
Definition demo_longer : Store := (AppendAudit 7 demo_deny (demo_store, [])).2.1.

Lemma append_keeps_verified_witness :
  ∃ r s' q', AppendAudit 8 demo_deny (demo_store, [None; None; Some (Fail "disk full")]) = (r, (s', q')) ∧
  audit_ok s' ∧ audit_log (db demo_store) `prefix_of` audit_log (db s') ∧
  (∃ v, VerifyAudit None (s', []) = (Ok v, (s', [])) ∧ Valid v = true ∧
        Count v = Z.of_nat (length (audit_log (db s'))) ∧ HeadHash v = lastAuditHash (db s')) ∧
  (∃ v, VerifyAudit (Some (anchor_of demo_start)) (s', []) = (Ok v, (s', [])) ∧ Valid v = true).
Proof.
  destruct (AppendAudit 8 demo_deny (demo_store, [None; None; Some (Fail "disk full")])) as [r [s' q']] eqn:E.
  exists r, s', q'. split; [reflexivity|].
  apply (append_keeps_verified 8 demo_deny demo_store [None; None; Some (Fail "disk full")] r s' q' demo_start).
  - exact demo_store_ok.
  - apply prefix_nil.
  - exact E.
Defined.



(** A chain that began before keying did: one unkeyed row, then a keyed
    one. *)
Definition legacy_start : Store :=
  (AppendAudit 5 demo_deny (UseAuditKeyring None (new_store driverSQLite), [])).2.1.
Definition legacy_store : Store :=
  (AppendAudit 6 demo_deny (UseAuditKeyring (Some demo_keyring) legacy_start, [])).2.1.

Lemma legacy_start_ok : audit_ok legacy_start.
Proof. apply AppendAudit_ok, audit_ok_new. done. Qed.

Lemma no_downgrade_witness :
  ∃ r, audit_log (db legacy_store) !! 0 = Some r ∧
  (∀ e, audit_meta (db legacy_store) !! auditMetaKeyedFromSeq = Some e → (ar_seq r < e)%Z) ∧
  Forall (λ x, ¬ keyed x) (take 0 (audit_log (db legacy_store))).
Proof.
  destruct (audit_log (db legacy_store) !! 0) as [r|] eqn:Hr; [|vm_compute in Hr; discriminate].
  exists r. split; [reflexivity|].
  apply (no_downgrade legacy_store legacy_store demo_keyring None
           (verdict (auditKeyring legacy_store) None (db legacy_store)) 0 r).
  - vm_compute. reflexivity.
  - apply (bool_decide_unpack _). vm_compute. reflexivity.
  - apply VerifyAudit_run.
  - vm_compute. reflexivity.
  - exact Hr.
  - vm_compute in Hr. injection Hr as <-. vm_compute. discriminate.
Defined.

Lemma truncation_needs_anchor_witness :
  (∃ v, VerifyAudit None (truncate 1 demo_store, []) = (Ok v, (truncate 1 demo_store, [])) ∧ Valid v = true) ∧
  (∃ v, VerifyAudit (Some (anchor_of demo_store)) (truncate 1 demo_store, []) = (Ok v, (truncate 1 demo_store, [])) ∧
        Valid v = false ∧ FirstBadSeq v = 0%Z ∧ Truncated v = true).
Proof.
  apply (truncation_needs_anchor demo_store 1).
  - exact demo_store_ok.
  - rewrite demo_rows_eq. simpl. lia.
Defined.

Lemma keyring_grows_witness :
  let s' := UseAuditKeyring (Some demo_keyring) legacy_start in
  audit_ok s' ∧ ∃ v, VerifyAudit None (s', []) = (Ok v, (s', [])) ∧ Valid v = true.
Proof.
  apply (keyring_grows legacy_start demo_keyring).
  - exact legacy_start_ok.
  - exact demo_keyring_ok.
  - intros kr id k Hkr. vm_compute in Hkr. discriminate.
Defined.

Definition forged : audit_row :=
  mkAuditRow 0 0 "policy.create" "root" "allow-all" "ok" "{}" "" genesisHash keyIDUnkeyed.

Lemma zero_row_accepted_witness :
  let s' := set_db (set_audit_log (forged :: audit_log (db demo_store)) (db demo_store)) demo_store in
  ∃ v, VerifyAudit None (s', []) = (Ok v, (s', [])) ∧ Valid v = true ∧
       Count v = Z.of_nat (S (length (audit_log (db demo_store)))) ∧ HeadHash v = lastAuditHash (db s').
Proof.
  apply (zero_row_accepted demo_store forged).
  - exact demo_store_ok.
  - reflexivity.
  - reflexivity.
  - reflexivity.
Defined.

(** The denied access of the example, divided anew so that its decision
    reads "allow". *)
Definition redivided (r : audit_row) : audit_row :=
  mkAuditRow (ar_seq r) (ar_ts r) (ar_kind r) (ar_actor r) "db" "allow"
    (ar_decision r +:+ "|" +:+ ar_payload r) (ar_prev_hash r) (ar_hash r) (ar_key_id r).

Lemma boundaries_not_covered_witness :
  ∃ r, audit_log (db demo_store) !! 0 = Some r ∧ ar_decision r = "deny" ∧
  (VerifyAudit None (set_db (set_audit_log (<[0 := redivided r]> (audit_log (db demo_store))) (db demo_store)) demo_store, [])).1
    = (VerifyAudit None (demo_store, [])).1.
Proof.
  destruct (audit_log (db demo_store) !! 0) as [r|] eqn:Hr; [|rewrite demo_rows_eq in Hr; discriminate].
  exists r. split; [reflexivity|].
  assert (r = default r (demo_rows !! 0)) as Hd by (by rewrite <-demo_rows_eq, Hr).
  split; [rewrite Hd; reflexivity|].
  apply (boundaries_not_covered demo_store 0 r (redivided r) None Hr).
  split; [split|..]; try reflexivity; [|by left]. rewrite Hd. reflexivity.
Defined.
