(* ===== verification/AuditOnce.v ===== *)
(** * AuditOnce

    Appending an event at most once per key ([AppendAuditOnce] of
    internal/server/storage/audit.go): what each call does whatever fails,
    and that retries of one event record it exactly once. *)
From S2P Require Import Prelude Crypto Json AuditKeyring Store AuditChain.

(** What the caller filled in is in the appended event. *)
Record records (ev ev' : AuditEvent) : Prop := {
  rec_kind : Kind ev' = Kind ev;
  rec_actor : Actor ev' = Actor ev;
  rec_subject : Subject ev' = Subject ev;
  rec_decision : evDecision ev' = evDecision ev;
  rec_payload : Payload ev' = Some (default "{}" (Payload ev));
}.

Lemma appended_event_records kr now ev d : records ev (appended_event kr now ev d).
Proof. done. Qed.

(** The clock reads a time at which neither it nor the pruning horizon
    leaves the range of nanosecond timestamps. *)
Definition clock_ok (now : Z) : Prop := in_int64 now ∧ in_int64 (now - auditOnceRetention).

(** The table of keys holds [key] with [digest]. *)
Definition remembered (key digest : string) (d : DB) : Prop :=
  ∃ t, audit_once d !! key = Some (mkOnceRow digest t).

(** How a call of [AppendAuditOnce] that left [s'] and returned [r] went. *)
Inductive once_step (key : string) (ev : AuditEvent) (s : Store) (r : result error bool) (s' : Store) : Prop :=
| once_nothing :
    audit_log (db s') = audit_log (db s) → audit_once (db s') = audit_once (db s) →
    is_ok r = false → once_step key ev s r s'
| once_seen :
    audit_log (db s') = audit_log (db s) → audit_once (db s') = audit_once (db s) →
    remembered key (once_digest ev) (db s) → r = Ok false → once_step key ev s r s'
| once_conflict seen ev' :
    audit_once (db s') = audit_once (db s) →
    remembered key seen (db s) → seen ≠ once_digest ev →
    records (conflict_event key seen (once_digest ev) ev) ev' →
    audit_log (db s') = audit_log (db s) ++ [event_row ev'] →
    r = Ok false ∨ is_ok r = false → once_step key ev s r s'
| once_appended ev' :
    audit_once (db s) !! key = None → remembered key (once_digest ev) (db s') →
    records ev ev' → audit_log (db s') = audit_log (db s) ++ [event_row ev'] →
    r = Ok true ∨ is_ok r = false → once_step key ev s r s'.

(** The housekeeping touches neither the chain nor a key it has just
    remembered. *)
Lemma prune_once_run now s q :
  ∃ s' q', prune_once now (s, q) = (Ok tt, (s', q')) ∧
    (audit_ok s → audit_ok s') ∧ audit_log (db s') = audit_log (db s) ∧ auditKeyring s' = auditKeyring s ∧
    (clock_ok now → ∀ key dg, audit_once (db s) !! key = Some (mkOnceRow dg (UnixNano now)) →
       audit_once (db s') !! key = Some (mkOnceRow dg (UnixNano now))).
Proof.
  unfold prune_once. erewrite bind_run by done. cbn [fst id].
  case_decide; [|by exists s, q].
  erewrite bind_run by apply modify_run. set (s1 := set_oncePrunedAt now s).
  assert (audit_ok s → audit_ok s1) as Hok1 by (intros []; by split).
  set (f := λ d, (tt, set_audit_once _ d)).
  assert (∀ q, ∃ r, statement "" f (s1, q) = r ∧ (r.2.1 = s1 ∨ r.2.1 = set_db (f (db s1)).2 s1)) as Hst.
  { intros q0. eexists; split; [done|]. unfold statement. destruct q0 as [|[[m|m]|] ?]; simpl; auto. }
  destruct (Hst q) as ([r [s2 q2]] & Hrun & Hs2). erewrite catch_run by done. simpl in Hs2.
  exists s2, q2. split; [done|]. destruct Hs2 as [->| ->]; split_and!; try done.
  - intros Hok%Hok1. by apply audit_ok_same.
  - intros [Hn Hr] key dg Hk. simpl. apply map_lookup_filter_Some. split; [done|]. simpl.
    unfold UnixNano. rewrite !wrap64_id by done. unfold auditOnceRetention, Hour. lia.
Qed.

Lemma append_once_tx_Ok s now key ev q a d q' :
  audit_ok s →
  append_once_tx (auditKeyring s) (keyedEpochRecorded s) now key ev (db s, q) = (Ok a, (d, q')) →
  (a = Return OnceSeen ∧ remembered key (once_digest ev) (db s) ∧ d = db s) ∨
  (audit_ok (set_db d s) ∧ (is_Some (auditKeyring s) → is_Some (epoch_of d)) ∧ ∃ ev',
   audit_log d = audit_log (db s) ++ [event_row ev'] ∧
   ((a = Commit OnceConflict ∧ audit_once d = audit_once (db s) ∧
     ∃ seen, remembered key seen (db s) ∧ seen ≠ once_digest ev ∧
             records (conflict_event key seen (once_digest ev) ev) ev') ∨
    (a = Commit OnceAppended ∧ records ev ev' ∧ audit_once (db s) !! key = None ∧
     audit_once d !! key = Some (mkOnceRow (once_digest ev) (UnixNano now))))).
Proof.
  intros Hok H. unfold append_once_tx in H. cbv zeta in H.
  apply bind_Ok in H as (row & [d1 q1] & Hq & H). run_split Hq.
  destruct (audit_once (db s) !! key) as [[dg t]|] eqn:Hk.
  - apply bind_Ok in H as (seen & [d2 q2] & Hq & H). run_split Hq. rewrite Hk in H. simpl in H.
    case_decide as Hdg.
    + run_split H. left. split_and!; [done| |done]. by exists t.
    + apply bind_Ok in H as (ev' & [d3 q3] & Ha & H). run_split H.
      apply appendAuditTx_commit in Ha as (-> & Hl & Hok' & Hep & Hd); [|done|done].
      right. split_and!; [done|done|]. eexists. split; [done|]. left. split; [done|]. split.
      * rewrite Hd. unfold appended_db, record_epoch. by case_decide.
      * exists dg. split_and!; [by exists t|done|done].
  - apply bind_Ok in H as ([] & [d2 q2] & Hm & H). run_split Hm.
    apply bind_Ok in H as (ev' & [d3 q3] & Ha & H). run_split H.
    apply appendAuditTx_commit in Ha as (-> & Hl & Hok' & Hep & Hd); [|done|done].
    right. split_and!; [done|done|]. eexists. split; [done|]. right. split_and!; [done|done|done|].
    rewrite Hd. unfold appended_db, record_epoch. case_decide; simpl; apply lookup_insert_eq.
Qed.

(** Every call of [AppendAuditOnce] is one of the four steps, whatever
    fails, and keeps the chain sound. *)
Lemma AppendAuditOnce_step now key ev s q r s' q' :
  audit_ok s → clock_ok now → AppendAuditOnce now key ev (s, q) = (r, (s', q')) →
  audit_ok s' ∧ once_step key ev s r s'.
Proof.
  intros Hok Hnow H. apply leader_only_cases in H as [[_ [= -> -> ->]]|[_ H]]; [by split; [|by apply once_nothing]|].
  case_decide; [injection H as <- <- <-; by split; [|by apply once_nothing]|].
  erewrite bind_run in H by done.
  apply bind_cases in H as [(a & [s1 q1] & Htx & H)|(e & [s1 q1] & Htx & [= -> -> ->])];
    apply with_tx_cases in Htx as [(d & -> & Hrb & Hr)|(w & d & w' & a' & Hb & -> & Hr)].
  - destruct (Hr a eq_refl) as (w & [d' w'] & Hb).
    apply append_once_tx_Ok in Hb as [([= ->] & Hrem & _)|(_ & _ & ev' & _ & [([=] & _)|([=] & _)])]; [|done].
    injection H as <- <- <-. split; [by apply audit_ok_rolled_back|].
    destruct Hrb as (n & _ & ->). by apply once_seen.
  - apply append_once_tx_Ok in Hb as [([=] & _)|(Hok1 & Hep & ev' & Hlog & Hc)]; [|done].
    destruct Hr as [[= <-]|[? ?]]; [|done].
    destruct (auditCommitted_ok _ q1 Hok1 Hep) as (s2 & Hcm & Hok2 & Hdb & Hkr).
    destruct Hc as [([= ->] & Ho & seen & Hrem & Hne & Hrec)|([= ->] & Hrec & Hnone & Hk)];
      erewrite bind_run in H by done.
    + injection H as <- <- <-. split; [done|]. eapply once_conflict; rewrite ?Hdb; eauto.
    + destruct (prune_once_run now s2 q1) as (s3 & q3 & Hp & Hok3 & Hl3 & _ & Hk3).
      erewrite bind_run in H by done. injection H as <- <- <-. rewrite Hdb in Hl3, Hk3.
      split; [auto|]. eapply once_appended; [done| |done|by rewrite Hl3|by left].
      exists (UnixNano now). by apply Hk3.
  - split; [by apply audit_ok_rolled_back|]. destruct Hrb as (n & _ & ->). by apply once_nothing.
  - apply append_once_tx_Ok in Hb as [([=] & _)|(Hok1 & Hep & ev' & Hlog & Hc)]; [|done].
    split; [done|].
    destruct Hc as [([= ->] & Ho & seen & Hrem & Hne & Hrec)|([= ->] & Hrec & Hnone & Hk)].
    + eapply once_conflict; eauto.
    + eapply once_appended; [done|by eexists|done|done|by right].
Qed.

(** Attempts to record one event under one key, each at its own time and
    with its own faults: what they returned, in order, and the store. *)
Fixpoint attempts (key : string) (ev : AuditEvent) (l : list (Z * faults)) (s : Store) : list (result error bool) * Store :=
  match l with
  | [] => ([], s)
  | (now, q) :: l' =>
      let '(r, (s1, _)) := AppendAuditOnce now key ev (s, q) in
      let '(rs, s2) := attempts key ev l' s1 in
      (r :: rs, s2)
  end.

(** Once a key is remembered, further attempts change nothing. *)
Lemma attempts_seen key ev l s rs s' :
  audit_ok s → Forall (λ a, clock_ok a.1) l → remembered key (once_digest ev) (db s) →
  attempts key ev l s = (rs, s') →
  audit_ok s' ∧ audit_log (db s') = audit_log (db s) ∧ Forall (λ r, r ≠ Ok true) rs.
Proof.
  revert s rs. induction l as [|[now q] l IH]; intros s rs Hok Hcl Hrem H; simpl in H; [by simplify_eq|].
  apply Forall_cons in Hcl as [Hnow Hcl].
  destruct (AppendAuditOnce now key ev (s, q)) as [r [s1 q1]] eqn:Hrun.
  destruct (attempts key ev l s1) as [rs1 s2] eqn:Hl. simplify_eq.
  apply AppendAuditOnce_step in Hrun as [Hok1 Hstep]; [|done|done].
  assert (audit_log (db s1) = audit_log (db s) ∧ audit_once (db s1) = audit_once (db s) ∧ r ≠ Ok true)
    as (Hlog & Honce & Hr).
  { destruct Hrem as [t Ht]. destruct Hstep as [? ? Hr|? ? ? ->|seen ev' _ [t' ?] Hne _ _ _|ev' ?]; simplify_eq; [|done].
    split_and!; [done|done|]. by intros ->. }
  destruct (IH s1 rs1) as (? & Hl2 & ?); [done|done| |done|].
  - destruct Hrem as [t Ht]. exists t. by rewrite Honce.
  - rewrite Hl2. auto.
Qed.

(** C12. Retries record an event exactly once. However often one event is
    sent under a fresh key, and whatever fails on the way, acknowledgements
    of commits included: the chain grows by no row when every attempt
    failed, and by one row, which records the event, as soon as one
    attempt has succeeded; at most one attempt reports that it appended. *)
Theorem retries_record_once key ev l s rs s' :
  audit_ok s → audit_once (db s) !! key = None → Forall (λ a, clock_ok a.1) l →
  attempts key ev l s = (rs, s') →
  audit_ok s' ∧ length (filter (λ r, r = Ok true) rs) ≤ 1 ∧
  ((audit_log (db s') = audit_log (db s) ∧ Forall (λ r, is_ok r = false) rs) ∨
   (∃ ev', records ev ev' ∧ audit_log (db s') = audit_log (db s) ++ [event_row ev'])).
Proof.
  intros Hok Hnone Hcl. revert s rs Hok Hnone. induction l as [|[now q] l IH]; intros s rs Hok Hnone H; simpl in H.
  { simplify_eq. split_and!; [done|simpl; lia|by left]. }
  apply Forall_cons in Hcl as [Hnow Hcl].
  destruct (AppendAuditOnce now key ev (s, q)) as [r [s1 q1]] eqn:Hrun.
  destruct (attempts key ev l s1) as [rs1 s2] eqn:Hl. simplify_eq.
  apply AppendAuditOnce_step in Hrun as [Hok1 Hstep]; [|done|done].
  destruct Hstep as [Hlog Honce Hr|? ? [t ?] _|seen ev' _ [t ?]|ev' _ Hrem Hrec Hlog Hr]; [|congruence..|].
  - destruct (IH Hcl s1 rs1) as (Hok2 & Hc & Hcase); [done|by rewrite Honce|done|].
    rewrite Hlog in Hcase. split_and!; [done| |naive_solver].
    rewrite filter_cons_False by (by intros ->). done.
  - apply attempts_seen in Hl as (Hok2 & Hl2 & Hno); [|done..]. rewrite Hl2.
    split_and!; [done| |by right; exists ev'].
    assert (filter (λ r, r = Ok true) rs1 = []) as Hf.
    { clear -Hno. induction Hno as [|r' rs' Hr' _ IHr]; [done|]. by rewrite filter_cons_False. }
    rewrite filter_cons, Hf. case_decide; simpl; lia.
Qed.

(** ** Witness *)

(** The first attempt fails, the second commits but its acknowledgement is
    lost, the third reaches the server. *)
Definition demo_attempts : list (Z * faults) :=
  [(1, [None; None; Some (Fail "disk full")]);
   (2, [None; None; None; None; None; Some (Lost "connection reset")]);
   (3, [])]%Z.

Definition once_store : Store := UseAuditKeyring None (new_store driverPostgres).

Lemma once_store_ok : audit_ok once_store.
Proof. split; [split|..]; simpl; try done; constructor. Qed.

Lemma retries_record_once_witness :
  ∃ rs s', attempts "k1" (new_event "access.evaluate" "pdp" "alice" "allow" None) demo_attempts once_store = (rs, s') ∧
  length (filter (λ r, r = Ok true) rs) ≤ 1 ∧
  ∃ ev', audit_log (db s') = [event_row ev'].
Proof.
  destruct (attempts "k1" (new_event "access.evaluate" "pdp" "alice" "allow" None) demo_attempts once_store)
    as [rs s'] eqn:E.
  exists rs, s'. split; [reflexivity|].
  destruct (retries_record_once "k1" (new_event "access.evaluate" "pdp" "alice" "allow" None)
              demo_attempts once_store rs s') as (_ & Hc & Hcase).
  - exact once_store_ok.
  - reflexivity.
  - repeat (constructor; [split; split; vm_compute; congruence|]). constructor.
  - exact E.
  - split; [exact Hc|]. destruct Hcase as [[_ Herr]|(ev' & _ & Hl)]; [|exists ev'; exact Hl].
    vm_compute in E. injection E as <- _. apply Forall_inv_tail, Forall_inv_tail, Forall_inv in Herr. discriminate.
Defined.
