(* ===== verification/Groups.v ===== *)
(** * Groups

    Named sets of principals owned by a domain
    (internal/server/storage/groups.go), with memberships that may expire,
    and the compare-and-undo operations that revert an unaudited change
    without overwriting a later one. *)
From S2P Require Import Prelude AuditKeyring Store Domains.

(** A zero [ExpiresAt] never expires. *)
Record GroupMember := mkGroupMember {
  Principal : string;
  ExpiresAt : Z;
}.

Record Group := mkGroup {
  gDomain : string;
  gName : string;
  gDescription : string;
  gMembers : list GroupMember;
  gCreatedAt : Z;
}.

#[global] Instance GroupMember_eq_dec : EqDecision GroupMember.
Proof. solve_decision. Defined.

(** [Group.ID]. *)
Definition group_ID (domain name : string) : string := domain +:+ ":" +:+ name.

(** [m.Active(t)]. *)
Definition member_Active (m : GroupMember) (t : Z) : bool :=
  IsZero (ExpiresAt m) || bool_decide (t < ExpiresAt m)%Z.

Definition groupName : string → bool := name_match.

Definition ValidateGroupName (name : string) : option error :=
  if decide (63 < String.length name ∨ groupName name = false)
  then Some (ErrInvalid "group name" name) else None.

Definition nanos (t : Z) : Z := if IsZero t then 0%Z else UnixNano t.

(** A row of [group_members] as it is scanned. *)
Definition member_of_row (principal : string) (exp : Z) : GroupMember :=
  mkGroupMember principal (if decide (exp ≠ 0%Z) then UnixTime exp else zero_time).

(** [a.ExpiresAt.Equal(b.ExpiresAt)] compares instants. *)
Definition sameMember (a b : option GroupMember) : bool :=
  match a, b with
  | None, None => true
  | Some x, Some y => bool_decide (Principal x = Principal y) && bool_decide (ExpiresAt x = ExpiresAt y)
  | _, _ => false
  end.

(** The provider that owns the group; [(domain, grp)] is unique in
    [scim_groups]. *)
Definition managed_by (domain name : string) (d : DB) : option string :=
  head ((filter (λ r, sg_domain r.2 = domain ∧ sg_grp r.2 = name) (map_to_list (scim_groups d))).*1.*1).

Definition refuseManaged (domain name : string) : Tx () :=
  idp ← query "query scim group" (managed_by domain name);
  match idp with
  | None => mret tt
  | Some idp => throw (ErrSCIMManaged idp)
  end.

Definition lockGroupMode (domain name : string) : Tx () :=
  row ← query "query group" (λ d, groups d !! (domain, name));
  match row with
  | Some _ => mret tt
  | None => throw ErrNotFound
  end.

Definition lockGroup : string → string → Tx () := lockGroupMode.

Definition memberTx (domain name principal : string) : Tx (option GroupMember) :=
  exp ← query "query member" (λ d, group_members d !! (domain, name, principal));
  mret (member_of_row principal <$> exp).

(** [DELETE FROM group_members WHERE domain = ? AND grp = ?]. *)
Definition clear_members (domain name : string) (d : DB) : DB :=
  set_group_members (filter (λ r, r.1.1 ≠ (domain, name)) (group_members d)) d.

(** The upsert of one membership, and its deletion. *)
Definition put_member (domain name principal : string) (exp : Z) (d : DB) : DB :=
  set_group_members (<[(domain, name, principal) := exp]> (group_members d)) d.

Definition drop_member (domain name principal : string) (d : DB) : DB :=
  set_group_members (delete (domain, name, principal) (group_members d)) d.

Definition insert_group (domain name description : string) (created : Z) : Tx () :=
  insert_row "insert group" (λ d, bool_decide (is_Some (groups d !! (domain, name)))) ErrAlreadyExists
    (λ d, set_groups (<[(domain, name) := mkGroupRow description created]> (groups d)) d).

(** ** Writes *)

Definition create_group_tx (g : Group) : Tx (tx_end Group) :=
  lockDomain (gDomain g) ;;
  exec "clear members" (clear_members (gDomain g) (gName g)) ;;
  insert_group (gDomain g) (gName g) (gDescription g) (UnixNano (gCreatedAt g)) ;;
  mret (Commit (mkGroup (gDomain g) (gName g) (gDescription g) [] (gCreatedAt g))).

Definition CreateGroup (now : Z) (g : Group) : M Group :=
  leader_only
    match ValidateGroupName (gName g) with
    | Some e => throw e
    | None =>
        with_tx "begin" "" (create_group_tx
          (mkGroup (gDomain g) (gName g) (gDescription g) (gMembers g)
             (if IsZero (gCreatedAt g) then now else gCreatedAt g)))
    end.

(** [SELECT principal, expires_at ... ORDER BY principal]. *)
Definition member_rows (domain name : string) (d : DB) : list GroupMember :=
  (λ r, member_of_row r.1.2 r.2) <$>
  merge_sort (λ a b, String.le a.1.2 b.1.2)
    (map_to_list (filter (λ r, r.1.1 = (domain, name)) (group_members d))).

Definition delete_group_tx (domain name : string) : Tx (tx_end Group) :=
  lockGroupMode domain name ;;
  refuseManaged domain name ;;
  row ← query "query group" (λ d, default (mkGroupRow "" 0) (groups d !! (domain, name)));
  members ← query "query members" (member_rows domain name);
  exec "delete group" (λ d, set_groups (delete (domain, name) (groups d)) d) ;;
  exec "delete members" (clear_members domain name) ;;
  mret (Commit (mkGroup domain name (gr_description row) members (UnixTime (gr_created_at row)))).

Definition DeleteGroup (domain name : string) : M Group :=
  leader_only (with_tx "begin" "" (delete_group_tx domain name)).

Definition put_member_tx (domain name : string) (m : GroupMember) : Tx (tx_end (option GroupMember)) :=
  lockGroup domain name ;;
  refuseManaged domain name ;;
  prior ← memberTx domain name (Principal m);
  exec "upsert member" (put_member domain name (Principal m) (nanos (ExpiresAt m))) ;;
  mret (Commit prior).

Definition PutGroupMember (domain name : string) (m : GroupMember) : M (option GroupMember) :=
  leader_only (with_tx "begin" "" (put_member_tx domain name m)).

Definition remove_member_tx (domain name principal : string) : Tx (tx_end GroupMember) :=
  lockGroup domain name ;;
  refuseManaged domain name ;;
  prior ← memberTx domain name principal;
  match prior with
  | None => throw ErrNotFound
  | Some prior =>
      exec "delete member" (drop_member domain name principal) ;;
      mret (Commit prior)
  end.

Definition RemoveGroupMember (domain name principal : string) : M GroupMember :=
  leader_only (with_tx "begin" "" (remove_member_tx domain name principal)).

Definition swap_member_tx (domain name principal : string) (expect want : option GroupMember) : Tx (tx_end ()) :=
  lockGroup domain name ;;
  refuseManaged domain name ;;
  cur ← memberTx domain name principal;
  if sameMember cur expect then
    exec "swap member"
      match want with
      | None => drop_member domain name principal
      | Some w => put_member domain name principal (nanos (ExpiresAt w))
      end ;;
    mret (Commit tt)
  else throw ErrChanged.

Definition SwapGroupMember (domain name principal : string) (expect want : option GroupMember) : M () :=
  leader_only (with_tx "begin" "" (swap_member_tx domain name principal expect want)).

Definition delete_empty_tx (domain name : string) : Tx (tx_end ()) :=
  catch (lockGroupMode domain name) (λ r,
    match r with
    | Err ErrNotFound => mret (Return tt)
    | Err e => throw e
    | Ok _ =>
        refuseManaged domain name ;;
        n ← query "count members" (λ d, size (filter (λ r, r.1.1 = (domain, name)) (group_members d)));
        if decide (0 < n) then throw ErrChanged
        else
          exec "delete group" (λ d, set_groups (delete (domain, name) (groups d)) d) ;;
          mret (Commit tt)
    end).

Definition DeleteEmptyGroup (domain name : string) : M () :=
  leader_only (with_tx "begin" "" (delete_empty_tx domain name)).

Definition insert_member (domain name : string) (m : GroupMember) : Tx () :=
  insert_row "insert member" (λ d, bool_decide (is_Some (group_members d !! (domain, name, Principal m))))
    (ErrIO "insert member" "UNIQUE constraint")
    (put_member domain name (Principal m) (nanos (ExpiresAt m))).

Definition restore_group_tx (g : Group) : Tx (tx_end ()) :=
  lockDomain (gDomain g) ;;
  insert_group (gDomain g) (gName g) (gDescription g) (UnixNano (gCreatedAt g)) ;;
  for_each (gMembers g) (insert_member (gDomain g) (gName g)) ;;
  mret (Commit tt).

Definition RestoreGroup (g : Group) : M () :=
  leader_only (with_tx "begin" "" (restore_group_tx g)).

(** ** Reads *)

(** The [WHERE] clause the two list queries share. *)
Definition matches (domain name : string) (k : string * string) : Prop :=
  if decide (domain ≠ "" ∧ name ≠ "") then k = (domain, name)
  else if decide (domain ≠ "") then k.1 = domain else True.

#[global] Instance matches_dec domain name k : Decision (matches domain name k).
Proof. unfold matches. repeat case_decide; apply _. Defined.

(** [ORDER BY domain, name]. *)
Definition key_le (a b : string * string) : Prop :=
  (a.1 ≠ b.1 ∧ String.le a.1 b.1) ∨ (a.1 = b.1 ∧ String.le a.2 b.2).

#[global] Instance key_le_dec : RelDecision key_le.
Proof. intros a b. unfold key_le. apply _. Defined.

(** The rows of the members, grouped by group and ordered by principal. *)
Definition members_by_group (domain name : string) (d : DB) : gmap string (list GroupMember) :=
  merge_sort (λ a b, String.le (Principal a) (Principal b)) <$>
  foldl (λ m r, <[group_ID r.1.1.1 r.1.1.2 := default [] (m !! group_ID r.1.1.1 r.1.1.2) ++ [member_of_row r.1.2 r.2]]> m)
    ∅ (filter (λ r, matches domain name r.1.1) (map_to_list (group_members d))).

Definition groupMembers (domain name : string) : M (gmap string (list GroupMember)) :=
  on_db "query members" (members_by_group domain name).

(** [SELECT domain, name, description, created_at ... ORDER BY domain, name]. *)
Definition group_list (domain name : string) (d : DB) : list ((string * string) * group_row) :=
  merge_sort (λ a b, key_le a.1 b.1) (map_to_list (filter (λ r, matches domain name r.1) (groups d))).

Definition listGroups (domain name : string) : M (list Group) :=
  rows ← on_db "query groups" (group_list domain name);
  members ← groupMembers domain name;
  mret ((λ r, mkGroup r.1.1 r.1.2 (gr_description r.2)
               (default [] (members !! group_ID r.1.1 r.1.2)) (UnixTime (gr_created_at r.2))) <$> rows).

Definition GetGroup (domain name : string) : M Group :=
  gs ← listGroups domain name;
  match gs with
  | [] => throw ErrNotFound
  | g :: _ => mret g
  end.

Definition ListGroups (domain : string) : M (list Group) := listGroups domain "".

(** ** Memberships and their expiry *)

(** A stored membership is the one given, when its expiry is none or a
    nanosecond timestamp other than the epoch. *)
Definition storable (t : Z) : Prop := t = zero_time ∨ (in_int64 t ∧ t ≠ 0%Z).

Lemma nanos_storable p t : storable t → member_of_row p (nanos t) = mkGroupMember p t.
Proof.
  unfold storable, member_of_row, nanos. intros [->|[Hr Hz]].
  - by rewrite (proj2 (IsZero_spec _)).
  - destruct (IsZero t) eqn:E.
    + apply IsZero_spec in E as ->. done.
    + unfold UnixNano, UnixTime. rewrite wrap64_id by done. by rewrite decide_True.
Qed.

Lemma in_int64_not_zero_time t : in_int64 t → t ≠ zero_time.
Proof. unfold in_int64, zero_time, two63. lia. Qed.

(** What is read from a row is written back as the row. *)
Lemma nanos_of_row p exp : in_int64 exp → nanos (ExpiresAt (member_of_row p exp)) = exp.
Proof.
  intros Hr. unfold nanos, member_of_row; simpl. case_decide as Hz; simpl.
  - destruct (IsZero _) eqn:E; [apply IsZero_spec in E; by apply in_int64_not_zero_time in Hr|].
    by apply wrap64_id.
  - by subst.
Qed.

Lemma nanos_range t : in_int64 (nanos t).
Proof. unfold nanos. destruct (IsZero t); [split; unfold two63; lia|apply wrap64_range]. Qed.

Lemma sameMember_true a b : sameMember a b = true ↔ a = b.
Proof.
  destruct a as [[p e]|], b as [[p' e']|]; simpl; try (split; congruence).
  rewrite andb_true_iff, !bool_decide_eq_true. naive_solver.
Qed.

(** ** The invariant *)

(** Groups have valid names and a domain, memberships belong to a group,
    and the timestamps are those of a nanosecond column. *)
Record group_ok (d : DB) : Prop := {
  gok_name : ∀ n g r, groups d !! (n, g) = Some r → ValidateGroupName g = None ∧ in_int64 (gr_created_at r);
  gok_member : ∀ n g p e, group_members d !! (n, g, p) = Some e → is_Some (groups d !! (n, g)) ∧ in_int64 e;
}.

#[global] Instance group_ok_stable : SeqStable group_ok.
Proof. intros d n [] _. by split. Qed.

Lemma lockGroupMode_Ok n g d q b d' q' :
  lockGroupMode n g (d, q) = (Ok b, (d', q')) → is_Some (groups d !! (n, g)) ∧ d' = d.
Proof. unfold lockGroupMode. intros H. run_split H. eauto. Qed.

Lemma refuseManaged_Ok n g d q b d' q' :
  refuseManaged n g (d, q) = (Ok b, (d', q')) → managed_by n g d = None ∧ d' = d.
Proof. unfold refuseManaged. intros H. run_split H. eauto. Qed.

Lemma memberTx_Ok n g p d q m d' q' :
  memberTx n g p (d, q) = (Ok m, (d', q')) → m = member_of_row p <$> group_members d !! (n, g, p) ∧ d' = d.
Proof. unfold memberTx. intros H. run_split H. eauto. Qed.

(** What each write that commits did. *)
Lemma create_group_Ok g d q a d' q' :
  create_group_tx g (d, q) = (Ok a, (d', q')) →
  a = Commit (mkGroup (gDomain g) (gName g) (gDescription g) [] (gCreatedAt g)) ∧
  is_Some (domains d !! gDomain g) ∧ groups d !! (gDomain g, gName g) = None ∧
  d' = set_groups (<[(gDomain g, gName g) := mkGroupRow (gDescription g) (UnixNano (gCreatedAt g))]> (groups d))
         (clear_members (gDomain g) (gName g) d).
Proof.
  intros H. unfold create_group_tx, insert_group in H.
  apply bind_Ok in H as ([] & [d1 q1] & [Hd ->]%lockDomain_Ok & H). run_split H.
  split_and!; [done|done| |done]. apply eq_None_not_Some. by eapply bool_decide_eq_false_1.
Qed.

Lemma delete_group_Ok n g d q a d' q' :
  delete_group_tx n g (d, q) = (Ok a, (d', q')) →
  ∃ r, groups d !! (n, g) = Some r ∧ managed_by n g d = None ∧
  a = Commit (mkGroup n g (gr_description r) (member_rows n g d) (UnixTime (gr_created_at r))) ∧
  d' = clear_members n g (set_groups (delete (n, g) (groups d)) d).
Proof.
  intros H. unfold delete_group_tx in H.
  apply bind_Ok in H as ([] & [d1 q1] & [[r Hr] ->]%lockGroupMode_Ok & H).
  apply bind_Ok in H as ([] & [d2 q2] & [Hm ->]%refuseManaged_Ok & H). run_split H.
  exists r. rewrite Hr. done.
Qed.

Lemma put_member_Ok n g m d q a d' q' :
  put_member_tx n g m (d, q) = (Ok a, (d', q')) →
  is_Some (groups d !! (n, g)) ∧ managed_by n g d = None ∧
  a = Commit (member_of_row (Principal m) <$> group_members d !! (n, g, Principal m)) ∧
  d' = put_member n g (Principal m) (nanos (ExpiresAt m)) d.
Proof.
  intros H. unfold put_member_tx in H.
  apply bind_Ok in H as ([] & [d1 q1] & [Hr ->]%lockGroupMode_Ok & H).
  apply bind_Ok in H as ([] & [d2 q2] & [Hm ->]%refuseManaged_Ok & H).
  apply bind_Ok in H as (pr & [d3 q3] & [-> ->]%memberTx_Ok & H). run_split H. done.
Qed.

Lemma remove_member_Ok n g p d q a d' q' :
  remove_member_tx n g p (d, q) = (Ok a, (d', q')) →
  ∃ e, group_members d !! (n, g, p) = Some e ∧ managed_by n g d = None ∧
  a = Commit (member_of_row p e) ∧ d' = drop_member n g p d.
Proof.
  intros H. unfold remove_member_tx in H.
  apply bind_Ok in H as ([] & [d1 q1] & [Hr ->]%lockGroupMode_Ok & H).
  apply bind_Ok in H as ([] & [d2 q2] & [Hm ->]%refuseManaged_Ok & H).
  apply bind_Ok in H as (pr & [d3 q3] & [-> ->]%memberTx_Ok & H).
  destruct (group_members d !! (n, g, p)) as [e|]; simpl in H; [|by apply throw_Ok in H].
  run_split H. eauto.
Qed.

Lemma swap_member_Ok n g p expect want d q a d' q' :
  swap_member_tx n g p expect want (d, q) = (Ok a, (d', q')) →
  is_Some (groups d !! (n, g)) ∧ managed_by n g d = None ∧
  expect = member_of_row p <$> group_members d !! (n, g, p) ∧ a = Commit tt ∧
  d' = match want with
       | None => drop_member n g p d
       | Some w => put_member n g p (nanos (ExpiresAt w)) d
       end.
Proof.
  intros H. unfold swap_member_tx in H.
  apply bind_Ok in H as ([] & [d1 q1] & [Hr ->]%lockGroupMode_Ok & H).
  apply bind_Ok in H as ([] & [d2 q2] & [Hm ->]%refuseManaged_Ok & H).
  apply bind_Ok in H as (cur & [d3 q3] & [-> ->]%memberTx_Ok & H).
  destruct (sameMember _ expect) eqn:Hs; [|by apply throw_Ok in H].
  apply sameMember_true in Hs. destruct want; run_split H; done.
Qed.

Lemma delete_empty_Ok n g d q a d' q' :
  delete_empty_tx n g (d, q) = (Ok (Commit a), (d', q')) →
  is_Some (groups d !! (n, g)) ∧ managed_by n g d = None ∧ (∀ p, group_members d !! (n, g, p) = None) ∧
  d' = set_groups (delete (n, g) (groups d)) d.
Proof.
  intros H. unfold delete_empty_tx in H. apply catch_Ok in H as (r & [d1 q1] & Hl & H).
  destruct r as [[]|[]]; try by (apply ret_Ok in H as [? ?] || apply throw_Ok in H).
  apply lockGroupMode_Ok in Hl as [Hr ->].
  apply bind_Ok in H as ([] & [d2 q2] & [Hm ->]%refuseManaged_Ok & H). run_split H.
  split_and!; [done|done| |done]. intros p. apply eq_None_not_Some. intros [e He].
  pose proof (size_filter_pos (λ r, r.1.1 = (n, g)) _ _ _ He eq_refl). lia.
Qed.

(** Inserting a list of memberships. *)
Definition put_members (n g : string) (ms : list GroupMember) (d : DB) : DB :=
  foldl (λ d m, put_member n g (Principal m) (nanos (ExpiresAt m)) d) d ms.

Lemma insert_members_Ok n g ms d q b d' q' :
  for_each ms (insert_member n g) (d, q) = (Ok b, (d', q')) → d' = put_members n g ms d.
Proof.
  revert d q. induction ms as [|m ms IH]; intros d q H; simpl in H; [by run_split H|].
  apply bind_Ok in H as ([] & [d1 q1] & [_ Hd]%insert_row_Ok & H). simpl in Hd. subst d1. by apply IH in H.
Qed.

Lemma put_members_lookup n g ms d k :
  NoDup (Principal <$> ms) →
  group_members (put_members n g ms d) !! k =
  match filter (λ m, k = (n, g, Principal m)) ms with
  | m :: _ => Some (nanos (ExpiresAt m))
  | [] => group_members d !! k
  end.
Proof.
  revert d. induction ms as [|m ms IH]; intros d Hnd; [done|].
  csimpl in Hnd. apply NoDup_cons in Hnd as [Hm Hnd]. simpl. rewrite IH by done. rewrite filter_cons.
  destruct (decide (k = (n, g, Principal m))) as [->|Hne].
  - replace (filter (λ m0, (n, g, Principal m) = (n, g, Principal m0)) ms) with (@nil GroupMember).
    + simpl. apply lookup_insert_eq.
    + symmetry. clear -Hm. induction ms as [|x ms IH]; [done|]. rewrite filter_cons_False, IH; [done|set_solver|].
      intros [= Heq]. apply Hm. csimpl. rewrite Heq. left.
  - destruct (filter _ ms); [|done]. simpl. by rewrite lookup_insert_ne.
Qed.

Lemma put_members_frame n g ms d :
  put_members n g ms d = set_group_members (group_members (put_members n g ms d)) d.
Proof.
  revert d. induction ms as [|m ms IH]; intros d; simpl; [by destruct d|]. by rewrite IH.
Qed.

Lemma insert_members_run n g ms d :
  NoDup (Principal <$> ms) → (∀ m, m ∈ ms → group_members d !! (n, g, Principal m) = None) →
  for_each ms (insert_member n g) (d, []) = (Ok tt, (put_members n g ms d, [])).
Proof.
  revert d. induction ms as [|m ms IH]; intros d Hnd Hf; [done|].
  csimpl in Hnd. apply NoDup_cons in Hnd as [Hm Hnd]. simpl.
  erewrite bind_run.
  2:{ apply insert_row_run, bool_decide_eq_false_2. rewrite Hf by left. by intros [? ?]. }
  apply IH; [done|]. intros x Hx. simpl. rewrite lookup_insert_ne; [apply Hf; by right|].
  intros [= Heq]. apply Hm. rewrite Heq. by apply list_elem_of_fmap_2.
Qed.

Lemma restore_group_Ok g d q a d' q' :
  restore_group_tx g (d, q) = (Ok a, (d', q')) →
  is_Some (domains d !! gDomain g) ∧ groups d !! (gDomain g, gName g) = None ∧
  d' = put_members (gDomain g) (gName g) (gMembers g)
    (set_groups (<[(gDomain g, gName g) := mkGroupRow (gDescription g) (UnixNano (gCreatedAt g))]> (groups d)) d).
Proof.
  intros H. unfold restore_group_tx in H.
  apply bind_Ok in H as ([] & [d1 q1] & [Hd ->]%lockDomain_Ok & H).
  apply bind_Ok in H as ([] & [d2 q2] & [Hf Hd2]%insert_row_Ok & H). simpl in Hd2. subst d2.
  apply bind_Ok in H as ([] & [d3 q3] & ->%insert_members_Ok & H). run_split H.
  split_and!; [done| |done]. apply eq_None_not_Some. by eapply bool_decide_eq_false_1.
Qed.

(** The members of a group as the delete reads them. *)
Lemma member_rows_spec n g d :
  NoDup (Principal <$> member_rows n g d) ∧
  ∀ m, m ∈ member_rows n g d ↔
       ∃ e, group_members d !! (n, g, Principal m) = Some e ∧ m = member_of_row (Principal m) e.
Proof.
  unfold member_rows. set (l := merge_sort _ _).
  assert (l ≡ₚ map_to_list (filter (λ r, r.1.1 = (n, g)) (group_members d))) as Hl by apply merge_sort_Permutation.
  split.
  - rewrite <-list_fmap_compose. apply NoDup_fmap_2_strong.
    + intros [[k1 p1] e1] [[k2 p2] e2] H1 H2. rewrite Hl in H1, H2. simpl. intros ->.
      apply elem_of_map_to_list, map_lookup_filter_Some in H1 as [H1 ?], H2 as [H2 ?]; simpl in *; congruence.
    + rewrite Hl. apply NoDup_map_to_list.
  - intros m. rewrite list_elem_of_fmap. split.
    + intros ([[k p] e] & -> & Hin). rewrite Hl in Hin.
      apply elem_of_map_to_list, map_lookup_filter_Some in Hin as [Hin Hk]; simpl in *; subst. by exists e.
    + intros (e & He & ->). exists (n, g, Principal m, e). split; [done|]. rewrite Hl.
      by apply elem_of_map_to_list, map_lookup_filter_Some.
Qed.

(** ** Every write keeps the invariants *)

Lemma group_ok_put n g p e d :
  group_ok d → is_Some (groups d !! (n, g)) → in_int64 e → group_ok (put_member n g p e d).
Proof.
  intros [Hn Hm] Hg He. split; simpl; [done|].
  intros n' g' p' e' [[[= <- <- <-] <-]|[_ ?]]%lookup_insert_Some; eauto.
Qed.

Lemma group_ok_drop n g p d : group_ok d → group_ok (drop_member n g p d).
Proof. intros [Hn Hm]. split; simpl; [done|]. intros n' g' p' e' [_ ?]%lookup_delete_Some; eauto. Qed.

Lemma clear_members_lookup n g d n' g' p e :
  group_members (clear_members n g d) !! (n', g', p) = Some e ↔
  (n', g') ≠ (n, g) ∧ group_members d !! (n', g', p) = Some e.
Proof. simpl. rewrite map_lookup_filter_Some. naive_solver. Qed.

Lemma group_ok_remove n g d :
  group_ok d → group_ok (clear_members n g (set_groups (delete (n, g) (groups d)) d)).
Proof.
  intros [Hn Hm]. split.
  - simpl. intros n' g' r [_ ?]%lookup_delete_Some; eauto.
  - intros n' g' p e [Hne He]%clear_members_lookup. simpl in *.
    rewrite lookup_delete_ne by congruence. eauto.
Qed.

Lemma group_ok_add n g ds t d :
  group_ok d → ValidateGroupName g = None → in_int64 t →
  group_ok (set_groups (<[(n, g) := mkGroupRow ds t]> (groups d)) d).
Proof.
  intros [Hn Hm] Hg Ht. split; simpl.
  - intros n' g' r [[[= <- <-] <-]|[_ ?]]%lookup_insert_Some; eauto.
  - intros n' g' p e He. destruct (Hm _ _ _ _ He) as [[r Hr] ?]. split; [|done].
    destruct (decide ((n', g') = (n, g))) as [[= -> ->]|]; [rewrite lookup_insert_eq|rewrite lookup_insert_ne by done]; eauto.
Qed.

Lemma group_ok_put_members n g ms d :
  group_ok d → is_Some (groups d !! (n, g)) → group_ok (put_members n g ms d).
Proof.
  revert d. induction ms as [|m ms IH]; intros d Hok Hg; simpl; [done|].
  apply IH; [|done]. apply group_ok_put; auto using nanos_range.
Qed.

Lemma group_ok_clear n g d : group_ok d → group_ok (clear_members n g d).
Proof.
  intros [Hn Hm]. split; [done|]. intros n' g' p e [_ ?]%clear_members_lookup. by eapply Hm.
Qed.

(** What the methods that write one group can leave behind: the six
    changes of the group tables. *)
Inductive group_change (d : DB) : DB → Prop :=
| gc_create n g ds t :
    is_Some (domains d !! n) → ValidateGroupName g = None → in_int64 t → groups d !! (n, g) = None →
    group_change d (set_groups (<[(n, g) := mkGroupRow ds t]> (groups d)) (clear_members n g d))
| gc_delete n g :
    managed_by n g d = None → group_change d (clear_members n g (set_groups (delete (n, g) (groups d)) d))
| gc_delete_empty n g :
    managed_by n g d = None → (∀ p, group_members d !! (n, g, p) = None) →
    group_change d (set_groups (delete (n, g) (groups d)) d)
| gc_put n g p e :
    managed_by n g d = None → is_Some (groups d !! (n, g)) → in_int64 e → group_change d (put_member n g p e d)
| gc_drop n g p : managed_by n g d = None → group_change d (drop_member n g p d)
| gc_restore n g ds t ms :
    is_Some (domains d !! n) → ValidateGroupName g = None → in_int64 t → groups d !! (n, g) = None →
    group_change d (put_members n g ms (set_groups (<[(n, g) := mkGroupRow ds t]> (groups d)) d)).

Lemma group_change_ok d d' : group_change d d' → group_ok d → group_ok d'.
Proof.
  intros [n g ds t _ Hv Ht _|n g _|n g _ Hno|n g p e _ Hg He|n g p _|n g ds t ms _ Hv Ht _] Hok.
  - apply (group_ok_add n g ds t (clear_members n g d)); auto using group_ok_clear.
  - by apply group_ok_remove.
  - destruct Hok as [Hn Hm]. split; simpl.
    + intros n' g' r [_ ?]%lookup_delete_Some; eauto.
    + intros n' g' p e He. rewrite lookup_delete_ne by (intros [= -> ->]; by rewrite Hno in He). eauto.
  - by apply group_ok_put.
  - by apply group_ok_drop.
  - apply group_ok_put_members; [by apply group_ok_add|]. simpl. by rewrite lookup_insert_eq.
Qed.

Lemma dir_ok_groups d d' :
  domains d' = domains d → domain_admins d' = domain_admins d →
  (∀ n g, is_Some (groups d' !! (n, g)) → is_Some (groups d !! (n, g)) ∨ is_Some (domains d !! n)) →
  dir_ok d → dir_ok d'.
Proof.
  intros Hd Ha Hg []. split; rewrite ?Hd, ?Ha; try done. intros n g [?|?]%Hg; eauto.
Qed.

Lemma group_change_dir_ok d d' : group_change d d' → dir_ok d → dir_ok d'.
Proof.
  intros Hc. assert (domains d' = domains d ∧ domain_admins d' = domain_admins d ∧
    ∀ n g, is_Some (groups d' !! (n, g)) → is_Some (groups d !! (n, g)) ∨ is_Some (domains d !! n)) as (? & ? & ?).
  { destruct Hc as [n g ds t Hd|n g|n g|n g p e|n g p|n g ds t ms Hd]; [..|rewrite put_members_frame]; simpl;
      split_and!; try done; intros n' g'; auto.
    - intros [r [[[= <- <-] _]|[_ ?]]%lookup_insert_Some]; eauto.
    - intros [r [_ ?]%lookup_delete_Some]; eauto.
    - intros [r [_ ?]%lookup_delete_Some]; eauto.
    - intros [r [[[= <- <-] _]|[_ ?]]%lookup_insert_Some]; eauto. }
  by apply dir_ok_groups.
Qed.

(** The six methods, by the change they commit. A restored group is one
    that was deleted, so its name is valid. *)
Lemma CreateGroup_change now g I :
  SeqStable I → (∀ d d', group_change d d' → I d → I d') → preserves I (CreateGroup now g).
Proof.
  intros HI Hc. apply leader_only_preserves. destruct (ValidateGroupName (gName g)) eqn:Hv; [auto with omega|].
  apply with_tx_preserves; [done|]. intros d q a d' q' Hd (_ & Hdom & Hf & ->)%create_group_Ok.
  eapply Hc, Hd. by apply gc_create; auto using wrap64_range.
Qed.

Lemma DeleteGroup_change n g I :
  SeqStable I → (∀ d d', group_change d d' → I d → I d') → preserves I (DeleteGroup n g).
Proof.
  intros HI Hc. apply leader_only_preserves, with_tx_preserves; [done|].
  intros d q a d' q' Hd (r & _ & ? & _ & ->)%delete_group_Ok. eapply Hc, Hd. by apply gc_delete.
Qed.

Lemma PutGroupMember_change n g m I :
  SeqStable I → (∀ d d', group_change d d' → I d → I d') → preserves I (PutGroupMember n g m).
Proof.
  intros HI Hc. apply leader_only_preserves, with_tx_preserves; [done|].
  intros d q a d' q' Hd (? & ? & _ & ->)%put_member_Ok. eapply Hc, Hd. apply gc_put; auto using nanos_range.
Qed.

Lemma RemoveGroupMember_change n g p I :
  SeqStable I → (∀ d d', group_change d d' → I d → I d') → preserves I (RemoveGroupMember n g p).
Proof.
  intros HI Hc. apply leader_only_preserves, with_tx_preserves; [done|].
  intros d q a d' q' Hd (e & ? & ? & _ & ->)%remove_member_Ok. eapply Hc, Hd. by apply gc_drop.
Qed.

Lemma SwapGroupMember_change n g p ex want I :
  SeqStable I → (∀ d d', group_change d d' → I d → I d') → preserves I (SwapGroupMember n g p ex want).
Proof.
  intros HI Hc. apply leader_only_preserves, with_tx_preserves; [done|].
  intros d q a d' q' Hd (? & ? & _ & _ & ->)%swap_member_Ok. eapply Hc, Hd.
  destruct want; [apply gc_put; auto using nanos_range|by apply gc_drop].
Qed.

Lemma DeleteEmptyGroup_change n g I :
  SeqStable I → (∀ d d', group_change d d' → I d → I d') → preserves I (DeleteEmptyGroup n g).
Proof.
  intros HI Hc. apply leader_only_preserves, with_tx_preserves; [done|].
  intros d q a d' q' Hd (? & ? & ? & ->)%delete_empty_Ok. eapply Hc, Hd. by apply gc_delete_empty.
Qed.

Lemma RestoreGroup_change g I :
  ValidateGroupName (gName g) = None →
  SeqStable I → (∀ d d', group_change d d' → I d → I d') → preserves I (RestoreGroup g).
Proof.
  intros Hv HI Hc. apply leader_only_preserves, with_tx_preserves; [done|].
  intros d q a d' q' Hd (? & ? & ->)%restore_group_Ok. eapply Hc, Hd.
  apply gc_restore; auto using wrap64_range.
Qed.

(** ** Runs in which nothing fails *)

Lemma lockGroupMode_run n g d :
  lockGroupMode n g (d, []) =
  (if decide (is_Some (groups d !! (n, g))) then Ok tt else Err ErrNotFound, (d, [])).
Proof.
  unfold lockGroupMode. run_step. destruct (groups d !! (n, g)); [by rewrite decide_True|].
  rewrite decide_False; [done|]. by intros [? ?].
Qed.

Lemma refuseManaged_run n g d :
  refuseManaged n g (d, []) =
  (match managed_by n g d with None => Ok tt | Some idp => Err (ErrSCIMManaged idp) end, (d, [])).
Proof. unfold refuseManaged. run_step. by destruct (managed_by n g d). Qed.

Lemma memberTx_run n g p d :
  memberTx n g p (d, []) = (Ok (member_of_row p <$> group_members d !! (n, g, p)), (d, [])).
Proof. unfold memberTx. by run_step. Qed.

(** The prologue of every write to an existing group. *)
Lemma group_guard_run {A} n g (k : () → Tx A) d :
  is_Some (groups d !! (n, g)) →
  (lockGroup n g ;; refuseManaged n g ≫= k) (d, []) =
  match managed_by n g d with
  | Some idp => (Err (ErrSCIMManaged idp), (d, []))
  | None => k tt (d, [])
  end.
Proof.
  intros Hg. erewrite bind_run by (by rewrite lockGroupMode_run, decide_True).
  destruct (managed_by n g d) as [idp|] eqn:Hm.
  - erewrite bind_run_Err; [done|]. by rewrite refuseManaged_run, Hm.
  - erewrite bind_run; [done|]. by rewrite refuseManaged_run, Hm.
Qed.

Lemma swap_member_run n g p expect want d :
  is_Some (groups d !! (n, g)) → managed_by n g d = None →
  swap_member_tx n g p expect want (d, []) =
  if decide (expect = member_of_row p <$> group_members d !! (n, g, p))
  then (Ok (Commit tt), (match want with
                         | None => drop_member n g p d
                         | Some w => put_member n g p (nanos (ExpiresAt w)) d
                         end, []))
  else (Err ErrChanged, (d, [])).
Proof.
  intros Hg Hm. unfold swap_member_tx. rewrite group_guard_run, Hm by done.
  erewrite bind_run by apply memberTx_run. case_decide as He.
  - rewrite (proj2 (sameMember_true _ expect)) by done. run_step. by destruct want.
  - destruct (sameMember _ _) eqn:E; [|done]. apply sameMember_true in E. congruence.
Qed.

Lemma restore_group_run g d :
  is_Some (domains d !! gDomain g) → groups d !! (gDomain g, gName g) = None →
  NoDup (Principal <$> gMembers g) →
  (∀ p, group_members d !! (gDomain g, gName g, p) = None) →
  restore_group_tx g (d, []) = (Ok (Commit tt),
    (put_members (gDomain g) (gName g) (gMembers g)
       (set_groups (<[(gDomain g, gName g) := mkGroupRow (gDescription g) (UnixNano (gCreatedAt g))]> (groups d)) d), [])).
Proof.
  intros Hd Hg Hnd Hno. unfold restore_group_tx.
  erewrite bind_run by (by rewrite lockDomain_run, decide_True).
  erewrite bind_run by (apply insert_row_run, bool_decide_eq_false_2; rewrite Hg; by intros [? ?]).
  erewrite bind_run; [done|]. apply insert_members_run; [done|]. intros m _. apply Hno.
Qed.

(** Undoing a write puts the row back. *)
Lemma put_member_id n g p e d : group_members d !! (n, g, p) = Some e → put_member n g p e d = d.
Proof. intros H. unfold put_member. rewrite insert_id by done. by destruct d. Qed.

Lemma drop_put_member n g p e d :
  group_members d !! (n, g, p) = None → drop_member n g p (put_member n g p e d) = d.
Proof. intros H. unfold drop_member, put_member; simpl. unfold set_group_members; simpl. rewrite delete_insert_id by done. by destruct d. Qed.

Lemma put_put_member n g p e e' d : put_member n g p e (put_member n g p e' d) = put_member n g p e d.
Proof. unfold put_member, set_group_members; simpl. by rewrite insert_insert_eq. Qed.

Lemma put_drop_member n g p e d : put_member n g p e (drop_member n g p d) = put_member n g p e d.
Proof. unfold put_member, drop_member, set_group_members; simpl. by rewrite insert_delete_eq. Qed.

(** The group tables after a delete and a restore. *)
Lemma restore_delete_members n g d :
  group_ok d →
  put_members n g (member_rows n g d) (clear_members n g d) = d.
Proof.
  intros Hok. destruct (member_rows_spec n g d) as [Hnd Hin].
  rewrite put_members_frame.
  replace (group_members (put_members n g (member_rows n g d) (clear_members n g d))) with (group_members d);
    [by destruct d|].
  apply map_eq. intros [[n' g'] p]. rewrite put_members_lookup by done.
  destruct (filter _ (member_rows n g d)) as [|m l] eqn:Hf.
  - destruct (group_members (clear_members n g d) !! (n', g', p)) as [e|] eqn:E.
    + by apply clear_members_lookup in E as [_ ->].
    + apply eq_None_not_Some. intros [e He]. destruct (decide ((n', g') = (n, g))) as [[= -> ->]|Hne].
      * assert (member_of_row p e ∈ filter (λ m, (n, g, p) = (n, g, Principal m)) (member_rows n g d)) as H.
        { apply list_elem_of_filter. split; [done|]. apply Hin. by exists e. }
        rewrite Hf in H. by apply not_elem_of_nil in H.
      * assert (group_members (clear_members n g d) !! (n', g', p) = Some e) by by apply clear_members_lookup.
        congruence.
  - assert (m ∈ filter (λ m, (n', g', p) = (n, g, Principal m)) (member_rows n g d)) as Hm by (rewrite Hf; left).
    apply list_elem_of_filter in Hm as [[= -> -> ->] (e & He & Hme)%Hin]. rewrite He. f_equal.
    rewrite <-(nanos_of_row (Principal m) e), <-Hme; [done|]. by eapply gok_member.
Qed.

(** Deleting a group and restoring the snapshot the delete returned
    puts the tables back exactly, members and their expiries included. *)
Theorem delete_restore n g s grp s1 :
  dir_ok (db s) → group_ok (db s) → IsLeader s = true →
  DeleteGroup n g (s, []) = (Ok grp, (s1, [])) →
  ∃ s2, RestoreGroup grp (s1, []) = (Ok tt, (s2, [])) ∧ db s2 = db s.
Proof.
  intros Hdir Hok Hl [_ H]%leader_only_Ok.
  apply with_tx_cases in H as [(d & -> & _ & Hr)|(w & d & w' & a & Hb & -> & Hr)].
  { destruct (Hr grp eq_refl) as (w & [d' w'] & Hb). by apply delete_group_Ok in Hb as (r & _ & _ & [=] & _). }
  apply delete_group_Ok in Hb as (r & Hg & _ & [= ->] & ->). destruct Hr as [[= ->]|[? [=]]].
  destruct (gok_name _ Hok _ _ _ Hg) as [_ Hcr]. destruct (member_rows_spec n g (db s)) as [Hnd _].
  unfold RestoreGroup. rewrite leader_only_leader by done.
  eexists. split; [eapply with_tx_run_Commit, restore_group_run; simpl|].
  - eapply dok_group; [done|]. by rewrite Hg.
  - apply lookup_delete_eq.
  - done.
  - intros p. apply map_lookup_filter_None. naive_solver.
  - unfold UnixNano, UnixTime; simpl. rewrite wrap64_id by done.
    unfold set_groups, clear_members, set_group_members; simpl. rewrite insert_delete_id by (by destruct r).
    exact (restore_delete_members n g (db s) Hok).
Qed.

Lemma PutGroupMember_Ok n g m s q prior s1 q1 :
  PutGroupMember n g m (s, q) = (Ok prior, (s1, q1)) →
  IsLeader s = true ∧ is_Some (groups (db s) !! (n, g)) ∧ managed_by n g (db s) = None ∧
  prior = member_of_row (Principal m) <$> group_members (db s) !! (n, g, Principal m) ∧
  s1 = set_db (put_member n g (Principal m) (nanos (ExpiresAt m)) (db s)) s.
Proof.
  intros [Hl H]%leader_only_Ok.
  apply with_tx_cases in H as [(d & -> & _ & Hr)|(w & d & w' & a & Hb & -> & Hr)].
  { destruct (Hr prior eq_refl) as (w & [d' w'] & Hb). by apply put_member_Ok in Hb as (_ & _ & [=] & _). }
  apply put_member_Ok in Hb as (? & ? & [= ->] & ->). by destruct Hr as [[= ->]|[? [=]]].
Qed.

Lemma RemoveGroupMember_Ok n g p s q prior s1 q1 :
  RemoveGroupMember n g p (s, q) = (Ok prior, (s1, q1)) →
  IsLeader s = true ∧ managed_by n g (db s) = None ∧
  ∃ e, group_members (db s) !! (n, g, p) = Some e ∧
  prior = member_of_row p e ∧ s1 = set_db (drop_member n g p (db s)) s.
Proof.
  intros [Hl H]%leader_only_Ok.
  apply with_tx_cases in H as [(d & -> & _ & Hr)|(w & d & w' & a & Hb & -> & Hr)].
  { destruct (Hr prior eq_refl) as (w & [d' w'] & Hb). by apply remove_member_Ok in Hb as (? & _ & _ & [=] & _). }
  apply remove_member_Ok in Hb as (e & He & Hm & [= ->] & ->). destruct Hr as [[= ->]|[? [=]]]. eauto 10.
Qed.

Lemma SwapGroupMember_run n g p expect want s :
  IsLeader s = true → is_Some (groups (db s) !! (n, g)) → managed_by n g (db s) = None →
  SwapGroupMember n g p expect want (s, []) =
  if decide (expect = member_of_row p <$> group_members (db s) !! (n, g, p))
  then (Ok tt, (set_db (match want with
                        | None => drop_member n g p (db s)
                        | Some w => put_member n g p (nanos (ExpiresAt w)) (db s)
                        end) s, []))
  else (Err ErrChanged, (s, [])).
Proof.
  intros Hl Hg Hm. unfold SwapGroupMember. rewrite leader_only_leader by done.
  pose proof (swap_member_run n g p expect want (db s) Hg Hm) as Hrun. case_decide.
  - by apply with_tx_run_Commit.
  - by eapply with_tx_run_Err.
Qed.

(** The reverts of the audited membership handlers: swapping back what
    a put replaced, and what a removal removed, restores the tables
    exactly, for every expiry a handler accepts. *)
Theorem member_undo n g s :
  group_ok (db s) →
  (∀ m prior s1, storable (ExpiresAt m) → PutGroupMember n g m (s, []) = (Ok prior, (s1, [])) →
     ∃ s2, SwapGroupMember n g (Principal m) (Some m) prior (s1, []) = (Ok tt, (s2, [])) ∧ db s2 = db s) ∧
  (∀ p prior s1, RemoveGroupMember n g p (s, []) = (Ok prior, (s1, [])) →
     ∃ s2, SwapGroupMember n g p None (Some prior) (s1, []) = (Ok tt, (s2, [])) ∧ db s2 = db s).
Proof.
  intros Hok. split.
  - intros m prior s1 Hst (Hl & Hg & Hm & -> & ->)%PutGroupMember_Ok.
    eexists. split; [rewrite SwapGroupMember_run; [|done..]; rewrite decide_True; [done|]|].
    + simpl. rewrite lookup_insert_eq; simpl. rewrite nanos_storable by done. by destruct m.
    + destruct (group_members (db s) !! (n, g, Principal m)) as [e|] eqn:E;
        cbn [db set_db fmap option_fmap option_map].
      * rewrite nanos_of_row by (by eapply gok_member). rewrite put_put_member. by apply put_member_id.
      * by apply drop_put_member.
  - intros p prior s1 (Hl & Hm & e & He & -> & ->)%RemoveGroupMember_Ok.
    destruct (gok_member _ Hok _ _ _ _ He) as [Hg Hr].
    eexists. split; [rewrite SwapGroupMember_run; [|done..]; rewrite decide_True; [done|]|].
    + simpl. by rewrite lookup_delete_eq.
    + cbn [db set_db]. rewrite nanos_of_row by done. rewrite put_drop_member. by apply put_member_id.
Qed.

(** A revert never overwrites a later change: a swap takes effect
    exactly when the membership is still the expected one, and then leaves
    the wanted one; otherwise it reports the change and alters nothing. *)
Theorem swap_compares n g p expect want s :
  IsLeader s = true → is_Some (groups (db s) !! (n, g)) → managed_by n g (db s) = None →
  (∀ w, want = Some w → Principal w = p ∧ storable (ExpiresAt w)) →
  let stored s := member_of_row p <$> group_members (db s) !! (n, g, p) in
  (stored s = expect ∧ ∃ s', SwapGroupMember n g p expect want (s, []) = (Ok tt, (s', [])) ∧ stored s' = want) ∨
  (stored s ≠ expect ∧ SwapGroupMember n g p expect want (s, []) = (Err ErrChanged, (s, []))).
Proof.
  intros Hl Hg Hm Hw stored. rewrite SwapGroupMember_run by done. case_decide as He.
  - left. split; [done|]. eexists; split; [done|]. unfold stored. destruct want as [w|]; simpl.
    + destruct (Hw w eq_refl) as [<- Hst]. rewrite lookup_insert_eq; simpl.
      rewrite nanos_storable by done. by destruct w.
    + by rewrite lookup_delete_eq.
  - right. split; [|done]. unfold stored. by intros <-.
Qed.

(** The method reports the owner and changes nothing. *)
Definition refused {A} (idp : string) (s : Store) (m : M A) : Prop :=
  m (s, []) = (Err (ErrSCIMManaged idp), (s, [])).

(** A group an identity provider owns is closed to the group API: with
    nothing failing, each of its five writes is refused with the owner's
    name and leaves the store as it was. *)
Theorem managed_group_refused n g idp s :
  IsLeader s = true → is_Some (groups (db s) !! (n, g)) → managed_by n g (db s) = Some idp →
  refused idp s (DeleteGroup n g) ∧ (∀ m, refused idp s (PutGroupMember n g m)) ∧
  (∀ p, refused idp s (RemoveGroupMember n g p)) ∧
  (∀ p expect want, refused idp s (SwapGroupMember n g p expect want)) ∧
  refused idp s (DeleteEmptyGroup n g).
Proof.
  intros Hl Hg Hm.
  assert (∀ A (body : Tx (tx_end A)), body (db s, []) = (Err (ErrSCIMManaged idp), (db s, [])) →
    refused idp s (leader_only (with_tx "begin" "" body))) as Hr.
  { intros A body H. unfold refused. rewrite leader_only_leader by done. by eapply with_tx_run_Err. }
  split_and!; intros; apply Hr.
  1-4: unfold delete_group_tx, put_member_tx, remove_member_tx, swap_member_tx;
       rewrite group_guard_run by done; by rewrite Hm.
  unfold delete_empty_tx. erewrite catch_run by (by rewrite lockGroupMode_run, decide_True).
  cbv beta iota. erewrite bind_run_Err; [done|]. by rewrite refuseManaged_run, Hm.
Qed.

(** What the expiry column keeps: a membership stored and read back is
    in force at exactly the times it was given for, unless its expiry is
    the Unix epoch itself, which the column's 0 turns into a membership
    that never expires. *)
Theorem expiry_stored p e t :
  in_int64 e →
  member_Active (member_of_row p (nanos e)) t =
  if decide (e = 0%Z) then true else member_Active (mkGroupMember p e) t.
Proof.
  intros He. case_decide as H0.
  - subst. done.
  - rewrite nanos_storable by (by right). done.
Qed.

(** ** Witnesses *)

Definition ops_group : Group := mkGroup "org" "ops" "operators" [] zero_time.
Definition alice : GroupMember := mkGroupMember "spiffe://td/alice" 5000000000.

(** The group [org:ops] with one member. *)
Definition ops_empty : Store := (CreateGroup 2 ops_group (org_store, [])).2.1.
Definition ops_store : Store := (PutGroupMember "org" "ops" alice (ops_empty, [])).2.1.

Lemma empty_group_ok : group_ok empty_db.
Proof. split; simpl; intros *; by rewrite lookup_empty. Qed.

Lemma ops_store_ok : dir_ok (db ops_store) ∧ group_ok (db ops_store).
Proof.
  assert (group_ok (db org_store)) as Horg.
  { assert (db org_store = created_db (normalised 1 org) empty_db) as -> by (vm_compute; reflexivity).
    split; simpl; intros *; by rewrite lookup_empty. }
  split.
  - apply (PutGroupMember_change "org" "ops" alice dir_ok); [apply _|apply group_change_dir_ok|].
    apply (CreateGroup_change 2 ops_group dir_ok); [apply _|apply group_change_dir_ok|apply org_store_ok].
  - apply (PutGroupMember_change "org" "ops" alice group_ok); [apply _|apply group_change_ok|].
    apply (CreateGroup_change 2 ops_group group_ok); [apply _|apply group_change_ok|done].
Qed.

Lemma ops_leader : IsLeader ops_store = true.
Proof. reflexivity. Qed.

Lemma delete_restore_witness :
  ∃ s1 s2, DeleteGroup "org" "ops" (ops_store, []) = (Ok (mkGroup "org" "ops" "operators" [alice] 2), (s1, [])) ∧
    RestoreGroup (mkGroup "org" "ops" "operators" [alice] 2) (s1, []) = (Ok tt, (s2, [])) ∧ db s2 = db ops_store.
Proof.
  pose proof (run_result (DeleteGroup "org" "ops" (ops_store, [])) (Ok (mkGroup "org" "ops" "operators" [alice] 2)) []) as E.
  specialize (E ltac:(vm_compute; reflexivity) ltac:(vm_compute; reflexivity)).
  destruct (delete_restore "org" "ops" ops_store _ _ (proj1 ops_store_ok) (proj2 ops_store_ok) ops_leader E)
    as (s2 & Hrun & Hdb).
  eexists. exists s2. exact (conj E (conj Hrun Hdb)).
Defined.

Definition alice_forever : GroupMember := mkGroupMember "spiffe://td/alice" zero_time.

Lemma member_undo_witness :
  ∃ s1 s2, PutGroupMember "org" "ops" alice_forever (ops_store, []) = (Ok (Some alice), (s1, [])) ∧
    SwapGroupMember "org" "ops" "spiffe://td/alice" (Some alice_forever) (Some alice) (s1, []) = (Ok tt, (s2, [])) ∧
    db s2 = db ops_store.
Proof.
  pose proof (run_result (PutGroupMember "org" "ops" alice_forever (ops_store, [])) (Ok (Some alice)) []) as E.
  specialize (E ltac:(vm_compute; reflexivity) ltac:(vm_compute; reflexivity)).
  destruct (member_undo "org" "ops" ops_store (proj2 ops_store_ok)) as [Hput _].
  destruct (Hput alice_forever _ _ (or_introl eq_refl) E) as (s2 & Hrun & Hdb).
  eexists. exists s2. exact (conj E (conj Hrun Hdb)).
Defined.

Lemma swap_compares_witness :
  let stored s := member_of_row "spiffe://td/alice" <$> group_members (db s) !! ("org", "ops", "spiffe://td/alice") in
  (stored ops_store = None ∧ ∃ s', SwapGroupMember "org" "ops" "spiffe://td/alice" None None (ops_store, []) = (Ok tt, (s', [])) ∧ stored s' = None) ∨
  (stored ops_store ≠ None ∧ SwapGroupMember "org" "ops" "spiffe://td/alice" None None (ops_store, []) = (Err ErrChanged, (ops_store, []))).
Proof.
  apply (swap_compares "org" "ops" "spiffe://td/alice" None None ops_store).
  - reflexivity.
  - eexists. vm_compute. reflexivity.
  - vm_compute. reflexivity.
  - discriminate.
Defined.

(** The same store with the group owned by a provider. *)
Definition ops_managed : Store :=
  set_db (set_scim_groups {[("okta", "1") := mkScimGroupRow "Ops" "" "org" "ops" 0 0]} (db ops_store)) ops_store.

Lemma managed_group_refused_witness :
  DeleteGroup "org" "ops" (ops_managed, []) = (Err (ErrSCIMManaged "okta"), (ops_managed, [])) ∧
  DeleteEmptyGroup "org" "ops" (ops_managed, []) = (Err (ErrSCIMManaged "okta"), (ops_managed, [])).
Proof.
  destruct (managed_group_refused "org" "ops" "okta" ops_managed) as (Hd & _ & _ & _ & He).
  - reflexivity.
  - eexists. vm_compute. reflexivity.
  - vm_compute. reflexivity.
  - exact (conj Hd He).
Defined.

Lemma expiry_stored_witness :
  member_Active (member_of_row "p" (nanos 7)) 8 = false ∧ member_Active (member_of_row "p" (nanos 0)) 8 = true.
Proof.
  split; rewrite expiry_stored; (reflexivity || (split; vm_compute; congruence)).
Defined.
