(* ===== verification/Pump.v ===== *)
(** * Pump

    Shipping the audit chain to an external sink (internal/server/audit:
    forwarder.go, pump.go). A pump reads the rows above its watermark,
    hands them to its forwarder and, once the sink has acknowledged them,
    advances the watermark. The sink is outside the program: a run is given
    what becomes of each batch sent to it. *)
From S2P Require Import Prelude Crypto Json AuditKeyring Store AuditChain.

(** The interface a pump is given: a sink with a name, whose state records
    every event it received, in order. *)
Class Forwarder (F : Type) := {
  fwd_Name : F → string;
  received : F → list AuditEvent;
  Forward : list AuditEvent → F → bool * F;
  (** A batch is acknowledged only when all of it was received, and what
      was received before stays. *)
  Forward_spec evs f : fwd_Name (Forward evs f).2 = fwd_Name f ∧
    ((Forward evs f).1 = true → received (Forward evs f).2 = received f ++ evs) ∧
    received f `prefix_of` received (Forward evs f).2;
}.

Record PumpConfig := mkPumpConfig {
  BatchSize : Z;
  PollInterval : Z;
}.

Definition NewPump (cfg : PumpConfig) : PumpConfig :=
  mkPumpConfig (if decide (BatchSize cfg <= 0)%Z then 100%Z else BatchSize cfg)
    (if decide (PollInterval cfg <= 0)%Z then Second else PollInterval cfg).

Section pump.
Context {F : Type} `{!Forwarder F}.

(** One tick: the store and the sink after it. Every failure is logged and
    ends the tick. *)
Definition tick (cfg : PumpConfig) (now : Z) (w : (Store * F) * faults) : (Store * F) * faults :=
  let '((s, f), q) := w in
  if IsLeader s then
    match AuditForwardSeq (fwd_Name f) (s, q) with
    | (Err _, (s1, q1)) => ((s1, f), q1)
    | (Ok since, (s1, q1)) =>
        match ListAudit since (BatchSize cfg) (s1, q1) with
        | (Err _, (s2, q2)) => ((s2, f), q2)
        | (Ok events, (s2, q2)) =>
            match last events with
            | None => ((s2, f), q2)
            | Some lst =>
                let '(ok, f') := Forward events f in
                if ok then
                  let '(_, (s3, q3)) := SetAuditForwardSeq now (fwd_Name f) (Seq lst) (s2, q2) in
                  ((s3, f'), q3)
                else ((s2, f'), q2)
            end
        end
    end
  else w.

(** The ticks of [Run], each at its own time. *)
Fixpoint ticks (cfg : PumpConfig) (nows : list Z) (w : (Store * F) * faults) : (Store * F) * faults :=
  match nows with
  | [] => w
  | now :: nows' => ticks cfg nows' (tick cfg now w)
  end.

(** ** Nothing is skipped *)

Definition watermark (name : string) (s : Store) : Z :=
  default 0%Z (fr_last_seq <$> audit_forward_state (db s) !! name).

(** Every row up to the watermark has been received. *)
Record pump_ok (s : Store) (f : F) : Prop := {
  po_audit : audit_ok s;
  po_mark : (watermark (fwd_Name f) s <= audit_seq (db s))%Z;
  po_received : ∀ r, r ∈ audit_log (db s) → (ar_seq r <= watermark (fwd_Name f) s)%Z →
                     scan_event r ∈ received f;
}.

(** The rows above the watermark, oldest first. *)
Definition pending (name : string) (s : Store) : list audit_row :=
  filter (λ r, (ar_seq r > watermark name s)%Z) (audit_log (db s)).

(** How many rows a tick takes. *)
Definition batch (cfg : PumpConfig) : nat :=
  Z.to_nat (if decide (BatchSize cfg <= 0)%Z then 100%Z
            else if decide (BatchSize cfg > 1000)%Z then 1000%Z else BatchSize cfg).

Lemma batch_pos cfg : 0 < batch cfg.
Proof. unfold batch. repeat case_decide; lia. Qed.

Lemma AuditForwardSeq_Ok name s q since s' q' :
  AuditForwardSeq name (s, q) = (Ok since, (s', q')) → since = watermark name s ∧ s' = s.
Proof. unfold AuditForwardSeq, on_db. intros H. run_split H. done. Qed.

Lemma AuditForwardSeq_state name s q : (AuditForwardSeq name (s, q)).2.1 = s.
Proof.
  unfold AuditForwardSeq, on_db, query, mbind, GoM_bind, io, gets, throw.
  case_decide; [done|]. by destruct q as [|[f|] q].
Qed.

Lemma ListAudit_Ok cfg since s q evs s' q' :
  ListAudit since (BatchSize cfg) (s, q) = (Ok evs, (s', q')) →
  evs = scan_event <$> take (batch cfg) (filter (λ r, (ar_seq r > since)%Z) (audit_log (db s))) ∧ s' = s.
Proof.
  unfold ListAudit, on_db. intros H. run_split H. split; [|done]. f_equal. f_equal.
  unfold batch. repeat case_decide; lia.
Qed.

Lemma ListAudit_run cfg since s :
  ListAudit since (BatchSize cfg) (s, []) =
  (Ok (scan_event <$> take (batch cfg) (filter (λ r, (ar_seq r > since)%Z) (audit_log (db s)))), (s, [])).
Proof.
  destruct (ListAudit since (BatchSize cfg) (s, [])) as [[evs|e] [s' q']] eqn:E; [|done].
  assert (q' = []) as -> by by injection E as _ _ <-. by apply ListAudit_Ok in E as [-> ->].
Qed.

Lemma ListAudit_state since limit s q : (ListAudit since limit (s, q)).2.1 = s.
Proof.
  unfold ListAudit, on_db, query, mbind, GoM_bind, io, gets. by destruct q as [|[f|] q].
Qed.

(** The watermark write: it takes effect or not. *)
Lemma SetAuditForwardSeq_state now name seq s q :
  let s' := (SetAuditForwardSeq now name seq (s, q)).2.1 in
  s' = s ∨
  s' = set_db (set_audit_forward_state (<[name := mkForwardRow seq (UnixNano now)]> (audit_forward_state (db s))) (db s)) s.
Proof.
  unfold SetAuditForwardSeq, throw, statement. repeat case_decide; simpl; auto.
  destruct q as [|[[m|m]|] q]; auto.
Qed.

(** What a tick does, whatever fails: nothing, or it hands the next rows
    to the sink, and then moves the watermark only if they were
    acknowledged. *)
Lemma tick_cases cfg now s f q s' f' q' :
  tick cfg now ((s, f), q) = ((s', f'), q') →
  (s' = s ∧ f' = f) ∨
  (∃ ok lst, last (take (batch cfg) (pending (fwd_Name f) s)) = Some lst ∧
     Forward (scan_event <$> take (batch cfg) (pending (fwd_Name f) s)) f = (ok, f') ∧
     (s' = s ∨ ok = true ∧ s' = set_db (set_audit_forward_state
        (<[fwd_Name f := mkForwardRow (ar_seq lst) (UnixNano now)]> (audit_forward_state (db s))) (db s)) s)).
Proof.
  unfold tick. destruct (IsLeader s); [|by intros [= -> -> ->]; left].
  pose proof (AuditForwardSeq_state (fwd_Name f) s q) as H1.
  destruct (AuditForwardSeq (fwd_Name f) (s, q)) as [[since|e] [s1 q1]] eqn:E1; simpl in H1; subst s1;
    [|by intros [= -> -> ->]; left].
  apply AuditForwardSeq_Ok in E1 as [-> _].
  pose proof (ListAudit_state (watermark (fwd_Name f) s) (BatchSize cfg) s q1) as H2.
  destruct (ListAudit _ _ (s, q1)) as [[evs|e] [s2 q2]] eqn:E2; simpl in H2; subst s2;
    [|by intros [= -> -> ->]; left].
  apply ListAudit_Ok in E2 as [-> _]. rewrite fmap_last. fold (pending (fwd_Name f) s).
  destruct (last (take _ _)) as [lst|] eqn:El; simpl; [|by intros [= -> -> ->]; left].
  destruct (Forward _ f) as [ok f1] eqn:Ef. destruct ok.
  - pose proof (SetAuditForwardSeq_state now (fwd_Name f) (ar_seq lst) s q2) as H3.
    destruct (SetAuditForwardSeq _ _ _ _) as [r3 [s3 q3]]. simpl in H3.
    intros [= -> -> ->]. right. exists true, lst. naive_solver.
  - intros [= -> -> ->]. right. exists false, lst. naive_solver.
Qed.

(** ** Order *)

Lemma pending_sorted name s : audit_ok s → StronglySorted Z.lt (ar_seq <$> pending name s).
Proof.
  intros Hok. pose proof (ai_sorted _ _ (as_inv _ Hok)) as Hs. unfold pending.
  induction (audit_log (db s)) as [|r l IH]; [constructor|].
  csimpl in Hs. apply StronglySorted_inv in Hs as [Hs Hr]. rewrite filter_cons.
  case_decide; csimpl; [|auto]. constructor; [auto|].
  apply Forall_fmap, Forall_forall. intros x [_ Hx]%list_elem_of_filter.
  eapply Forall_forall in Hr; [exact Hr|]. by apply list_elem_of_fmap_2.
Qed.

(** After the rows of a batch, what lies above its last row is the rest. *)
Lemma above_batch l n r :
  StronglySorted Z.lt (ar_seq <$> l) → last (take n l) = Some r →
  filter (λ x, (ar_seq x > ar_seq r)%Z) l = drop n l ∧ Forall (λ x, (ar_seq x <= ar_seq r)%Z) (take n l).
Proof.
  revert n. induction l as [|x l IH]; intros n Hs Hl; [by rewrite take_nil in Hl|].
  csimpl in Hs. apply StronglySorted_inv in Hs as [Hs Hx].
  assert (∀ y, y ∈ l → (ar_seq x < ar_seq y)%Z) as Hxy.
  { intros y Hy. eapply Forall_forall in Hx; [exact Hx|]. by apply list_elem_of_fmap_2. }
  destruct n as [|n]; [done|]. csimpl in Hl. rewrite last_cons in Hl.
  destruct (last (take n l)) as [r'|] eqn:El; simplify_eq.
  - destruct (IH n Hs El) as [Hf Hle].
    assert (r ∈ l) as Hin.
    { apply last_Some in El as [l' El]. rewrite <-(take_drop n l), El. set_solver. }
    specialize (Hxy r Hin). rewrite filter_cons_False by lia. csimpl. split; [done|]. constructor; [lia|done].
  - apply last_None in El. rewrite filter_cons_False by lia. csimpl. rewrite El. split.
    + assert (take n l = [] → drop n l = l) as Hd by (destruct n, l; simpl; done || congruence). rewrite Hd by done.
      clear -Hxy. induction l as [|y l IH]; [done|]. rewrite filter_cons_True.
      * f_equal. apply IH. intros z Hz. apply Hxy. by right.
      * pose proof (Hxy y ltac:(left)). lia.
    + constructor; [lia|constructor].
Qed.

Lemma watermark_set name seq now s :
  watermark name (set_db (set_audit_forward_state (<[name := mkForwardRow seq (UnixNano now)]> (audit_forward_state (db s))) (db s)) s) = seq.
Proof. unfold watermark. simpl. by rewrite lookup_insert_eq. Qed.

Lemma tick_ok cfg now s f q s' f' q' :
  pump_ok s f → tick cfg now ((s, f), q) = ((s', f'), q') → pump_ok s' f' ∧ fwd_Name f' = fwd_Name f.
Proof.
  intros [Hok Hm Hr] [[-> ->]|(ok & lst & Hl & Hf & Hs)]%tick_cases; [by split|].
  destruct (Forward_spec (scan_event <$> take (batch cfg) (pending (fwd_Name f) s)) f) as (Hn & Hack & Hpre).
  rewrite Hf in Hn, Hack, Hpre. simpl in *. split; [|done].
  assert (∀ e, e ∈ received f → e ∈ received f') as Hkeep.
  { destruct Hpre as [l ->]. intros e He. apply elem_of_app. by left. }
  destruct Hs as [->|[-> ->]].
  - split; rewrite ?Hn; auto.
  - destruct (above_batch _ _ _ (pending_sorted (fwd_Name f) s Hok) Hl) as [Hab _].
    assert (lst ∈ pending (fwd_Name f) s) as [_ Hlst]%list_elem_of_filter.
    { apply last_Some in Hl as [l' Hl]. rewrite <-(take_drop (batch cfg) (pending _ _)), Hl. set_solver. }
    split; rewrite ?Hn, ?watermark_set.
    + by apply audit_ok_same.
    + simpl. pose proof (ai_seqs _ _ (as_inv _ Hok)) as Hq. eapply Forall_forall in Hq; [|exact Hlst]. lia.
    + simpl. intros r Hin Hle. rewrite (Hack eq_refl), elem_of_app.
      destruct (decide (ar_seq r <= watermark (fwd_Name f) s)%Z) as [?|Hgt]; [left; auto|right].
      apply list_elem_of_fmap_2.
      assert (r ∈ pending (fwd_Name f) s) as Hp by (apply list_elem_of_filter; split; [lia|done]).
      rewrite <-(take_drop (batch cfg) (pending _ _)), elem_of_app in Hp. destruct Hp as [?|Hd]; [done|].
      rewrite <-Hab in Hd. apply list_elem_of_filter in Hd as [? _]. lia.
Qed.

Lemma append_pump_ok now ev s f q r s' q' :
  pump_ok s f → AppendAudit now ev (s, q) = (r, (s', q')) → pump_ok s' f.
Proof.
  intros [Hok Hm Hr] (Hok' & _ & [[_ (n & Hn & Hdb)]|(ev' & -> & Hdb & Hlog & _)])%AppendAudit_cases; [..|done].
  - split; unfold watermark in *; rewrite ?Hdb; simpl; [done|lia|done].
  - assert (watermark (fwd_Name f) s' = watermark (fwd_Name f) s) as Hw.
    { unfold watermark. rewrite Hdb. unfold appended_db, record_epoch. by case_decide. }
    assert (audit_seq (db s') = audit_seq (db s) + 1)%Z as Hs.
    { rewrite Hdb. unfold appended_db. by rewrite (proj2 (record_epoch_log _ _ _ _)). }
    split; rewrite ?Hw, ?Hs; [done|lia|]. rewrite Hlog. intros x [?|Hx]%elem_of_app; [auto|].
    apply list_elem_of_singleton in Hx as ->. simpl. lia.
Qed.

(** A history of the store and the sink: appends and ticks, in any order,
    each with its own faults. *)
Inductive pump_event := PAppend (now : Z) (ev : AuditEvent) (q : faults) | PTick (now : Z) (q : faults).

Definition pump_step (cfg : PumpConfig) (w : Store * F) (e : pump_event) : Store * F :=
  match e with
  | PAppend now ev q => ((AppendAudit now ev (w.1, q)).2.1, w.2)
  | PTick now q => (tick cfg now (w, q)).1
  end.


(** ** Everything is delivered *)

(** The sink acknowledges every batch. *)
Definition sink_up : Prop := ∀ evs f, (Forward (F:=F) evs f).1 = true.

Lemma tick_run cfg now s f :
  sink_up → audit_ok s → IsLeader s = true → fwd_Name f ≠ "" →
  ∃ s' f', tick cfg now ((s, f), []) = ((s', f'), []) ∧
    fwd_Name f' = fwd_Name f ∧ audit_ok s' ∧ IsLeader s' = true ∧ audit_log (db s') = audit_log (db s) ∧
    received f' = received f ++ (scan_event <$> take (batch cfg) (pending (fwd_Name f) s)) ∧
    pending (fwd_Name f) s' = drop (batch cfg) (pending (fwd_Name f) s).
Proof.
  intros Hup Hok Hl Hne. unfold tick. rewrite Hl.
  assert (AuditForwardSeq (fwd_Name f) (s, []) = (Ok (watermark (fwd_Name f) s), (s, []))) as ->.
  { unfold AuditForwardSeq. by rewrite decide_False. }
  rewrite ListAudit_run, fmap_last. fold (pending (fwd_Name f) s).
  destruct (last (take _ _)) as [lst|] eqn:El; simpl.
  - destruct (Forward_spec (scan_event <$> take (batch cfg) (pending (fwd_Name f) s)) f) as (Hn & Hack & _).
    specialize (Hack (Hup _ _)). pose proof (Hup (scan_event <$> take (batch cfg) (pending (fwd_Name f) s)) f) as Hok1.
    destruct (Forward _ f) as [ok f1]. simpl in *. subst ok.
    destruct (above_batch _ _ _ (pending_sorted (fwd_Name f) s Hok) El) as [Hab _].
    assert (lst ∈ pending (fwd_Name f) s) as [Hgt Hlst]%list_elem_of_filter.
    { apply last_Some in El as [l' El]. rewrite <-(take_drop (batch cfg) (pending _ _)), El. set_solver. }
    pose proof (ai_seqs _ _ (as_inv _ Hok)) as Hq. eapply Forall_forall in Hq; [|exact Hlst].
    unfold SetAuditForwardSeq. rewrite decide_False by done. rewrite decide_False by lia. simpl.
    do 2 eexists. split_and!; [done|done|by apply audit_ok_same|done|done|done|].
    rewrite <-Hab. unfold pending at 1. rewrite watermark_set. simpl. unfold pending.
    rewrite list_filter_filter. apply list_filter_iff. intros x. lia.
  - exists s, f. apply last_None in El. assert (pending (fwd_Name f) s = []) as Hp.
    { pose proof (batch_pos cfg). destruct (pending _ _), (batch cfg); [done..|lia|done]. }
    rewrite Hp, take_nil, drop_nil, app_nil_r. done.
Qed.

(** While the sink is up and the store answers, the pump delivers
    everything, each row once and in order: after [n] ticks the sink has
    received the first [n] batches of the rows above the watermark, so
    enough ticks leave nothing pending. *)
Theorem all_delivered cfg nows s f :
  sink_up → audit_ok s → IsLeader s = true → fwd_Name f ≠ "" →
  let todo := pending (fwd_Name f) s in
  let n := length nows * batch cfg in
  ∃ s' f', ticks cfg nows ((s, f), []) = ((s', f'), []) ∧
    received f' = received f ++ (scan_event <$> take n todo) ∧
    pending (fwd_Name f) s' = drop n todo ∧
    (length todo ≤ length nows → received f' = received f ++ (scan_event <$> todo) ∧ pending (fwd_Name f) s' = []).
Proof.
  intros Hup Hok Hl Hne todo n.
  assert (∃ s' f', ticks cfg nows ((s, f), []) = ((s', f'), []) ∧
    received f' = received f ++ (scan_event <$> take n todo) ∧ pending (fwd_Name f) s' = drop n todo)
    as (s' & f' & Hrun & Hrec & Hpend).
  { subst todo n. revert s f Hok Hl Hne. induction nows as [|now nows IH]; intros s f Hok Hl Hne.
    - exists s, f. simpl. by rewrite app_nil_r.
    - destruct (tick_run cfg now s f) as (s1 & f1 & Ht & Hn & Hok1 & Hl1 & _ & Hr1 & Hp1); [done..|].
      destruct (IH s1 f1) as (s2 & f2 & Hts & Hr2 & Hp2); [done|done|by rewrite Hn|].
      exists s2, f2. cbn [ticks]. rewrite Ht. split; [done|]. rewrite Hn, Hp1 in Hr2, Hp2.
      rewrite Hp2, Hr2, Hr1, drop_drop. split; [|done].
      by rewrite <-app_assoc, <-fmap_app, take_take_drop. }
  exists s', f'. split_and!; [done|done|done|]. intros Hlen.
  assert (length todo ≤ n) by (pose proof (batch_pos cfg); unfold n; nia).
  rewrite Hrec, Hpend, take_ge, drop_ge by done. done.
Qed.
End pump.

(** ** Witnesses *)

(** What becomes of a batch: acknowledged, received although the
    acknowledgement was lost, or not received. *)
Inductive delivery := Acked | AckLost | NotSent.

(** A sink whose link to the pump follows a plan, and is up after it. *)
Record planned_sink := mkSink {
  sink_name : string;
  sink_events : list AuditEvent;
  sink_plan : list delivery;
}.

#[global] Program Instance planned_forwarder : Forwarder planned_sink := {|
  fwd_Name := sink_name;
  received := sink_events;
  Forward evs f :=
    match sink_plan f with
    | [] | Acked :: _ => (true, mkSink (sink_name f) (sink_events f ++ evs) (tail (sink_plan f)))
    | AckLost :: p => (false, mkSink (sink_name f) (sink_events f ++ evs) p)
    | NotSent :: p => (false, mkSink (sink_name f) (sink_events f) p)
    end |}.
Next Obligation.
  intros evs [n l [|[] p]]; simpl; split_and!; try done; by apply prefix_app_r.
Qed.

(** A sink that is always up. *)
Record plain_sink := mkPlain { plain_events : list AuditEvent }.

#[global] Program Instance plain_forwarder : Forwarder plain_sink := {|
  fwd_Name _ := "webhook";
  received := plain_events;
  Forward evs f := (true, mkPlain (plain_events f ++ evs)) |}.
Next Obligation. intros evs f. split_and!; [done|done|]. by apply prefix_app_r. Qed.

Definition pump_cfg : PumpConfig := NewPump (mkPumpConfig 1 0).
Definition pump_store : Store := UseAuditKeyring None (new_store driverSQLite).
Definition login (who : string) : AuditEvent := new_event "login" who "" "ok" None.

Lemma pump_store_ok : audit_ok pump_store.
Proof. split; [split|..]; simpl; try done; constructor. Qed.

Definition busy : list pump_event :=
  [PAppend 1 (login "a") []; PTick 2 []; PAppend 3 (login "b") []; PTick 4 [None; None; Some (Lost "reset")]; PTick 5 []].


Definition backlog : Store :=
  (AppendAudit 2 (login "b") ((AppendAudit 1 (login "a") (pump_store, [])).2.1, [])).2.1.

Lemma backlog_ok : audit_ok backlog.
Proof.
  unfold backlog. destruct (AppendAudit 1 (login "a") (pump_store, [])) as [r1 [s1 q1]] eqn:E1.
  apply AppendAudit_cases in E1 as [Hok1 _]; [|apply pump_store_ok]. simpl.
  destruct (AppendAudit 2 (login "b") (s1, [])) as [r2 [s2 q2]] eqn:E2.
  by apply AppendAudit_cases in E2 as [Hok2 _].
Qed.

Lemma all_delivered_witness :
  ∃ s' f', ticks pump_cfg [10; 20]%Z ((backlog, mkPlain []), []) = ((s', f'), []) ∧
    length (received f') = 2 ∧ pending "webhook" s' = [].
Proof.
  destruct (all_delivered (F:=plain_sink) pump_cfg [10; 20]%Z backlog (mkPlain [])) as (s' & f' & Hrun & _ & _ & Hall).
  - intros evs f. reflexivity.
  - exact backlog_ok.
  - reflexivity.
  - discriminate.
  - destruct Hall as [Hrec Hpend]; [vm_compute; lia|]. exists s', f'. split; [exact Hrun|]. split; [|exact Hpend].
    rewrite Hrec. vm_compute. reflexivity.
Defined.
