(* ===== verification/Policies.v ===== *)
(** * Policies

    Stored Cedar policies (internal/server/storage/policies.go): a change
    and its audit row commit together, and the audit chain says which text
    each policy should have. The second half models how the policy API
    (internal/server/api/policies.go) builds its changes and checks the
    table against the chain. *)
From S2P Require Import Prelude Crypto Json JsonParse AuditKeyring Store AuditChain.

Definition policyIDPattern : string → bool := name_match.

Definition ValidatePolicyID (id : string) : option error :=
  if decide (63 < String.length id ∨ policyIDPattern id = false)
  then Some (ErrInvalid "policy id" id) else None.

Record Policy := mkPolicy {
  pID : string;
  pText : string;
  pVersion : Z;
  pDigest : string;
  pCreatedBy : string;
  pCreatedAt : Z;
  pUpdatedBy : string;
  pUpdatedAt : Z;
}.

(** [p.ETag()]. *)
Definition policy_ETag (p : Policy) : string :=
  String quote (pretty (pVersion p) +:+ "-" +:+ pDigest p +:+ String quote "").

Definition PolicyDigest (text : string) : string := sha256_hex text.

(** A row as it is read: the digest is computed from the text. *)
Definition scanPolicy (id : string) (r : policy_row) : Policy :=
  mkPolicy id (pr_text r) (pr_version r) (PolicyDigest (pr_text r)) (pr_created_by r)
    (UnixTime (pr_created_at r)) (pr_updated_by r) (UnixTime (pr_updated_at r)).

(** [SELECT ... FROM policies ORDER BY id]. *)
Definition policy_rows (d : DB) : list (string * policy_row) :=
  merge_sort (λ a b, String.le a.1 b.1) (map_to_list (policies d)).

Definition policy_list (d : DB) : list Policy := (λ r, scanPolicy r.1 r.2) <$> policy_rows d.

Definition ListPolicies : M (list Policy) := on_db "query policies" policy_list.

Definition GetPolicy (id : string) : M Policy :=
  row ← on_db "query policy" (λ d, policies d !! id);
  match row with
  | Some r => mret (scanPolicy id r)
  | None => throw ErrNotFound
  end.

(** ** Changing a policy *)

(** Decides a write from the row as it is: the row to write ([None]
    deletes it) and the event that records it. *)
Definition PolicyChange : Type := option Policy → result error (option Policy * AuditEvent).

Definition insert_policy (id : string) (now : Z) (next : Policy) : Tx (option Policy) :=
  let w := mkPolicy id (pText next) 1 (PolicyDigest (pText next)) (pUpdatedBy next) now (pUpdatedBy next) now in
  insert_row "insert policy" (λ d, bool_decide (is_Some (policies d !! id))) ErrAlreadyExists
    (λ d, set_policies (<[id := mkPolicyRow (pText w) (pVersion w) (pCreatedBy w) (UnixNano (pCreatedAt w))
                                   (pUpdatedBy w) (UnixNano (pUpdatedAt w))]> (policies d)) d) ;;
  mret (Some w).

(** [UPDATE policies SET text, version, updated_by, updated_at]. *)
Definition update_policy (id : string) (now : Z) (cur next : Policy) : Tx (option Policy) :=
  let w := mkPolicy (pID cur) (pText next) (wrap64 (pVersion cur + 1)) (PolicyDigest (pText next))
             (pCreatedBy cur) (pCreatedAt cur) (pUpdatedBy next) now in
  exec "update policy" (λ d, set_policies
    (alter (λ r, mkPolicyRow (pText w) (pVersion w) (pr_created_by r) (pr_created_at r)
                   (pUpdatedBy w) (UnixNano (pUpdatedAt w))) id (policies d)) d) ;;
  mret (Some w).

(** [now] is the time of the row, [now'] that of the event. *)
Definition change_policy_tx (kr : option AuditKeyring) (epoch_recorded : bool) (now now' : Z) (id : string)
    (change : PolicyChange) : Tx (tx_end (option Policy * AuditEvent)) :=
  row ← query "query policy" (λ d, policies d !! id);
  let cur := scanPolicy id <$> row in
  match change cur with
  | Err e => throw e
  | Ok (next, ev) =>
      if decide (Kind ev = "") then throw (ErrMsg "policy change: audit kind is required")
      else
        written ← match next, cur with
                  | None, None => throw ErrNotFound
                  | None, Some _ =>
                      exec "delete policy" (λ d, set_policies (delete id (policies d)) d) ;; mret None
                  | Some p, None => insert_policy id now p
                  | Some p, Some c => update_policy id now c p
                  end;
        ev' ← appendAuditTx kr epoch_recorded now' ev;
        mret (Commit (written, ev'))
  end.

Definition ChangePolicy (now now' : Z) (id : string) (change : PolicyChange) : M (option Policy * AuditEvent) :=
  leader_only (
    s ← gets (λ s, s);
    r ← with_tx "begin" "commit" (change_policy_tx (auditKeyring s) (keyedEpochRecorded s) now now' id change);
    auditCommitted ;;
    mret r).

(** ** What the chain says *)

(** One row's own MAC, as [VerifyAudit] checks it: [true] when it passes. *)
Definition checkAuditRowMAC (ev : AuditEvent) (ks : keyset) (epoch : option Z) : bool :=
  if isUnkeyed ev then
    match epoch with Some keyedFrom => negb (bool_decide (keyedFrom <= Seq ev)%Z) | None => true end
  else
    match ks !! KeyID ev with
    | None => false
    | Some key => bool_decide (hex_decode (Hash ev) = Some (macAuditEvent ev key))
    end.

(** The rows the query selects. *)
Definition is_policy_row (r : audit_row) : Prop :=
  (ar_kind r = "policy.create" ∨ ar_kind r = "policy.update" ∨ ar_kind r = "policy.delete") ∧ ar_decision r = "ok".

#[global] Instance is_policy_row_dec r : Decision (is_policy_row r).
Proof. unfold is_policy_row. apply _. Defined.

(** The loop over them. *)
Fixpoint fold_digests (ks : option keyset) (epoch : option Z) (evs : list AuditEvent) (out : gmap string string)
    : result error (gmap string string) :=
  match evs with
  | [] => Ok out
  | ev :: evs' =>
      if match ks with Some ks => checkAuditRowMAC ev ks epoch | None => true end then
        match unmarshal_string_field "new_digest" (default "" (Payload ev)) with
        | Some d => fold_digests ks epoch evs' (<[Subject ev := d]> out)
        | None => Err (ErrAuditRowUnverified (Seq ev))
        end
      else Err (ErrAuditRowUnverified (Seq ev))
  end.

Definition PolicyAuditDigests : M (gmap string string) :=
  kr ← gets auditKeyring;
  epoch ← match kr with Some _ => auditKeyedFromSeq | None => mret None end;
  rows ← on_db "query policy audit" (λ d, scan_event <$> filter is_policy_row (audit_log d));
  match fold_digests (Snapshot <$> kr) epoch rows ∅ with
  | Ok m => mret m
  | Err e => throw e
  end.

(** ** Reading the table and the chain together *)

(** Reads of a store that others write to: the state is the store at the
    moment of the next read, and the stores at the reads after it. *)
Definition at_next {A} (m : M A) : GoM (Store * list Store) A := λ '((s, later), q),
  let '(r, (_, q')) := m (s, q) in
  (r, (match later with [] => (s, []) | s' :: l => (s', l) end, q')).

Fixpoint policy_set_loop (n : nat) (before : gmap string string)
    : GoM (Store * list Store) (list Policy * gmap string string) :=
  match n with
  | 0 => throw (ErrMsg "stored policies kept changing while being read; retrying on the next sync")
  | S n' =>
      items ← at_next ListPolicies;
      after ← at_next PolicyAuditDigests;
      if decide (before = after) then mret (items, after) else policy_set_loop n' after
  end.

Definition PolicySet : GoM (Store * list Store) (list Policy * gmap string string) :=
  before ← at_next PolicyAuditDigests;
  policy_set_loop 3 before.

(** ** The policy API *)

(** [matchAuditChain]: [None] when the table is what the chain recorded. *)
Definition matchAuditChain (items : list Policy) (recorded : gmap string string) : option error :=
  match filter (λ p, default "" (recorded !! pID p) ≠ pDigest p) items with
  | p :: _ => Some (ErrInvalid "digest of policy" (pID p))
  | [] =>
      match filter (λ kv, kv.2 ≠ "" ∧ kv.1 ∉ pID <$> items) (map_to_list recorded) with
      | kv :: _ => Some (ErrInvalid "policy missing from the database" kv.1)
      | [] => None
      end
  end.

(** [ifMatch]: one tag of the comma separated list is "*" or the ETag. *)
Definition ifMatch (header etag : string) : bool :=
  bool_decide (Exists (λ tag, TrimSpace tag = "*" ∨ TrimSpace tag = etag) (split_byte "," header)).

(** Who makes the request: the caller, and the user interface proxy it came
    through ("" without one). *)
Record requester := mkRequester {
  rq_caller : string;
  rq_via : string;
}.

Definition withVia (rq : requester) (payload : gmap string json) : gmap string json :=
  if decide (rq_via rq ≠ "") then <["via" := JStr (rq_via rq)]> payload else payload.

Definition policy_payload (rq : requester) (kind id : string) (cur : option Policy) (text : string) (version : Z)
    (cedarIDs : list string) : gmap string json :=
  let payload : gmap string json := <["id" := JStr id]> (<["version" := JInt version]>
    (<["old_digest" := JStr (default "" (pDigest <$> cur))]> (<["new_digest" := JStr ""]> ∅))) in
  let payload :=
    if decide (kind ≠ "policy.delete")
    then <["new_digest" := JStr (PolicyDigest text)]> (<["cedar_ids" := JArr (JStr <$> cedarIDs)]> payload)
    else payload in
  withVia rq payload.

Definition policyEvent (rq : requester) (kind id : string) (cur : option Policy) (text : string) (version : Z)
    (cedarIDs : list string) : AuditEvent :=
  new_event kind (rq_caller rq) id "ok"
    (Some (json_print (JMap (policy_payload rq kind id cur text version cedarIDs)))).

(** The changes of the three write handlers. *)
Definition create_change (rq : requester) (id text : string) (ids : list string) : PolicyChange := λ cur,
  match cur with
  | Some _ => Err ErrAlreadyExists
  | None => Ok (Some (mkPolicy "" text 0 "" "" zero_time (rq_caller rq) zero_time),
                policyEvent rq "policy.create" id None text 1 ids)
  end.

Definition errPreconditionFailed : error := ErrMsg "If-Match does not match".

Definition update_change (rq : requester) (id match_ text : string) (ids : list string) : PolicyChange := λ cur,
  match cur with
  | None => Err ErrNotFound
  | Some c =>
      if ifMatch match_ (policy_ETag c) then
        Ok (Some (mkPolicy "" text 0 "" "" zero_time (rq_caller rq) zero_time),
            policyEvent rq "policy.update" id cur text (wrap64 (pVersion c + 1)) ids)
      else Err errPreconditionFailed
  end.

Definition delete_change (rq : requester) (id match_ : string) : PolicyChange := λ cur,
  match cur with
  | None => Err ErrNotFound
  | Some c =>
      if ifMatch match_ (policy_ETag c) then
        Ok (None, policyEvent rq "policy.delete" id cur "" (pVersion c) [])
      else Err errPreconditionFailed
  end.

(** ** Reading an event's digest *)

Lemma JMap_Forall (P : json → Prop) (m : gmap string json) :
  map_Forall (λ _ v, P v) m →
  Forall (λ kv, P kv.2) (merge_sort (λ a b : string * json, String.le a.1 b.1) (map_to_list m)).
Proof.
  intros H. rewrite merge_sort_Permutation. apply Forall_forall.
  intros [k v] Hin%elem_of_map_to_list. by eapply H.
Qed.

(** A list without two entries under one key, of which only [name] passes
    the filter, is filtered to that entry. *)
Lemma filter_unique {A} (P : string * A → Prop) `{!∀ x, Decision (P x)} l name v :
  NoDup l.*1 → (name, v) ∈ l → P (name, v) → (∀ k x, (k, x) ∈ l → P (k, x) → k = name) →
  filter P l = [(name, v)].
Proof.
  induction l as [|[k x] l IH]; intros Hnd Hin HP Huniq; [by apply not_elem_of_nil in Hin|].
  csimpl in Hnd. apply NoDup_cons in Hnd as [Hk Hnd]. rewrite filter_cons.
  apply elem_of_cons in Hin as [[= <- <-]|Hin].
  - rewrite decide_True by done. f_equal. clear IH.
    assert (∀ k x, (k, x) ∈ l → ¬ P (k, x)) as Hno.
    { intros k x Hkx HPx. assert (k = name) as -> by (eapply Huniq; [by right|done]).
      apply Hk. apply list_elem_of_fmap. by exists (name, x). }
    clear -Hno. induction l as [|[k x] l IH]; [done|].
    rewrite filter_cons_False by (apply Hno; left). apply IH. intros ?? ?. apply Hno. by right.
  - rewrite decide_False.
    + apply IH; [done|done|done|]. intros ?? ?. apply Huniq. by right.
    + intros HPx. assert (k = name) as -> by (eapply Huniq; [by left|done]).
      apply Hk. apply list_elem_of_fmap. by exists (name, v).
Qed.

Lemma unmarshal_JMap (m : gmap string json) name s :
  map_Forall (λ _ v, json_wf v ∧ (json_depth v <= 1)%N) m →
  map_Forall (λ k _, to_valid_utf8 k = k ∧ (fold_name k = fold_name name → k = name)) m →
  m !! name = Some (JStr s) → to_valid_utf8 s = s →
  unmarshal_string_field name (json_print (JMap m)) = Some s.
Proof.
  intros Hwf Hk Hm Hs. unfold unmarshal_string_field, JMap. set (l := merge_sort _ _).
  assert (l ≡ₚ map_to_list m) as Hl by apply merge_sort_Permutation.
  assert (Forall (λ kv, json_wf kv.2 ∧ (json_depth kv.2 <= 1)%N) l) as Hlwf
    by (apply (JMap_Forall (λ v, json_wf v ∧ (json_depth v <= 1)%N)); exact Hwf).
  rewrite parse_print; [|apply wf_obj; eapply Forall_impl; [exact Hlwf|naive_solver]|].
  2:{ etrans; [apply (json_depth_obj l 1); eapply Forall_impl; [exact Hlwf|naive_solver]|]. unfold maxNestingDepth. lia. }
  cbn [json_norm mbind option_bind fields_named]. 
  assert (filter (λ kv, fold_name kv.1 = fold_name name) (map (λ kv, (to_valid_utf8 kv.1, json_norm kv.2)) l)
    = [(name, JStr s)]) as Hf.
  { assert (∀ k v, (k, v) ∈ map (λ kv, (to_valid_utf8 kv.1, json_norm kv.2)) l → ∃ v', m !! k = Some v' ∧ v = json_norm v') as Hin.
    { intros k v ([k' v'] & [= -> ->] & Hkv)%list_elem_of_fmap. rewrite Hl in Hkv. apply elem_of_map_to_list in Hkv.
      destruct (Hk _ _ Hkv) as [-> _]. eauto. }
    apply filter_unique.
    - assert ((map (λ kv, (to_valid_utf8 kv.1, json_norm kv.2)) l).*1 = l.*1) as ->; [|rewrite Hl; apply NoDup_fst_map_to_list].
      assert (Forall (λ kv, to_valid_utf8 kv.1 = kv.1) l) as Hv.
      { rewrite Hl. apply Forall_forall. intros [k v] Hkv%elem_of_map_to_list. by destruct (Hk _ _ Hkv). }
      clear -Hv. induction Hv as [|kv l Hv _ IH]; [done|]. csimpl. by rewrite Hv, IH.
    - apply list_elem_of_fmap. exists (name, JStr s). split; [simpl; rewrite Hs; by destruct (Hk _ _ Hm) as [-> _]|].
      rewrite Hl. by apply elem_of_map_to_list.
    - done.
    - intros k v (v' & Hkv & _)%Hin. simpl. by destruct (Hk _ _ Hkv). }
  rewrite Hf. done.
Qed.

Lemma to_valid_ascii s : string_forallb (byte_in 0 127) s = true → to_valid_utf8 s = s.
Proof.
  induction s as [|a s IH]; [done|]. cbn [string_forallb]. rewrite andb_true_iff. intros [Ha Hs].
  cbn [to_valid_utf8]. by rewrite Ha, IH.
Qed.

Lemma to_valid_digest text : to_valid_utf8 (PolicyDigest text) = PolicyDigest text.
Proof.
  apply to_valid_ascii. eapply string_forallb_impl; [|apply hex_encode_lower].
  intros a. destruct a as [[][][][][][][][]]; vm_compute; congruence.
Qed.

Lemma PolicyDigest_ne text : PolicyDigest text ≠ "".
Proof.
  intros H. apply (f_equal String.length) in H. unfold PolicyDigest, sha256_hex in H.
  by rewrite hex_encode_length, sha256_length in H.
Qed.

(** What an event of a write handler says the policy's digest is. *)
Lemma policyEvent_digest rq kind id cur text version ids :
  unmarshal_string_field "new_digest" (default "" (Payload (policyEvent rq kind id cur text version ids))) =
  Some (if decide (kind ≠ "policy.delete") then PolicyDigest text else "").
Proof.
  unfold policyEvent, policy_payload.
  change (default "" (Payload (new_event kind (rq_caller rq) id "ok" (Some ?x)))) with x.
  apply unmarshal_JMap.
  - assert (json_wf (JArr (JStr <$> ids)) ∧ (json_depth (JArr (JStr <$> ids)) <= 1)%N) as Hids.
    { split; [induction ids; simpl in *; auto|]. cbn [json_depth].
      enough (foldr N.max 0 (map json_depth (JStr <$> ids)) = 0)%N by lia.
      induction ids as [|i ids IH]; [done|]. rewrite fmap_cons. cbn [map foldr json_depth]. by rewrite IH. }
    assert (json_wf (JInt version) ∧ (json_depth (JInt version) <= 1)%N) by (split; [apply num_ok_pretty|done]).
    unfold withVia. repeat case_decide; repeat (apply map_Forall_insert_2; [done|]); apply map_Forall_empty.
  - unfold withVia. repeat case_decide; repeat (apply map_Forall_insert_2; [by split|]); apply map_Forall_empty.
  - unfold withVia. repeat case_decide; rewrite ?(lookup_insert_ne _ "via") by done; by simplify_map_eq.
  - case_decide; [apply to_valid_digest|done].
Qed.

(** ** The table and the chain agree *)

(** The digest a policy row records for its subject. *)
Definition row_digest (r : audit_row) : option string := unmarshal_string_field "new_digest" (ar_payload r).

(** What the rows record last for each policy. *)
Definition chain_digests (rows : list audit_row) : gmap string string :=
  foldl (λ m r, <[ar_subject r := default "" (row_digest r)]> m) ∅ (filter is_policy_row rows).

(** The digest the table has for a policy; "" when it has none. *)
Definition table_digest (d : DB) (id : string) : string :=
  default "" (PolicyDigest ∘ pr_text <$> policies d !! id).

Record policy_inv (d : DB) : Prop := {
  pi_parse : Forall (λ r, is_policy_row r → is_Some (row_digest r)) (audit_log d);
  pi_agree : ∀ id, default "" (chain_digests (audit_log d) !! id) = table_digest d id;
}.

#[global] Instance policy_inv_stable : SeqStable policy_inv.
Proof. intros d n [] _. by split. Qed.

Lemma chain_digests_snoc rows r :
  chain_digests (rows ++ [r]) =
  if decide (is_policy_row r) then <[ar_subject r := default "" (row_digest r)]> (chain_digests rows)
  else chain_digests rows.
Proof.
  unfold chain_digests. rewrite filter_app, foldl_app, filter_cons, filter_nil. by case_decide.
Qed.

(** A row that is not about policies keeps the agreement. *)
Lemma policy_inv_other d d' r :
  policy_inv d → audit_log d' = audit_log d ++ [r] → policies d' = policies d → ¬ is_policy_row r → policy_inv d'.
Proof.
  intros [Hp Ha] Hl Ht Hr. split; rewrite ?Hl.
  - apply Forall_app. split; [done|]. by apply Forall_singleton.
  - intros id. rewrite chain_digests_snoc, decide_False by done. unfold table_digest. by rewrite Ht.
Qed.

(** A row that records what the table now holds keeps it. *)
Lemma policy_inv_change d d' r id :
  policy_inv d → audit_log d' = audit_log d ++ [r] → is_policy_row r → ar_subject r = id →
  row_digest r = Some (table_digest d' id) → (∀ id', id' ≠ id → policies d' !! id' = policies d !! id') →
  policy_inv d'.
Proof.
  intros [Hp Ha] Hl Hr Hid Hdg Hother. split; rewrite ?Hl.
  - apply Forall_app. split; [done|]. apply Forall_singleton. intros _. by rewrite Hdg.
  - intros id'. rewrite chain_digests_snoc, decide_True, Hid, Hdg by done.
    destruct (decide (id' = id)) as [->|Hne]; [by rewrite lookup_insert_eq|].
    rewrite lookup_insert_ne by done. rewrite Ha. unfold table_digest. by rewrite Hother.
Qed.

(** A change whose event is a policy event for [id] that records the text
    the change leaves. *)
Definition records_change (id : string) (change : PolicyChange) : Prop :=
  ∀ cur next ev, change cur = Ok (next, ev) →
  (Kind ev = "policy.create" ∨ Kind ev = "policy.update" ∨ Kind ev = "policy.delete") ∧
  evDecision ev = "ok" ∧ Subject ev = id ∧ is_Some (Payload ev) ∧
  unmarshal_string_field "new_digest" (default "" (Payload ev)) =
    Some (default "" (PolicyDigest ∘ pText <$> next)).

(** The handlers' changes are such. *)
Lemma create_change_records rq id text ids : records_change id (create_change rq id text ids).
Proof.
  intros [c|] next ev; [done|]. intros [= <- <-]. split_and!; [by left|done|done|by eexists|].
  apply policyEvent_digest.
Qed.

Lemma update_change_records rq id m text ids : records_change id (update_change rq id m text ids).
Proof.
  intros [c|] next ev; [|done]. unfold update_change. destruct (ifMatch _ _); [|done].
  intros [= <- <-]. split_and!; [by right; left|done|done|by eexists|]. apply policyEvent_digest.
Qed.

Lemma delete_change_records rq id m : records_change id (delete_change rq id m).
Proof.
  intros [c|] next ev; [|done]. unfold delete_change. destruct (ifMatch _ _); [|done].
  intros [= <- <-]. split_and!; [by right; right|done|done|by eexists|]. apply policyEvent_digest.
Qed.

(** What the statements before the append leave in the table. *)
Definition changed_policies (id : string) (now : Z) (next : option Policy) (m : gmap string policy_row) : gmap string policy_row :=
  match next, m !! id with
  | None, _ => delete id m
  | Some p, None => <[id := mkPolicyRow (pText p) 1 (pUpdatedBy p) (UnixNano now) (pUpdatedBy p) (UnixNano now)]> m
  | Some p, Some r =>
      <[id := mkPolicyRow (pText p) (wrap64 (pr_version r + 1)) (pr_created_by r) (pr_created_at r) (pUpdatedBy p) (UnixNano now)]> m
  end.

(** The policy a change returns. *)
Definition changed_policy (id : string) (now : Z) (next : option Policy) (m : gmap string policy_row) : option Policy :=
  match next, m !! id with
  | None, _ => None
  | Some p, None => Some (mkPolicy id (pText p) 1 (PolicyDigest (pText p)) (pUpdatedBy p) now (pUpdatedBy p) now)
  | Some p, Some r =>
      Some (mkPolicy id (pText p) (wrap64 (pr_version r + 1)) (PolicyDigest (pText p))
              (pr_created_by r) (UnixTime (pr_created_at r)) (pUpdatedBy p) now)
  end.

Lemma change_policy_tx_Ok kr er now now' id change d q a d' q' :
  change_policy_tx kr er now now' id change (d, q) = (Ok a, (d', q')) →
  ∃ next ev ev' w w', change (scanPolicy id <$> policies d !! id) = Ok (next, ev) ∧ Kind ev ≠ "" ∧
    (next = None → is_Some (policies d !! id)) ∧
    a = Commit (changed_policy id now next (policies d), ev') ∧
    appendAuditTx kr er now' ev (set_policies (changed_policies id now next (policies d)) d, w) = (Ok ev', (d', w')).
Proof.
  intros H. unfold change_policy_tx in H.
  apply bind_Ok in H as (row & [d1 q1] & Hq & H). run_split Hq. cbv zeta in H.
  destruct (change _) as [[next ev]|e] eqn:Hch; [|by apply throw_Ok in H].
  case_decide as Hk; [by apply throw_Ok in H|].
  apply bind_Ok in H as (wr & [d2 q2] & Hw & H).
  apply bind_Ok in H as (ev' & [d3 q3] & Ha & [<- [= <- <-]]%ret_Ok).
  exists next, ev, ev', q2, q3. split; [done|]. split; [done|].
  destruct next as [p|], (policies d !! id) as [r|] eqn:Hr; simpl in Hw.
  - unfold update_policy in Hw. run_split Hw. unfold changed_policies, changed_policy. rewrite Hr.
    split; [done|]. split; [done|]. rewrite <-Ha. do 3 f_equal.
    apply map_eq. intros k. destruct (decide (k = id)) as [->|?].
    + by rewrite lookup_insert_eq, lookup_alter_eq, Hr.
    + by rewrite lookup_insert_ne, lookup_alter_ne.
  - unfold insert_policy in Hw. run_split Hw. unfold changed_policies, changed_policy. rewrite Hr. done.
  - run_split Hw. done.
  - by apply throw_Ok in Hw.
Qed.

Lemma appended_db_policies kr er now ev d : policies (appended_db kr er now ev d) = policies d.
Proof. unfold appended_db, record_epoch. by repeat case_match. Qed.

(** A policy change rolls back, or commits the new row with its event. *)
Lemma ChangePolicy_cases now now' id change s q r s' q' :
  audit_ok s → ChangePolicy now now' id change (s, q) = (r, (s', q')) →
  audit_ok s' ∧ auditKeyring s' = auditKeyring s ∧
  ((is_ok r = false ∧ rolled_back (db s) (db s')) ∨
   (∃ next ev ev', change (scanPolicy id <$> policies (db s) !! id) = Ok (next, ev) ∧
      ev' = appended_event (auditKeyring s) now' ev (db s) ∧
      policies (db s') = changed_policies id now next (policies (db s)) ∧
      audit_log (db s') = audit_log (db s) ++ [event_row ev'] ∧
      (r = Ok (changed_policy id now next (policies (db s)), ev') ∨ ∃ what msg, r = Err (ErrIO what msg)))).
Proof.
  intros Hok H. pose proof (rolled_back_refl (db s)).
  apply leader_only_cases in H as [[_ [= -> -> ->]]|[_ H]]; [by auto|].
  erewrite bind_run in H by done.
  apply bind_cases in H as [(a & [s1 q1] & Htx & H)|(e & [s1 q1] & Htx & [= -> -> ->])];
    apply with_tx_cases in Htx as [(d & -> & Hrb & Hr)|(w & d & w0 & a0 & Hb & -> & Hr)].
  - destruct (Hr a eq_refl) as (w & [d' w'] & (? & ? & ? & ? & ? & _ & _ & _ & [=] & _)%change_policy_tx_Ok).
  - apply change_policy_tx_Ok in Hb as (next & ev & ev' & w1 & w2 & Hch & _ & _ & [= ->] & Happ).
    destruct Hr as [[= ->]|[? ?]]; [|done].
    apply appendAuditTx_commit in Happ as (-> & Hlog & Hok1 & Hep & Hd); [|done|done].
    destruct (auditCommitted_ok _ q1 Hok1 Hep) as (s2 & Hc & Hok2 & Hdb & Hkr).
    erewrite bind_run in H by done. injection H as <- <- <-. rewrite Hdb, Hkr.
    split_and!; [done|done|]. right. exists next, ev. eexists. split_and!; [done|done| |done|by left].
    subst d. cbn [db set_db]. by rewrite appended_db_policies.
  - split_and!; [by apply audit_ok_rolled_back|done|by left].
  - apply change_policy_tx_Ok in Hb as (next & ev & ev' & w1 & w2 & Hch & _ & _ & [= ->] & Happ).
    apply appendAuditTx_commit in Happ as (-> & Hlog & Hok1 & Hep & Hd); [|done|done].
    split_and!; [done|done|]. right. exists next, ev. eexists. split_and!; [done|done| |done|].
    + subst d. cbn [db set_db]. by rewrite appended_db_policies.
    + destruct Hr as [[=]|[? [= ->]]]; eauto.
Qed.

(** The table after a change, at the changed policy and elsewhere. *)
Lemma changed_policies_digest id now next d d' :
  policies d' = changed_policies id now next (policies d) →
  table_digest d' id = default "" (PolicyDigest ∘ pText <$> next).
Proof.
  intros H. unfold table_digest. rewrite H. unfold changed_policies.
  destruct next, (policies d !! id); by rewrite ?lookup_insert_eq, ?lookup_delete_eq.
Qed.

Lemma changed_policies_ne id id' now next m :
  id' ≠ id → changed_policies id now next m !! id' = m !! id'.
Proof.
  intros H. unfold changed_policies.
  destruct next, (m !! id); by rewrite ?lookup_insert_ne, ?lookup_delete_ne.
Qed.

Record policy_ok (s : Store) : Prop := {
  po_audit : audit_ok s;
  po_table : policy_inv (db s);
}.

Lemma policy_inv_rolled_back d d' : policy_inv d → rolled_back d d' → policy_inv d'.
Proof. intros H (n & Hn & ->). by apply policy_inv_stable. Qed.

Lemma appended_row_fields kr now ev d :
  is_Some (Payload ev) →
  ar_kind (event_row (appended_event kr now ev d)) = Kind ev ∧
  ar_subject (event_row (appended_event kr now ev d)) = Subject ev ∧
  ar_decision (event_row (appended_event kr now ev d)) = evDecision ev ∧
  ar_payload (event_row (appended_event kr now ev d)) = default "" (Payload ev).
Proof. intros [p Hp]. simpl. by rewrite Hp. Qed.

Lemma ChangePolicy_ok now now' id change s q :
  records_change id change → policy_ok s → policy_ok (ChangePolicy now now' id change (s, q)).2.1.
Proof.
  intros Hrec [Hok Hinv]. destruct (ChangePolicy _ _ _ _ _) as [r [s' q']] eqn:H.
  apply ChangePolicy_cases in H as (Hok' & _ & [[_ Hrb]|(next & ev & ev' & Hch & -> & Hp & Hl & _)]); [..|done].
  { split; [done|]. by eapply policy_inv_rolled_back. }
  split; [done|]. apply Hrec in Hch as (Hk & Hd & Hs & Hpl & Hdg).
  destruct (appended_row_fields (auditKeyring s) now' ev (db s) Hpl) as (Rk & Rs & Rd & Rp).
  eapply (policy_inv_change _ _ _ id); [done|done| |by rewrite Rs| |].
  - unfold is_policy_row. by rewrite Rk, Rd.
  - unfold row_digest. rewrite Rp, Hdg. cbn [fst snd]. by rewrite (changed_policies_digest id now next (db s)) by done.
  - intros id' Hne. cbn [fst snd]. rewrite Hp. by apply changed_policies_ne.
Qed.

(** An event the query of [PolicyAuditDigests] does not select. *)
Definition other_event (ev : AuditEvent) : Prop :=
  ¬ ((Kind ev = "policy.create" ∨ Kind ev = "policy.update" ∨ Kind ev = "policy.delete") ∧ evDecision ev = "ok").

Lemma AppendAudit_policy_ok now ev s q :
  other_event ev → policy_ok s → policy_ok (AppendAudit now ev (s, q)).2.1.
Proof.
  intros Hev [Hok Hinv]. destruct (AppendAudit _ _ _) as [r [s' q']] eqn:H.
  apply AppendAudit_cases in H as (Hok' & _ & [[_ Hrb]|(ev' & -> & Hd & Hl & _)]); [..|done].
  { split; [done|]. by eapply policy_inv_rolled_back. }
  split; [done|]. eapply policy_inv_other; [done|done| |exact Hev].
  cbn [fst snd]. by rewrite Hd, appended_db_policies.
Qed.

(** ** Reading them back *)

Lemma linked_mac ks prev rows r :
  linked ks prev rows → r ∈ rows → ∃ mac, row_mac ks r = Some mac ∧ ar_hash r = hex_encode mac.
Proof.
  revert prev. induction rows as [|r0 rows IH]; intros prev; [by intros _ ?%not_elem_of_nil|].
  intros (_ & Hm & Hl) [->|Hin]%elem_of_cons; eauto.
Qed.

(** A row the store wrote passes its own check. *)
Lemma checkAuditRowMAC_ok kr d r :
  audit_inv (Some kr) d → r ∈ audit_log d → checkAuditRowMAC (scan_event r) (Snapshot kr) (epoch_of d) = true.
Proof.
  intros Hinv Hin. unfold checkAuditRowMAC.
  pose proof (proj1 (Forall_forall _ _) (ai_keyed _ _ Hinv) r Hin) as Hk.
  destruct (linked_mac _ _ _ _ (ai_linked _ _ Hinv) Hin) as (mac & Hmac & Hh).
  unfold row_mac, row_key in Hmac. destruct (isUnkeyed (scan_event r)) eqn:Hu.
  - destruct (epoch_of d) as [e|] eqn:He; [|done]. rewrite bool_decide_eq_false_2; [done|].
    intros Hle. assert (keyed r) as Hkr by (apply Hk; eauto). unfold keyed in Hkr. congruence.
  - cbn [mbind option_bind fmap option_fmap option_map] in Hmac. cbn [KeyID scan_event].
    destruct (Snapshot kr !! ar_key_id r) as [key|]; [|done]. injection Hmac as <-.
    apply bool_decide_eq_true. cbn [Hash scan_event]. rewrite Hh. apply hex_decode_encode.
Qed.

Lemma fold_digests_Ok ks epoch rows out :
  (∀ ks', ks = Some ks' → Forall (λ r, checkAuditRowMAC (scan_event r) ks' epoch = true) rows) →
  Forall (λ r, is_Some (row_digest r)) rows →
  fold_digests ks epoch (scan_event <$> rows) out =
  Ok (foldl (λ m r, <[ar_subject r := default "" (row_digest r)]> m) out rows).
Proof.
  revert out. induction rows as [|r rows IH]; intros out Hmac Hd; [done|].
  apply Forall_cons in Hd as [[dg Hdg] Hd]. cbn [fmap list_fmap fold_digests foldl].
  assert (match ks with Some ks => checkAuditRowMAC (scan_event r) ks epoch | None => true end = true) as ->.
  { destruct ks as [ks|]; [|done]. by specialize (Hmac _ eq_refl); apply Forall_cons in Hmac as [-> _]. }
  change (unmarshal_string_field "new_digest" (default "" (Payload (scan_event r)))) with (row_digest r).
  rewrite Hdg. apply IH; [|done]. intros ks' ->. by specialize (Hmac _ eq_refl); apply Forall_cons in Hmac as [_ ?].
Qed.

Lemma PolicyAuditDigests_run s :
  audit_ok s → Forall (λ r, is_policy_row r → is_Some (row_digest r)) (audit_log (db s)) →
  PolicyAuditDigests (s, []) = (Ok (chain_digests (audit_log (db s))), (s, [])).
Proof.
  intros [Hinv _ _] Hp.
  assert (Forall (λ r, is_Some (row_digest r)) (filter is_policy_row (audit_log (db s)))) as Hd.
  { apply Forall_forall. intros r [Hr Hin]%list_elem_of_filter. by apply (proj1 (Forall_forall _ _) Hp r Hin). }
  unfold PolicyAuditDigests. rewrite (bind_run _ _ _ (auditKeyring s) (s, [])) by done.
  destruct (auditKeyring s) as [kr|] eqn:Hkr.
  - rewrite (bind_run _ _ _ (epoch_of (db s)) (s, [])) by done.
    rewrite (bind_run _ _ _ (scan_event <$> filter is_policy_row (audit_log (db s))) (s, [])) by done.
    rewrite fold_digests_Ok; [done| |done]. intros ks' [= <-].
    apply Forall_forall. intros r [_ Hr]%list_elem_of_filter. by apply checkAuditRowMAC_ok.
  - rewrite (bind_run _ _ _ None (s, [])) by done.
    rewrite (bind_run _ _ _ (scan_event <$> filter is_policy_row (audit_log (db s))) (s, [])) by done.
    by rewrite fold_digests_Ok.
Qed.

Lemma elem_of_policy_list d p :
  p ∈ policy_list d ↔ ∃ r, policies d !! pID p = Some r ∧ p = scanPolicy (pID p) r.
Proof.
  unfold policy_list, policy_rows. rewrite list_elem_of_fmap. setoid_rewrite merge_sort_Permutation. split.
  - intros ([id r] & -> & H%elem_of_map_to_list). by exists r.
  - intros (r & H & Hp). exists (pID p, r). split; [done|]. by apply elem_of_map_to_list.
Qed.

Lemma filter_nil_iff {A} (P : A → Prop) `{!∀ x, Decision (P x)} l : filter P l = [] ↔ Forall (λ x, ¬ P x) l.
Proof.
  induction l as [|x l IH]; [done|]. rewrite filter_cons, Forall_cons, <-IH. case_decide; naive_solver.
Qed.

Lemma filter_cons_not {A} (P : A → Prop) `{!∀ x, Decision (P x)} l x l' :
  filter P l = x :: l' → ¬ Forall (λ x, ¬ P x) l.
Proof. intros Hf Hn. apply (proj2 (filter_nil_iff P l)) in Hn. congruence. Qed.

(** The API accepts a set of stored policies exactly when the chain records
    every policy's digest, and no other policy. *)
Lemma matchAuditChain_None d m :
  matchAuditChain (policy_list d) m = None ↔ ∀ id, default "" (m !! id) = table_digest d id.
Proof.
  unfold matchAuditChain.
  assert (Forall (λ p, ¬ default "" (m !! pID p) ≠ pDigest p) (policy_list d) ↔
    ∀ id r, policies d !! id = Some r → default "" (m !! id) = PolicyDigest (pr_text r)) as H1.
  { rewrite Forall_forall. setoid_rewrite elem_of_policy_list. split.
    - intros H id r Hr. apply dec_stable, (H (scanPolicy id r)). by exists r.
    - intros H p (r & Hr & ->) Hne. apply Hne. by apply H. }
  assert (Forall (λ kv, ¬ (kv.2 ≠ "" ∧ kv.1 ∉ pID <$> policy_list d)) (map_to_list m) ↔
    ∀ id, policies d !! id = None → default "" (m !! id) = "") as H2.
  { rewrite Forall_forall. split.
    - intros H id Hid. destruct (m !! id) as [dg|] eqn:Hm; [|done]. destruct (decide (dg = "")) as [|Hne]; [done|].
      destruct (H (id, dg)); [by apply elem_of_map_to_list|]. split; [done|]. cbn [fst].
      intros (p & -> & (r & Hr & _)%elem_of_policy_list)%list_elem_of_fmap. congruence.
    - intros H [id dg] Hm%elem_of_map_to_list [Hne Hin]. cbn [fst snd] in *. apply Hne.
      specialize (H id). rewrite Hm in H. apply H. destruct (policies d !! id) as [r|] eqn:Hr; [|done].
      destruct Hin. apply list_elem_of_fmap. exists (scanPolicy id r). split; [done|]. apply elem_of_policy_list. by exists r. }
  unfold table_digest. transitivity
    ((∀ id r, policies d !! id = Some r → default "" (m !! id) = PolicyDigest (pr_text r)) ∧
     ∀ id, policies d !! id = None → default "" (m !! id) = "").
  - rewrite <-H1, <-H2. clear H1 H2.
    destruct (filter _ (policy_list d)) as [|p l] eqn:E1.
    + apply filter_nil_iff in E1. destruct (filter _ (map_to_list m)) as [|kv l] eqn:E2.
      * apply filter_nil_iff in E2. done.
      * apply filter_cons_not in E2. split; [done|]. by intros [_ H].
    + apply filter_cons_not in E1. split; [done|]. by intros [H _].
  - split.
    + intros [Hs Hn] id. destruct (policies d !! id) eqn:Hr; cbn; auto.
    + intros H. split; [intros id r Hr|intros id Hr]; by rewrite H, Hr.
Qed.

(** ** Properties *)

(** What can happen to the store between two reads: a write handler's
    change, or an event about something else, with any faults. *)
Inductive policy_step (s : Store) : Store → Prop :=
  | step_create now now' rq id text ids q :
      policy_step s (ChangePolicy now now' id (create_change rq id text ids) (s, q)).2.1
  | step_update now now' rq id match_ text ids q :
      policy_step s (ChangePolicy now now' id (update_change rq id match_ text ids) (s, q)).2.1
  | step_delete now now' rq id match_ q :
      policy_step s (ChangePolicy now now' id (delete_change rq id match_) (s, q)).2.1
  | step_append now ev q :
      other_event ev → policy_step s (AppendAudit now ev (s, q)).2.1.

Lemma policy_step_ok s s' : policy_step s s' → policy_ok s → policy_ok s'.
Proof.
  intros [] Hok; [..|by apply AppendAudit_policy_ok]; apply ChangePolicy_ok; try done;
    auto using create_change_records, update_change_records, delete_change_records.
Qed.

Lemma policy_steps_ok s s' : policy_ok s → rtc policy_step s s' → policy_ok s'.
Proof. intros Hok. induction 1; eauto using policy_step_ok. Qed.

Lemma at_next_run {A} (m : M A) a s s' : m (s, []) = (Ok a, (s', [])) → at_next m ((s, []), []) = (Ok a, ((s, []), [])).
Proof. intros H. unfold at_next. by rewrite H. Qed.

(** Reads of a store nobody writes to. *)
Lemma PolicySet_quiet s m :
  PolicyAuditDigests (s, []) = (Ok m, (s, [])) →
  PolicySet ((s, []), []) = (Ok (policy_list (db s), m), ((s, []), [])).
Proof.
  intros H. unfold PolicySet. pose proof (at_next_run _ _ _ _ H) as Hd.
  rewrite (bind_run _ _ _ m ((s, []), [])) by done. cbn [policy_set_loop].
  rewrite (bind_run _ _ _ (policy_list (db s)) ((s, []), [])) by done.
  rewrite (bind_run _ _ _ m ((s, []), [])) by done. by rewrite decide_True.
Qed.

(** C19. After any sequence of policy changes made through the API and of
    other audit events, whatever statements failed on the way, the stored
    policies and the digests read with them pass the check against the
    audit chain: the server never refuses a set of policies it wrote. *)
Theorem policies_match_chain s s' :
  policy_ok s → rtc policy_step s s' →
  ∃ recorded, PolicySet ((s', []), []) = (Ok (policy_list (db s'), recorded), ((s', []), [])) ∧
    matchAuditChain (policy_list (db s')) recorded = None.
Proof.
  intros Hok Hst. pose proof (policy_steps_ok _ _ Hok Hst) as [Hok1 Hok2].
  exists (chain_digests (audit_log (db s'))). split.
  - apply PolicySet_quiet, PolicyAuditDigests_run; [done|apply Hok2].
  - apply matchAuditChain_None, Hok2.
Qed.

(** C32. When the policies table is replaced behind the API by one in which
    some policy has another text, or a policy was added or removed, the
    check against the chain refuses the set, unless two texts with one
    SHA-256 digest are found. *)
Theorem edited_table_refused s m id :
  policy_ok s → pr_text <$> m !! id ≠ pr_text <$> policies (db s) !! id →
  ∃ items recorded,
    PolicySet ((set_db (set_policies m (db s)) s, []), []) =
      (Ok (items, recorded), ((set_db (set_policies m (db s)) s, []), [])) ∧
    (matchAuditChain items recorded ≠ None ∨
     ∃ r r', m !! id = Some r ∧ policies (db s) !! id = Some r' ∧ pr_text r ≠ pr_text r' ∧
       sha256 (pr_text r) = sha256 (pr_text r')).
Proof.
  intros Hok Hne. eexists (policy_list (set_policies m (db s))), (chain_digests (audit_log (db s))). split.
  { apply (PolicySet_quiet (set_db (set_policies m (db s)) s)).
    apply (PolicyAuditDigests_run (set_db (set_policies m (db s)) s)); [by apply audit_ok_same; [apply Hok|]|apply Hok]. }
  destruct (matchAuditChain _ _) eqn:Hm; [by left|right].
  rewrite matchAuditChain_None in Hm. specialize (Hm id).
  rewrite (pi_agree _ (po_table _ Hok)) in Hm. unfold table_digest in Hm. cbn [policies set_policies] in Hm.
  destruct (policies (db s) !! id) as [r'|], (m !! id) as [r|]; cbn in Hm, Hne.
  - exists r, r'. split_and!; [done|done|congruence|]. by apply hex_encode_inj.
  - by apply PolicyDigest_ne in Hm.
  - symmetry in Hm. by apply PolicyDigest_ne in Hm.
  - done.
Qed.

(** *** Conditional writes *)

Lemma digest_no_byte c text : is_hex_lower c = false → no_byte c (PolicyDigest text).
Proof. intros Hc. eapply no_byte_forallb; [exact Hc|]. apply hex_encode_lower. Qed.

Lemma policy_ETag_inj p p' t t' :
  pDigest p = PolicyDigest t → pDigest p' = PolicyDigest t' → policy_ETag p = policy_ETag p' → pVersion p = pVersion p'.
Proof.
  intros Hd Hd' H. unfold policy_ETag in H. injection H as H.
  change ("-" +:+ ?x) with (String "-" x) in H. rewrite Hd, Hd' in H.
  rewrite <-(string_app_cons "-" (PolicyDigest t)), <-(string_app_cons "-" (PolicyDigest t')), <-!string_app_assoc in H.
  apply cut_last_inj in H as [H _]; [|done..].
  apply cut_last_inj in H as [H _]; [|by apply digest_no_byte..]. by apply (inj pretty).
Qed.

Lemma policy_ETag_no_comma p t : pDigest p = PolicyDigest t → no_byte "," (policy_ETag p).
Proof.
  intros Hd. unfold policy_ETag. rewrite Hd. set (ok a := bool_decide (a ≠ ","%char)).
  apply (no_byte_forallb "," ok); [done|]. cbn [string_forallb]. rewrite !string_forallb_app.
  rewrite (string_forallb_impl is_decimal_byte ok), (string_forallb_impl is_hex_lower ok (PolicyDigest t)); [done|..].
  - intros a Ha. apply bool_decide_eq_true. by intros ->.
  - apply hex_encode_lower.
  - intros a Ha. apply bool_decide_eq_true. by intros ->.
  - apply pretty_Z_decimal.
Qed.

(** A policy's own ETag, sent in If-Match, matches a policy with that ETag
    only. *)
Lemma ifMatch_ETag p t e : pDigest p = PolicyDigest t → ifMatch (policy_ETag p) e = true → e = policy_ETag p.
Proof.
  intros Hd. unfold ifMatch. rewrite bool_decide_eq_true.
  assert (TrimSpace (policy_ETag p) = policy_ETag p) as Ht.
  { unfold policy_ETag. rewrite <-!string_app_assoc. apply TrimSpace_quoted. }
  assert (no_byte "," (policy_ETag p)) as Hn by by eapply policy_ETag_no_comma.
  unfold no_byte in Hn. rewrite Hn, Exists_cons, Exists_nil, Ht. intros [[H|H]|[]]; [|done].
  exfalso. revert H. unfold policy_ETag. done.
Qed.

(** The writes that carry an If-Match header. *)
Inductive conditional (id match_ : string) : PolicyChange → Prop :=
  | cond_update rq text ids : conditional id match_ (update_change rq id match_ text ids)
  | cond_delete rq : conditional id match_ (delete_change rq id match_).

Lemma conditional_Ok id match_ c cur next ev :
  conditional id match_ c → c cur = Ok (next, ev) → ∃ p, cur = Some p ∧ ifMatch match_ (policy_ETag p) = true.
Proof.
  intros []; destruct cur as [p|]; cbn [update_change delete_change]; try done;
    destruct (ifMatch _ _) eqn:Hm; try done; eauto.
Qed.


(** ** Examples *)

(** An administrator of the console. *)
Definition admin : requester := mkRequester "spiffe://omega.example/admin" "".
Definition text_a : string := "permit(principal, action, resource);".
Definition text_b : string := "forbid(principal, action, resource);".

Definition policy_start : Store := UseAuditKeyring None (new_store driverPostgres).

Lemma policy_start_ok : policy_ok policy_start.
Proof.
  split.
  - unfold policy_start, UseAuditKeyring. split; simpl; [|done|done].
    split; simpl; [lia|constructor|constructor|constructor|done|done|constructor].
  - split; [constructor|done].
Qed.

Definition policy_store : Store :=
  (ChangePolicy 10 11 "base" (create_change admin "base" text_a []) (policy_start, [])).2.1.

Lemma policy_store_ok : policy_ok policy_store.
Proof. apply ChangePolicy_ok; [apply create_change_records|apply policy_start_ok]. Qed.

Definition row_a : policy_row := mkPolicyRow text_a 1 (rq_caller admin) 10 (rq_caller admin) 10.
Definition etag_a : string := Eval vm_compute in policy_ETag (scanPolicy "base" row_a).

Definition policy_updated : Store :=
  (ChangePolicy 20 21 "base" (update_change admin "base" etag_a text_b []) (policy_store, [])).2.1.

Lemma policies_match_chain_witness :
  ∃ recorded, PolicySet ((policy_updated, []), []) =
      (Ok (policy_list (db policy_updated), recorded), ((policy_updated, []), [])) ∧
    matchAuditChain (policy_list (db policy_updated)) recorded = None ∧ pText <$> policy_list (db policy_updated) = [text_b].
Proof.
  destruct (policies_match_chain policy_start policy_updated) as (rec & H1 & H2).
  - apply policy_start_ok.
  - eapply rtc_l; [apply (step_create _ 10 11 admin "base" text_a [] [])|].
    eapply rtc_l; [apply (step_update _ 20 21 admin "base" etag_a text_b [] [])|]. apply rtc_refl.
  - exists rec. split_and!; [done|done|]. vm_compute. reflexivity.
Defined.

Definition edited : gmap string policy_row :=
  {["base" := mkPolicyRow text_b 1 (rq_caller admin) 10 (rq_caller admin) 10]}.

Lemma edited_table_refused_witness :
  ∃ items recorded,
    PolicySet ((set_db (set_policies edited (db policy_store)) policy_store, []), []) =
      (Ok (items, recorded), ((set_db (set_policies edited (db policy_store)) policy_store, []), [])) ∧
    (matchAuditChain items recorded ≠ None ∨
     ∃ r r', edited !! "base" = Some r ∧ policies (db policy_store) !! "base" = Some r' ∧ pr_text r ≠ pr_text r' ∧
       sha256 (pr_text r) = sha256 (pr_text r')).
Proof.
  apply (edited_table_refused policy_store edited "base"); [apply policy_store_ok|].
  intros H. vm_compute in H. discriminate H.
Defined.


(** Equal digests before and after do not mean the policies read in
    between belong to them: an update and its reversal between the two reads
    of the digests leave them equal, and the set read between the two is
    refused as if the table had been edited. *)
Theorem policy_set_aba :
  ∃ s1 s2 s3 items recorded,
    policy_ok s1 ∧ policy_step s1 s2 ∧ policy_step s2 s3 ∧
    PolicySet ((s1, [s2; s3]), []) = (Ok (items, recorded), ((s3, []), [])) ∧
    matchAuditChain items recorded ≠ None.
Proof.
  exists policy_store, policy_updated,
    (ChangePolicy 30 31 "base" (update_change admin "base" "*" text_a []) (policy_updated, [])).2.1.
  eexists (policy_list (db policy_updated)), (chain_digests (audit_log (db policy_store))). split_and!.
  - apply policy_store_ok.
  - apply (step_update _ 20 21 admin "base" etag_a text_b [] []).
  - apply (step_update _ 30 31 admin "base" "*" text_a [] []).
  - vm_compute. reflexivity.
  - vm_compute. discriminate.
Qed.
