(* ===== verification/Scim.v ===== *)
(** * Scim

    Users and groups provisioned by external identity providers
    (internal/server/storage/scim.go). A provider's group owns an Omega
    group, whose members are rebuilt from the provider's active members at
    the end of every transaction that could have changed them. *)
From S2P Require Import Prelude Crypto Unicode AuditKeyring Store Domains AuditChain Groups.

Record SCIMUser := mkSCIMUser {
  uID : string;
  uUserName : string;
  uExternalID : string;
  uDisplayName : string;
  uActive : bool;
  uPrincipal : string;
  uCreated : Z;
  uModified : Z;
}.

Record SCIMGroup := mkSCIMGroup {
  cID : string;
  cDisplayName : string;
  cExternalID : string;
  cDomain : string;
  cGroup : string;
  cMembers : list string;
  cCreated : Z;
  cModified : Z;
}.

#[global] Instance SCIMUser_eq_dec : EqDecision SCIMUser.
Proof. solve_decision. Defined.
#[global] Instance SCIMGroup_eq_dec : EqDecision SCIMGroup.
Proof. solve_decision. Defined.

(** The state of one transaction: the database as it sees it, and the
    groups whose Omega members must be rebuilt. The provider it belongs to
    is an argument of every method. *)
Record SCIMTx := mkSCIMTx {
  st_db : DB;
  touched : gset string;
}.

Abbreviation Scim := (GoM SCIMTx).

Definition set_st_db (d : DB) (t : SCIMTx) : SCIMTx := mkSCIMTx d (touched t).
Definition touch (id : string) (t : SCIMTx) : SCIMTx := mkSCIMTx (st_db t) ({[id]} ∪ touched t).

(** A statement of the transaction, and one of the store's helpers run in
    it. *)
Definition scim_query {A} (what : string) (f : DB → A) : Scim A := query what (f ∘ st_db).
Definition scim_exec (what : string) (f : DB → DB) : Scim () := exec what (λ t, set_st_db (f (st_db t)) t).
Definition scim_insert (what : string) (dup : DB → bool) (on_dup : error) (f : DB → DB) : Scim () :=
  insert_row what (dup ∘ st_db) on_dup (λ t, set_st_db (f (st_db t)) t).

Definition lift_tx {A} (m : Tx A) : Scim A := λ '(t, q),
  let '(r, (d, q')) := m (st_db t, q) in (r, (set_st_db d t, q')).

(** ** Identifiers *)

Definition byte_at (b : string) (i : nat) : N := default 0%N (N_of_ascii <$> String.get i b).

Definition set_byte (i : nat) (n : N) (b : string) : string :=
  String.substring 0 i b +:+ String (ascii_of_N n) (String.substring (S i) (String.length b - S i) b).

(** [newSCIMID] of 16 random bytes: a version 4 UUID. *)
Definition newSCIMID (b : string) : string :=
  let b := set_byte 6 (N.lor (N.land (byte_at b 6) 15) 64) b in
  let b := set_byte 8 (N.lor (N.land (byte_at b 8) 63) 128) b in
  let part i n := hex_encode (String.substring i n b) in
  part 0 4 +:+ "-" +:+ part 4 2 +:+ "-" +:+ part 6 2 +:+ "-" +:+ part 8 2 +:+ "-" +:+ part 10 6.

Definition boolInt (b : bool) : Z := if b then 1%Z else 0%Z.

(** ** Users *)

Definition scanSCIMUser (id : string) (r : scim_user_row) : SCIMUser :=
  mkSCIMUser id (su_user_name r) (su_external_id r) (su_display_name r) (bool_decide (su_active r ≠ 0%Z))
    (su_principal r) (UnixTime (su_created_at r)) (UnixTime (su_updated_at r)).

Definition user_row (u : SCIMUser) (created modified : Z) : scim_user_row :=
  mkScimUserRow (uUserName u) (ToLower (uUserName u)) (uExternalID u) (uDisplayName u) (boolInt (uActive u))
    (uPrincipal u) created modified.

(** Another user of the provider has the name, in any letter case, or the
    external id of [r]. *)
Definition user_clash (idp id : string) (r : scim_user_row) (d : DB) : bool :=
  bool_decide (Exists (λ x, x.1.1 = idp ∧ x.1.2 ≠ id ∧
    (su_user_name_lc x.2 = su_user_name_lc r ∨
     (su_external_id x.2 = su_external_id r ∧ su_external_id r ≠ ""))) (map_to_list (scim_users d))).

Section provider.
Context (idp : string).

Definition GetUser (id : string) : Scim SCIMUser :=
  row ← scim_query "query scim user" (λ d, scim_users d !! (idp, id));
  match row with
  | Some r => mret (scanSCIMUser id r)
  | None => throw ErrNotFound
  end.

(** [ORDER BY created_at, id]. *)
Definition user_before (a b : (string * string) * scim_user_row) : Prop :=
  (su_created_at a.2 < su_created_at b.2)%Z ∨ (su_created_at a.2 = su_created_at b.2 ∧ String.le a.1.2 b.1.2).

#[global] Instance user_before_dec a b : Decision (user_before a b).
Proof. unfold user_before. apply _. Defined.

Definition user_filter (attr value : string) (r : scim_user_row) : Prop :=
  attr = "" ∨ (attr = "userName" ∧ su_user_name_lc r = ToLower value) ∨ (attr = "externalId" ∧ su_external_id r = value).

#[global] Instance user_filter_dec attr value r : Decision (user_filter attr value r).
Proof. unfold user_filter. apply _. Defined.

Definition matching_users (attr value : string) (d : DB) : list ((string * string) * scim_user_row) :=
  merge_sort user_before
    (filter (λ x, x.1.1 = idp ∧ user_filter attr value x.2) (map_to_list (scim_users d))).

(** [LIMIT limit OFFSET offset]. *)
Definition page {A} (offset limit : Z) (l : list A) : list A := take (Z.to_nat limit) (drop (Z.to_nat offset) l).

Definition ListUsers (attr value : string) (offset limit : Z) : Scim (list SCIMUser * Z) :=
  if decide (attr ∈ [""; "userName"; "externalId"]) then
    total ← scim_query "count scim users" (λ d, Z.of_nat (length (matching_users attr value d)));
    rows ← scim_query "query scim users" (λ d, page offset limit (matching_users attr value d));
    mret ((λ x, scanSCIMUser x.1.2 x.2) <$> rows, total)
  else throw (ErrInvalid "cannot filter users by" attr).

Definition CreateUser (now : Z) (rnd : string) (u : SCIMUser) : Scim SCIMUser :=
  let id := newSCIMID rnd in
  let r := user_row u (UnixNano now) (UnixNano now) in
  scim_insert "insert scim user" (λ d, bool_decide (is_Some (scim_users d !! (idp, id))) || user_clash idp id r d)
    ErrAlreadyExists (λ d, set_scim_users (<[(idp, id) := r]> (scim_users d)) d) ;;
  mret (mkSCIMUser id (uUserName u) (uExternalID u) (uDisplayName u) (uActive u) (uPrincipal u) now now).

Definition touchGroupsOf (userID : string) : Scim () :=
  gs ← scim_query "query scim memberships" (λ d,
         (λ m, m.1.2) <$> filter (λ m : string * string * string, m.1.1 = idp ∧ m.2 = userID) (elements (scim_members d)));
  modify (λ t, mkSCIMTx (st_db t) (list_to_set gs ∪ touched t)).

Definition ReplaceUser (now : Z) (u : SCIMUser) : Scim SCIMUser :=
  prev ← GetUser (uID u);
  let u := mkSCIMUser (uID u) (uUserName u) (uExternalID u) (uDisplayName u) (uActive u) (uPrincipal u) (uCreated prev) now in
  scim_insert "update scim user" (user_clash idp (uID u) (user_row u 0 0)) ErrAlreadyExists
    (λ d, set_scim_users (alter (λ r, user_row u (su_created_at r) (UnixNano (uModified u))) (idp, uID u) (scim_users d)) d) ;;
  (if decide (uPrincipal prev ≠ uPrincipal u ∨ uActive prev ≠ uActive u) then touchGroupsOf (uID u) else mret tt) ;;
  mret u.

(** [DELETE FROM scim_members] where the row satisfies [p]. *)
Definition drop_scim_members (p : string * string * string → Prop) `{!∀ m, Decision (p m)} (d : DB) : DB :=
  set_scim_members (filter (λ m, ¬ p m) (scim_members d)) d.

Definition DeleteUser (id : string) : Scim () :=
  GetUser id ;;
  touchGroupsOf id ;;
  scim_exec "delete scim memberships" (drop_scim_members (λ m, m.1.1 = idp ∧ m.2 = id)) ;;
  scim_exec "delete scim user" (λ d, set_scim_users (delete (idp, id) (scim_users d)) d).

(** ** Groups *)

Definition scan_scim_group (members : list string) (id : string) (r : scim_group_row) : SCIMGroup :=
  mkSCIMGroup id (sg_display_name r) (sg_external_id r) (sg_domain r) (sg_grp r) members
    (UnixTime (sg_created_at r)) (UnixTime (sg_updated_at r)).

(** The ids of a group's members, [ORDER BY user_id]. *)
Definition member_ids (id : string) (d : DB) : list string :=
  sort_strings ((λ m, m.2) <$> filter (λ m : string * string * string, m.1 = (idp, id)) (elements (scim_members d))).

Definition group_before (a b : (string * string) * scim_group_row) : Prop :=
  (sg_created_at a.2 < sg_created_at b.2)%Z ∨ (sg_created_at a.2 = sg_created_at b.2 ∧ String.le a.1.2 b.1.2).

#[global] Instance group_before_dec a b : Decision (group_before a b).
Proof. unfold group_before. apply _. Defined.

Definition matching_groups (p : string → scim_group_row → bool) (d : DB) : list ((string * string) * scim_group_row) :=
  merge_sort group_before
    (filter (λ x, x.1.1 = idp ∧ p x.1.2 x.2 = true) (map_to_list (scim_groups d))).

Definition scim_listGroups (p : string → scim_group_row → bool) (offset limit : Z) (withMembers : bool)
    : Scim (list SCIMGroup * Z) :=
  total ← scim_query "count scim groups" (λ d, Z.of_nat (length (matching_groups p d)));
  out ← scim_query "query scim groups" (λ d, page offset limit (matching_groups p d));
  if decide (withMembers = false ∨ out = []) then
    mret ((λ x, scan_scim_group [] x.1.2 x.2) <$> out, total)
  else
    gs ← scim_query "query scim members" (λ d, (λ x, scan_scim_group (member_ids x.1.2 d) x.1.2 x.2) <$> out);
    mret (gs, total).

Definition scim_GetGroup (id : string) : Scim SCIMGroup :=
  r ← scim_listGroups (λ id' _, bool_decide (id' = id)) 0 1 true;
  match r.1 with
  | g :: _ => mret g
  | [] => throw ErrNotFound
  end.

Definition scim_ListGroups (attr value : string) (offset limit : Z) (withMembers : bool) : Scim (list SCIMGroup * Z) :=
  if decide (attr = "") then scim_listGroups (λ _ _, true) offset limit withMembers
  else if decide (attr = "displayName") then
    scim_listGroups (λ _ r, bool_decide (sg_display_name r = value)) offset limit withMembers
  else if decide (attr = "externalId") then
    scim_listGroups (λ _ r, bool_decide (sg_external_id r = value)) offset limit withMembers
  else throw (ErrInvalid "cannot filter groups by" attr).

Definition set_member (groupID u : string) : Scim () :=
  catch (GetUser u) (λ r,
    match r with
    | Err ErrNotFound => throw (ErrUnknownMember u)
    | Err e => throw e
    | Ok _ => scim_exec "insert scim member" (λ d, set_scim_members ({[(idp, groupID, u)]} ∪ scim_members d) d)
    end).

Definition setMembers (groupID : string) (users : list string) : Scim () :=
  for_each users (set_member groupID) ;;
  modify (touch groupID).

(** Another group of the provider's, or of another provider's, owns the
    Omega group of [r]. *)
Definition group_clash (key : string * string) (domain grp : string) (d : DB) : bool :=
  bool_decide (Exists (λ x, x.1 ≠ key ∧ sg_domain x.2 = domain ∧ sg_grp x.2 = grp) (map_to_list (scim_groups d))).

Definition scim_CreateGroup (now : Z) (rnd : string) (g : SCIMGroup) : Scim SCIMGroup :=
  match ValidateGroupName (cGroup g) with
  | Some e => throw e
  | None =>
      lift_tx (lockDomain (cDomain g)) ;;
      let id := newSCIMID rnd in
      lift_tx (insert_group (cDomain g) (cGroup g) ("provisioned by " +:+ idp +:+ " over SCIM") (UnixNano now)) ;;
      scim_exec "clear members" (clear_members (cDomain g) (cGroup g)) ;;
      scim_insert "insert scim group"
        (λ d, bool_decide (is_Some (scim_groups d !! (idp, id))) || group_clash (idp, id) (cDomain g) (cGroup g) d)
        (ErrIO "insert scim group" "UNIQUE constraint")
        (λ d, set_scim_groups (<[(idp, id) := mkScimGroupRow (cDisplayName g) (cExternalID g) (cDomain g) (cGroup g)
                                                (UnixNano now) (UnixNano now)]> (scim_groups d)) d) ;;
      setMembers id (cMembers g) ;;
      scim_GetGroup id
  end.

(** [UPDATE groups SET name = ? WHERE domain = ? AND name = ?]. *)
Definition rename_group (domain old new : string) (d : DB) : DB :=
  match groups d !! (domain, old) with
  | Some r => set_groups (<[(domain, new) := r]> (delete (domain, old) (groups d))) d
  | None => d
  end.

(** The first half of [ReplaceGroup]: a new name renames the Omega group. *)
Definition rename_owned (prev : SCIMGroup) (name : string) : Scim () :=
  if decide (name ≠ cGroup prev) then
    match ValidateGroupName name with
    | Some e => throw e
    | None =>
        scim_insert "rename group"
          (λ d, bool_decide (is_Some (groups d !! (cDomain prev, cGroup prev)) ∧ is_Some (groups d !! (cDomain prev, name))))
          ErrAlreadyExists (rename_group (cDomain prev) (cGroup prev) name) ;;
        scim_exec "clear members" (clear_members (cDomain prev) (cGroup prev))
    end
  else mret tt.

Definition scim_ReplaceGroup (now : Z) (g : SCIMGroup) : Scim SCIMGroup :=
  prev ← scim_GetGroup (cID g);
  rename_owned prev (cGroup g) ;;
  scim_insert "update scim group"
    (λ d, match scim_groups d !! (idp, cID g) with
          | Some r => group_clash (idp, cID g) (sg_domain r) (cGroup g) d
          | None => false
          end)
    (ErrIO "update scim group" "UNIQUE constraint")
    (λ d, set_scim_groups (alter (λ r, mkScimGroupRow (cDisplayName g) (cExternalID g) (sg_domain r) (cGroup g)
                                         (sg_created_at r) (UnixNano now)) (idp, cID g) (scim_groups d)) d) ;;
  scim_exec "clear scim members" (drop_scim_members (λ m, m.1 = (idp, cID g))) ;;
  setMembers (cID g) (cMembers g) ;;
  scim_GetGroup (cID g).

Definition PatchMembers (groupID : string) (add remove : list string) : Scim () :=
  scim_GetGroup groupID ;;
  for_each remove (λ u, scim_exec "remove scim member" (drop_scim_members (λ m, m = (idp, groupID, u)))) ;;
  modify (touch groupID) ;;
  setMembers groupID add.

Definition RemoveAllMembers (groupID : string) : Scim () :=
  scim_exec "clear scim members" (drop_scim_members (λ m, m.1 = (idp, groupID))) ;;
  modify (touch groupID).

Definition scim_DeleteGroup (id : string) : Scim () :=
  g ← scim_GetGroup id;
  scim_exec "delete scim group" (clear_members (cDomain g) (cGroup g)) ;;
  scim_exec "delete scim group" (λ d, set_groups (delete (cDomain g, cGroup g) (groups d)) d) ;;
  scim_exec "delete scim group" (drop_scim_members (λ m, m.1 = (idp, id))) ;;
  scim_exec "delete scim group" (λ d, set_scim_groups (delete (idp, id) (scim_groups d)) d) ;;
  modify (λ t, mkSCIMTx (st_db t) (touched t ∖ {[id]})).

(** The SPIFFE IDs of a group's active members. *)
Definition active_principal (id : string) (d : DB) (m : string * string * string) : option string :=
  if decide (m.1 = (idp, id)) then
    u ← scim_users d !! (idp, m.2);
    if decide (su_active u = 1%Z) then Some (su_principal u) else None
  else None.

Definition active_principals (id : string) (d : DB) : gset string :=
  list_to_set (omap (active_principal id d) (elements (scim_members d))).

(** The [INSERT ... SELECT DISTINCT] that rebuilds a group's members. *)
Definition rebuild_members (domain grp : string) (id : string) (d : DB) : DB :=
  set_group_members
    (gset_to_gmap 0%Z (set_map (λ p, (domain, grp, p)) (active_principals id d)) ∪ group_members d) d.

Definition syncGroup (id : string) : Scim () :=
  catch (scim_GetGroup id) (λ r,
    match r with
    | Err ErrNotFound => mret tt
    | Err e => throw e
    | Ok g =>
        scim_exec "clear members" (clear_members (cDomain g) (cGroup g)) ;;
        scim_exec "rebuild members" (rebuild_members (cDomain g) (cGroup g) id)
    end).

(** ** Transactions *)

(** What [SCIM] runs between [BeginTx] and [Commit]. *)
Definition scim_body (kr : option AuditKeyring) (epoch_recorded : bool) (now : Z) (fn : Scim AuditEvent) : Scim AuditEvent :=
  ev ← fn;
  ids ← gets (λ t, sort_strings (elements (touched t)));
  for_each ids syncGroup ;;
  if decide (Kind ev ≠ "") then lift_tx (appendAuditTx kr epoch_recorded now ev) else mret ev.

Definition in_scim_tx (m : Scim AuditEvent) : Tx (tx_end AuditEvent) := λ '(d, q),
  let '(r, (t, q')) := m (mkSCIMTx d ∅, q) in
  (match r with Ok ev => Ok (Commit ev) | Err e => Err e end, (st_db t, q')).

Definition SCIM (now : Z) (fn : Scim AuditEvent) : M AuditEvent :=
  leader_only (
    s ← gets (λ s, s);
    ev ← with_tx "begin" "commit" (in_scim_tx (scim_body (auditKeyring s) (keyedEpochRecorded s) now fn));
    (if decide (Kind ev ≠ "") then auditCommitted else mret tt) ;;
    mret ev).

(** [SCIMRead]: [fn] must only read. *)
Definition SCIMRead {A} (fn : Scim A) : M A := λ '(s, q),
  let '(r, (_, q')) := fn (mkSCIMTx (db s) ∅, q) in (r, (s, q')).
End provider.

Definition SCIMManaged (domain name : string) : M (option string) :=
  on_db "query scim group" (managed_by domain name).

(** ** What the methods do when they succeed *)

Ltac scim_split H := unfold scim_query, scim_exec, scim_insert, compose in H; run_split H.

Lemma lift_tx_Ok {A} (m : Tx A) t q a t' q' :
  lift_tx m (t, q) = (Ok a, (t', q')) → ∃ d', m (st_db t, q) = (Ok a, (d', q')) ∧ t' = set_st_db d' t.
Proof. unfold lift_tx. destruct (m (st_db t, q)) as [r [d' q'']] eqn:E. intros [= -> <- ->]. eauto. Qed.

Lemma GetUser_Ok idp id t q u t' q' :
  GetUser idp id (t, q) = (Ok u, (t', q')) →
  ∃ r, scim_users (st_db t) !! (idp, id) = Some r ∧ u = scanSCIMUser id r ∧ t' = t.
Proof. intros H. unfold GetUser in H. scim_split H. eauto. Qed.

Lemma matching_groups_id idp id d x l :
  matching_groups idp (λ id' _, bool_decide (id' = id)) d = x :: l →
  x.1 = (idp, id) ∧ scim_groups d !! (idp, id) = Some x.2.
Proof.
  intros H. assert (x ∈ matching_groups idp (λ id' _, bool_decide (id' = id)) d) as Hx by (rewrite H; left).
  unfold matching_groups in Hx. rewrite merge_sort_Permutation in Hx.
  apply list_elem_of_filter in Hx as [[Hi Hid%bool_decide_eq_true] Hin].
  destruct x as [[i g] r]. simpl in *. subst. by apply elem_of_map_to_list in Hin.
Qed.

Lemma matching_groups_none idp id d :
  matching_groups idp (λ id' _, bool_decide (id' = id)) d = [] → scim_groups d !! (idp, id) = None.
Proof.
  intros H. apply eq_None_not_Some. intros [r Hr].
  assert ((idp, id, r) ∈ matching_groups idp (λ id' _, bool_decide (id' = id)) d) as Hx.
  { unfold matching_groups. rewrite merge_sort_Permutation. apply list_elem_of_filter. simpl.
    split; [by rewrite bool_decide_eq_true|]. by apply elem_of_map_to_list. }
  rewrite H in Hx. by apply not_elem_of_nil in Hx.
Qed.

Lemma page_first {A} (l : list A) : page 0 1 l = take 1 l.
Proof. done. Qed.

Lemma scim_GetGroup_Ok idp id t q g t' q' :
  scim_GetGroup idp id (t, q) = (Ok g, (t', q')) →
  ∃ r, scim_groups (st_db t) !! (idp, id) = Some r ∧
    g = scan_scim_group (member_ids idp id (st_db t)) id r ∧ t' = t.
Proof.
  intros H. unfold scim_GetGroup, scim_listGroups in H.
  apply bind_Ok in H as (r & [t1 q1] & Hl & H).
  apply bind_Ok in Hl as (n & [t2 q2] & Hn & Hl). scim_split Hn.
  apply bind_Ok in Hl as (out & [t3 q3] & Ho & Hl). scim_split Ho.
  rewrite page_first in Hl.
  destruct (matching_groups idp (λ id' _, bool_decide (id' = id)) (st_db t)) as [|x l] eqn:Hm; cbn [take] in Hl.
  - rewrite decide_True in Hl by by right. run_split Hl.
  - rewrite decide_False in Hl by by intros []. scim_split Hl. simpl in H. run_split H.
    apply matching_groups_id in Hm as [Hx Hr]. exists x.2. rewrite Hx. done.
Qed.

(** A read fails with [ErrNotFound] only when there is no such group. *)
Lemma scim_GetGroup_NotFound idp id t q t' q' :
  scim_GetGroup idp id (t, q) = (Err ErrNotFound, (t', q')) →
  scim_groups (st_db t) !! (idp, id) = None ∧ t' = t.
Proof.
  intros H. unfold scim_GetGroup, scim_listGroups, scim_query in H.
  apply bind_cases in H as [(r & [t1 q1] & Hl & H)|(e & [t1 q1] & Hl & [= <- <- <-])].
  - apply bind_Ok in Hl as (n & [t2 q2] & Hn & Hl). scim_split Hn.
    apply bind_Ok in Hl as (out & [t3 q3] & Ho & Hl). scim_split Ho.
    rewrite page_first in Hl.
    destruct (matching_groups idp (λ id' _, bool_decide (id' = id)) (st_db t)) as [|x l] eqn:Hm; cbn [take] in Hl.
    + apply matching_groups_none in Hm. rewrite decide_True in Hl by by right. run_split Hl.
      by injection H as <- <-.
    + rewrite decide_False in Hl by by intros []. scim_split Hl.
  - exfalso. revert Hl. unfold query, io, mbind, GoM_bind, gets, mret, GoM_ret. cbn [fst snd].
    destruct q as [|[f|] q]; cbn [fst snd]; try congruence; [|destruct q as [|[f|] q]; cbn [fst snd]; try congruence];
      repeat case_match; cbn [fst snd] in *; try congruence.
Qed.
