(* ===== verification/ScimSync.v ===== *)
(** * ScimSync

    What the provisioning transactions of Scim keep: a provisioned group's
    Omega group has exactly its active members, whatever is called and
    whatever fails. *)
From S2P Require Import Prelude AuditKeyring Store Domains AuditChain Groups Scim.

(** ** The invariant *)

(** The Omega group's members are the principals of the active members. *)
Definition synced (idp id : string) (r : scim_group_row) (d : DB) : Prop :=
  ∀ p e, group_members d !! (sg_domain r, sg_grp r, p) = Some e ↔ e = 0%Z ∧ p ∈ active_principals idp id d.

(** What holds during a transaction of provider [idp] that has touched the
    groups [T]: every provisioned group owns an Omega group of its own,
    memberships are between users and groups that exist, names are unique
    up to letter case, and the groups that are not to be rebuilt are in
    step with their members. *)
Record scim_mid (idp : string) (T : gset string) (d : DB) : Prop := {
  sm_owns : ∀ k r, scim_groups d !! k = Some r → is_Some (groups d !! (sg_domain r, sg_grp r));
  sm_unique : ∀ k k' r r', scim_groups d !! k = Some r → scim_groups d !! k' = Some r' →
    sg_domain r = sg_domain r' → sg_grp r = sg_grp r' → k = k';
  sm_active : ∀ k u, scim_users d !! k = Some u → ∃ b, su_active u = boolInt b;
  sm_names : ∀ i id id' u u', scim_users d !! (i, id) = Some u → scim_users d !! (i, id') = Some u' →
    su_user_name_lc u = su_user_name_lc u' ∨ (su_external_id u = su_external_id u' ∧ su_external_id u ≠ "") → id = id';
  sm_member : ∀ i g u, (i, g, u) ∈ scim_members d →
    is_Some (scim_groups d !! (i, g)) ∧ is_Some (scim_users d !! (i, u));
  sm_synced : ∀ i g r, scim_groups d !! (i, g) = Some r → ¬ (i = idp ∧ g ∈ T) → synced i g r d;
}.

(** Between transactions every group is in step. *)
Definition scim_ok (d : DB) : Prop := ∀ idp, scim_mid idp ∅ d.

Lemma elem_of_active idp id d p :
  p ∈ active_principals idp id d ↔
  ∃ u r, (idp, id, u) ∈ scim_members d ∧ scim_users d !! (idp, u) = Some r ∧ su_active r = 1%Z ∧ su_principal r = p.
Proof.
  unfold active_principals. rewrite elem_of_list_to_set, list_elem_of_omap. split.
  - intros ([[i g] u] & Hin & Ha). unfold active_principal in Ha. simpl in *.
    case_decide as E; [|done]. injection E as -> ->.
    destruct (scim_users d !! (idp, u)) as [r|] eqn:Hu; [|done]. simpl in Ha. case_decide; [|done].
    injection Ha as <-. exists u, r. rewrite elem_of_elements in Hin. done.
  - intros (u & r & Hin & Hu & Ha & <-). exists (idp, id, u). rewrite elem_of_elements. split; [done|].
    unfold active_principal. simpl. rewrite decide_True by done. rewrite Hu. simpl. by rewrite decide_True.
Qed.

(** A group stays in step when neither its members' rows nor its Omega
    group's change. *)
Lemma synced_frame i g r d d' :
  (∀ p, group_members d' !! (sg_domain r, sg_grp r, p) = group_members d !! (sg_domain r, sg_grp r, p)) →
  (∀ p, p ∈ active_principals i g d' ↔ p ∈ active_principals i g d) →
  synced i g r d → synced i g r d'.
Proof. intros Hg Hp H p e. rewrite Hg, Hp. apply H. Qed.

Lemma active_frame i g d d' :
  (∀ u, (i, g, u) ∈ scim_members d' ↔ (i, g, u) ∈ scim_members d) →
  (∀ u, (i, g, u) ∈ scim_members d →
        (λ r, (su_active r, su_principal r)) <$> scim_users d' !! (i, u) =
        (λ r, (su_active r, su_principal r)) <$> scim_users d !! (i, u)) →
  ∀ p, p ∈ active_principals i g d' ↔ p ∈ active_principals i g d.
Proof.
  intros Hm Hu p. rewrite !elem_of_active. split.
  - intros (u & r & Hin%Hm & Hr & Ha & Hp). specialize (Hu u Hin). rewrite Hr in Hu.
    destruct (scim_users d !! (i, u)) as [r'|] eqn:E; [|done]. injection Hu as H1 H2.
    exists u, r'. split_and!; congruence.
  - intros (u & r & Hin & Hr & Ha & Hp). specialize (Hu u Hin). rewrite Hr in Hu.
    destruct (scim_users d' !! (i, u)) as [r'|] eqn:E; [|done]. injection Hu as H1 H2.
    exists u, r'. split_and!; [by apply Hm|congruence..].
Qed.

Lemma scim_mid_touch idp T T' d : scim_mid idp T d → T ⊆ T' → scim_mid idp T' d.
Proof. intros [] HT. split; try done. intros i g r Hr Hn. apply sm_synced0; [done|]. set_solver. Qed.

(** *** Users *)

Lemma user_clash_false idp id r d :
  user_clash idp id r d = false →
  ∀ id' u, scim_users d !! (idp, id') = Some u →
    su_user_name_lc u = su_user_name_lc r ∨ (su_external_id u = su_external_id r ∧ su_external_id r ≠ "") → id' = id.
Proof.
  unfold user_clash. intros H%bool_decide_eq_false_1 id' u Hu Hc. apply dec_stable. intros Hne. apply H.
  apply Exists_exists. exists (idp, id', u). rewrite elem_of_map_to_list. auto.
Qed.

(** Writing a user's row: the groups the user is in are touched, unless the
    row keeps the user's principal and state. *)
Lemma scim_mid_user idp T d id r b :
  scim_mid idp T d → user_clash idp id r d = false → su_active r = boolInt b →
  (∀ g, (idp, g, id) ∈ scim_members d → g ∈ T ∨
     ∃ r0, scim_users d !! (idp, id) = Some r0 ∧ su_active r = su_active r0 ∧ su_principal r = su_principal r0) →
  scim_mid idp T (set_scim_users (<[(idp, id) := r]> (scim_users d)) d).
Proof.
  intros [Ho Hu Ha Hn Hm Hs] Hc Hb Ht. split; simpl; [done|done|..].
  - intros k u [[_ <-]|[_ ?]]%lookup_insert_Some; eauto.
  - pose proof (user_clash_false _ _ _ _ Hc) as Hc'.
    intros i id1 id2 u1 u2 [[[= -> ->] <-]|[Hne1 H1]]%lookup_insert_Some [[[= ?] ?]|[Hne2 H2]]%lookup_insert_Some Heq.
    + congruence.
    + subst. symmetry. eapply Hc'; [exact H2|]. destruct Heq as [Heq|[Heq1 Heq2]]; [by left|right; by split].
    + simplify_eq. eapply Hc'; [exact H1|]. destruct Heq as [Heq|[Heq1 Heq2]]; [by left|right; split; congruence].
    + eauto.
  - intros i g u [? ?]%Hm. split; [done|]. destruct (decide ((i, u) = (idp, id))) as [->|?];
      [by rewrite lookup_insert_eq|by rewrite lookup_insert_ne].
  - intros i g r' Hr Hnt. apply (synced_frame _ _ _ d); [done| |auto]. apply active_frame; [done|]. simpl.
    intros u Hin. destruct (decide ((i, u) = (idp, id))) as [[= -> ->]|?]; [|by rewrite lookup_insert_ne].
    rewrite lookup_insert_eq. destruct (Ht g Hin) as [HgT|(r0 & -> & H1 & H2)]; [by destruct Hnt|].
    cbn. by rewrite H1, H2.
Qed.

(** Dropping the memberships of touched groups. *)
Lemma scim_mid_drop idp T d (P : string * string * string → Prop) `{!∀ m, Decision (P m)} :
  scim_mid idp T d → (∀ i g u, (i, g, u) ∈ scim_members d → P (i, g, u) → i = idp ∧ g ∈ T) →
  scim_mid idp T (drop_scim_members P d).
Proof.
  intros [Ho Hu Ha Hn Hm Hs] HP. split; simpl; [done|done|done|done|..].
  - intros i g u [_ ?]%elem_of_filter. auto.
  - intros i g r Hr Hnt. apply (synced_frame _ _ _ d); [done| |auto]. apply active_frame; [|done]. simpl.
    intros u. rewrite elem_of_filter. split; [tauto|]. intros Hin. split; [|done]. intros HPu. apply Hnt. eauto.
Qed.

Lemma scim_mid_delete_user idp T d id :
  scim_mid idp T d → (∀ g, (idp, g, id) ∉ scim_members d) →
  scim_mid idp T (set_scim_users (delete (idp, id) (scim_users d)) d).
Proof.
  intros [Ho Hu Ha Hn Hm Hs] Hno. split; simpl; [done|done|..].
  - intros k u [_ ?]%lookup_delete_Some; eauto.
  - intros i id1 id2 u1 u2 [_ ?]%lookup_delete_Some [_ ?]%lookup_delete_Some. eauto.
  - intros i g u Hin. destruct (Hm i g u Hin) as [? ?]. split; [done|].
    rewrite lookup_delete_ne; [done|]. intros [= -> ->]. by apply (Hno g).
  - intros i g r Hr Hnt. apply (synced_frame _ _ _ d); [done| |auto]. apply active_frame; [done|]. simpl.
    intros u Hin. rewrite lookup_delete_ne; [done|]. intros [= -> ->]. by apply (Hno g).
Qed.

(** *** Groups *)

(** Adding a membership to a touched group. *)
Lemma scim_mid_add idp T d g u :
  scim_mid idp T d → g ∈ T → is_Some (scim_groups d !! (idp, g)) → is_Some (scim_users d !! (idp, u)) →
  scim_mid idp T (set_scim_members ({[(idp, g, u)]} ∪ scim_members d) d).
Proof.
  intros [Ho Hu Ha Hn Hm Hs] HgT Hg Hus. split; simpl; [done|done|done|done|..].
  - intros i g' u' [[= -> -> ->]%elem_of_singleton|?]%elem_of_union; eauto.
  - intros i g' r Hr Hnt. apply (synced_frame _ _ _ d); [done| |auto]. apply active_frame; [|done]. simpl.
    intros u'. rewrite elem_of_union, elem_of_singleton. split; [|by right].
    intros [[= -> -> ->]|?]; [by destruct Hnt|done].
Qed.

(** Changes to the Omega group tables that leave the provisioned groups'
    own groups alone, and those of touched groups in existence. *)
Lemma scim_mid_groups idp T d d' :
  scim_mid idp T d → scim_users d' = scim_users d → scim_groups d' = scim_groups d → scim_members d' = scim_members d →
  (∀ k r, scim_groups d !! k = Some r → is_Some (groups d' !! (sg_domain r, sg_grp r))) →
  (∀ i g r, scim_groups d !! (i, g) = Some r → ¬ (i = idp ∧ g ∈ T) →
     ∀ p, group_members d' !! (sg_domain r, sg_grp r, p) = group_members d !! (sg_domain r, sg_grp r, p)) →
  scim_mid idp T d'.
Proof.
  intros [Ho Hu Ha Hn Hm Hs] Eu Eg Em Hown Hmem. split; rewrite ?Eu, ?Eg, ?Em; try done.
  intros i g r Hr Hnt. apply (synced_frame _ _ _ d); [by eapply Hmem| |auto].
  apply active_frame; rewrite ?Em, ?Eu; done.
Qed.

Lemma owned_elsewhere idp T d k k' r r' :
  scim_mid idp T d → scim_groups d !! k = Some r → scim_groups d !! k' = Some r' → k' ≠ k →
  (sg_domain r', sg_grp r') ≠ (sg_domain r, sg_grp r).
Proof. intros H Hr Hr' Hne [= H1 H2]. apply Hne. by eapply (sm_unique _ _ _ H k' k). Qed.

Lemma clear_members_other n g d n' g' p :
  (n', g') ≠ (n, g) → group_members (clear_members n g d) !! (n', g', p) = group_members d !! (n', g', p).
Proof.
  intros Hne. apply option_eq. intros e. rewrite clear_members_lookup. tauto.
Qed.

(** A new provisioned group. *)
Lemma scim_mid_create idp T d id r :
  scim_mid idp T d → id ∈ T → scim_groups d !! (idp, id) = None →
  group_clash (idp, id) (sg_domain r) (sg_grp r) d = false → is_Some (groups d !! (sg_domain r, sg_grp r)) →
  scim_mid idp T (set_scim_groups (<[(idp, id) := r]> (scim_groups d)) d).
Proof.
  intros [Ho Hu Ha Hn Hm Hs] HT Hnone Hc Hg.
  assert (∀ k r', scim_groups d !! k = Some r' → sg_domain r' = sg_domain r → sg_grp r' = sg_grp r → k = (idp, id)) as Hc'.
  { intros k r' Hk H1 H2. apply dec_stable. intros Hne. apply bool_decide_eq_false_1 in Hc. apply Hc.
    apply Exists_exists. exists (k, r'). by rewrite elem_of_map_to_list. }
  split; simpl; [..|done|done| |].
  - intros k r' [[_ <-]|[_ ?]]%lookup_insert_Some; eauto.
  - intros k k' r1 r2 [[<- <-]|[_ H1]]%lookup_insert_Some [[<- <-]|[_ H2]]%lookup_insert_Some E1 E2; eauto.
    symmetry. eauto.
  - intros i g u [[r' ?] ?]%Hm. split; [|done]. rewrite lookup_insert_is_Some. destruct (decide ((idp, id) = (i, g))); eauto.
  - intros i g r' [[[= -> ->] _]|[_ Hr]]%lookup_insert_Some Hnt; [by destruct Hnt|]. by apply Hs.
Qed.

(** A touched group gets another row, and its Omega group another name. *)
Lemma scim_mid_regroup idp T d d1 id r f :
  scim_mid idp T d → id ∈ T → scim_groups d !! (idp, id) = Some r →
  scim_users d1 = scim_users d → scim_groups d1 = scim_groups d → scim_members d1 = scim_members d →
  sg_domain (f r) = sg_domain r → is_Some (groups d1 !! (sg_domain r, sg_grp (f r))) →
  (∀ k r', k ≠ (idp, id) → scim_groups d !! k = Some r' →
     (sg_domain r', sg_grp r') ≠ (sg_domain r, sg_grp (f r)) ∧
     is_Some (groups d1 !! (sg_domain r', sg_grp r')) ∧
     ∀ p, group_members d1 !! (sg_domain r', sg_grp r', p) = group_members d !! (sg_domain r', sg_grp r', p)) →
  scim_mid idp T (set_scim_groups (alter f (idp, id) (scim_groups d1)) d1).
Proof.
  intros [Ho Hu Ha Hn Hm Hs] HT Hr Eu Eg Em Hd Hg Hother.
  assert (alter f (idp, id) (scim_groups d1) = <[(idp, id) := f r]> (scim_groups d)) as ->.
  { rewrite Eg. apply map_eq. intros k. destruct (decide (k = (idp, id))) as [->|?].
    - by rewrite lookup_alter_eq, lookup_insert_eq, Hr.
    - by rewrite lookup_alter_ne, lookup_insert_ne. }
  split; simpl; rewrite ?Eu, ?Em; [..|done|done| |].
  - intros k r' [[_ <-]|[Hne Hk]]%lookup_insert_Some; [by rewrite Hd|].
    by destruct (Hother k r' (not_eq_sym Hne) Hk) as (_ & ? & _).
  - intros k k' r1 r2 [[<- <-]|[Hne1 H1]]%lookup_insert_Some [[<- <-]|[Hne2 H2]]%lookup_insert_Some E1 E2; eauto.
    + destruct (Hother k' r2 (not_eq_sym Hne2) H2) as [[] _]. congruence.
    + destruct (Hother k r1 (not_eq_sym Hne1) H1) as [[] _]. congruence.
  - intros i g u [[r' ?] ?]%Hm. split; [|done]. rewrite lookup_insert_is_Some. destruct (decide ((idp, id) = (i, g))); eauto.
  - intros i g r' [[[= -> ->] _]|[Hne Hk]]%lookup_insert_Some Hnt; [by destruct Hnt|].
    apply (synced_frame _ _ _ d); [by apply (Hother (i, g) _ (not_eq_sym Hne) Hk)| |auto].
    apply active_frame; simpl; rewrite ?Em, ?Eu; done.
Qed.

(** A deleted group takes its Omega group and its memberships with it. *)
Definition deleted_group (idp id : string) (r : scim_group_row) (d : DB) : DB :=
  let d1 := clear_members (sg_domain r) (sg_grp r) d in
  let d2 := set_groups (delete (sg_domain r, sg_grp r) (groups d1)) d1 in
  let d3 := drop_scim_members (λ m, m.1 = (idp, id)) d2 in
  set_scim_groups (delete (idp, id) (scim_groups d3)) d3.

Lemma scim_mid_delete_group idp T d id r :
  scim_mid idp T d → scim_groups d !! (idp, id) = Some r → scim_mid idp (T ∖ {[id]}) (deleted_group idp id r d).
Proof.
  intros Hmid Hr. pose proof Hmid as [Ho Hu Ha Hn Hm Hs].
  assert (∀ k r', k ≠ (idp, id) → scim_groups d !! k = Some r' → (sg_domain r', sg_grp r') ≠ (sg_domain r, sg_grp r)) as Hne
    by (intros k r' Hk Hr'; exact (owned_elsewhere idp T d (idp, id) k r r' Hmid Hr Hr' Hk)).
  split; simpl; [..|done|done| |].
  - intros k r' [Hk Hr']%lookup_delete_Some. rewrite lookup_delete_ne; [by eauto|]. symmetry. by eapply Hne.
  - intros k k' r1 r2 [_ ?]%lookup_delete_Some [_ ?]%lookup_delete_Some. eauto.
  - intros i g u [Hk Hin]%elem_of_filter. destruct (Hm _ _ _ Hin). rewrite lookup_delete_ne by naive_solver. done.
  - intros i g r' [Hk Hr']%lookup_delete_Some Hnt. apply (synced_frame _ _ _ d).
    + intros p. apply clear_members_other. by eapply Hne.
    + apply active_frame; [|done]. intros u. simpl. rewrite elem_of_filter. naive_solver.
    + apply Hs; [done|]. intros [-> ?]. apply Hnt. split; [done|]. apply elem_of_difference.
      split; [done|]. rewrite elem_of_singleton. by intros ->.
Qed.

(** Rebuilding a group puts it in step. *)
Lemma rebuild_lookup idp dom grp id d n g p e :
  group_members (rebuild_members idp dom grp id (clear_members dom grp d)) !! (n, g, p) = Some e ↔
  if decide ((n, g) = (dom, grp)) then e = 0%Z ∧ p ∈ active_principals idp id d
  else group_members d !! (n, g, p) = Some e.
Proof.
  unfold rebuild_members. cbn [group_members set_group_members]. rewrite lookup_union_Some_raw.
  assert (active_principals idp id (clear_members dom grp d) = active_principals idp id d) as -> by done.
  rewrite lookup_gset_to_gmap_Some, lookup_gset_to_gmap_None, !elem_of_map, clear_members_lookup.
  case_decide as E; [injection E as -> ->|]; naive_solver.
Qed.

Lemma scim_mid_sync idp T d id r :
  scim_mid idp T d → scim_groups d !! (idp, id) = Some r →
  scim_mid idp (T ∖ {[id]})
    (rebuild_members idp (sg_domain r) (sg_grp r) id (clear_members (sg_domain r) (sg_grp r) d)).
Proof.
  intros Hmid Hr. pose proof Hmid as [Ho Hu Ha Hn Hm Hs]. split; [done..|].
  intros i g r' Hr' Hnt. destruct (decide ((i, g) = (idp, id))) as [[= -> ->]|Hne].
  - assert (r' = r) as -> by (cbn in Hr'; congruence). intros p e. rewrite rebuild_lookup, decide_True by done. done.
  - assert (synced i g r' d) as H.
    { apply Hs; [done|]. intros [-> ?]. apply Hnt. split; [done|]. apply elem_of_difference.
      split; [done|]. rewrite elem_of_singleton. by intros ->. }
    intros p e. rewrite rebuild_lookup, decide_False; [by apply H|]. by eapply owned_elsewhere.
Qed.

Lemma scim_mid_gone idp T d id :
  scim_mid idp T d → scim_groups d !! (idp, id) = None → scim_mid idp (T ∖ {[id]}) d.
Proof.
  intros [] Hno. split; try done. intros i g r Hr Hnt. apply sm_synced0; [done|]. intros [-> ?]. apply Hnt.
  split; [done|]. apply elem_of_difference. split; [done|]. rewrite elem_of_singleton. intros ->. congruence.
Qed.

(** The invariant with those of the directory and the group tables. *)
Record scim_all (idp : string) (T : gset string) (d : DB) : Prop := {
  sa_mid : scim_mid idp T d;
  sa_group : group_ok d;
  sa_dir : dir_ok d;
}.

Lemma group_ok_same d d' :
  groups d' = groups d → group_members d' = group_members d → group_ok d → group_ok d'.
Proof. intros Hg Hm []. split; rewrite ?Hg, ?Hm; done. Qed.

Lemma dir_ok_same d d' :
  domains d' = domains d → domain_admins d' = domain_admins d → groups d' = groups d → dir_ok d → dir_ok d'.
Proof. intros Hd Ha Hg. apply dir_ok_groups; [done|done|]. rewrite Hg. auto. Qed.

(** A change of the provider's tables only. *)
Lemma scim_all_scim idp T T' d d' :
  scim_all idp T d → scim_mid idp T' d' →
  domains d' = domains d → domain_admins d' = domain_admins d → groups d' = groups d → group_members d' = group_members d →
  scim_all idp T' d'.
Proof. intros [] ? ? ? ? ?. split; [done|by eapply group_ok_same|by eapply dir_ok_same]. Qed.

(** A method keeps the invariant when it succeeds. *)
Definition keeps {A} (idp : string) (m : Scim A) : Prop :=
  ∀ t q a t' q', scim_all idp (touched t) (st_db t) → m (t, q) = (Ok a, (t', q')) →
  scim_all idp (touched t') (st_db t').

Lemma keeps_bind {A B} idp (m : Scim A) (f : A → Scim B) :
  keeps idp m → (∀ a, keeps idp (f a)) → keeps idp (m ≫= f).
Proof. intros Hm Hf t q b t' q' Hok (a & [t1 q1] & H1 & H2)%bind_Ok. eapply Hf; [|done]. by eapply Hm. Qed.

Lemma keeps_ret {A} idp (a : A) : keeps idp (mret a).
Proof. intros t q b t' q' Hok [_ [= <- <-]]%ret_Ok. done. Qed.

Lemma keeps_throw {A} idp e : keeps idp (throw e : Scim A).
Proof. by intros t q b t' q' Hok ?%throw_Ok. Qed.

Lemma keeps_GetUser idp id : keeps idp (GetUser idp id).
Proof. by intros t q u t' q' Hok (r & _ & _ & ->)%GetUser_Ok. Qed.

Lemma keeps_scim_GetGroup idp id : keeps idp (scim_GetGroup idp id).
Proof. by intros t q u t' q' Hok (r & _ & _ & ->)%scim_GetGroup_Ok. Qed.

Lemma boolInt_inj b b' : boolInt b = boolInt b' → b = b'.
Proof. by destruct b, b'. Qed.

Lemma scan_active id r b : su_active r = boolInt b → uActive (scanSCIMUser id r) = b.
Proof. intros H. simpl. rewrite H. by destruct b. Qed.

Lemma keeps_CreateUser idp now rnd u : keeps idp (CreateUser idp now rnd u).
Proof.
  intros t q a t' q' Hok H. unfold CreateUser in H. scim_split H.
  apply orb_false_iff in H as [Hno%bool_decide_eq_false_1 Hc]. apply eq_None_not_Some in Hno.
  eapply scim_all_scim; [done| |done..]. eapply scim_mid_user; [apply Hok|done|done|].
  intros g Hin. apply (sm_member _ _ _ (sa_mid _ _ _ Hok)) in Hin as [_ [? ?]]. congruence.
Qed.

Lemma touchGroupsOf_Ok idp id t q a t' q' :
  touchGroupsOf idp id (t, q) = (Ok a, (t', q')) →
  st_db t' = st_db t ∧ touched t ⊆ touched t' ∧ ∀ g, (idp, g, id) ∈ scim_members (st_db t) → g ∈ touched t'.
Proof.
  intros H. unfold touchGroupsOf in H. scim_split H. split_and!; [done|set_solver|].
  intros g Hin. apply elem_of_union_l, elem_of_list_to_set, list_elem_of_fmap. exists (idp, g, id). split; [done|].
  apply list_elem_of_filter. by rewrite elem_of_elements.
Qed.

Lemma keeps_DeleteUser idp id : keeps idp (DeleteUser idp id).
Proof.
  intros t q a t' q' Hok H. unfold DeleteUser in H.
  apply bind_Ok in H as (u & [t1 q1] & (r & _ & _ & ->)%GetUser_Ok & H).
  apply bind_Ok in H as ([] & [t2 q2] & (Hd & Hsub & Ht)%touchGroupsOf_Ok & H). scim_split H.
  rewrite Hd. eapply scim_all_scim; [done| |done..].
  apply (scim_mid_delete_user idp (touched t2) (drop_scim_members (λ m, m.1.1 = idp ∧ m.2 = id) (st_db t))).
  - apply scim_mid_drop; [eapply scim_mid_touch; [apply Hok|done]|]. intros i g u0 Hin [? ?]; simpl in *; subst. auto.
  - intros g [Hno _]%elem_of_filter. by apply Hno.
Qed.

Lemma set_member_Ok idp g u t q a t' q' :
  set_member idp g u (t, q) = (Ok a, (t', q')) →
  is_Some (scim_users (st_db t) !! (idp, u)) ∧
  t' = set_st_db (set_scim_members ({[(idp, g, u)]} ∪ scim_members (st_db t)) (st_db t)) t.
Proof.
  intros (r & [t1 q1] & Hu & H)%catch_Ok. destruct r as [u'|[]]; try by apply throw_Ok in H.
  apply GetUser_Ok in Hu as (r & Hr & _ & ->). scim_split H. eauto.
Qed.

(** Setting members of an existing group. *)
Lemma setMembers_all idp T g us t q a t' q' :
  scim_all idp T (st_db t) → touched t ⊆ T → T ⊆ {[g]} ∪ touched t → g ∈ T →
  is_Some (scim_groups (st_db t) !! (idp, g)) →
  setMembers idp g us (t, q) = (Ok a, (t', q')) →
  scim_all idp (touched t') (st_db t') ∧ scim_groups (st_db t') = scim_groups (st_db t).
Proof.
  intros Hok HT1 HT2 HgT Hg ([] & [t1 q1] & Hfor & [= -> ->]%modify_Ok)%bind_Ok.
  eapply (for_each_Ok_ind _ (λ _ s, scim_all idp T (st_db s) ∧ scim_groups (st_db s) = scim_groups (st_db t) ∧ touched s = touched t))
    in Hfor as (Hok1 & Hg1 & Ht1); [| by auto |].
  - cbn [st_db touch touched fst] in *. split; [|done]. eapply scim_all_scim; [exact Hok1| |done..].
    eapply scim_mid_touch; [apply Hok1|]. rewrite Ht1. done.
  - clear -Hg HgT. intros u us [s1 r1] [s2 r2] (Hok & Hgs & Ht) [Hu ->]%set_member_Ok. cbn in *. split_and!; [|done|done].
    eapply scim_all_scim; [exact Hok| |done..]. apply scim_mid_add; [apply Hok|done|by rewrite Hgs|done].
Qed.

Lemma alter_insert {K A} `{Countable K} (f : A → A) (k : K) (m : gmap K A) x :
  m !! k = Some x → alter f k m = <[k := f x]> m.
Proof.
  intros Hx. apply map_eq. intros k'. destruct (decide (k' = k)) as [->|?].
  - by rewrite lookup_alter_eq, lookup_insert_eq, Hx.
  - by rewrite lookup_alter_ne, lookup_insert_ne.
Qed.

Lemma keeps_ReplaceUser idp now u : keeps idp (ReplaceUser idp now u).
Proof.
  intros t q a t' q' Hok H. unfold ReplaceUser in H.
  apply bind_Ok in H as (prev & [t1 q1] & (r & Hr & -> & ->)%GetUser_Ok & H).
  apply bind_Ok in H as ([] & [t2 q2] & Hw & H). scim_split Hw.
  apply bind_Ok in H as ([] & [t3 q3] & Ht & [_ [= <- <-]]%ret_Ok).
  rewrite (alter_insert _ _ _ r Hr) in Ht. rename H0 into Hc.
  destruct (sm_active _ _ _ (sa_mid _ _ _ Hok) _ _ Hr) as [b Hb].
  case_decide as Hch; [apply touchGroupsOf_Ok in Ht as (Hd & Hsub & Ht)|apply ret_Ok in Ht as [_ [= <- <-]]].
  - rewrite Hd. eapply scim_all_scim; [done| |done..]. eapply scim_mid_user; [|exact Hc|done|].
    + eapply scim_mid_touch; [apply Hok|done].
    + intros g Hin. left. by apply Ht.
  - eapply scim_all_scim; [done| |done..]. eapply scim_mid_user; [apply Hok|exact Hc|done|].
    intros g Hin. right. exists r. split; [done|]. cbn [user_row su_active su_principal uActive uPrincipal].
    pose proof (scan_active "" r b Hb) as Hab. cbn [uActive scanSCIMUser] in Hab. rewrite Hab in Hch.
    split; [rewrite Hb; f_equal|]; apply dec_stable; naive_solver.
Qed.

Lemma keeps_RemoveAllMembers idp g : keeps idp (RemoveAllMembers idp g).
Proof.
  intros t q a t' q' Hok H. unfold RemoveAllMembers in H. scim_split H.
  eapply scim_all_scim; [done| |done..]. apply scim_mid_drop; [eapply scim_mid_touch; [apply Hok|set_solver]|].
  intros i g' u _ [= -> ->]. set_solver.
Qed.

Lemma keeps_PatchMembers idp g add remove : keeps idp (PatchMembers idp g add remove).
Proof.
  intros t q a t' q' Hok H. unfold PatchMembers in H.
  apply bind_Ok in H as (x & [t1 q1] & (r & Hr & _ & ->)%scim_GetGroup_Ok & H).
  apply bind_Ok in H as ([] & [t2 q2] & Hfor & H).
  apply bind_Ok in H as ([] & [t3 q3] & [= -> ->]%modify_Ok & H).
  set (T := {[g]} ∪ touched t) in *.
  eapply (for_each_Ok_ind _ (λ _ s, scim_all idp T (st_db s) ∧ scim_groups (st_db s) = scim_groups (st_db t) ∧ touched s = touched t))
    in Hfor as (Hok1 & Hg1 & Ht1).
  - cbn [fst snd] in *. assert (touched (touch g t2) = T) as HT by (cbn; by rewrite Ht1).
    apply (setMembers_all idp T) in H as [? _]; [done|done|by rewrite HT|set_solver|set_solver|].
    cbn. by rewrite Hg1, Hr.
  - split_and!; [|done|done]. eapply scim_all_scim; [done| |done..]. eapply scim_mid_touch; [apply Hok|set_solver].
  - intros u us [s1 r1] [s2 r2] (Hok1 & Hgs & Ht) Hx. scim_split Hx. cbn in *. split_and!; [|done|done].
    eapply scim_all_scim; [exact Hok1| |done..]. apply scim_mid_drop; [apply Hok1|].
    intros i g' u' _ [= -> -> _]. set_solver.
Qed.

Lemma keeps_scim_DeleteGroup idp id : keeps idp (scim_DeleteGroup idp id).
Proof.
  intros t q a t' q' Hok H. unfold scim_DeleteGroup in H.
  apply bind_Ok in H as (x & [t1 q1] & (r & Hr & -> & ->)%scim_GetGroup_Ok & H). scim_split H.
  split.
  - apply (scim_mid_delete_group idp (touched t) (st_db t) id r); [apply Hok|done].
  - eapply (group_ok_same _ _); [..|apply (group_ok_remove (sg_domain r) (sg_grp r)), Hok]; done.
  - eapply (dir_ok_groups (st_db t)); [done|done| |apply Hok]. cbn.
    intros n g [? [_ ?]%lookup_delete_Some]. eauto.
Qed.

(** A new group. *)
Lemma keeps_scim_CreateGroup idp now rnd g : keeps idp (scim_CreateGroup idp now rnd g).
Proof.
  intros t q a t' q' Hok H. unfold scim_CreateGroup in H. destruct (ValidateGroupName (cGroup g)) eqn:Hv; [by apply throw_Ok in H|].
  apply bind_Ok in H as ([] & [t1 q1] & (d1 & [Hdom ->]%lockDomain_Ok & ->)%lift_tx_Ok & H).
  apply bind_Ok in H as ([] & [t2 q2] & (d2 & Hins & ->)%lift_tx_Ok & H).
  apply insert_row_Ok in Hins as [Hfree%bool_decide_eq_false_1 Hd2]. apply eq_None_not_Some in Hfree. cbn in Hd2, Hfree. subst d2.
  apply bind_Ok in H as ([] & [t3 q3] & Hcl & H). scim_split Hcl.
  apply bind_Ok in H as ([] & [t4 q4] & Hrow & H). scim_split Hrow. rename H0 into Hnew.
  apply orb_false_iff in Hnew as [Hid%bool_decide_eq_false_1 Hcl]. apply eq_None_not_Some in Hid. cbn in Hid.
  apply bind_Ok in H as ([] & [t5 q5] & Hset & H). apply scim_GetGroup_Ok in H as (_ & _ & _ & ->).
  apply (setMembers_all idp ({[newSCIMID rnd]} ∪ touched t)) in Hset as [? _]; [done| |set_solver|set_solver|set_solver|].
  2:{ cbn. by rewrite lookup_insert_eq. }
  set (d1 := clear_members _ _ _) in *.
  assert (scim_mid idp ({[newSCIMID rnd]} ∪ touched t) d1) as Hmid1.
  { apply (scim_mid_groups _ _ (st_db t)); try done; [eapply scim_mid_touch; [apply Hok|set_solver]|..]; cbn.
    - intros k r Hr. rewrite lookup_insert_is_Some. destruct (decide ((cDomain g, cGroup g) = (sg_domain r, sg_grp r))); [by left|].
      right. split; [done|]. by eapply sm_owns; [apply Hok|].
    - intros i g' r Hr _ p. apply (clear_members_other _ _ (st_db t)). intros E.
      destruct (sm_owns _ _ _ (sa_mid _ _ _ Hok) _ _ Hr) as [? Ho]. rewrite E in Ho. congruence. }
  split; cbn [st_db set_st_db].
  - refine (scim_mid_create idp _ d1 _ (mkScimGroupRow _ _ (cDomain g) (cGroup g) _ _) Hmid1 _ Hid Hcl _); [set_solver|]. cbn. by rewrite lookup_insert_eq.
  - eapply (group_ok_same d1); [done|done|].
    apply (group_ok_clear (cDomain g) (cGroup g)), group_ok_add; [apply Hok|done|apply wrap64_range].
  - eapply (dir_ok_groups (st_db t)); [done|done| |apply Hok]. cbn.
    intros n g' [r [[[= <- <-] _]|[_ ?]]%lookup_insert_Some]; eauto.
Qed.

(** What a renamed Omega group leaves to the other provisioned groups. *)
Record renamed (idp id : string) (r : scim_group_row) (name : string) (d d1 : DB) : Prop := {
  rn_users : scim_users d1 = scim_users d;
  rn_groups : scim_groups d1 = scim_groups d;
  rn_members : scim_members d1 = scim_members d;
  rn_own : is_Some (groups d1 !! (sg_domain r, name));
  rn_other : ∀ k r', k ≠ (idp, id) → scim_groups d !! k = Some r' →
    (sg_domain r', sg_grp r') ≠ (sg_domain r, name) ∧
    is_Some (groups d1 !! (sg_domain r', sg_grp r')) ∧
    ∀ p, group_members d1 !! (sg_domain r', sg_grp r', p) = group_members d !! (sg_domain r', sg_grp r', p);
  rn_group_ok : group_ok d1;
  rn_dir_ok : dir_ok d1;
}.

Lemma renamed_same idp T id r d :
  scim_all idp T d → scim_groups d !! (idp, id) = Some r → renamed idp id r (sg_grp r) d d.
Proof.
  intros Hok Hr. pose proof (sa_mid _ _ _ Hok) as Hmid. split; try apply Hok; try done.
  - by eapply sm_owns.
  - intros k r' Hk Hr'. split_and!; [by eapply owned_elsewhere; [| |exact Hr'|]|by eapply sm_owns|done].
Qed.

Lemma renamed_to idp T id r row name d :
  scim_all idp T d → scim_groups d !! (idp, id) = Some r → ValidateGroupName name = None →
  groups d !! (sg_domain r, sg_grp r) = Some row → groups d !! (sg_domain r, name) = None →
  renamed idp id r name d (clear_members (sg_domain r) (sg_grp r)
    (set_groups (<[(sg_domain r, name) := row]> (delete (sg_domain r, sg_grp r) (groups d))) d)).
Proof.
  intros Hok Hr Hv Hrow Hfree. pose proof (sa_mid _ _ _ Hok) as Hmid. destruct (sa_group _ _ _ Hok) as [Gn Gm].
  split; cbn [groups set_groups clear_members set_group_members]; [done|done|done|by rewrite lookup_insert_eq|..].
  - intros k r' Hk Hr'. pose proof (owned_elsewhere _ _ _ _ _ _ _ Hmid Hr Hr' Hk) as Hne.
    destruct (sm_owns _ _ _ Hmid _ _ Hr') as [row' Hrow'].
    assert ((sg_domain r', sg_grp r') ≠ (sg_domain r, name)) as Hne' by (intros E; rewrite E in Hrow'; congruence).
    split_and!; [done|by rewrite lookup_insert_ne, lookup_delete_ne, Hrow'|].
    intros p. by apply (clear_members_other _ _ (set_groups _ d)).
  - split.
    + cbn. intros n g x [[[= <- <-] <-]|[_ [_ ?]%lookup_delete_Some]]%lookup_insert_Some; [|by eapply Gn].
      split; [done|]. by eapply Gn.
    + intros n g p e [Hne He]%clear_members_lookup. cbn in *. destruct (Gm _ _ _ _ He) as [[x Hx] ?]. split; [|done].
      destruct (decide ((n, g) = (sg_domain r, name))) as [E|Hne']; [by rewrite E, lookup_insert_eq|].
      by rewrite lookup_insert_ne, lookup_delete_ne, Hx by done.
  - eapply (dir_ok_groups d); [done|done| |apply Hok]. cbn.
    intros n g [x [[[= <- <-] _]|[_ [_ ?]%lookup_delete_Some]]%lookup_insert_Some]; [|by eauto].
    right. eapply dok_group; [apply Hok|]. by rewrite Hrow.
Qed.

Lemma rename_owned_Ok idp id r name ms t q a t' q' :
  scim_all idp (touched t) (st_db t) → scim_groups (st_db t) !! (idp, id) = Some r →
  rename_owned (scan_scim_group ms id r) name (t, q) = (Ok a, (t', q')) →
  touched t' = touched t ∧ renamed idp id r name (st_db t) (st_db t').
Proof.
  intros Hok Hr H. unfold rename_owned in H. cbn [cGroup cDomain scan_scim_group] in H. case_decide as Hne.
  - destruct (ValidateGroupName name) eqn:Hv; [by apply throw_Ok in H|]. scim_split H. split; [done|].
    destruct (sm_owns _ _ _ (sa_mid _ _ _ Hok) _ _ Hr) as [row Hrow].
    rename H into Hd. apply bool_decide_eq_false_1 in Hd. unfold rename_group. rewrite Hrow.
    eapply renamed_to; [done|done|done|done|]. apply eq_None_not_Some. intros ?. by apply Hd.
  - subst name. apply ret_Ok in H as [_ [= <- <-]]. split; [done|]. by eapply renamed_same.
Qed.

Lemma keeps_scim_ReplaceGroup idp now g : keeps idp (scim_ReplaceGroup idp now g).
Proof.
  intros t q a t' q' Hok H. unfold scim_ReplaceGroup in H.
  apply bind_Ok in H as (prev & [t1 q1] & (r & Hr & -> & ->)%scim_GetGroup_Ok & H).
  apply bind_Ok in H as ([] & [t2 q2] & Hrn & H). eapply rename_owned_Ok in Hrn as [Ht2 Hrn]; [|done|done].
  apply bind_Ok in H as ([] & [t3 q3] & Hup & H). scim_split Hup.
  apply bind_Ok in H as ([] & [t4 q4] & Hcl & H). scim_split Hcl.
  apply bind_Ok in H as ([] & [t5 q5] & Hset & H). apply scim_GetGroup_Ok in H as (_ & _ & _ & ->).
  destruct Hrn as [Eu Eg Em Hown Hother Hgok Hdok]. set (T := {[cID g]} ∪ touched t).
  apply (setMembers_all idp T) in Hset as [? _]; [done| |cbn; set_solver|cbn; set_solver|set_solver|].
  2:{ cbn. rewrite lookup_alter_eq, Eg, Hr. done. }
  split; cbn [st_db set_st_db].
  - apply scim_mid_drop; [|intros i g' u _ [= -> ->]; set_solver].
    eapply (scim_mid_regroup idp T (st_db t) (st_db t2) (cID g) r); try done; [|set_solver].
    eapply scim_mid_touch; [apply Hok|set_solver].
  - by eapply (group_ok_same (st_db t2)).
  - by eapply (dir_ok_same (st_db t2)).
Qed.

(** *** The rest of the database *)

(** The tables the provisioning methods do not write. *)
Definition rest (d : DB) : DB :=
  set_groups ∅ (set_group_members ∅ (set_scim_users ∅ (set_scim_groups ∅ (set_scim_members ∅ d)))).

Definition frames {A} (m : Scim A) : Prop := ∀ w, rest (st_db (m w).2.1) = rest (st_db w.1).

Lemma frames_bind {A B} (m : Scim A) (f : A → Scim B) : frames m → (∀ a, frames (f a)) → frames (m ≫= f).
Proof.
  intros Hm Hf w. unfold mbind, GoM_bind. specialize (Hm w). destruct (m w) as [[a|e] w1]; [|done].
  by rewrite Hf.
Qed.

Lemma frames_io what : frames (io what).
Proof. intros w. by rewrite io_state. Qed.

Lemma frames_modify f : (∀ t, rest (st_db (f t)) = rest (st_db t)) → frames (modify f).
Proof. intros Hf w. apply Hf. Qed.

Lemma frames_gets {A} (f : SCIMTx → A) : frames (gets f).
Proof. done. Qed.

Lemma frames_ret {A} (a : A) : frames (mret a).
Proof. done. Qed.

Lemma frames_throw {A} e : frames (throw e : Scim A).
Proof. done. Qed.

Lemma frames_query {A} what (f : DB → A) : frames (scim_query what f).
Proof. apply frames_bind; auto using frames_io, frames_gets. Qed.

Lemma frames_exec what f : (∀ d, rest (f d) = rest d) → frames (scim_exec what f).
Proof. intros Hf. apply frames_bind; [apply frames_io|]. intros _. apply frames_modify. intros t. apply Hf. Qed.

Lemma frames_insert what dup e f : (∀ d, rest (f d) = rest d) → frames (scim_insert what dup e f).
Proof.
  intros Hf. apply frames_bind; [apply frames_io|]. intros _. apply frames_bind; [apply frames_gets|].
  intros []; [apply frames_throw|]. apply frames_modify. intros t. apply Hf.
Qed.

Lemma frames_for_each {A} (xs : list A) (f : A → Scim ()) : (∀ x, frames (f x)) → frames (for_each xs f).
Proof. intros Hf. induction xs; simpl; auto using frames_ret, frames_bind. Qed.

Lemma frames_catch {A B} (m : Scim A) (h : result error A → Scim B) : frames m → (∀ r, frames (h r)) → frames (catch m h).
Proof. intros Hm Hh w. unfold catch. specialize (Hm w). destruct (m w) as [r w1]. by rewrite Hh. Qed.

Lemma frames_lift {A} (m : Tx A) : (∀ w, rest (m w).2.1 = rest w.1) → frames (lift_tx m).
Proof. intros Hm [t q]. unfold lift_tx. specialize (Hm (st_db t, q)). by destruct (m (st_db t, q)) as [r [d q']]. Qed.

(** Goes through a method statement by statement. *)
Ltac solve_frames :=
  repeat
    lazymatch goal with
    | |- frames (scim_query _ _) => apply frames_query
    | |- frames (scim_exec _ _) => apply frames_exec
    | |- frames (scim_insert _ _ _ _) => apply frames_insert
    | |- frames (mret _) => apply frames_ret
    | |- frames (throw _) => apply frames_throw
    | |- frames (gets _) => apply frames_gets
    | |- frames (modify _) => apply frames_modify
    | |- frames (mbind _ _) => apply frames_bind
    | |- frames (catch _ _) => apply frames_catch
    | |- frames (for_each _ _) => apply frames_for_each
    | |- frames (if decide _ then _ else _) => case_decide
    | |- frames (match ?x with _ => _ end) => destruct x
    | |- ∀ _, _ => intros ?
    | |- rest _ = rest _ => reflexivity
    end.

Lemma frames_GetUser idp id : frames (GetUser idp id).
Proof. unfold GetUser. solve_frames. Qed.

Lemma frames_scim_GetGroup idp id : frames (scim_GetGroup idp id).
Proof. unfold scim_GetGroup, scim_listGroups. solve_frames. Qed.

Lemma frames_touchGroupsOf idp id : frames (touchGroupsOf idp id).
Proof. unfold touchGroupsOf. solve_frames. Qed.

Lemma frames_CreateUser idp now rnd u : frames (CreateUser idp now rnd u).
Proof. unfold CreateUser. solve_frames. Qed.

Lemma frames_ReplaceUser idp now u : frames (ReplaceUser idp now u).
Proof. unfold ReplaceUser. solve_frames; auto using frames_GetUser, frames_touchGroupsOf. Qed.

Lemma frames_DeleteUser idp id : frames (DeleteUser idp id).
Proof. unfold DeleteUser. solve_frames; auto using frames_GetUser, frames_touchGroupsOf. Qed.

Lemma frames_setMembers idp g us : frames (setMembers idp g us).
Proof. unfold setMembers, set_member. solve_frames; auto using frames_GetUser. Qed.

Lemma lockDomain_state name w : (lockDomain name w).2.1 = w.1.
Proof.
  unfold lockDomain, query, mbind, GoM_bind, gets, io. destruct w as [d [|[f|] q]]; cbn; [|done|];
    by destruct (domains d !! name).
Qed.

Lemma insert_group_rest n g ds t w : rest (insert_group n g ds t w).2.1 = rest w.1.
Proof.
  unfold insert_group, insert_row, mbind, GoM_bind, gets, io. destruct w as [d [|[f|] q]]; cbn; [|done|];
    by destruct (bool_decide _).
Qed.

Lemma frames_scim_CreateGroup idp now rnd g : frames (scim_CreateGroup idp now rnd g).
Proof.
  unfold scim_CreateGroup. destruct (ValidateGroupName _); [apply frames_throw|].
  apply frames_bind; [apply frames_lift; intros w; by rewrite lockDomain_state|intros _].
  apply frames_bind; [apply frames_lift, insert_group_rest|].
  solve_frames; auto using frames_setMembers, frames_scim_GetGroup.
Qed.

Lemma frames_scim_ReplaceGroup idp now g : frames (scim_ReplaceGroup idp now g).
Proof.
  unfold scim_ReplaceGroup, rename_owned.
  solve_frames; auto using frames_setMembers, frames_scim_GetGroup.
  unfold rename_group. by destruct (groups d !! _).
Qed.

Lemma frames_PatchMembers idp g add remove : frames (PatchMembers idp g add remove).
Proof. unfold PatchMembers. solve_frames; auto using frames_setMembers, frames_scim_GetGroup. Qed.

Lemma frames_RemoveAllMembers idp g : frames (RemoveAllMembers idp g).
Proof. unfold RemoveAllMembers. solve_frames. Qed.

Lemma frames_scim_DeleteGroup idp id : frames (scim_DeleteGroup idp id).
Proof. unfold scim_DeleteGroup. solve_frames; auto using frames_scim_GetGroup. Qed.

Lemma frames_syncGroup idp id : frames (syncGroup idp id).
Proof. unfold syncGroup. solve_frames; auto using frames_scim_GetGroup. Qed.

(** ** Whole transactions *)

Lemma syncGroup_Ok idp T id t q a t' q' :
  scim_all idp T (st_db t) → syncGroup idp id (t, q) = (Ok a, (t', q')) → scim_all idp (T ∖ {[id]}) (st_db t').
Proof.
  intros Hok (r & [t1 q1] & Hg & H)%catch_Ok. destruct r as [g|e].
  - apply scim_GetGroup_Ok in Hg as (r & Hr & -> & ->). scim_split H.
    pose proof (scim_mid_sync idp T (st_db t) id r (sa_mid _ _ _ Hok) Hr) as Hmid. split; [done| |].
    + destruct (sa_group _ _ _ Hok) as [Gn Gm]. split; [done|]. intros n g p e.
      cbn [st_db set_st_db]. rewrite rebuild_lookup. case_decide as E; [|by apply Gm].
      intros [-> _]. injection E as -> ->. split; [by eapply (sm_owns _ _ _ (sa_mid _ _ _ Hok))|].
      unfold in_int64, two63. lia.
    + by eapply (dir_ok_same (st_db t)); [..|apply Hok].
  - destruct e; try by apply throw_Ok in H.
    apply scim_GetGroup_NotFound in Hg as [Hno ->]. run_split H.
    destruct Hok as [Hm ? ?]. split; [by apply scim_mid_gone|done|done].
Qed.

(** Rebuilding every touched group leaves none out of step. *)
Lemma sync_all_Ok idp ids t q a t' q' :
  scim_all idp (list_to_set ids) (st_db t) → for_each ids (syncGroup idp) (t, q) = (Ok a, (t', q')) →
  scim_all idp ∅ (st_db t').
Proof.
  intros Hok H. eapply (for_each_Ok_ind _ (λ ids s, scim_all idp (list_to_set ids) (st_db s))) in H; [exact H|exact Hok|].
  intros id ids' [t1 q1] [t2 q2] Hok1 Hs. eapply syncGroup_Ok in Hs; [|exact Hok1]. cbn [fst].
  destruct Hs as [Hm ? ?]. split; [|done|done]. eapply scim_mid_touch; [exact Hm|]. set_solver.
Qed.

Lemma rest_same_audit d d' : rest d' = rest d → same_audit d d'.
Proof. intros H. apply (f_equal (λ d, (audit_log d, audit_seq d, audit_meta d))) in H. by injection H. Qed.

(** A function of the provisioning handlers: it keeps the invariant and
    writes only the provisioning and group tables. *)
Record scim_fn {A} (idp : string) (fn : Scim A) : Prop := {
  sf_keeps : keeps idp fn;
  sf_frames : frames fn;
}.

Lemma scim_all_append idp T kr er now ev d : scim_all idp T d → scim_all idp T (appended_db kr er now ev d).
Proof.
  assert (appended_db kr er now ev d = set_audit_meta (audit_meta (appended_db kr er now ev d))
    (set_audit_seq (audit_seq (appended_db kr er now ev d)) (set_audit_log (audit_log (appended_db kr er now ev d)) d))) as ->.
  { unfold appended_db, record_epoch. by repeat case_match. }
  intros [[] [] []]. split; split; done.
Qed.

(** What a provisioning transaction leaves when it commits. *)
Lemma scim_body_Ok idp s now fn q ev d' q' :
  audit_ok s → scim_all idp ∅ (db s) → scim_fn idp fn →
  in_scim_tx (scim_body idp (auditKeyring s) (keyedEpochRecorded s) now fn) (db s, q) = (Ok (Commit ev), (d', q')) →
  scim_all idp ∅ d' ∧ audit_ok (set_db d' s) ∧
  (Kind ev ≠ "" → is_Some (auditKeyring s) → is_Some (epoch_of d')) ∧
  (∃ w w' e t, fn (mkSCIMTx (db s) ∅, w) = (Ok e, (t, w')) ∧
     if decide (Kind e = "") then ev = e ∧ audit_log d' = audit_log (db s)
     else ev = appended_event (auditKeyring s) now e (db s) ∧ audit_log d' = audit_log (db s) ++ [event_row ev]).
Proof.
  intros Haud Hall [Hkeep Hframe] H. unfold in_scim_tx in H.
  destruct (scim_body _ _ _ _ _ _) as [[ev0|e0] [t q1]] eqn:Hb; [|done]. injection H as -> <- <-.
  unfold scim_body in Hb. apply bind_Ok in Hb as (e & [t1 q2] & Hfn & Hb).
  apply bind_Ok in Hb as (ids & [t2 q3] & [Hids [= -> ->]]%gets_Ok & Hb).
  apply bind_Ok in Hb as ([] & [t3 q4] & Hsync & Hb).
  pose proof (Hkeep (mkSCIMTx (db s) ∅) _ _ _ _ Hall Hfn) as Hall1.
  pose proof (frames_for_each ids (syncGroup idp) (frames_syncGroup idp) (t1, q2)) as Hfr. rewrite Hsync in Hfr.
  pose proof (Hframe (mkSCIMTx (db s) ∅, q)) as Hfr1. rewrite Hfn in Hfr1. cbn [fst snd st_db] in Hfr, Hfr1.
  apply sync_all_Ok in Hsync; [|subst ids; cbn [fst]; destruct Hall1 as [Hm ? ?]; split; [|done|done]].
  2:{ eapply scim_mid_touch; [exact Hm|]. intros x Hx. apply elem_of_list_to_set.
      rewrite sort_strings_Permutation. by apply elem_of_elements. }
  assert (same_audit (db s) (st_db t3)) as Hsame by (apply rest_same_audit; congruence).
  case_decide as Hk.
  - apply lift_tx_Ok in Hb as (d3 & Happ & ->). cbn [st_db set_st_db].
    apply appendAuditTx_commit in Happ as (-> & Hlog & Hok & Hep & ->); [|done|done].
    split_and!; [by apply scim_all_append|done|done|].
    exists q, q2, e, t1. split; [done|]. rewrite decide_False by done. done.
  - apply ret_Ok in Hb as [<- [= <- <-]]. split_and!; [done|by apply audit_ok_same|done|].
    exists q, q2, e, t1. split; [done|]. rewrite decide_True by done. split; [done|]. apply Hsame.
Qed.

Record prov_ok (s : Store) : Prop := {
  po_chain : audit_ok s;
  po_scim : ∀ idp, scim_all idp ∅ (db s);
}.

Lemma scim_all_empty idp idp' d : scim_all idp ∅ d → scim_all idp' ∅ d.
Proof. intros [[] ? ?]. split; [split; try done|done|done]. intros i g r Hr _. apply sm_synced0; [done|]. set_solver. Qed.

Lemma prov_ok_rolled_back s d : prov_ok s → rolled_back (db s) d → prov_ok (set_db d s).
Proof.
  intros [Ha Hs] Hrb. split; [by apply audit_ok_rolled_back|]. intros idp. destruct (Hs idp) as [[] [] []].
  destruct Hrb as (n & _ & ->). split; split; done.
Qed.

(** A provisioning call, whatever fails in it: it is rolled back, or the
    change is in force together with its audit row. *)
Lemma SCIM_cases idp now fn s q r s' q' :
  prov_ok s → scim_fn idp fn → SCIM idp now fn (s, q) = (r, (s', q')) →
  prov_ok s' ∧
  ((is_ok r = false ∧ rolled_back (db s) (db s')) ∨
   (∃ w w' e t ev, fn (mkSCIMTx (db s) ∅, w) = (Ok e, (t, w')) ∧
      (if decide (Kind e = "") then ev = e ∧ audit_log (db s') = audit_log (db s)
       else ev = appended_event (auditKeyring s) now e (db s) ∧ audit_log (db s') = audit_log (db s) ++ [event_row ev]) ∧
      (r = Ok ev ∨ is_ok r = false))).
Proof.
  intros Hok Hfn H. pose proof (rolled_back_refl (db s)).
  apply leader_only_cases in H as [[_ [= -> -> ->]]|[_ H]]; [by auto|].
  erewrite bind_run in H by done.
  apply bind_cases in H as [(a & [s1 q1] & Htx & H)|(e & [s1 q1] & Htx & [= -> -> ->])];
    apply with_tx_cases in Htx as [(d & -> & Hrb & Hr)|(w & d & w0 & a0 & Hb & -> & Hr)].
  - exfalso. destruct (Hr a eq_refl) as (w & w' & Hret). unfold in_scim_tx in Hret.
    by destruct (scim_body _ _ _ _ _ _) as [[ev0|e0] [t1 q2]].
  - destruct Hr as [[= ->]|[? ?]]; [|done].
    apply scim_body_Ok in Hb as (Hall & Haud & Hep & (w1 & w2 & e & t & Hrun & Hev)); [|apply Hok|apply Hok|done].
    assert (∃ s2, (if decide (Kind a0 ≠ "") then auditCommitted else mret ()) (set_db d s, q1) = (Ok tt, (s2, q1)) ∧
      audit_ok s2 ∧ db s2 = d) as (s2 & Hc & Hok2 & Hdb).
    { case_decide as Hk; [|by exists (set_db d s)].
      destruct (auditCommitted_ok (set_db d s) q1 Haud (Hep Hk)) as (s2 & ? & ? & ? & _). eauto. }
    erewrite bind_run in H by done. injection H as <- <- <-. split.
    + split; [done|]. intros idp'. rewrite Hdb. by eapply scim_all_empty.
    + right. exists w1, w2, e, t, a0. rewrite Hdb. auto.
  - split; [by apply prov_ok_rolled_back|by left].
  - apply scim_body_Ok in Hb as (Hall & Haud & Hep & (w1 & w2 & e' & t & Hrun & Hev)); [|apply Hok|apply Hok|done].
    split.
    + split; [done|]. intros idp'. by eapply scim_all_empty.
    + right. exists w1, w2, e', t, a0. split_and!; [done|done|]. destruct Hr as [[=]|[? [= ->]]]; auto.
Qed.
