(* ===== verification/Reach.v ===== *)
(** * Reach

    The store as a whole: every method that writes, by any caller and with
    any faults, and the invariants of all its tables after any number of
    them. The frames say which tables a method cannot touch, so that each
    component's invariant survives the others' writes. *)
From S2P Require Import Prelude Crypto Json AuditKeyring Store Domains AuditChain AuditVerify AuditOnce Groups Policies Scim ScimSync.

(** ** Frames *)

Section frame.
Context {X : Type} (f : DB → X).

(** A transaction's function never changes what [f] reads. *)
Definition tx_frame {A} (m : Tx A) : Prop := ∀ w, f (m w).2.1 = f w.1.

Lemma tf_bind {A B} (m : Tx A) (k : A → Tx B) : tx_frame m → (∀ a, tx_frame (k a)) → tx_frame (m ≫= k).
Proof.
  intros Hm Hk w. unfold mbind, GoM_bind. specialize (Hm w). destruct (m w) as [[a|e] w1]; [|done].
  by rewrite Hk.
Qed.

Lemma tf_ret {A} (a : A) : tx_frame (mret a).
Proof. done. Qed.

Lemma tf_throw {A} e : tx_frame (throw e : Tx A).
Proof. done. Qed.

Lemma tf_gets {A} (g : DB → A) : tx_frame (gets g).
Proof. done. Qed.

Lemma tf_io what : tx_frame (io what).
Proof. intros [d q]. by rewrite io_state. Qed.

Lemma tf_modify g : (∀ d, f (g d) = f d) → tx_frame (modify g).
Proof. intros Hg w. apply Hg. Qed.

Lemma tf_query {A} what (g : DB → A) : tx_frame (query what g).
Proof. apply tf_bind; [apply tf_io|]. intros _. apply tf_gets. Qed.

Lemma tf_exec what g : (∀ d, f (g d) = f d) → tx_frame (exec what g).
Proof. intros Hg. apply tf_bind; [apply tf_io|]. intros _. by apply tf_modify. Qed.

Lemma tf_insert what dup e g : (∀ d, f (g d) = f d) → tx_frame (insert_row what dup e g).
Proof.
  intros Hg. apply tf_bind; [apply tf_io|]. intros _. apply tf_bind; [apply tf_gets|].
  intros []; [apply tf_throw|by apply tf_modify].
Qed.

Lemma tf_for_each {A} (xs : list A) (g : A → Tx ()) : (∀ x, tx_frame (g x)) → tx_frame (for_each xs g).
Proof. intros Hg. induction xs; [apply tf_ret|]. by apply tf_bind. Qed.

Lemma tf_catch {A B} (m : Tx A) (h : result error A → Tx B) : tx_frame m → (∀ r, tx_frame (h r)) → tx_frame (catch m h).
Proof. intros Hm Hh w. unfold catch. specialize (Hm w). destruct (m w) as [r w1]. by rewrite Hh. Qed.

End frame.

(** Decomposes a transaction's function. *)
Ltac solve_tx_frame :=
  repeat lazymatch goal with
  | |- tx_frame _ (match ?x with _ => _ end) => destruct x
  | |- tx_frame _ (mbind _ _) => apply tf_bind; [|intros ?]
  | |- tx_frame _ (mret _) => apply tf_ret
  | |- tx_frame _ (throw _) => apply tf_throw
  | |- tx_frame _ (gets _) => apply tf_gets
  | |- tx_frame _ (io _) => apply tf_io
  | |- tx_frame _ (query _ _) => apply tf_query
  | |- tx_frame _ (modify _) => apply tf_modify; intros ?
  | |- tx_frame _ (exec _ _) => apply tf_exec; intros ?
  | |- tx_frame _ (insert_row _ _ _ _) => apply tf_insert; intros ?
  | |- tx_frame _ (for_each _ _) => apply tf_for_each; intros ?
  | |- tx_frame _ (catch _ _) => apply tf_catch; [|intros ?]
  end; try done; try by case_match.

(** An invariant of what a function does not change survives it. *)
Lemma frame_commits_inv {A X} (f : DB → X) (I : DB → Prop) (body : Tx (tx_end A)) :
  (∀ d d', f d' = f d → I d → I d') → tx_frame f body → commits_inv I body.
Proof. intros HI Hf d q a d' q' Hd H. specialize (Hf (d, q)). rewrite H in Hf. by eapply HI. Qed.

(** The tables of the audit chain and of policies, and those of the
    directory and of provisioning. *)
Definition chain_tables (d : DB) := (audit_log d, audit_seq d, audit_meta d, policies d).
Definition directory_tables (d : DB) :=
  (domains d, domain_admins d, groups d, group_members d, scim_users d, scim_groups d, scim_members d).

Lemma frame_lockDomain {X} (f : DB → X) name : tx_frame f (lockDomain name).
Proof. unfold lockDomain. solve_tx_frame. Qed.

Lemma frame_appendAuditTx kr er now ev : tx_frame directory_tables (appendAuditTx kr er now ev).
Proof. unfold appendAuditTx, insert_audit. solve_tx_frame. Qed.

Lemma frame_appendAuditTx_policies kr er now ev : tx_frame policies (appendAuditTx kr er now ev).
Proof. unfold appendAuditTx, insert_audit. solve_tx_frame. Qed.

(** ** The invariant of the store *)

(** The audit chain verifies, the policies agree with it, the directory is
    a tree, and every provisioned group is in step with its members. *)
Record store_ok (s : Store) : Prop := {
  so_policy : policy_ok s;
  so_scim : ∀ idp, scim_all idp ∅ (db s);
}.

(** What a write of the directory must keep of the chain. *)
Definition chain_inv (s : Store) (d : DB) : Prop :=
  audit_inv (auditKeyring s) d ∧ (keyedEpochRecorded s = true → is_Some (epoch_of d)) ∧ policy_inv d.

#[global] Instance chain_inv_stable s : SeqStable (chain_inv s).
Proof. intros d n (? & ? & ?) Hn. split_and!; [by apply audit_inv_stable|done|by apply policy_inv_stable]. Qed.

Lemma chain_inv_ext s d d' : chain_tables d' = chain_tables d → chain_inv s d → chain_inv s d'.
Proof.
  intros [= Hl Hs Hm Hp] (Ha & He & [Hpp Hpa]). split_and!.
  - by eapply audit_inv_ext.
  - unfold epoch_of. by rewrite Hm.
  - split; rewrite ?Hl; [done|]. intros id. rewrite Hpa. unfold table_digest. by rewrite Hp.
Qed.

Lemma chain_inv_ok s : policy_ok s → chain_inv s (db s).
Proof. intros [[] ?]. split_and!; done. Qed.

Lemma chain_inv_policy_ok s d : policy_ok s → chain_inv s d → policy_ok (set_db d s).
Proof. intros [[] ?] (? & ? & ?). split; [by split|done]. Qed.

Definition scim_inv (d : DB) : Prop := ∀ idp, scim_all idp ∅ d.

Lemma scim_all_ext idp T d d' : directory_tables d' = directory_tables d → scim_all idp T d → scim_all idp T d'.
Proof.
  intros [= H1 H2 H3 H4 H5 H6 H7] [[] [] []].
  split; split; unfold synced in *; rewrite ?H1, ?H2, ?H3, ?H4, ?H5, ?H6, ?H7 in *; try done.
  intros i g r Hr Hn p e. rewrite (sm_synced i g r Hr Hn). by rewrite !elem_of_active, H5, H7.
Qed.

#[global] Instance scim_inv_stable : SeqStable scim_inv.
Proof. intros d n Hd _ idp. by apply (scim_all_ext idp ∅ d). Qed.

(** A method that changes nothing of a store but its database. *)
Definition writes_db {A} (m : M A) : Prop := ∀ s q, ∃ d, (m (s, q)).2.1 = set_db d s.

Lemma writes_db_with_tx {A} lb lc (body : Tx (tx_end A)) : writes_db (with_tx lb lc body).
Proof.
  intros s q. destruct (with_tx lb lc body (s, q)) as [r [s' q']] eqn:E.
  by apply with_tx_cases in E as [(d & -> & _)|(w & d & w' & a & _ & -> & _)]; exists d.
Qed.

Lemma writes_db_throw {A} e : writes_db (throw e : M A).
Proof. intros s q. exists (db s). by rewrite set_db_id. Qed.

Lemma writes_db_ret {A} (a : A) : writes_db (mret a : M A).
Proof. intros s q. exists (db s). by rewrite set_db_id. Qed.

Lemma writes_db_statement {A} what (f : DB → A * DB) : writes_db (statement what f).
Proof.
  intros s q. destruct q as [|[[m|m]|] q]; [by eexists|..]; [exists (db s); by rewrite set_db_id|by eexists..].
Qed.

Lemma writes_db_bind {A B} (m : M A) (k : A → M B) : writes_db m → (∀ a, writes_db (k a)) → writes_db (m ≫= k).
Proof.
  intros Hm Hk s q. unfold mbind, GoM_bind. destruct (Hm s q) as [d Hd].
  destruct (m (s, q)) as [[a|e] [s1 q1]]; simpl in *; subst s1; [|by exists d].
  destruct (Hk a (set_db d s) q1) as [d2 Hd2]. by exists d2.
Qed.

Lemma writes_db_leader_only {A} (m : M A) : writes_db m → writes_db (leader_only m).
Proof.
  intros Hm s q. destruct (IsLeader s) eqn:E.
  - rewrite leader_only_leader by done. apply Hm.
  - rewrite leader_only_follower by done. exists (db s). by rewrite set_db_id.
Qed.

Lemma directory_write_ok {A} (m : M A) s q :
  writes_db m → preserves (chain_inv s) m → preserves scim_inv m →
  store_ok s → store_ok (m (s, q)).2.1.
Proof.
  intros Hw Hc Hs [Hp Hsc]. specialize (Hc s q (chain_inv_ok s Hp)). specialize (Hs s q Hsc).
  destruct (Hw s q) as [d Hd]. rewrite Hd in *. split; [by apply chain_inv_policy_ok|done].
Qed.

(** ** Groups *)

Lemma managed_by_None n g d :
  managed_by n g d = None → ∀ k r, scim_groups d !! k = Some r → ¬ (sg_domain r = n ∧ sg_grp r = g).
Proof.
  unfold managed_by. intros Hm k r Hk Hr.
  assert ((k, r) ∈ filter (λ r, sg_domain r.2 = n ∧ sg_grp r.2 = g) (map_to_list (scim_groups d))) as Hin.
  { apply list_elem_of_filter. by rewrite elem_of_map_to_list. }
  destruct (filter _ _); [by apply not_elem_of_nil in Hin|done].
Qed.

Lemma group_change_tables d d' :
  group_change d d' → chain_tables d' = chain_tables d ∧
  scim_users d' = scim_users d ∧ scim_groups d' = scim_groups d ∧ scim_members d' = scim_members d.
Proof. by intros []; try rewrite put_members_frame. Qed.

Lemma put_members_other n g ms d n' g' p :
  (n', g') ≠ (n, g) → group_members (put_members n g ms d) !! (n', g', p) = group_members d !! (n', g', p).
Proof.
  intros Hne. revert d. induction ms as [|m ms IH]; intros d; [done|]. simpl. rewrite IH. simpl.
  apply lookup_insert_ne. naive_solver.
Qed.

(** A group no provider owns: the group tables change only there. *)
Lemma group_change_elsewhere d d' :
  group_change d d' →
  ∃ n g, (groups d !! (n, g) = None ∨ managed_by n g d = None) ∧
    (∀ n' g', (n', g') ≠ (n, g) → groups d' !! (n', g') = groups d !! (n', g')) ∧
    (∀ n' g' p, (n', g') ≠ (n, g) → group_members d' !! (n', g', p) = group_members d !! (n', g', p)).
Proof.
  intros [n g ds t _ _ _ Hn|n g Hm|n g Hm _|n g p e Hm _ _|n g p Hm|n g ds t ms _ _ _ Hn]; exists n, g.
  - split_and!; [by left|by intros; apply lookup_insert_ne|]. intros. by rewrite <-(clear_members_other n g d).
  - split_and!; [by right|by intros; apply lookup_delete_ne|]. intros. by rewrite clear_members_other.
  - split_and!; [by right|by intros; apply lookup_delete_ne|done].
  - split_and!; [by right|done|]. intros n' g' p' Hne. apply lookup_insert_ne. naive_solver.
  - split_and!; [by right|done|]. intros n' g' p' Hne. apply lookup_delete_ne. naive_solver.
  - split_and!; [by left| |].
    + intros n' g' Hne. rewrite put_members_frame. by apply lookup_insert_ne.
    + intros n' g' p Hne. by rewrite put_members_other.
Qed.

(** The group API keeps the provisioned groups in step: it refuses those a
    provider owns. *)
Lemma group_change_scim d d' : group_change d d' → scim_inv d → scim_inv d'.
Proof.
  intros Hc Hd idp. destruct (Hd idp) as [Hm Hg Ht].
  destruct (group_change_tables d d' Hc) as (_ & Hu & Hgr & Hme).
  destruct (group_change_elsewhere d d' Hc) as (n & g & Hfree & Hgrp & Hmem).
  assert (∀ k r, scim_groups d !! k = Some r → (sg_domain r, sg_grp r) ≠ (n, g)) as Hother.
  { intros k r Hk [= Ed Eg]. destruct Hfree as [Hfree|Hfree].
    - destruct (sm_owns _ _ _ Hm k r Hk) as [x Hx]. rewrite Ed, Eg in Hx. congruence.
    - by apply (managed_by_None n g d Hfree k r Hk). }
  split; [|by eapply group_change_ok|by eapply group_change_dir_ok].
  apply (scim_mid_groups idp ∅ d); [done..| |].
  - intros k r Hk. rewrite Hgrp by eauto. by apply (sm_owns _ _ _ Hm k).
  - intros i id r Hr _ p. apply Hmem. eauto.
Qed.

Lemma group_change_chain s d d' : group_change d d' → chain_inv s d → chain_inv s d'.
Proof. intros [Hc _]%group_change_tables. by apply chain_inv_ext. Qed.

(** ** Domains *)

(** What a write of the domain tables does not change. *)
Definition but_domains (d : DB) := set_domains ∅ (set_domain_admins ∅ d).

Lemma frame_create_domain d : tx_frame but_domains (create_domain_tx d).
Proof. unfold create_domain_tx, insert_admin. solve_tx_frame; apply frame_lockDomain. Qed.

Lemma frame_delete_domain name : tx_frame but_domains (delete_domain_tx name).
Proof. unfold delete_domain_tx. solve_tx_frame; apply frame_lockDomain. Qed.

Lemma frame_add_admin domain principal : tx_frame but_domains (add_admin_tx domain principal).
Proof. unfold add_admin_tx. solve_tx_frame; apply frame_lockDomain. Qed.

Lemma but_domains_chain s d d' : but_domains d' = but_domains d → chain_inv s d → chain_inv s d'.
Proof. intros H. apply chain_inv_ext. apply (f_equal chain_tables) in H. exact H. Qed.

(** The provisioning invariant, when the domain tables were written. *)
Lemma but_domains_scim d d' : but_domains d' = but_domains d → dir_ok d' → scim_inv d → scim_inv d'.
Proof.
  intros H Hdir Hd idp. destruct (Hd idp) as [Hm Hg Ht].
  apply (f_equal (λ d, (groups d, group_members d, scim_users d, scim_groups d, scim_members d))) in H.
  injection H as H1 H2 H3 H4 H5.
  split; [|by eapply group_ok_same|done]. apply (scim_mid_groups idp ∅ d); rewrite ?H1, ?H2; try done.
  intros k r Hk. by apply (sm_owns _ _ _ Hm k).
Qed.

Lemma scim_inv_dir d : scim_inv d → dir_ok d.
Proof. intros H. apply (H ""). Qed.

(** The database is the one before but for the domain tables and sequence
    values that were drawn. *)
Definition framed (d0 d : DB) : Prop :=
  ∃ n, (audit_seq d0 <= n)%Z ∧ but_domains d = but_domains (set_audit_seq n d0).

#[global] Instance framed_stable d0 : SeqStable (framed d0).
Proof.
  intros d n (m & Hm & E) Hn. exists n. apply (f_equal (λ d, (set_audit_seq n d, audit_seq d))) in E.
  injection E as E1 E2. simpl in *. split; [lia|]. unfold but_domains, set_audit_seq, set_domains, set_domain_admins in *. simpl in *. congruence.
Qed.

Lemma framed_ext d0 d d' : but_domains d' = but_domains d → framed d0 d → framed d0 d'.
Proof. intros E (n & Hn & E'). exists n. split; [done|congruence]. Qed.

Lemma domain_write_ok {A} (m : M A) s q :
  writes_db m → preserves dir_ok m → (∀ d0, preserves (framed d0) m) →
  store_ok s → store_ok (m (s, q)).2.1.
Proof.
  intros Hw Hdir Hfr [Hp Hsc]. destruct (Hw s q) as [d Hd].
  assert (framed (db s) (db s)) as Hf0 by (exists (audit_seq (db s)); by rewrite set_audit_seq_id).
  specialize (Hdir s q (scim_inv_dir _ Hsc)). specialize (Hfr (db s) s q Hf0). rewrite Hd in *. simpl in *.
  destruct Hfr as (n & Hn & E). split.
  - apply chain_inv_policy_ok; [done|]. eapply but_domains_chain; [exact E|].
    apply seq_stable; [by apply chain_inv_ok|done].
  - eapply but_domains_scim; [exact E|done|]. by apply (seq_stable (I := scim_inv)).
Qed.

Lemma frame_framed {A} (body : Tx (tx_end A)) d0 : tx_frame but_domains body → commits_inv (framed d0) body.
Proof. apply frame_commits_inv, framed_ext. Qed.

Lemma CreateDomain_ok now d s q : store_ok s → store_ok (CreateDomain now d (s, q)).2.1.
Proof.
  apply domain_write_ok; [|apply CreateDomain_preserves|intros d0]; unfold CreateDomain.
  - apply writes_db_leader_only. destruct (ValidateDomainName _); [apply writes_db_throw|]. cbv zeta.
    case_decide; [apply writes_db_throw|apply writes_db_with_tx].
  - apply leader_only_preserves. destruct (ValidateDomainName _); [apply throw_preserves|]. cbv zeta.
    case_decide; [apply throw_preserves|]. apply with_tx_preserves; [apply _|]. apply frame_framed, frame_create_domain.
Qed.

Lemma DeleteDomain_ok name s q : store_ok s → store_ok (DeleteDomain name (s, q)).2.1.
Proof.
  apply domain_write_ok; [|apply DeleteDomain_preserves|intros d0].
  - apply writes_db_leader_only, writes_db_with_tx.
  - apply leader_only_preserves, with_tx_preserves; [apply _|]. apply frame_framed, frame_delete_domain.
Qed.

Lemma AddDomainAdmin_ok n p s q : store_ok s → store_ok (AddDomainAdmin n p (s, q)).2.1.
Proof.
  apply domain_write_ok; [|apply AddDomainAdmin_preserves|intros d0].
  - apply writes_db_leader_only, writes_db_with_tx.
  - apply leader_only_preserves, with_tx_preserves; [apply _|]. apply frame_framed, frame_add_admin.
Qed.

Lemma RemoveDomainAdmin_ok n p s q : store_ok s → store_ok (RemoveDomainAdmin n p (s, q)).2.1.
Proof.
  apply domain_write_ok; [|apply RemoveDomainAdmin_preserves|intros d0].
  - apply writes_db_leader_only, writes_db_bind; [apply writes_db_statement|].
    intros []; [apply writes_db_ret|apply writes_db_throw].
  - apply leader_only_preserves, bind_preserves; [|intros []; auto with omega].
    apply statement_preserves. intros d. by apply framed_ext.
Qed.

(** ** Groups, by the method *)

Lemma group_write_ok {A} (m : M A) s q :
  writes_db m → (∀ I, SeqStable I → (∀ d d', group_change d d' → I d → I d') → preserves I m) →
  store_ok s → store_ok (m (s, q)).2.1.
Proof.
  intros Hw Hm. apply directory_write_ok; [done|..]; apply Hm; try apply _.
  - apply group_change_chain.
  - apply group_change_scim.
Qed.

(** ** Appends and policy changes *)

(** [d] agrees with [d0] on what [f] reads. *)
Definition same_as {X} (f : DB → X) (d0 d : DB) : Prop := f d = f d0.

Lemma auditCommitted_preserves I : preserves I auditCommitted.
Proof. intros s q Hd. unfold auditCommitted, modify. simpl. by destruct (auditKeyring s). Qed.

Section same.
Context {X : Type} (f : DB → X).
Context (Hseq : ∀ n d, f (set_audit_seq n d) = f d) (Honce : ∀ m d, f (set_audit_once m d) = f d).
Context (Hcommit : ∀ kr er now ev, tx_frame f (appendAuditTx kr er now ev)).

Lemma with_tx_same {A} lb lc (body : Tx (tx_end A)) d0 : tx_frame f body → preserves (same_as f d0) (with_tx lb lc body).
Proof.
  intros Hb. apply with_tx_preserves; [intros d n Hd _; unfold same_as in *; by rewrite Hseq|].
  eapply frame_commits_inv; [|exact Hb]. unfold same_as. congruence.
Qed.

Lemma AppendAudit_same d0 now ev : preserves (same_as f d0) (AppendAudit now ev).
Proof.
  apply leader_only_preserves. case_decide; [apply throw_preserves|]. apply bind_preserves; [apply gets_preserves|]. intros s.
  apply bind_preserves; [|intros ?; apply bind_preserves; [apply auditCommitted_preserves|intros; apply ret_preserves]].
  apply with_tx_same, tf_bind; [done|]. intros. apply tf_ret.
Qed.

Lemma ChangePolicy_same d0 now now' id change :
  (∀ m d, f (set_policies m d) = f d) → preserves (same_as f d0) (ChangePolicy now now' id change).
Proof.
  intros Hpol. apply leader_only_preserves, bind_preserves; [apply gets_preserves|]. intros s.
  apply bind_preserves; [|intros ?; apply bind_preserves; [apply auditCommitted_preserves|intros; apply ret_preserves]].
  apply with_tx_same. unfold change_policy_tx, insert_policy, update_policy. solve_tx_frame.
Qed.

Lemma prune_once_same d0 now : preserves (same_as f d0) (prune_once now).
Proof.
  apply bind_preserves; [apply gets_preserves|]. intros s. case_decide; [|apply ret_preserves].
  apply bind_preserves; [by apply modify_preserves|]. intros _. apply catch_preserves; [|intros; apply ret_preserves].
  apply statement_preserves. intros d Hd. unfold same_as in *. simpl. by rewrite Honce.
Qed.

Lemma AppendAuditOnce_same d0 now key ev : preserves (same_as f d0) (AppendAuditOnce now key ev).
Proof.
  apply leader_only_preserves. case_decide; [apply throw_preserves|]. apply bind_preserves; [apply gets_preserves|]. intros s.
  apply bind_preserves.
  - apply with_tx_same. unfold append_once_tx. solve_tx_frame.
  - intros []; repeat (apply bind_preserves; [auto using auditCommitted_preserves, prune_once_same|intros ?]); apply ret_preserves.
Qed.

End same.

Lemma same_directory_scim d0 d : same_as directory_tables d0 d → scim_inv d0 → scim_inv d.
Proof. intros H Hs idp. by apply (scim_all_ext idp ∅ d0). Qed.

(** ** Provisioning *)

(** A provisioning call whose event is no policy event. *)
Record scim_call (idp : string) (fn : Scim AuditEvent) : Prop := {
  sc_fn : scim_fn idp fn;
  sc_event : ∀ w e w', fn w = (Ok e, w') → other_event e;
}.

Section provisioning.
Context {X : Type} (f : DB → X).
Context (Hrest : ∀ d d', rest d' = rest d → f d' = f d) (Hseq : ∀ n d, f (set_audit_seq n d) = f d).
Context (Hcommit : ∀ kr er now ev, tx_frame f (appendAuditTx kr er now ev)).

Lemma frame_in_scim_tx idp kr er now fn :
  frames fn → tx_frame f (in_scim_tx (scim_body idp kr er now fn)).
Proof.
  intros Hfn [d q]. unfold in_scim_tx. cbn [fst snd].
  assert (∀ w, f (st_db (scim_body idp kr er now fn w).2.1) = f (st_db w.1)) as Hb.
  { intros w. unfold scim_body, mbind, GoM_bind. pose proof (Hrest _ _ (Hfn w)) as H1.
    destruct (fn w) as [[ev|e] [t1 q1]]; [|done]. cbn [gets fst snd] in *.
    set (ids := sort_strings _). pose proof (Hrest _ _ (frames_for_each ids (syncGroup idp) (frames_syncGroup idp) (t1, q1))) as H2.
    destruct (for_each ids (syncGroup idp) (t1, q1)) as [[u|e] [t2 q2]]; cbn [fst snd] in *; [|congruence].
    case_decide; [|cbn; congruence].
    pose proof (Hcommit kr er now ev (st_db t2, q2)) as H3. unfold lift_tx.
    destruct (appendAuditTx kr er now ev (st_db t2, q2)) as [r [d3 q3]]. cbn in *. congruence. }
  specialize (Hb (mkSCIMTx d ∅, q)). by destruct (scim_body idp kr er now fn (mkSCIMTx d ∅, q)) as [r [t q']].
Qed.

Lemma SCIM_same d0 idp now fn : frames fn → preserves (same_as f d0) (SCIM idp now fn).
Proof using Hrest Hseq Hcommit.
  intros Hfn. apply leader_only_preserves, bind_preserves; [apply gets_preserves|]. intros s. apply bind_preserves.
  - apply with_tx_same; [done|]. by apply frame_in_scim_tx.
  - intros ev. apply bind_preserves; [|intros; apply ret_preserves].
    case_decide; [apply auditCommitted_preserves|apply ret_preserves].
Qed.

End provisioning.

Lemma SCIM_policies d0 idp now fn : frames fn → preserves (same_as policies d0) (SCIM idp now fn).
Proof.
  apply SCIM_same; [|done|apply frame_appendAuditTx_policies]. intros d d' H. apply (f_equal policies) in H. exact H.
Qed.

Lemma SCIM_ok idp now fn s q : scim_call idp fn → store_ok s → store_ok (SCIM idp now fn (s, q)).2.1.
Proof.
  intros [Hfn Hev] [[Ha Hp] Hs]. pose proof (SCIM_policies (db s) idp now fn (sf_frames _ _ Hfn) s q eq_refl) as Hpol.
  destruct (SCIM idp now fn (s, q)) as [r [s' q']] eqn:E. cbn [fst snd] in *.
  apply SCIM_cases in E as [[Ha' Hs'] Hc]; [|by split|done]. split; [split; [done|]|done].
  destruct Hc as [[_ Hrb]|(w & w' & e & t & ev & Hrun & Hlog & _)]; [by eapply policy_inv_rolled_back|].
  unfold same_as in Hpol. case_decide as Hk.
  - destruct Hlog as [_ Hlog]. destruct Hp as [Hp1 Hp2]. split; rewrite Hlog; [done|]. intros id. rewrite Hp2. unfold table_digest. by rewrite Hpol.
  - destruct Hlog as [-> Hlog]. eapply policy_inv_other; [done|exact Hlog|done|]. apply (Hev _ _ _ Hrun).
Qed.

(** ** Every write *)

(** What can happen to the store: any write method, with any arguments, at
    any time and with any faults. A group is only ever restored as it was
    deleted, so with a valid name; policy events come from policy changes. *)
Inductive store_write (s : Store) : Store → Prop :=
| ss_policy s' : policy_step s s' → store_write s s'
| ss_create_domain now d q : store_write s (CreateDomain now d (s, q)).2.1
| ss_delete_domain n q : store_write s (DeleteDomain n (s, q)).2.1
| ss_add_admin n p q : store_write s (AddDomainAdmin n p (s, q)).2.1
| ss_remove_admin n p q : store_write s (RemoveDomainAdmin n p (s, q)).2.1
| ss_create_group now g q : store_write s (CreateGroup now g (s, q)).2.1
| ss_delete_group n g q : store_write s (DeleteGroup n g (s, q)).2.1
| ss_delete_empty_group n g q : store_write s (DeleteEmptyGroup n g (s, q)).2.1
| ss_restore_group g q : ValidateGroupName (gName g) = None → store_write s (RestoreGroup g (s, q)).2.1
| ss_put_member n g m q : store_write s (PutGroupMember n g m (s, q)).2.1
| ss_remove_member n g p q : store_write s (RemoveGroupMember n g p (s, q)).2.1
| ss_swap_member n g p expect want q : store_write s (SwapGroupMember n g p expect want (s, q)).2.1
| ss_scim idp now fn q : scim_call idp fn → store_write s (SCIM idp now fn (s, q)).2.1.

(** The writes above, and the appends that go by a key. *)
Inductive store_step (s : Store) : Store → Prop :=
| ss_write s' : store_write s s' → store_step s s'
| ss_append_once now key ev q : clock_ok now → other_event ev → store_step s (AppendAuditOnce now key ev (s, q)).2.1.

Lemma policy_step_store s s' : policy_step s s' → store_ok s → store_ok s'.
Proof.
  intros Hst [Hp Hs]. split; [by eapply policy_step_ok|]. eapply same_directory_scim; [|exact Hs].
  destruct Hst; [apply (ChangePolicy_same directory_tables)..|apply (AppendAudit_same directory_tables)];
    first [done|apply frame_appendAuditTx].
Qed.

Lemma append_once_store now key ev s q :
  clock_ok now → other_event ev → store_ok s → store_ok (AppendAuditOnce now key ev (s, q)).2.1.
Proof.
  intros Hc Hev [[Ha Hp] Hs].
  assert (same_as directory_tables (db s) (db (AppendAuditOnce now key ev (s, q)).2.1)) as Hd
    by (apply AppendAuditOnce_same; first [done|apply frame_appendAuditTx]).
  assert (same_as policies (db s) (db (AppendAuditOnce now key ev (s, q)).2.1)) as Hpol
    by (apply AppendAuditOnce_same; first [done|apply frame_appendAuditTx_policies]).
  destruct (AppendAuditOnce now key ev (s, q)) as [r [s' q']] eqn:E. cbn [fst snd] in *.
  apply AppendAuditOnce_step in E as [Ha' Hst]; [|done|done].
  split; [split; [done|]|by eapply same_directory_scim]. unfold same_as in Hpol.
  assert (∀ ev', (records ev ev' ∨ evDecision ev' = "error") → audit_log (db s') = audit_log (db s) ++ [event_row ev'] →
    policy_inv (db s')) as Hrow.
  { intros ev' Hr Hl. eapply policy_inv_other; [done|exact Hl|done|]. unfold is_policy_row. cbn.
    destruct Hr as [[Hk _ _ Hdec _]|Hdec]; [rewrite Hk, Hdec; exact Hev|]. rewrite Hdec. by intros [_ ?]. }
  destruct Hst as [Hl _ _|Hl _ _ _|seen ev' _ _ _ Hr Hl _|ev' _ _ Hr Hl _].
  - destruct Hp as [Hp1 Hp2]. split; rewrite Hl; [done|]. intros id. rewrite Hp2. unfold table_digest. by rewrite Hpol.
  - destruct Hp as [Hp1 Hp2]. split; rewrite Hl; [done|]. intros id. rewrite Hp2. unfold table_digest. by rewrite Hpol.
  - apply (Hrow ev'); [|done]. right. by rewrite (rec_decision _ _ Hr).
  - apply (Hrow ev'); [by left|done].
Qed.

Lemma store_write_ok s s' : store_write s s' → store_ok s → store_ok s'.
Proof.
  intros []; [by eapply policy_step_store|apply CreateDomain_ok|apply DeleteDomain_ok|apply AddDomainAdmin_ok|
    apply RemoveDomainAdmin_ok|..|by apply SCIM_ok]; apply group_write_ok;
    try (apply writes_db_leader_only; first [apply writes_db_with_tx|destruct (ValidateGroupName _); [apply writes_db_throw|apply writes_db_with_tx]]);
    intros I HI Hc; auto using CreateGroup_change, DeleteGroup_change, PutGroupMember_change, RemoveGroupMember_change,
      SwapGroupMember_change, DeleteEmptyGroup_change, RestoreGroup_change.
Qed.

Lemma store_step_ok s s' : store_step s s' → store_ok s → store_ok s'.
Proof. intros []; [by apply store_write_ok|by apply append_once_store]. Qed.

Lemma new_store_ok drv kr :
  (∀ k, kr = Some k → keyring_ok k) → store_ok (UseAuditKeyring kr (new_store drv)).
Proof.
  intros Hk. split; [split|].
  - by apply audit_ok_new.
  - split; [constructor|done].
  - intros idp. split; split; simpl; intros; repeat match goal with H : is_Some _ |- _ => destruct H end; done.
Qed.

(** A method followed by its event. *)
Lemma scim_call_of {A} idp (m : Scim A) (ev : A → AuditEvent) :
  keeps idp m → frames m → (∀ a, other_event (ev a)) → scim_call idp (a ← m; mret (ev a)).
Proof.
  intros Hk Hf Hev. split; [split|].
  - apply keeps_bind; [done|]. intros a. apply keeps_ret.
  - apply frames_bind; [done|]. intros a. apply frames_ret.
  - intros w e w' (a & w1 & _ & [<- _]%ret_Ok)%bind_Ok. apply Hev.
Qed.

(** ** Properties *)



(** *** Witnesses *)

Definition hire (rnd : string) : Scim AuditEvent :=
  u ← CreateUser "okta" 20 rnd (mkSCIMUser "" "alice" "" "Alice" true "spiffe://td/alice" 0 0);
  mret (new_event "scim.user.create" "okta" (uID u) "ok" None).

Lemma hire_call rnd : scim_call "okta" (hire rnd).
Proof.
  apply scim_call_of; [apply keeps_CreateUser|apply frames_CreateUser|]. intros u [[H|[H|H]] _]; discriminate H.
Qed.

Definition start_store : Store := UseAuditKeyring None (new_store driverSQLite).

Definition org_created : Store := (CreateDomain 1 org (start_store, [])).2.1.
Definition hired : Store := (SCIM "okta" 30 (hire "0123456789abcdef") (org_created, [])).2.1.


