(* ===== verification/Ledger.v ===== *)
(** * Ledger

    The audit chain as a client sees it while others use the store too:
    every write method only ever appends to the chain, and none but
    [AppendAuditOnce] itself remembers a key. *)
From S2P Require Import Prelude Crypto Json AuditKeyring Store Domains AuditChain AuditVerify AuditOnce.
From S2P Require Import Groups Policies Scim ScimSync Reach.

(** From [d] to [d'] rows were only appended, and of the keys in [K] some
    may have been forgotten, but none is new. *)
Record kept (K : string → Prop) (d d' : DB) : Prop := {
  kept_log : audit_log d `prefix_of` audit_log d';
  kept_once : ∀ k r, K k → audit_once d' !! k = Some r → audit_once d !! k = Some r;
}.

Lemma kept_refl K d : kept K d d.
Proof. by split. Qed.

Lemma kept_trans K d1 d2 d3 : kept K d1 d2 → kept K d2 d3 → kept K d1 d3.
Proof. intros [Hl1 Ho1] [Hl2 Ho2]. split; [by etrans|eauto]. Qed.

Lemma kept_rolled_back K d d' : rolled_back d d' → kept K d d'.
Proof. by intros (n & _ & ->). Qed.

(** ** Appending once *)

(** The keys other than [key], none of them new. *)
Definition no_new_key (key : string) (d0 d : DB) : Prop :=
  ∀ k r, k ≠ key → audit_once d !! k = Some r → audit_once d0 !! k = Some r.

#[global] Instance no_new_key_stable key d0 : SeqStable (no_new_key key d0).
Proof. by intros d n H _. Qed.

Lemma frame_appendAuditTx_once kr er now ev : tx_frame audit_once (appendAuditTx kr er now ev).
Proof. unfold appendAuditTx, insert_audit. solve_tx_frame. Qed.

Lemma no_new_key_delete key d0 d d' :
  delete key (audit_once d') = delete key (audit_once d) → no_new_key key d0 d → no_new_key key d0 d'.
Proof.
  intros E H k r Hk Hr. apply (H k r Hk). rewrite <-Hr. apply (f_equal (lookup k)) in E.
  by rewrite !lookup_delete_ne in E by done.
Qed.

Lemma frame_append_once kr er now key ev : tx_frame (delete key ∘ audit_once) (append_once_tx kr er now key ev).
Proof.
  unfold append_once_tx. assert (∀ ev, tx_frame (delete key ∘ audit_once) (appendAuditTx kr er now ev)) as Ha.
  { intros e w. unfold compose. by rewrite frame_appendAuditTx_once. }
  solve_tx_frame; try apply Ha. unfold compose. simpl. apply delete_insert_eq.
Qed.

Lemma prune_once_keys key d0 now : preserves (no_new_key key d0) (prune_once now).
Proof.
  apply bind_preserves; [apply gets_preserves|]. intros s. case_decide; [|apply ret_preserves].
  apply bind_preserves; [by apply modify_preserves|]. intros _. apply catch_preserves; [|intros; apply ret_preserves].
  apply statement_preserves. intros d Hd k r Hk. simpl. intros [Hr _]%map_lookup_filter_Some. by apply (Hd k).
Qed.

Lemma AppendAuditOnce_keys now key ev d0 : preserves (no_new_key key d0) (AppendAuditOnce now key ev).
Proof.
  apply leader_only_preserves. case_decide; [apply throw_preserves|]. apply bind_preserves; [apply gets_preserves|]. intros s.
  apply bind_preserves.
  - apply with_tx_preserves; [apply _|]. eapply frame_commits_inv; [|apply (frame_append_once _ _ _ key)].
    intros d d'. apply no_new_key_delete.
  - intros []; repeat (apply bind_preserves; [auto using auditCommitted_preserves, prune_once_keys|intros ?]); apply ret_preserves.
Qed.

(** An append under a key outside [K]. *)
Lemma AppendAuditOnce_kept (K : string → Prop) now key ev s q r s' q' :
  audit_ok s → clock_ok now → (∀ k, K k → k ≠ key) →
  AppendAuditOnce now key ev (s, q) = (r, (s', q')) → kept K (db s) (db s').
Proof.
  intros Hok Hnow HK H. pose proof (AppendAuditOnce_keys now key ev (db s) s q (λ _ _ _ Hr, Hr)) as Hk. rewrite H in Hk.
  split; [|intros k x Hx; apply (Hk k x); auto].
  apply AppendAuditOnce_step in H as [_ [Hl|Hl|? ? _ _ _ _ Hl|? _ _ _ Hl]];
    try done; rewrite Hl; by first [done|apply prefix_app_r].
Qed.

(** ** Every other write *)

Definition audit_tables (d : DB) := (audit_log d, audit_once d).

Lemma same_kept K d d' : same_as audit_tables d d' → kept K d d'.
Proof. intros [= Hl Ho]. split; [by rewrite Hl|intros k r _; by rewrite Ho]. Qed.

Lemma preserves_kept {A} K (m : M A) s q :
  (∀ d0, preserves (same_as audit_tables d0) m) → kept K (db s) (db (m (s, q)).2.1).
Proof. intros Hm. apply same_kept, Hm. done. Qed.

#[global] Instance same_audit_stable d0 : SeqStable (same_as audit_tables d0).
Proof. by intros d n H _. Qed.

Lemma frame_but_domains {A} (m : Tx A) : tx_frame but_domains m → tx_frame audit_tables m.
Proof. intros H w. exact (f_equal audit_tables (H w)). Qed.

Lemma with_tx_domains {A} lb lc (body : Tx (tx_end A)) d0 :
  tx_frame but_domains body → preserves (same_as audit_tables d0) (with_tx lb lc body).
Proof. intros H. apply with_tx_same; [done|]. by apply frame_but_domains. Qed.

Lemma group_change_audit d0 d d' : group_change d d' → same_as audit_tables d0 d → same_as audit_tables d0 d'.
Proof. unfold same_as. intros H <-. by destruct H; try rewrite put_members_frame. Qed.

Lemma AppendAudit_kept K now ev s q : audit_ok s → kept K (db s) (db (AppendAudit now ev (s, q)).2.1).
Proof.
  intros Hok. assert (same_as audit_once (db s) (db (AppendAudit now ev (s, q)).2.1)) as Ho
    by (apply AppendAudit_same; first [done|apply frame_appendAuditTx_once]).
  destruct (AppendAudit now ev (s, q)) as [r [s' q']] eqn:E. cbn [fst snd] in *.
  apply AppendAudit_cases in E as (_ & _ & [[_ Hrb]|(ev' & _ & _ & Hl & _)]); [by apply kept_rolled_back| |done].
  split; [rewrite Hl; by apply prefix_app_r|]. intros k x _. by rewrite Ho.
Qed.

Lemma ChangePolicy_kept K now now' id change s q :
  audit_ok s → kept K (db s) (db (ChangePolicy now now' id change (s, q)).2.1).
Proof.
  intros Hok. assert (same_as audit_once (db s) (db (ChangePolicy now now' id change (s, q)).2.1)) as Ho
    by (apply ChangePolicy_same; first [done|apply frame_appendAuditTx_once]).
  destruct (ChangePolicy now now' id change (s, q)) as [r [s' q']] eqn:E. cbn [fst snd] in *.
  apply ChangePolicy_cases in E as (_ & _ & [[_ Hrb]|(next & e & ev' & _ & _ & _ & Hl & _)]); [by apply kept_rolled_back| |done].
  split; [rewrite Hl; by apply prefix_app_r|]. intros k x _. by rewrite Ho.
Qed.

Lemma SCIM_kept K idp now fn s q :
  scim_call idp fn → store_ok s → kept K (db s) (db (SCIM idp now fn (s, q)).2.1).
Proof.
  intros [Hfn _] [[Ha Hp] Hs].
  assert (same_as audit_once (db s) (db (SCIM idp now fn (s, q)).2.1)) as Ho.
  { apply SCIM_same; [|done|apply frame_appendAuditTx_once|apply (sf_frames _ _ Hfn)|done].
    intros d d' H. exact (f_equal audit_once H). }
  destruct (SCIM idp now fn (s, q)) as [r [s' q']] eqn:E. cbn [fst snd] in *.
  apply SCIM_cases in E as [_ Hc]; [|by split|done].
  destruct Hc as [[_ Hrb]|(w & w' & e & t & ev & _ & Hl & _)]; [by apply kept_rolled_back|].
  split; [|intros k x _; by rewrite Ho]. case_decide; destruct Hl as [_ ->]; [done|by apply prefix_app_r].
Qed.

Lemma store_write_kept K s s' : store_ok s → store_write s s' → kept K (db s) (db s').
Proof.
  intros Hok Hst. pose proof (so_policy s Hok) as [Ha _].
  destruct Hst as [s' Hp|now d q|n q|n p q|n p q|now g q|n g q|n g q|g q Hv|n g m q|n g p q|n g p e w q|idp now fn q Hc].
  - destruct Hp; first [by apply ChangePolicy_kept|by apply AppendAudit_kept].
  - apply preserves_kept. intros d0. unfold CreateDomain. apply leader_only_preserves.
    destruct (ValidateDomainName _); [apply throw_preserves|]. cbv zeta. case_decide; [apply throw_preserves|].
    apply with_tx_domains, frame_create_domain.
  - apply preserves_kept. intros d0. apply leader_only_preserves, with_tx_domains, frame_delete_domain.
  - apply preserves_kept. intros d0. apply leader_only_preserves, with_tx_domains, frame_add_admin.
  - apply preserves_kept. intros d0. apply leader_only_preserves, bind_preserves; [|intros []; auto with omega].
    by apply statement_preserves.
  - apply preserves_kept. intros d0. apply CreateGroup_change; [apply _|]. intros ??. apply group_change_audit.
  - apply preserves_kept. intros d0. apply DeleteGroup_change; [apply _|]. intros ??. apply group_change_audit.
  - apply preserves_kept. intros d0. apply DeleteEmptyGroup_change; [apply _|]. intros ??. apply group_change_audit.
  - apply preserves_kept. intros d0. apply RestoreGroup_change; [done|apply _|]. intros ??. apply group_change_audit.
  - apply preserves_kept. intros d0. apply PutGroupMember_change; [apply _|]. intros ??. apply group_change_audit.
  - apply preserves_kept. intros d0. apply RemoveGroupMember_change; [apply _|]. intros ??. apply group_change_audit.
  - apply preserves_kept. intros d0. apply SwapGroupMember_change; [apply _|]. intros ??. apply group_change_audit.
  - by apply SCIM_kept.
Qed.
