(* ===== verification/Effects.v ===== *)
(** * Effects

    What the write methods of the directory do, whatever fails: a method
    that succeeds has its effect, one that fails has none, and only an error
    of the database itself may hide an effect, that of a commit whose
    acknowledgement was lost. *)
From S2P Require Import Prelude Crypto Json AuditKeyring Store Domains AuditChain AuditVerify AuditOnce Groups.
From S2P Require Import Policies Scim ScimSync Reach.

Definition effect {A} (m : M A) (P : DB → A → DB → Prop) : Prop :=
  ∀ s q r s' q', m (s, q) = (r, (s', q')) →
  s' = set_db (db s') s ∧
  match r with
  | Ok a => P (db s) a (db s')
  | Err e => rolled_back (db s) (db s') ∨ ((∃ what msg, e = ErrIO what msg) ∧ ∃ a, P (db s) a (db s'))
  end.

Lemma effect_weaken {A} (m : M A) (P Q : DB → A → DB → Prop) :
  effect m P → (∀ d a d', P d a d' → Q d a d') → effect m Q.
Proof.
  intros Hm HPQ s q r s' q' H. apply Hm in H as [Hs H]. split; [done|].
  destruct r; [auto|]. destruct H as [?|(? & a & ?)]; [by left|right; eauto].
Qed.

Lemma with_tx_effect {A} lb lc (body : Tx (tx_end A)) (P : DB → A → DB → Prop) :
  (∀ d w a d' w', body (d, w) = (Ok (Commit a), (d', w')) → P d a d') →
  (∀ d w a d' w' d'', body (d, w) = (Ok (Return a), (d', w')) → rolled_back d d'' → P d a d'') →
  effect (with_tx lb lc body) P.
Proof.
  intros Hc Hr s q r s' q' H. apply with_tx_cases in H as [(d & -> & Hrb & Hok)|(w & d & w' & a & Hb & -> & Hok)].
  - split; [by destruct s|]. cbn. destruct r as [a|e]; [|by left]. destruct (Hok a eq_refl) as (w & [d' w'] & Hb). by eapply Hr.
  - split; [by destruct s|]. cbn. destruct Hok as [->|[m ->]]; [by eapply Hc|]. right. split; [by eexists _, _|]. exists a. by eapply Hc.
Qed.

Lemma leader_only_effect {A} (m : M A) P : effect m P → effect (leader_only m) P.
Proof.
  intros Hm s q r s' q' H. apply leader_only_cases in H as [[_ [= -> -> ->]]|[_ H]]; [|by apply Hm in H].
  split; [by destruct s|]. left. apply rolled_back_refl.
Qed.

Lemma throw_effect {A} e P : effect (throw e : M A) P.
Proof. intros s q r s' q' [= <- <- <-]. split; [by destruct s|]. left. apply rolled_back_refl. Qed.

(** A transaction that never returns without committing. *)
Lemma commit_effect {A} lb lc (body : Tx (tx_end A)) (P : DB → A → DB → Prop) :
  (∀ d w x d' w', body (d, w) = (Ok x, (d', w')) → ∃ a, x = Commit a ∧ P d a d') →
  effect (leader_only (with_tx lb lc body)) P.
Proof.
  intros Hb. apply leader_only_effect, with_tx_effect.
  - intros d w a d' w' H. apply Hb in H as (b & [= ->] & ?). done.
  - intros d w a d' w' d'' H. by apply Hb in H as (b & ? & _).
Qed.

(** ** Domains *)

Lemma create_domain_tx_db d b q a b' q' :
  create_domain_tx d (b, q) = (Ok a, (b', q')) →
  a = Commit d ∧ domains b !! Name d = None ∧ (Parent d ≠ "" → is_Some (domains b !! Parent d)) ∧ b' = created_db d b.
Proof.
  intros H. pose proof (frame_create_domain d (b, q)) as Hf. rewrite H in Hf. cbn [fst snd] in Hf.
  apply create_domain_tx_Ok in H as (-> & Hn & Hp & Hd & Hg & Hm & Ha). split_and!; try done.
  destruct b as [], b' as []. cbn in *. unfold but_domains, set_domains, set_domain_admins in Hf. cbn in Hf.
  injection Hf as -> -> -> -> -> -> -> -> -> -> -> -> ->. subst. done.
Qed.

Lemma CreateDomain_effect now d :
  effect (CreateDomain now d) (λ b d' b',
    d' = normalised now d ∧ ValidateDomainName (Name d) = None ∧ domains b !! Name d = None ∧
    (ParentOf (Name d) ≠ "" → is_Some (domains b !! ParentOf (Name d))) ∧ b' = created_db d' b).
Proof.
  unfold CreateDomain. destruct (ValidateDomainName (Name d)) as [e|] eqn:Ev; [apply leader_only_effect, throw_effect|].
  case_decide as Hpar; [apply leader_only_effect, throw_effect|]. apply commit_effect.
  intros b w x b' w' H. apply create_domain_tx_db in H as (-> & Hn & Hp & ->). eexists. by split_and!.
Qed.

Lemma DeleteDomain_effect name :
  effect (DeleteDomain name) (λ b _ b',
    is_Some (domains b !! name) ∧ (∀ n r, domains b !! n = Some r → dr_parent r ≠ name) ∧
    (∀ g, groups b !! (name, g) = None) ∧ b' = delete_admins name (set_domains (delete name (domains b)) b)).
Proof.
  apply commit_effect. intros b w x b' w' H. assert (x = Commit tt) as ->.
  { unfold delete_domain_tx in H. by run_split H. }
  apply delete_domain_tx_Ok in H as (? & ? & ? & ->). eauto 10.
Qed.

Lemma AddDomainAdmin_effect n p :
  effect (AddDomainAdmin n p) (λ b inserted b',
    is_Some (domains b !! n) ∧ inserted = negb (bool_decide ((n, p) ∈ domain_admins b)) ∧
    b' = set_domain_admins ({[(n, p)]} ∪ domain_admins b) b).
Proof.
  apply commit_effect. intros b w x b' w' H. unfold add_admin_tx in H.
  apply bind_Ok in H as ([] & [b1 q1] & H1 & H). apply lockDomain_Ok in H1 as [? ->]. run_split H. eauto 10.
Qed.

Lemma RemoveDomainAdmin_effect n p :
  effect (RemoveDomainAdmin n p) (λ b _ b',
    (n, p) ∈ domain_admins b ∧ b' = set_domain_admins (domain_admins b ∖ {[(n, p)]}) b).
Proof.
  apply leader_only_effect. intros s q r s' q' H.
  assert ((n, p) ∉ domain_admins (db s) → set_domain_admins (domain_admins (db s) ∖ {[(n, p)]}) (db s) = db s) as Hsame.
  { intros Hn. replace (domain_admins (db s) ∖ {[(n, p)]}) with (domain_admins (db s)) by set_solver. by destruct (db s). }
  unfold statement in H. destruct (decide ((n, p) ∈ domain_admins (db s))) as [Hin|Hin].
  - unfold mbind, GoM_bind in H. rewrite bool_decide_eq_true_2 in H by done.
    destruct q as [|[[m|m]|] q]; injection H as <- <- <-; cbn; (split; [by destruct s|]); eauto.
    left. apply rolled_back_refl. right. split; [eauto|]. by exists tt.
  - unfold mbind, GoM_bind in H. rewrite bool_decide_eq_false_2 in H by done.
    destruct q as [|[[m|m]|] q]; injection H as <- <- <-; cbn; (split; [by destruct s|]); left;
      rewrite ?Hsame by done; apply rolled_back_refl.
Qed.

(** ** Groups *)

Lemma CreateGroup_effect now g :
  effect (CreateGroup now g) (λ b g' b',
    let t := if IsZero (gCreatedAt g) then now else gCreatedAt g in
    g' = mkGroup (gDomain g) (gName g) (gDescription g) [] t ∧ ValidateGroupName (gName g) = None ∧
    is_Some (domains b !! gDomain g) ∧ groups b !! (gDomain g, gName g) = None ∧
    b' = set_groups (<[(gDomain g, gName g) := mkGroupRow (gDescription g) (UnixNano t)]> (groups b))
           (clear_members (gDomain g) (gName g) b)).
Proof.
  unfold CreateGroup. destruct (ValidateGroupName (gName g)) eqn:Ev; [apply leader_only_effect, throw_effect|].
  apply commit_effect. intros b w x b' w' H. apply create_group_Ok in H as (-> & ? & ? & ->). eexists. by split_and!.
Qed.

Lemma DeleteGroup_effect n g :
  effect (DeleteGroup n g) (λ b before b',
    ∃ r, groups b !! (n, g) = Some r ∧ managed_by n g b = None ∧
      before = mkGroup n g (gr_description r) (member_rows n g b) (UnixTime (gr_created_at r)) ∧
      b' = clear_members n g (set_groups (delete (n, g) (groups b)) b)).
Proof.
  apply commit_effect. intros b w x b' w' H. apply delete_group_Ok in H as (r & ? & ? & -> & ->). eexists. eauto 10.
Qed.

Lemma PutGroupMember_effect n g m :
  effect (PutGroupMember n g m) (λ b prior b',
    is_Some (groups b !! (n, g)) ∧ managed_by n g b = None ∧
    prior = member_of_row (Principal m) <$> group_members b !! (n, g, Principal m) ∧
    b' = put_member n g (Principal m) (nanos (ExpiresAt m)) b).
Proof.
  apply commit_effect. intros b w x b' w' H. apply put_member_Ok in H as (? & ? & -> & ->). eexists. eauto 10.
Qed.

Lemma RemoveGroupMember_effect n g p :
  effect (RemoveGroupMember n g p) (λ b prior b',
    ∃ e, group_members b !! (n, g, p) = Some e ∧ managed_by n g b = None ∧
      prior = member_of_row p e ∧ b' = drop_member n g p b).
Proof.
  apply commit_effect. intros b w x b' w' H. apply remove_member_Ok in H as (e & ? & ? & -> & ->). eexists. eauto 10.
Qed.

Lemma SwapGroupMember_effect n g p expect want :
  effect (SwapGroupMember n g p expect want) (λ b _ b',
    expect = member_of_row p <$> group_members b !! (n, g, p) ∧
    b' = match want with
         | None => drop_member n g p b
         | Some w => put_member n g p (nanos (ExpiresAt w)) b
         end).
Proof.
  apply commit_effect. intros b w x b' w' H. apply swap_member_Ok in H as (? & ? & ? & -> & ->). eexists. eauto 10.
Qed.

Lemma DeleteEmptyGroup_effect n g :
  effect (DeleteEmptyGroup n g) (λ b _ b',
    (groups b !! (n, g) = None ∧ rolled_back b b') ∨
    (is_Some (groups b !! (n, g)) ∧ (∀ p, group_members b !! (n, g, p) = None) ∧ b' = set_groups (delete (n, g) (groups b)) b)).
Proof.
  apply leader_only_effect, with_tx_effect.
  - intros d w a d' w' H. apply delete_empty_Ok in H as (? & ? & ? & ->). by right.
  - intros d w a d' w' d'' H Hrb. left. split; [|done]. unfold delete_empty_tx in H.
    apply catch_Ok in H as (r & [d1 w1] & Hl & H). unfold lockGroupMode in Hl.
    destruct r as [u|e]; [by run_split H|]. destruct e; try done.
    unfold query, mbind, GoM_bind, io, gets in Hl. cbn [fst snd] in Hl.
    destruct w as [|[f|] w]; cbn [fst snd] in Hl; try done; destruct (groups d !! (n, g)) eqn:Eg; cbn in Hl; done.
Qed.

Lemma RestoreGroup_effect grp :
  effect (RestoreGroup grp) (λ b _ b',
    is_Some (domains b !! gDomain grp) ∧ groups b !! (gDomain grp, gName grp) = None ∧
    b' = put_members (gDomain grp) (gName grp) (gMembers grp)
      (set_groups (<[(gDomain grp, gName grp) := mkGroupRow (gDescription grp) (UnixNano (gCreatedAt grp))]> (groups b)) b)).
Proof.
  apply commit_effect. intros b w x b' w' H. assert (x = Commit tt) as ->.
  { unfold restore_group_tx in H. run_split H; done. }
  apply restore_group_Ok in H as (? & ? & ->). eauto 10.
Qed.

(** ** Refusals *)

(** Errors of the database, and of a replica that does not lead, say
    nothing of the tables. Any other error is one of [R]. *)
Definition no_answer (e : error) : Prop := (∃ what msg, e = ErrIO what msg) ∨ e = ErrNotLeader.

Definition refuses {A} (m : M A) (R : error → DB → Prop) : Prop :=
  ∀ s q e s' q', m (s, q) = (Err e, (s', q')) → no_answer e ∨ R e (db s).

Definition tx_refuses {A} (body : Tx A) (R : error → DB → Prop) : Prop :=
  ∀ d q e w', body (d, q) = (Err e, w') → no_answer e ∨ R e d.

Lemma io_Err {S} what (w : S * faults) e w' : io what w = (Err e, w') → no_answer e.
Proof. unfold io. destruct w as [s [|[f|] q]]; [done| |done]. intros [= <- _]. left. eauto. Qed.

Lemma query_Err {S A} what (f : S → A) w e w' : query what f w = (Err e, w') → no_answer e.
Proof. unfold query. intros [(? & ? & _ & [=])|(e' & w1 & H & [= -> ->])]%bind_cases. by eapply io_Err. Qed.

Lemma exec_Err {S} what (f : S → S) w e w' : exec what f w = (Err e, w') → no_answer e.
Proof. unfold exec. intros [(? & ? & _ & [=])|(e' & w1 & H & [= -> ->])]%bind_cases. by eapply io_Err. Qed.

Lemma insert_row_Err {S} what dup on_dup (f : S → S) s q e w' :
  insert_row what dup on_dup f (s, q) = (Err e, w') → no_answer e ∨ (dup s = true ∧ e = on_dup).
Proof.
  unfold insert_row. intros [(? & [s1 q1] & H1 & H)|(e' & w1 & H & [= -> ->])]%bind_cases; [|left; by eapply io_Err].
  assert (s1 = s) as -> by (unfold io in H1; cbn in H1; destruct q as [|[|] ?]; congruence).
  erewrite bind_run in H by done. cbn [fst] in H. destruct (dup s) eqn:E; [|done]. injection H as <- <-. by right.
Qed.

Lemma with_tx_refuses {A} lb lc (body : Tx (tx_end A)) R : tx_refuses body R → refuses (leader_only (with_tx lb lc body)) R.
Proof.
  intros Hb s q e s' q' H. apply leader_only_cases in H as [[_ [= -> -> ->]]|[_ H]]; [by left; right|].
  unfold with_tx in H. destruct (io lb (db s, q)) as [[|e1] [d1 q1]] eqn:E1; [|injection H as <- <- <-; left; by eapply io_Err].
  destruct (body (db s, q1)) as [[[a1|a2]|e2] [d2 q2]] eqn:E2.
  - destruct q2 as [|[[m|m]|] q2]; try done; injection H as <- <- <-; left; left; eauto.
  - done.
  - injection H as <- <- <-. by eapply Hb.
Qed.

(** Splits a failed run at the part that failed. *)
Ltac err_split H :=
  lazymatch type of H with
  | (mbind _ _) _ = (Err _, _) =>
      let H1 := fresh "Hrun" in let H2 := fresh "Hrun" in
      apply bind_cases in H as [(? & [? ?] & H1 & H2)|(? & [? ?] & H1 & H2)];
      [run_split H1; err_split H2|injection H2 as -> -> ->; err_split H1]
  | query _ _ _ = (Err _, _) => left; by apply query_Err in H
  | exec _ _ _ = (Err _, _) => left; by apply exec_Err in H
  | modify _ _ = (Err _, _) => discriminate H
  | mret _ _ = (Err _, _) => discriminate H
  | throw _ _ = (Err _, _) => injection H as <- <- <-
  | (if decide _ then _ else _) _ = (Err _, _) => case_decide; err_split H
  | (match ?x with _ => _ end) _ = (Err _, _) => let E := fresh "E" in destruct x eqn:E; err_split H
  | _ => idtac
  end.

Lemma lockDomain_Err n d q e w' : lockDomain n (d, q) = (Err e, w') → no_answer e ∨ (e = ErrNotFound ∧ domains d !! n = None).
Proof. unfold lockDomain. destruct w' as [d' q']. intros H. err_split H. by right. Qed.

Lemma lockGroupMode_Err n g d q e w' :
  lockGroupMode n g (d, q) = (Err e, w') → no_answer e ∨ (e = ErrNotFound ∧ groups d !! (n, g) = None).
Proof. unfold lockGroupMode. destruct w' as [d' q']. intros H. err_split H. by right. Qed.

Lemma refuseManaged_Err n g d q e w' :
  refuseManaged n g (d, q) = (Err e, w') → no_answer e ∨ managed_by n g d ≠ None.
Proof. unfold refuseManaged. destruct w' as [d' q']. intros H. err_split H. right. congruence. Qed.

Lemma for_each_refuses {A} (xs : list A) (f : A → Tx ()) d q e w' :
  (∀ x d q e w', f x (d, q) = (Err e, w') → no_answer e) → for_each xs f (d, q) = (Err e, w') → no_answer e.
Proof.
  intros Hf. revert d q. induction xs as [|x xs IH]; intros d q; cbn [for_each]; [done|].
  intros [(? & [d1 q1] & _ & H)|(? & w1 & H & [= -> ->])]%bind_cases; [by eapply IH|by eapply Hf].
Qed.

Lemma insert_admin_Err n p d q e w' : insert_admin n p (d, q) = (Err e, w') → no_answer e.
Proof. intros [?|[_ ->]]%insert_row_Err; [done|]. left. eauto. Qed.

Lemma CreateDomain_refuses now D :
  refuses (CreateDomain now D) (λ _ d,
    ValidateDomainName (Name D) ≠ None ∨ (Parent D ≠ "" ∧ Parent D ≠ ParentOf (Name D)) ∨
    is_Some (domains d !! Name D) ∨ (ParentOf (Name D) ≠ "" ∧ domains d !! ParentOf (Name D) = None)).
Proof.
  unfold CreateDomain. destruct (ValidateDomainName (Name D)) as [ev|] eqn:Ev.
  { intros s q e s' q' _. right. by left. }
  case_decide as Hp; [intros s q e s' q' _; right; by right; left|]. apply with_tx_refuses. intros d q e [d' q'] H.
  unfold create_domain_tx in H. cbn [Name Parent Admins Description CreatedAt] in H.
  apply bind_cases in H as [(? & [d1 q1] & H1 & H)|(e' & [d1 q1] & H1 & [= -> -> ->])].
  - assert (d1 = d) as -> by (case_decide; [apply catch_Ok in H1 as ([|[]] & [d2 q2] & Hl & H1); run_split H1;
      by apply lockDomain_Ok in Hl as [_ ->]|by run_split H1]).
    apply bind_cases in H as [(? & [d2 q2] & H2 & H)|(e' & [d2' q2'] & H2 & [= -> -> ->])]; [|left; by apply exec_Err in H2].
    run_split H2. apply bind_cases in H as [(? & [d3 q3] & H3 & H)|(e' & [d3' q3'] & H3 & [= -> -> ->])].
    + apply bind_cases in H as [(? & [d4 q4] & H4 & H)|(e' & [d4' q4'] & H4 & [= -> -> ->])]; [done|]. left.
      eapply for_each_refuses; [|exact H4]. intros. by eapply insert_admin_Err.
    + apply insert_row_Err in H3 as [?|[Hd _]]; [by left|]. right. right. right. left. by apply bool_decide_eq_true in Hd.
  - case_decide as Hpar; [|done]. unfold catch in H1. destruct (lockDomain _ _) as [[|e1] w1] eqn:E1; [done|].
    apply lockDomain_Err in E1 as [[(what & msg & ->)| ->]|[-> Hn]].
    + injection H1 as <- _. left. left. destruct what; cbn; eauto.
    + injection H1 as <- _. left. by right.
    + right. do 3 right. done.
Qed.

Lemma size_filter_inhabited {K V} `{Countable K} (P : K * V → Prop) `{!∀ x, Decision (P x)} (m : gmap K V) :
  0 < size (filter P m) → ∃ k v, m !! k = Some v ∧ P (k, v).
Proof.
  intros Hs. destruct (map_choose (filter P m)) as (k & v & Hkv).
  - intros He. rewrite He in Hs. rewrite map_size_empty in Hs. lia.
  - apply map_lookup_filter_Some in Hkv. eauto.
Qed.

Lemma DeleteDomain_refuses n :
  refuses (DeleteDomain n) (λ _ d,
    domains d !! n = None ∨ (∃ m r, domains d !! m = Some r ∧ dr_parent r = n) ∨ (∃ g r, groups d !! (n, g) = Some r)).
Proof.
  apply with_tx_refuses. intros d q e [d' q'] H. unfold delete_domain_tx in H.
  apply bind_cases in H as [(? & [d1 q1] & H1 & H)|(e' & [d1 q1] & H1 & [= -> -> ->])];
    [|apply lockDomain_Err in H1; tauto].
  apply lockDomain_Ok in H1 as [_ ->]. err_split H; right; right.
  - left. match goal with H : 0 < _ |- _ => apply size_filter_inhabited in H as (k & v & ? & ?) end. eauto.
  - right. match goal with H : 0 < _ |- _ => apply size_filter_inhabited in H as ([m g] & v & ? & Hm) end. cbn in Hm. subst. eauto.
Qed.

Lemma AddDomainAdmin_refuses n p : refuses (AddDomainAdmin n p) (λ _ d, domains d !! n = None).
Proof.
  apply with_tx_refuses. intros d q e [d' q'] H. unfold add_admin_tx in H.
  apply bind_cases in H as [(? & [d1 q1] & H1 & H)|(e' & [d1 q1] & H1 & [= -> -> ->])];
    [|apply lockDomain_Err in H1; tauto].
  err_split H.
Qed.

Lemma RemoveDomainAdmin_refuses n p : refuses (RemoveDomainAdmin n p) (λ _ d, (n, p) ∉ domain_admins d).
Proof.
  intros s q e s' q' H. apply leader_only_cases in H as [[_ [= -> -> ->]]|[_ H]]; [by left; right|].
  apply bind_cases in H as [(b & [s1 q1] & H1 & H)|(e' & [s1 q1] & H1 & [= -> -> ->])].
  - apply statement_Ok in H1 as [-> _]. cbn in H. case_bool_decide as Hb; [done|]. by right.
  - left. left. unfold statement in H1. destruct q as [|[[m|m]|] q]; try done; injection H1 as <- <- <-; eauto.
Qed.

Lemma CreateGroup_refuses now g :
  refuses (CreateGroup now g) (λ _ d,
    ValidateGroupName (gName g) ≠ None ∨ domains d !! gDomain g = None ∨ is_Some (groups d !! (gDomain g, gName g))).
Proof.
  unfold CreateGroup. destruct (ValidateGroupName (gName g)) eqn:Ev; [intros s q e' s' q' _; right; by left|].
  apply with_tx_refuses. intros d q e [d' q'] H. unfold create_group_tx in H. cbn [gDomain gName gDescription gMembers gCreatedAt] in H.
  apply bind_cases in H as [(? & [d1 q1] & H1 & H)|(e' & [d1 q1] & H1 & [= -> -> ->])];
    [|apply lockDomain_Err in H1; tauto].
  apply lockDomain_Ok in H1 as [_ ->].
  apply bind_cases in H as [(? & [d2 q2] & H2 & H)|(e' & [d2 q2] & H2 & [= -> -> ->])]; [|left; by apply exec_Err in H2].
  run_split H2. apply bind_cases in H as [(? & [d3 q3] & H3 & H)|(e' & [d3 q3] & H3 & [= -> -> ->])]; [done|].
  apply insert_row_Err in H3 as [?|[Hd _]]; [by left|]. right. right. right. by apply bool_decide_eq_true in Hd.
Qed.

(** The two guards of the writes to a group. *)
Lemma group_guards_Err {A} n g (k : Tx A) d q e w' R :
  (lockGroupMode n g ;; refuseManaged n g ;; k) (d, q) = (Err e, w') →
  (∀ q1, k (d, q1) = (Err e, w') → no_answer e ∨ R) →
  no_answer e ∨ groups d !! (n, g) = None ∨ managed_by n g d ≠ None ∨ R.
Proof.
  destruct w' as [d' q'].
  intros [(? & [d1 q1] & [_ ->]%lockGroupMode_Ok & H)|(e' & [d1 q1] & H1%lockGroupMode_Err & [= -> -> ->])]%bind_cases Hk; [|tauto].
  apply bind_cases in H as [(? & [d2 q2] & [_ ->]%refuseManaged_Ok & H)|(e' & [d2 q2] & H1%refuseManaged_Err & [= -> -> ->])]; [|tauto].
  apply Hk in H. tauto.
Qed.

Lemma DeleteGroup_refuses n g :
  refuses (DeleteGroup n g) (λ _ d, groups d !! (n, g) = None ∨ managed_by n g d ≠ None ∨ False).
Proof.
  apply with_tx_refuses. intros d q e [d' q'] H. eapply group_guards_Err; [exact H|]. cbv beta. intros q1 H1. err_split H1.
Qed.

Lemma PutGroupMember_refuses n g m :
  refuses (PutGroupMember n g m) (λ _ d, groups d !! (n, g) = None ∨ managed_by n g d ≠ None ∨ False).
Proof.
  apply with_tx_refuses. intros d q e [d' q'] H. eapply group_guards_Err; [exact H|]. cbv beta. unfold memberTx.
  intros q1 H1. err_split H1.
Qed.

Lemma RemoveGroupMember_refuses n g p :
  refuses (RemoveGroupMember n g p) (λ _ d, groups d !! (n, g) = None ∨ managed_by n g d ≠ None ∨ group_members d !! (n, g, p) = None).
Proof.
  apply with_tx_refuses. intros d q e [d' q'] H. eapply group_guards_Err; [exact H|]. cbv beta. unfold memberTx.
  intros q1 H1. err_split H1. right. by apply fmap_None in E.
Qed.

(** ** Reads *)

Lemma on_db_cases {A} what (f : DB → A) s q r s' q' :
  on_db what f (s, q) = (r, (s', q')) → s' = s ∧ (r = Ok (f (db s)) ∨ ∃ msg, r = Err (ErrIO what msg)).
Proof.
  unfold on_db, query, mbind, GoM_bind, io, gets. cbn [fst snd].
  destruct q as [|[m|] q]; intros [= <- <- <-]; eauto.
Qed.

Lemma GetDomain_cases n s q r s' q' :
  GetDomain n (s, q) = (r, (s', q')) →
  s' = s ∧
  match r with
  | Ok D => ∃ row, domains (db s) !! n = Some row ∧ D = stored_domain (db s) n row
  | Err e => (∃ what msg, e = ErrIO what msg) ∨ (e = ErrNotFound ∧ domains (db s) !! n = None)
  end.
Proof.
  unfold GetDomain. intros [(row & [s1 q1] & H1 & H)|(e & [s1 q1] & H1 & [= -> -> ->])]%bind_cases;
    apply on_db_cases in H1 as [-> [H1|[m H1]]]; try done; simplify_eq; [|eauto].
  destruct (domains (db s) !! n) as [row|] eqn:Er; [|injection H as <- <- <-; auto].
  apply bind_cases in H as [(ad & [s2 q2] & H2 & H)|(e & [s2 q2] & H2 & [= -> -> ->])]; unfold adminsByDomain in H2;
    apply bind_cases in H2 as [(m & [s3 q3] & H3 & H2)|(e3 & [s3 q3] & H3 & H2)]; try done;
    apply on_db_cases in H3 as [-> [H3|[msg H3]]]; try done; simplify_eq.
  - injection H2 as <- <- <-. injection H as <- <- <-. split; [done|]. exists row. split; [done|].
    unfold domain_of_row, stored_domain. f_equal. apply admins_fmap_lookup. case_decide; [done|]. by apply bool_decide_eq_true.
  - eauto.
Qed.

Lemma GetGroup_cases n g s q r s' q' :
  n ≠ "" → g ≠ "" → GetGroup n g (s, q) = (r, (s', q')) →
  s' = s ∧
  match r with
  | Ok _ => is_Some (groups (db s) !! (n, g))
  | Err e => (∃ what msg, e = ErrIO what msg) ∨ (e = ErrNotFound ∧ groups (db s) !! (n, g) = None)
  end.
Proof.
  intros Hn Hg. unfold GetGroup, listGroups.
  intros [(gs & [s1 q1] & H1 & H)|(e & [s1 q1] & H1 & [= -> -> ->])]%bind_cases;
    apply bind_cases in H1 as [(rows & [s2 q2] & H2 & H1)|(e2 & [s2 q2] & H2 & H1)];
    apply on_db_cases in H2 as [-> [H2|[m2 H2]]]; try done; simplify_eq; [| |eauto];
    apply bind_cases in H1 as [(ms & [s3 q3] & H3 & H1)|(e3 & [s3 q3] & H3 & H1)];
    apply on_db_cases in H3 as [-> [H3|[m3 H3]]]; try done; simplify_eq; [|eauto].
  injection H1 as <- <- <-.
  assert (∀ x, x ∈ group_list n g (db s) ↔ groups (db s) !! x.1 = Some x.2 ∧ x.1 = (n, g)) as Hin.
  { intros [k row]. unfold group_list. rewrite merge_sort_Permutation, elem_of_map_to_list, map_lookup_filter_Some.
    unfold matches. rewrite decide_True by done. done. }
  destruct (group_list n g (db s)) as [|x l] eqn:El; cbn [fmap list_fmap] in H; injection H as <- <- <-; (split; [done|]).
  - right. split; [done|]. apply eq_None_not_Some. intros [row Hr]. destruct (Hin ((n, g), row)) as [_ Hi].
    by apply (not_elem_of_nil ((n, g), row)), Hi.
  - destruct (Hin x) as [[Hx Hk] _]; [left|]. rewrite <-Hk. eauto.
Qed.
