(* ===== verification/Spec.v ===== *)
(** * Spec

    What the write API promises, without tables: domains with their
    administrators, groups with their members, policies, and a trail of who
    did what. [exec_op] says what each operation does and when it is
    refused, and [abs] what a database stands for. Refine shows that the
    handlers implement it. *)
From S2P Require Import Prelude Crypto Json AuditKeyring Store Domains AuditChain AuditVerify AuditOnce Groups.
From S2P Require Import Policies Scim ScimSync Reach Effects.

Record ADomain := mkADomain {
  ad_description : string;
  ad_created : Z;
  ad_admins : gset string;
}.

Record AGroup := mkAGroup {
  ag_description : string;
  ag_created : Z;
  ag_members : gmap string Z;
}.

Record entry := mkEntry {
  en_kind : string;
  en_actor : string;
  en_subject : string;
  en_decision : string;
}.

(** [a_managed] are the groups an identity provider owns. *)
Record AState := mkAState {
  a_domains : gmap string ADomain;
  a_groups : gmap (string * string) AGroup;
  a_managed : gset (string * string);
  a_policies : gmap string policy_row;
  a_trail : list entry;
}.

Definition set_a_domains m a := mkAState m (a_groups a) (a_managed a) (a_policies a) (a_trail a).
Definition set_a_groups m a := mkAState (a_domains a) m (a_managed a) (a_policies a) (a_trail a).
Definition set_a_policies m a := mkAState (a_domains a) (a_groups a) (a_managed a) m (a_trail a).

(** The state with entries added to its trail. *)
Definition noted (l : list entry) (a : AState) : AState :=
  mkAState (a_domains a) (a_groups a) (a_managed a) (a_policies a) (a_trail a ++ l).

(** ** Operations *)

Inductive op :=
| OCreateDomain (name description : string) (created : Z) (admins : gset string)
| ODeleteDomain (name : string)
| OAddAdmin (name p : string)
| ORemoveAdmin (name p : string)
| OCreateGroup (n g description : string) (created : Z)
| ODeleteGroup (n g : string)
| OPutMember (n g p : string) (expires : Z)
| ORemoveMember (n g p : string)
| OCreatePolicy (id text by_ : string) (now : Z)
| OUpdatePolicy (id etag text by_ : string) (now : Z)
| ODeletePolicy (id etag : string).

Definition set_admins (D : ADomain) (s : gset string) : ADomain := mkADomain (ad_description D) (ad_created D) s.
Definition set_members (G : AGroup) (m : gmap string Z) : AGroup := mkAGroup (ag_description G) (ag_created G) m.

(** What an operation makes of a state; [None] when it is refused. *)
Definition exec_op (o : op) (a : AState) : option AState :=
  match o with
  | OCreateDomain n ds t s =>
      if decide (ValidateDomainName n = None ∧ a_domains a !! n = None ∧ (ParentOf n = "" ∨ is_Some (a_domains a !! ParentOf n)))
      then Some (set_a_domains (<[n := mkADomain ds t s]> (a_domains a)) a) else None
  | ODeleteDomain n =>
      if decide (is_Some (a_domains a !! n) ∧ map_Forall (λ m _, ParentOf m ≠ n) (a_domains a) ∧
                 map_Forall (λ k _, k.1 ≠ n) (a_groups a))
      then Some (set_a_domains (delete n (a_domains a)) a) else None
  | OAddAdmin n p =>
      D ← a_domains a !! n;
      Some (set_a_domains (<[n := set_admins D ({[p]} ∪ ad_admins D)]> (a_domains a)) a)
  | ORemoveAdmin n p =>
      D ← a_domains a !! n;
      if decide (p ∈ ad_admins D)
      then Some (set_a_domains (<[n := set_admins D (ad_admins D ∖ {[p]})]> (a_domains a)) a) else None
  | OCreateGroup n g ds t =>
      if decide (ValidateGroupName g = None ∧ is_Some (a_domains a !! n) ∧ a_groups a !! (n, g) = None)
      then Some (set_a_groups (<[(n, g) := mkAGroup ds t ∅]> (a_groups a)) a) else None
  | ODeleteGroup n g =>
      if decide (is_Some (a_groups a !! (n, g)) ∧ (n, g) ∉ a_managed a)
      then Some (set_a_groups (delete (n, g) (a_groups a)) a) else None
  | OPutMember n g p e =>
      G ← a_groups a !! (n, g);
      if decide ((n, g) ∉ a_managed a)
      then Some (set_a_groups (<[(n, g) := set_members G (<[p := e]> (ag_members G))]> (a_groups a)) a) else None
  | ORemoveMember n g p =>
      G ← a_groups a !! (n, g);
      if decide (is_Some (ag_members G !! p) ∧ (n, g) ∉ a_managed a)
      then Some (set_a_groups (<[(n, g) := set_members G (delete p (ag_members G))]> (a_groups a)) a) else None
  | OCreatePolicy id text by_ now =>
      if decide (a_policies a !! id = None)
      then Some (set_a_policies (<[id := mkPolicyRow text 1 by_ now by_ now]> (a_policies a)) a) else None
  | OUpdatePolicy id etag text by_ now =>
      r ← a_policies a !! id;
      if ifMatch etag (policy_ETag (scanPolicy id r))
      then Some (set_a_policies (<[id := mkPolicyRow text (wrap64 (pr_version r + 1)) (pr_created_by r) (pr_created_at r) by_ now]>
                                   (a_policies a)) a)
      else None
  | ODeletePolicy id etag =>
      r ← a_policies a !! id;
      if ifMatch etag (policy_ETag (scanPolicy id r)) then Some (set_a_policies (delete id (a_policies a)) a) else None
  end.

(** ** What a database stands for *)

Definition admins_of (d : DB) (n : string) : gset string := set_map snd (filter (λ r, r.1 = n) (domain_admins d)).

Definition members_of (d : DB) (k : string * string) : gmap string Z :=
  list_to_map (omap (λ kv, if decide (kv.1.1 = k) then Some (kv.1.2, kv.2) else None) (map_to_list (group_members d))).

Definition entry_of (r : audit_row) : entry := mkEntry (ar_kind r) (ar_actor r) (ar_subject r) (ar_decision r).

Definition abs (d : DB) : AState :=
  mkAState (map_imap (λ n r, Some (mkADomain (dr_description r) (dr_created_at r) (admins_of d n))) (domains d))
    (map_imap (λ k r, Some (mkAGroup (gr_description r) (gr_created_at r) (members_of d k))) (groups d))
    (list_to_set ((λ r, (sg_domain r.2, sg_grp r.2)) <$> map_to_list (scim_groups d)))
    (policies d) (entry_of <$> audit_log d).

Lemma admins_of_elem d n p : p ∈ admins_of d n ↔ (n, p) ∈ domain_admins d.
Proof.
  unfold admins_of. rewrite elem_of_map. split.
  - intros ([n' p'] & -> & [Hn ?]%elem_of_filter). cbn in Hn. by subst.
  - intros H. exists (n, p). split; [done|]. by apply elem_of_filter.
Qed.

Lemma members_of_lookup d n g p : members_of d (n, g) !! p = group_members d !! (n, g, p).
Proof.
  apply option_eq. intros e. unfold members_of. rewrite <-elem_of_list_to_map.
  - rewrite list_elem_of_omap. split.
    + intros ([[k p'] e'] & Hin & H). cbn in H. case_decide; [|done]. simplify_eq. by apply elem_of_map_to_list.
    + intros H. exists ((n, g, p), e). split; [by apply elem_of_map_to_list|]. cbn. by rewrite decide_True.
  - assert (∀ l : list ((string * string * string) * Z), NoDup l.*1 →
      NoDup ((omap (λ kv, if decide (kv.1.1 = (n, g)) then Some (kv.1.2, kv.2) else None) l).*1)) as Hnd.
    { induction l as [|[[k p'] e'] l IH]; [intros _; constructor|]. cbn. rewrite NoDup_cons. intros [Hni Hnd]. case_decide; [|by apply IH].
      subst k. cbn. apply NoDup_cons. split; [|by apply IH]. rewrite list_elem_of_fmap. intros ([p2 e2] & -> & H).
      apply list_elem_of_omap in H as ([[k2 p3] e3] & Hin & H). cbn in H. case_decide; [|done]. simplify_eq/=.
      apply Hni, list_elem_of_fmap. eexists. split; [|exact Hin]. done. }
    apply Hnd, NoDup_fst_map_to_list.
Qed.

Lemma abs_domain d n :
  a_domains (abs d) !! n = (λ r, mkADomain (dr_description r) (dr_created_at r) (admins_of d n)) <$> domains d !! n.
Proof. cbn. rewrite map_lookup_imap. by destruct (domains d !! n). Qed.

Lemma abs_group d k :
  a_groups (abs d) !! k = (λ r, mkAGroup (gr_description r) (gr_created_at r) (members_of d k)) <$> groups d !! k.
Proof. cbn. rewrite map_lookup_imap. by destruct (groups d !! k). Qed.

Lemma abs_managed d n g : (n, g) ∈ a_managed (abs d) ↔ managed_by n g d ≠ None.
Proof.
  cbn. rewrite elem_of_list_to_set, list_elem_of_fmap. unfold managed_by. set (l := map_to_list _).
  assert ((∃ x, (n, g) = (sg_domain x.2, sg_grp x.2) ∧ x ∈ l) ↔ ∃ x, x ∈ filter (λ r, sg_domain r.2 = n ∧ sg_grp r.2 = g) l) as ->.
  { split; intros (x & H); exists x; revert H; rewrite list_elem_of_filter; [intros [[= <- <-] ?]; done|].
    intros [[<- <-] ?]. done. }
  destruct (filter _ l) as [|x l']; [|split; [done|intros _; exists x; left]].
  split; [intros [x Hx]; by apply not_elem_of_nil in Hx|done].
Qed.

(** ** The operations on tables *)

(** The tables of groups, policies and the chain, which the operations on
    domains leave alone, and the other way round. *)
Definition not_domains (d : DB) := (groups d, group_members d, scim_groups d, policies d, audit_log d).
Definition not_groups (d : DB) := (domains d, domain_admins d, scim_groups d, policies d, audit_log d).

Lemma abs_domains_changed d d' m :
  not_domains d' = not_domains d → (∀ n, a_domains (abs d') !! n = m !! n) → abs d' = set_a_domains m (abs d).
Proof.
  intros [= Hg Hm Hs Hp Hl] Hd. apply map_eq in Hd. unfold abs, set_a_domains, members_of in *. cbn in *.
  by rewrite Hd, Hg, Hm, Hs, Hp, Hl.
Qed.

Lemma abs_groups_changed d d' m :
  not_groups d' = not_groups d → (∀ k, a_groups (abs d') !! k = m !! k) → abs d' = set_a_groups m (abs d).
Proof.
  intros [= Hg Hm Hs Hp Hl] Hd. apply map_eq in Hd. unfold abs, set_a_groups, admins_of in *. cbn in *.
  by rewrite Hd, Hg, Hm, Hs, Hp, Hl.
Qed.

Lemma admins_of_ext d d' n : (∀ p, (n, p) ∈ domain_admins d' ↔ (n, p) ∈ domain_admins d) → admins_of d' n = admins_of d n.
Proof. intros H. apply set_eq. intros p. by rewrite !admins_of_elem. Qed.

Lemma members_of_ext d d' n g :
  (∀ p, group_members d' !! (n, g, p) = group_members d !! (n, g, p)) → members_of d' (n, g) = members_of d (n, g).
Proof. intros H. apply map_eq. intros p. by rewrite !members_of_lookup. Qed.

Lemma is_Some_abs_domain d n : is_Some (a_domains (abs d) !! n) ↔ is_Some (domains d !! n).
Proof. rewrite abs_domain. apply fmap_is_Some. Qed.

Lemma abs_domain_None d n : a_domains (abs d) !! n = None ↔ domains d !! n = None.
Proof. rewrite abs_domain. apply fmap_None. Qed.

Lemma exec_create_domain D d :
  ValidateDomainName (Name D) = None → Parent D = ParentOf (Name D) → domains d !! Name D = None →
  (ParentOf (Name D) ≠ "" → is_Some (domains d !! ParentOf (Name D))) →
  exec_op (OCreateDomain (Name D) (Description D) (UnixNano (CreatedAt D)) (list_to_set (Admins D))) (abs d) =
  Some (abs (created_db D d)).
Proof.
  intros Hv Hp Hn Hpar. cbn [exec_op]. rewrite decide_True.
  2:{ rewrite abs_domain_None, is_Some_abs_domain. split_and!; [done|done|]. destruct (decide (ParentOf (Name D) = "")); auto. }
  f_equal. symmetry. apply abs_domains_changed; [done|]. intros n. rewrite abs_domain.
  destruct (decide (n = Name D)) as [->|Hne].
  - rewrite lookup_insert_eq. cbn. rewrite lookup_insert_eq. cbn. do 2 f_equal. apply set_eq. intros p.
    rewrite admins_of_elem, created_db_admins, decide_True, elem_of_list_to_set by done. done.
  - rewrite lookup_insert_ne by done. rewrite abs_domain. cbn. rewrite lookup_insert_ne by done.
    destruct (domains d !! n); [|done]. cbn. do 2 f_equal. apply admins_of_ext. intros p. by rewrite created_db_admins, decide_False.
Qed.

Lemma exec_delete_domain n d :
  dir_ok d → is_Some (domains d !! n) → (∀ m r, domains d !! m = Some r → dr_parent r ≠ n) → (∀ g, groups d !! (n, g) = None) →
  exec_op (ODeleteDomain n) (abs d) = Some (abs (delete_admins n (set_domains (delete n (domains d)) d))).
Proof.
  intros Hok Hn Hc Hg. cbn [exec_op]. rewrite decide_True.
  2:{ rewrite is_Some_abs_domain. split_and!; [done|..].
      - intros m D HD. rewrite abs_domain in HD. apply fmap_Some in HD as (r & Hr & _).
        rewrite <-(proj2 (dok_name _ Hok _ _ Hr)). eauto.
      - intros [m g] G HG. rewrite abs_group in HG. apply fmap_Some in HG as (r & Hr & _). cbn. intros ->. by rewrite Hg in Hr. }
  f_equal. symmetry. apply abs_domains_changed; [done|]. intros m. rewrite abs_domain. cbn.
  destruct (decide (m = n)) as [->|Hne]; [by rewrite !lookup_delete_eq|].
  rewrite !lookup_delete_ne by done. rewrite map_lookup_imap. destruct (domains d !! m); [|done]. cbn. do 2 f_equal.
  apply admins_of_ext. intros p. cbn. rewrite elem_of_filter. cbn. tauto.
Qed.

(** A change of the administrators of one domain. *)
Lemma abs_admins_changed n r d s :
  domains d !! n = Some r → (∀ m p, m ≠ n → (m, p) ∈ s ↔ (m, p) ∈ domain_admins d) →
  abs (set_domain_admins s d) =
  set_a_domains (<[n := mkADomain (dr_description r) (dr_created_at r) (admins_of (set_domain_admins s d) n)]> (a_domains (abs d))) (abs d).
Proof.
  intros Hn Hs. apply abs_domains_changed; [done|]. intros m. rewrite abs_domain. destruct (decide (m = n)) as [->|Hne].
  - rewrite lookup_insert_eq. cbn. by rewrite Hn.
  - rewrite lookup_insert_ne by done. rewrite abs_domain. cbn. destruct (domains d !! m); [|done]. cbn. do 2 f_equal.
    apply admins_of_ext. intros p. cbn. by apply Hs.
Qed.

Lemma exec_add_admin n p d :
  is_Some (domains d !! n) →
  exec_op (OAddAdmin n p) (abs d) = Some (abs (set_domain_admins ({[(n, p)]} ∪ domain_admins d) d)).
Proof.
  intros [r Hr]. cbn [exec_op]. rewrite abs_domain, Hr. cbn [fmap option_fmap option_map mbind option_bind].
  f_equal. rewrite (abs_admins_changed n r) by (first [done|set_solver]). do 3 f_equal. unfold set_admins. cbn. f_equal.
  apply set_eq. intros x. rewrite admins_of_elem. cbn. rewrite !elem_of_union, admins_of_elem, !elem_of_singleton. naive_solver.
Qed.

Lemma exec_remove_admin n p d :
  dir_ok d → (n, p) ∈ domain_admins d →
  exec_op (ORemoveAdmin n p) (abs d) = Some (abs (set_domain_admins (domain_admins d ∖ {[(n, p)]}) d)).
Proof.
  intros Hok Hp. destruct (dok_admin _ Hok _ _ Hp) as [r Hr]. cbn [exec_op]. rewrite abs_domain, Hr.
  cbn [fmap option_fmap option_map mbind option_bind ad_admins]. rewrite decide_True by (by apply admins_of_elem).
  f_equal. rewrite (abs_admins_changed n r) by (first [done|set_solver]). do 3 f_equal. unfold set_admins. cbn. f_equal.
  apply set_eq. intros x. rewrite admins_of_elem. cbn. rewrite !elem_of_difference, admins_of_elem, !elem_of_singleton. naive_solver.
Qed.

(** A change of one group and its members. *)
Lemma abs_group_changed n g r d d' :
  not_groups d' = not_groups d → groups d' = <[(n, g) := r]> (groups d) →
  (∀ n' g' p, (n', g') ≠ (n, g) → group_members d' !! (n', g', p) = group_members d !! (n', g', p)) →
  abs d' = set_a_groups (<[(n, g) := mkAGroup (gr_description r) (gr_created_at r) (members_of d' (n, g))]> (a_groups (abs d))) (abs d).
Proof.
  intros Hn Hg Hm. apply abs_groups_changed; [done|]. intros [n' g']. rewrite abs_group, Hg.
  destruct (decide ((n', g') = (n, g))) as [[= -> ->]|Hne]; [by rewrite !lookup_insert_eq|].
  rewrite !lookup_insert_ne by done. rewrite abs_group. destruct (groups d !! (n', g')); [|done]. cbn. do 2 f_equal.
  apply members_of_ext. intros p. by apply Hm.
Qed.

(** A change of the members of one group. *)
Lemma abs_members_changed n g r d m :
  groups d !! (n, g) = Some r →
  (∀ n' g' p, (n', g') ≠ (n, g) → m !! (n', g', p) = group_members d !! (n', g', p)) →
  abs (set_group_members m d) =
  set_a_groups (<[(n, g) := mkAGroup (gr_description r) (gr_created_at r) (members_of (set_group_members m d) (n, g))]> (a_groups (abs d))) (abs d).
Proof. intros Hr Hm. apply abs_group_changed; [done| |done]. cbn. by rewrite insert_id. Qed.

Lemma abs_group_deleted n g d d' :
  not_groups d' = not_groups d → groups d' = delete (n, g) (groups d) →
  (∀ n' g' p, (n', g') ≠ (n, g) → group_members d' !! (n', g', p) = group_members d !! (n', g', p)) →
  abs d' = set_a_groups (delete (n, g) (a_groups (abs d))) (abs d).
Proof.
  intros Hn Hg Hm. apply abs_groups_changed; [done|]. intros [n' g']. rewrite abs_group, Hg.
  destruct (decide ((n', g') = (n, g))) as [[= -> ->]|Hne]; [by rewrite !lookup_delete_eq|].
  rewrite !lookup_delete_ne by done. rewrite abs_group. destruct (groups d !! (n', g')); [|done]. cbn. do 2 f_equal.
  apply members_of_ext. intros p. by apply Hm.
Qed.

Lemma unmanaged d n g : managed_by n g d = None → (n, g) ∉ a_managed (abs d).
Proof. intros H. rewrite abs_managed. tauto. Qed.

Lemma members_of_empty d n g : (∀ p, group_members d !! (n, g, p) = None) → members_of d (n, g) = ∅.
Proof. intros H. apply map_eq. intros p. by rewrite members_of_lookup, H. Qed.

Lemma exec_create_group n g ds t d :
  ValidateGroupName g = None → is_Some (domains d !! n) → groups d !! (n, g) = None →
  exec_op (OCreateGroup n g ds t) (abs d) =
  Some (abs (set_groups (<[(n, g) := mkGroupRow ds t]> (groups d)) (clear_members n g d))).
Proof.
  intros Hv Hn Hg. cbn [exec_op]. rewrite decide_True by (by rewrite is_Some_abs_domain, abs_group, Hg).
  f_equal. symmetry. erewrite (abs_group_changed n g (mkGroupRow ds t) d);
    [|done|done|intros; by apply clear_members_other]. do 4 f_equal. apply members_of_empty. intros p. apply eq_None_not_Some.
  by intros [e [? _]%clear_members_lookup].
Qed.

Lemma exec_delete_group n g d :
  is_Some (groups d !! (n, g)) → managed_by n g d = None →
  exec_op (ODeleteGroup n g) (abs d) = Some (abs (clear_members n g (set_groups (delete (n, g) (groups d)) d))).
Proof.
  intros Hg Hm. cbn [exec_op]. rewrite decide_True by (split; [by rewrite abs_group, fmap_is_Some|by apply unmanaged]).
  f_equal. symmetry. apply abs_group_deleted; [done|done|]. intros. by apply (clear_members_other n g (set_groups _ _)).
Qed.

Lemma exec_put_member n g p e d :
  is_Some (groups d !! (n, g)) → managed_by n g d = None →
  exec_op (OPutMember n g p e) (abs d) = Some (abs (put_member n g p e d)).
Proof.
  intros [r Hr] Hm. cbn [exec_op]. rewrite abs_group, Hr. cbn [fmap option_fmap option_map mbind option_bind].
  rewrite decide_True by (by apply unmanaged). f_equal. unfold put_member.
  rewrite (abs_members_changed n g r) by (first [done|intros; rewrite lookup_insert_ne; [done|congruence]]).
  do 3 f_equal. unfold set_members. cbn. f_equal. apply map_eq. intros x. rewrite members_of_lookup. cbn.
  destruct (decide (x = p)) as [->|]; [by rewrite !lookup_insert_eq|]. rewrite !lookup_insert_ne by congruence. by rewrite members_of_lookup.
Qed.

Lemma exec_remove_member n g p d :
  group_ok d → is_Some (group_members d !! (n, g, p)) → managed_by n g d = None →
  exec_op (ORemoveMember n g p) (abs d) = Some (abs (drop_member n g p d)).
Proof.
  intros Hok [e He] Hm. destruct (gok_member _ Hok _ _ _ _ He) as [[r Hr] _]. cbn [exec_op]. rewrite abs_group, Hr.
  cbn [fmap option_fmap option_map mbind option_bind ag_members]. rewrite members_of_lookup, decide_True by (split; [by rewrite He|by apply unmanaged]).
  f_equal. unfold drop_member.
  rewrite (abs_members_changed n g r) by (first [done|intros; rewrite lookup_delete_ne; [done|congruence]]).
  do 3 f_equal. unfold set_members. cbn. f_equal. apply map_eq. intros x. rewrite members_of_lookup. cbn.
  destruct (decide (x = p)) as [->|]; [by rewrite !lookup_delete_eq|]. rewrite !lookup_delete_ne by congruence. by rewrite members_of_lookup.
Qed.

(** ** The trail, and operations undone *)

Lemma noted_noted l k a : noted k (noted l a) = noted (l ++ k) a.
Proof. unfold noted. cbn. by rewrite <-app_assoc. Qed.

Lemma noted_nil a : noted [] a = a.
Proof. destruct a. unfold noted. cbn. by rewrite app_nil_r. Qed.

(** Operations neither read nor write the trail. *)
Lemma exec_noted o l a : exec_op o (noted l a) = noted l <$> exec_op o a.
Proof.
  destruct o; cbn [exec_op noted a_domains a_groups a_managed a_policies];
    repeat (case_decide || case_match || (destruct (_ !! _); cbn [mbind option_bind])); done.
Qed.

Lemma undo_create_domain n ds t s l a a1 a2 :
  exec_op (OCreateDomain n ds t s) a = Some a1 → exec_op (ODeleteDomain n) (noted l a1) = Some a2 → a2 = noted l a.
Proof.
  cbn [exec_op]. case_decide as Hc; [|done]. intros [= <-]. case_decide as Hd; [|done]. intros [= <-].
  unfold set_a_domains, noted. cbn. by rewrite delete_insert_id by apply Hc.
Qed.

Lemma undo_delete_domain n D l a a1 a2 :
  a_domains a !! n = Some D →
  exec_op (ODeleteDomain n) a = Some a1 →
  exec_op (OCreateDomain n (ad_description D) (ad_created D) (ad_admins D)) (noted l a1) = Some a2 → a2 = noted l a.
Proof.
  intros HD. cbn [exec_op]. case_decide as Hc; [|done]. intros [= <-]. case_decide as Hd; [|done]. intros [= <-].
  unfold set_a_domains, noted. cbn. rewrite insert_delete_id; [done|]. by destruct D.
Qed.

(** Adding and removing an administrator undo each other. *)
Lemma undo_add_admin n p l a a1 a2 :
  (∀ D, a_domains a !! n = Some D → p ∉ ad_admins D) →
  exec_op (OAddAdmin n p) a = Some a1 → exec_op (ORemoveAdmin n p) (noted l a1) = Some a2 → a2 = noted l a.
Proof.
  intros Hp. cbn [exec_op]. destruct (a_domains a !! n) as [D|] eqn:HD; [|done]. intros [= <-].
  cbn. rewrite lookup_insert_eq. cbn. case_decide; [|done]. intros [= <-]. unfold set_a_domains, noted, set_admins. cbn.
  rewrite insert_insert_eq. rewrite insert_id; [done|]. rewrite HD. destruct D as [ds t s]. cbn. do 2 f_equal.
  specialize (Hp _ eq_refl). cbn in Hp. set_solver.
Qed.

Lemma undo_remove_admin n p l a a1 a2 :
  exec_op (ORemoveAdmin n p) a = Some a1 → exec_op (OAddAdmin n p) (noted l a1) = Some a2 → a2 = noted l a.
Proof.
  cbn [exec_op]. destruct (a_domains a !! n) as [D|] eqn:HD; [|done]. cbn. case_decide as Hp; [|done]. intros [= <-].
  cbn. rewrite lookup_insert_eq. cbn. intros [= <-]. unfold set_a_domains, noted, set_admins. cbn.
  rewrite insert_insert_eq. rewrite insert_id; [done|]. rewrite HD. destruct D as [ds t s]. cbn in *. do 2 f_equal.
  rewrite (comm_L (∪)), difference_union_L. set_solver.
Qed.

(** What a domain stands for, as [GetDomain] reads it. *)
Lemma abs_stored_domain d n r D :
  dir_ok d → (∀ m, (m, "") ∉ domain_admins d) → domains d !! n = Some r → D = stored_domain d n r →
  a_domains (abs d) !! n = Some (mkADomain (Description D) (UnixNano (CreatedAt D)) (list_to_set (dedupe (Admins D)))).
Proof.
  intros Hok Hb Hr ->. rewrite abs_domain, Hr. cbn. unfold UnixNano, UnixTime. rewrite wrap64_id by (by eapply dok_created).
  do 2 f_equal. apply set_eq. intros p. rewrite admins_of_elem, elem_of_list_to_set.
  destruct (dedupe_spec (sorted_admins d n)) as (_ & _ & Hd). destruct (sorted_admins_spec d n) as (_ & _ & Hs).
  rewrite Hd, Hs. split; [|naive_solver]. intros Hin. split; [done|]. intros ->. by eapply Hb.
Qed.

Lemma undo_create_group n g ds t l a a1 d1 d2 :
  exec_op (OCreateGroup n g ds t) a = Some a1 → abs d1 = noted l a1 →
  (groups d1 !! (n, g) = None ∧ rolled_back d1 d2 ∨
   is_Some (groups d1 !! (n, g)) ∧ (∀ p, group_members d1 !! (n, g, p) = None) ∧ d2 = set_groups (delete (n, g) (groups d1)) d1) →
  abs d2 = noted l a.
Proof.
  cbn [exec_op]. case_decide as Hc; [|done]. intros [= <-] Habs. pose proof (abs_group d1 (n, g)) as Hg. rewrite Habs in Hg.
  cbn in Hg. rewrite lookup_insert_eq in Hg. intros [[Hn _]|(_ & Hm & ->)]; [by rewrite Hn in Hg|].
  rewrite (abs_group_deleted n g d1) by done. rewrite Habs. unfold set_a_groups, noted. cbn. by rewrite delete_insert_id by apply Hc.
Qed.

Lemma undo_delete_group n g r d l a1 d1 d2 :
  group_ok d → group_ok d1 → groups d !! (n, g) = Some r →
  exec_op (ODeleteGroup n g) (abs d) = Some a1 → abs d1 = noted l a1 → groups d1 !! (n, g) = None →
  d2 = put_members n g (member_rows n g d) (set_groups (<[(n, g) := r]> (groups d1)) d1) →
  abs d2 = noted l (abs d).
Proof.
  intros Hok Hok1 Hr. cbn [exec_op]. case_decide as Hc; [|done]. intros [= <-] Habs Hn ->.
  assert (∀ p, group_members d1 !! (n, g, p) = None) as Hmem.
  { intros p. apply eq_None_not_Some. intros [e He]. destruct (gok_member _ Hok1 _ _ _ _ He) as [[? ?] _]. congruence. }
  erewrite (abs_group_changed n g r d1);
    [|by rewrite put_members_frame|by rewrite put_members_frame|intros; by rewrite put_members_other].
  rewrite Habs. unfold set_a_groups, noted. cbn. rewrite insert_delete_id; [done|]. rewrite map_lookup_imap, Hr. cbn.
  do 2 f_equal. apply map_eq. intros p. rewrite !members_of_lookup. rewrite <-(restore_delete_members n g d Hok) at 1.
  destruct (member_rows_spec n g d) as [Hnd _]. rewrite !put_members_lookup by done. destruct (filter _ _); [|done].
  cbn. rewrite Hmem. apply map_lookup_filter_None. right. naive_solver.
Qed.

(** What a put replaced, or a removal removed, put back. *)
Lemma undo_member n g p l a a1 G d1 want :
  a_groups a !! (n, g) = Some G →
  abs d1 = noted l a1 → (∃ m, a1 = set_a_groups (<[(n, g) := set_members G m]> (a_groups a)) a ∧ delete p m = delete p (ag_members G)) →
  ag_members G !! p = (λ w, nanos (ExpiresAt w)) <$> want →
  abs (match want with Some w => put_member n g p (nanos (ExpiresAt w)) d1 | None => drop_member n g p d1 end) = noted l a.
Proof.
  intros HG Habs (m & -> & Hm) Hw. pose proof (abs_group d1 (n, g)) as Hg. rewrite Habs in Hg. cbn in Hg.
  rewrite lookup_insert_eq in Hg. destruct (groups d1 !! (n, g)) as [r|] eqn:Hr; [|done]. injection Hg as Hds Ht Hms.
  assert (∀ m', (∀ n' g' p, (n', g') ≠ (n, g) → m' !! (n', g', p) = group_members d1 !! (n', g', p)) →
    (∀ x, m' !! (n, g, x) = ag_members G !! x) → abs (set_group_members m' d1) = noted l a) as Hput.
  { intros m' Hne Heq. rewrite (abs_members_changed n g r) by done. rewrite Habs. unfold set_a_groups, noted, set_members. cbn.
    rewrite insert_insert_eq, insert_id; [done|]. rewrite HG. destruct G as [ds t ms]. cbn in *. subst. do 2 f_equal. apply map_eq.
    intros x. by rewrite members_of_lookup, <-Heq. }
  assert (∀ x, x ≠ p → group_members d1 !! (n, g, x) = ag_members G !! x) as Hother.
  { intros x Hx. rewrite <-members_of_lookup, <-Hms, <-(lookup_delete_ne m p x), Hm, lookup_delete_ne by done. done. }
  destruct want as [w|]; apply Hput; intros.
  1: by rewrite lookup_insert_ne by congruence. 2: by rewrite lookup_delete_ne by congruence.
  all: destruct (decide (x = p)) as [->|Hx]; [rewrite ?lookup_insert_eq, ?lookup_delete_eq; by rewrite Hw|].
  1: rewrite lookup_insert_ne by congruence. 2: rewrite lookup_delete_ne by congruence. all: by apply Hother.
Qed.

(** ** Appends and changes of policies *)

Definition event_entry (ev : AuditEvent) : entry := mkEntry (Kind ev) (Actor ev) (Subject ev) (evDecision ev).

Lemma abs_rolled_back d d' : rolled_back d d' → abs d' = abs d.
Proof. by intros (n & _ & ->). Qed.

Lemma abs_appended d d' ev kr now :
  same_as directory_tables d d' → audit_log d' = audit_log d ++ [event_row (appended_event kr now ev d)] →
  abs d' = noted [event_entry ev] (set_a_policies (policies d') (abs d)).
Proof.
  intros [= Hd Ha Hg Hm _ Hs _] Hl. unfold abs, noted, set_a_policies, admins_of, members_of. cbn.
  by rewrite Hd, Ha, Hg, Hm, Hs, Hl, fmap_app.
Qed.

Lemma abs_extended d d' rows :
  same_as directory_tables d d' → same_as policies d d' → audit_log d' = audit_log d ++ rows →
  abs d' = noted (entry_of <$> rows) (abs d).
Proof.
  intros [= Hd Ha Hg Hm _ Hs _] Hp Hl. unfold same_as in Hp. unfold abs, noted, admins_of, members_of. cbn.
  by rewrite Hd, Ha, Hg, Hm, Hs, Hp, Hl, fmap_app.
Qed.

Lemma set_a_policies_id d d' : policies d' = policies d → set_a_policies (policies d') (abs d) = abs d.
Proof. by intros ->. Qed.

Lemma AppendAudit_abs now ev s q r s' q' :
  audit_ok s → AppendAudit now ev (s, q) = (r, (s', q')) →
  match r with
  | Ok _ => abs (db s') = noted [event_entry ev] (abs (db s))
  | Err _ => abs (db s') = abs (db s) ∨ abs (db s') = noted [event_entry ev] (abs (db s))
  end.
Proof.
  intros Hok H. pose proof (AppendAudit_same directory_tables (λ _ _, eq_refl) frame_appendAuditTx (db s) now ev s q eq_refl) as Hd.
  pose proof (AppendAudit_same policies (λ _ _, eq_refl) frame_appendAuditTx_policies (db s) now ev s q eq_refl) as Hp.
  rewrite H in Hd, Hp. cbn [fst snd] in Hd, Hp. apply AppendAudit_cases in H as (_ & _ & [[Hr Hrb]|(ev' & -> & _ & Hl & Hr)]); [| |done].
  - destruct r; [done|]. left. by apply abs_rolled_back.
  - apply (abs_appended _ _ _ _ _ Hd) in Hl. rewrite set_a_policies_id in Hl by done. destruct Hr as [-> |Hr]; [done|].
    destruct r; [done|]. by right.
Qed.

(** A change of a policy and its row commit together. *)
Definition policy_changed (now : Z) (id : string) (change : PolicyChange) (d d' : DB) : Prop :=
  ∃ next ev, change (scanPolicy id <$> policies d !! id) = Ok (next, ev) ∧
    abs d' = noted [event_entry ev] (set_a_policies (changed_policies id now next (policies d)) (abs d)).

Lemma appendAuditTx_Err kr er now ev d q e w' : appendAuditTx kr er now ev (d, q) = (Err e, w') → no_answer e.
Proof.
  unfold appendAuditTx. intros [(prev & [d1 q1] & _ & H)|(e' & w1 & H%query_Err & [= -> ->])]%bind_cases; [|done].
  apply bind_cases in H as [(ev1 & [d2 q2] & _ & H)|(e' & w1 & H & [= -> ->])].
  - apply bind_cases in H as [(? & [d3 q3] & _ & H)|(e' & w2 & H & [= -> ->])].
    + apply bind_cases in H as [(? & [d4 q4] & _ & H)|(e' & w2 & H & [= -> ->])]; [done|].
      case_decide; [by apply exec_Err in H|done].
    + apply insert_row_Err in H as [?|[_ ->]]; [done|]. left. eauto.
  - unfold insert_audit in H. apply bind_cases in H as [(? & [d4 q4] & _ & H)|(e1 & w2 & H%io_Err & [= -> ->])]; [|done].
    erewrite bind_run in H by done. cbn [fst] in H.
    apply bind_cases in H as [(? & [d5 q5] & _ & H)|(e1 & w2 & H & [= -> ->])].
    + erewrite bind_run in H by done. cbn [fst] in H. case_bool_decide; [injection H as <- _; left; eauto|done].
    + case_decide; [injection H as <- _; left; eauto|done].
Qed.

Lemma change_policy_refuses kr er now now' id change :
  (∀ cur next ev, change cur = Ok (next, ev) → Kind ev ≠ "" ∧ (next = None → is_Some cur)) →
  tx_refuses (change_policy_tx kr er now now' id change) (λ e d, change (scanPolicy id <$> policies d !! id) = Err e).
Proof.
  intros Hch d q e [d' q'] H. unfold change_policy_tx in H.
  apply bind_cases in H as [(row & [d1 q1] & H1 & H)|(e' & [d1 q1] & H1 & [= -> -> ->])]; [|left; by apply query_Err in H1].
  run_split H1. cbv zeta in H. destruct (change _) as [[next ev]|e1] eqn:Ec; [|injection H as <- <- <-; by right]. left.
  apply Hch in Ec as [Hk Hn]. rewrite decide_False in H by done.
  apply bind_cases in H as [(w & [d2 q2] & _ & H)|(e' & [d2 q2] & H & [= -> -> ->])].
  - apply bind_cases in H as [(? & [d3 q3] & _ & H)|(e' & [d3 q3] & H & [= -> -> ->])]; [done|]. by eapply appendAuditTx_Err.
  - destruct next as [p|], (policies d !! id) as [row|] eqn:Er; cbn [fmap option_fmap option_map] in *.
    + unfold update_policy in H. apply bind_cases in H as [(? & ? & _ & H)|(e2 & [d3 q3] & H & [= -> -> ->])]; [done|]. by apply exec_Err in H.
    + unfold insert_policy in H. apply bind_cases in H as [(? & ? & _ & H)|(e2 & [d3 q3] & H & [= -> -> ->])]; [done|].
      apply insert_row_Err in H as [?|[Hd _]]; [done|]. apply bool_decide_eq_true in Hd as [? ?]. congruence.
    + apply bind_cases in H as [(? & ? & _ & H)|(e2 & [d3 q3] & H & [= -> -> ->])]; [done|]. by apply exec_Err in H.
    + by destruct Hn.
Qed.

Lemma ChangePolicy_refuses now now' id change :
  (∀ cur next ev, change cur = Ok (next, ev) → Kind ev ≠ "" ∧ (next = None → is_Some cur)) →
  refuses (ChangePolicy now now' id change) (λ e d, change (scanPolicy id <$> policies d !! id) = Err e).
Proof.
  intros Hch s q e s' q' H. apply leader_only_cases in H as [[_ [= -> -> ->]]|[Hl H]]; [by left; right|].
  erewrite bind_run in H by done. cbn [fst] in H.
  apply bind_cases in H as [(a & [s1 q1] & _ & H)|(e' & [s1 q1] & H & [= -> -> ->])]; [done|].
  rewrite <-(leader_only_leader (with_tx _ _ _)) in H by done.
  by apply (with_tx_refuses _ _ _ _ (change_policy_refuses _ _ _ _ _ _ Hch)) in H.
Qed.

Lemma ChangePolicy_abs now now' id change s q r s' q' :
  (∀ cur next ev, change cur = Ok (next, ev) → Kind ev ≠ "" ∧ (next = None → is_Some cur)) →
  audit_ok s → ChangePolicy now now' id change (s, q) = (r, (s', q')) →
  match r with
  | Ok _ => policy_changed now id change (db s) (db s')
  | Err e =>
      (abs (db s') = abs (db s) ∧ (no_answer e ∨ change (scanPolicy id <$> policies (db s) !! id) = Err e)) ∨
      ((∃ what msg, e = ErrIO what msg) ∧ policy_changed now id change (db s) (db s'))
  end.
Proof.
  intros Hch Hok H. pose proof (ChangePolicy_same directory_tables (λ _ _, eq_refl) frame_appendAuditTx (db s) now now' id change
    (λ _ _, eq_refl) s q eq_refl) as Hd. rewrite H in Hd. cbn [fst snd] in Hd.
  pose proof H as Hrun. apply ChangePolicy_cases in H as (_ & _ & [[Hr Hrb]|(next & ev & ev' & Hc & -> & Hp & Hl & Hr)]); [| |done].
  - destruct r as [|e]; [done|]. left. split; [by apply abs_rolled_back|]. by apply (ChangePolicy_refuses _ _ _ _ Hch) in Hrun.
  - apply (abs_appended _ _ _ _ _ Hd) in Hl. rewrite Hp in Hl. assert (policy_changed now id change (db s) (db s')) by (by exists next, ev).
    destruct Hr as [-> |(what & msg & ->)]; [done|]. right. eauto.
Qed.
