(* ===== verification/GoValue.v ===== *)
(** * GoValue

    The Go values that JSON of no fixed shape decodes into ([any]): numbers
    are [float64], objects are [map[string]any]. Decoding of literals and
    the shortest text of a float follow [strconv]; instants are written as
    [time.RFC3339Nano] writes them in UTC. *)
From Stdlib Require Import SpecFloat.
From S2P Require Import Prelude Json JsonParse.

(** ** float64 *)

Definition float64 : Type := spec_float.

Definition f64_div : float64 → float64 → float64 := SFdiv 53 1024.

Fixpoint digits_value (acc : Z) (s : string) : Z :=
  match s with
  | "" => acc
  | String a s' => digits_value (10 * acc + (Z.of_nat (nat_of_ascii a) - 48)) s'
  end.

(** The exponent of a literal: an optional sign and digits. *)
Definition exponent_value (s : string) : Z :=
  match s with
  | String _ (String g t) =>
      if decide (g = "-"%char) then - digits_value 0 t
      else if decide (g = "+"%char) then digits_value 0 t
      else digits_value 0 (String g t)
  | _ => 0
  end%Z.

(** [strconv.ParseFloat(lit, 64)] of a JSON number literal: the nearest
    float to the decimal, ties to even; [None] is the range error. The
    decimals far outside the range of floats are told by their size. *)
Definition ParseFloat (lit : string) : option float64 :=
  let '(sign, s1) := sign_part lit in
  '(i, s2) ← int_part s1;
  '(f, s3) ← frac_part s2;
  '(e, _) ← exp_part s3;
  let frac := string_drop 1 f in
  let neg := bool_decide (sign = "-") in
  let d := digits_value 0 (i +:+ frac) in
  let p := (exponent_value e - Z.of_nat (String.length frac))%Z in
  let size := (p + Z.of_nat (String.length (i +:+ frac)))%Z in
  match d with
  | Zpos m =>
      if decide (size < -400)%Z then Some (S754_zero neg)
      else if decide (400 < p)%Z then None
      else
        let num := S754_finite neg (Z.to_pos (Zpos m * 10 ^ Z.max p 0)) 0 in
        let den := S754_finite false (Z.to_pos (10 ^ Z.max (- p) 0)) 0 in
        match f64_div num den with
        | S754_infinity _ => None
        | x => Some x
        end
  | _ => Some (S754_zero neg)
  end.

(** The whole number a float stands for, when it has no fraction. *)
Definition whole (x : float64) : option Z :=
  match x with
  | S754_zero _ => Some 0%Z
  | S754_finite s m e =>
      let v := if s then Zneg m else Zpos m in
      if decide (0 <= e)%Z then Some (v * 2 ^ e)%Z
      else if decide (v `mod` 2 ^ (- e) = 0)%Z then Some (v `div` 2 ^ (- e))%Z
      else None
  | _ => None
  end.

(** *** The shortest decimal *)

(** The nearest multiple of [10^p] within the rounding interval of the
    float [m * 2^e], if there is one. Everything is counted in quarters of
    the last place, times a factor that makes the bounds whole. *)
Definition shortest_at (m : positive) (e p : Z) : option Z :=
  let factor := (2 ^ Z.max (e - 2) 0 * 10 ^ Z.max (- p) 0)%Z in
  let unit := (2 ^ Z.max (2 - e) 0 * 10 ^ Z.max p 0)%Z in
  let boundary := bool_decide (Zpos m = 2 ^ 52 ∧ -1074 < e)%Z in
  let x := (4 * Zpos m * factor)%Z in
  let up := ((4 * Zpos m + 2) * factor)%Z in
  let low := ((4 * Zpos m - (if boundary then 1 else 2)) * factor)%Z in
  let inside d :=
    let v := (d * unit)%Z in
    if Z.even (Zpos m) then bool_decide (low <= v <= up)%Z else bool_decide (low < v < up)%Z in
  let q := (x / unit)%Z in
  match inside q, inside (q + 1)%Z with
  | true, true => Some (if decide (x - q * unit <= (q + 1) * unit - x)%Z then q else (q + 1)%Z)
  | true, false => Some q
  | false, true => Some (q + 1)%Z
  | false, false => None
  end.

Fixpoint shortest_go (fuel : nat) (m : positive) (e p : Z) : Z * Z :=
  match fuel with
  | 0 => (Zpos m, e)
  | S n =>
      match shortest_at m e p with
      | Some (Zpos d) => (Zpos d, p)
      | _ => shortest_go n m e (p - 1)
      end
  end.

(** The digits and exponent of the shortest decimal [d * 10^p] that reads
    back as [m * 2^e]: the largest exponent for which there is a multiple.
    The search starts above the value; 17 digits always suffice, so 25
    steps do. *)
Definition shortest (m : positive) (e : Z) : Z * Z :=
  shortest_go 25 m e ((Zpos (digits2_pos m) + e) * 30103 / 100000 + 2).

Fixpoint zeros (n : nat) : string :=
  match n with 0 => "" | S n' => String "0" (zeros n') end.

(** The text [encoding/json] gives a float: plain decimals, or an exponent
    when the value is below 1e-6 or at least 1e21. [None] stands for the
    error on an infinity or NaN. *)
Definition format_float (x : float64) : option string :=
  match x with
  | S754_zero s => Some (if s then "-0" else "0")
  | S754_finite s m e =>
      let '(d, p) := shortest m e in
      let ds := pretty d in
      let n := Z.of_nat (String.length ds) in
      let x10 := (n + p - 1)%Z in
      let body :=
        if decide (x10 < -6 ∨ 21 <= x10)%Z then
          string_take 1 ds +:+ (if decide (n = 1)%Z then "" else "." +:+ string_drop 1 ds)
            +:+ "e" +:+ (if decide (x10 < 0)%Z then "-" else "+") +:+ pretty (Z.abs x10)
        else if decide (0 <= p)%Z then ds +:+ zeros (Z.to_nat p)
        else if decide (0 <= x10)%Z then
          string_take (Z.to_nat (x10 + 1)) ds +:+ "." +:+ string_drop (Z.to_nat (x10 + 1)) ds
        else "0." +:+ zeros (Z.to_nat (- x10 - 1)) +:+ ds in
      Some (if s then String "-" body else body)
  | _ => None
  end.

Lemma format_examples :
  (λ t, x ← ParseFloat t; format_float x) <$>
    ["0"; "-0.0"; "5"; "5.90"; "0.1"; "1e20"; "1e21"; "9007199254740993"; "1e-7"; "0.000001"; "12345.678";
     "1.7976931348623157e308"; "5e-324"; "123456789012345680000"; "1e309"] =
  (Some <$> ["0"; "-0"; "5"; "5.9"; "0.1"; "100000000000000000000"; "1e+21"; "9007199254740992"; "1e-7"; "0.000001";
     "12345.678"; "1.7976931348623157e+308"; "5e-324"; "123456789012345680000"]) ++ [None].
Proof. vm_compute. reflexivity. Qed.

(** ** Values of type any *)

(** [AInt] is an [int] or [int64] and [AStrs] a [[]string], which only the
    program's own code puts into such a value. *)
Inductive any :=
| ANil
| ABool (b : bool)
| AFloat (x : float64)
| AInt (z : Z)
| AStr (s : string)
| AStrs (l : list string)
| AArr (l : list any)
| AMap (m : list (string * any)).

(** A [map[string]any], as its entries in the order of their keys. *)
Definition anymap : Type := list (string * any).

Fixpoint map_put (k : string) (v : any) (m : anymap) : anymap :=
  match m with
  | [] => [(k, v)]
  | (k', v') :: m' =>
      if decide (k = k') then (k, v) :: m'
      else if decide (String.le k k') then (k, v) :: m
      else (k', v') :: map_put k v m'
  end.

(** Decoding into an [any]: a key that comes again replaces the value, and
    a number out of range is an error. *)
Fixpoint any_of_json (v : json) : option any :=
  match v with
  | JNull => Some ANil
  | JBool b => Some (ABool b)
  | JNum lit => AFloat <$> ParseFloat lit
  | JStr s => Some (AStr s)
  | JArr l => AArr <$> (fix go l := match l with [] => Some [] | x :: l' => y ← any_of_json x; cons y <$> go l' end) l
  | JObj l =>
      AMap <$> (fix go l m :=
        match l with
        | [] => Some m
        | (k, x) :: l' => y ← any_of_json x; go l' (map_put k y m)
        end) l []
  end.

(** What [json.Marshal] writes; [None] is its error on a float that is no
    number. *)
Fixpoint json_of_any (v : any) : option json :=
  match v with
  | ANil => Some JNull
  | ABool b => Some (JBool b)
  | AFloat x => JNum <$> format_float x
  | AInt z => Some (JInt z)
  | AStr s => Some (JStr s)
  | AStrs l => Some (JArr (JStr <$> l))
  | AArr l => JArr <$> (fix go l := match l with [] => Some [] | x :: l' => y ← json_of_any x; cons y <$> go l' end) l
  | AMap l =>
      JObj <$> (fix go l :=
        match l with
        | [] => Some []
        | (k, x) :: l' => y ← json_of_any x; cons (k, y) <$> go l'
        end) l
  end.

(** ** Instants *)

Definition digit_char (z : Z) : ascii := ascii_of_nat (48 + Z.to_nat z).

(** A number written with [k] digits. *)
Fixpoint pad (k : nat) (z : Z) : string :=
  match k with
  | 0 => ""
  | S k' => pad k' (z / 10) +:+ String (digit_char (z `mod` 10)) ""
  end.

(** A fraction of [k] digits without the zeros at its end. *)
Fixpoint trim_digits (k : nat) (z : Z) : string :=
  match k with
  | 0 => ""
  | S k' => if decide (z `mod` 10 = 0)%Z then trim_digits k' (z / 10) else pad k z
  end.

(** The year, month and day of a day counted from January 1, 1970, by eras
    of 400 years that start in March. *)
Definition civil_of_doe (doe : Z) : Z * Z * Z :=
  let yoe := ((doe - doe / 1460 + doe / 36524 - doe / 146096) / 365)%Z in
  let doy := (doe - (365 * yoe + yoe / 4 - yoe / 100))%Z in
  let mp := ((5 * doy + 2) / 153)%Z in
  let d := (doy - (153 * mp + 2) / 5 + 1)%Z in
  let m := (if decide (mp < 10) then mp + 3 else mp - 9)%Z in
  ((if decide (m <= 2) then yoe + 1 else yoe)%Z, m, d).

Definition civil (day : Z) : Z * Z * Z :=
  let z := (day + 719468)%Z in
  let '(y, m, d) := civil_of_doe (z `mod` 146097) in
  ((y + z / 146097 * 400)%Z, m, d).

Definition day_nanos : Z := 86400 * Second.

(** [t.UTC().Format(time.RFC3339Nano)] for a year of at most four digits. *)
Definition format_time (t : Z) : string :=
  let '(y, m, d) := civil (t / day_nanos) in
  let s := ((t `mod` day_nanos) / Second)%Z in
  let frac := trim_digits 9 (t `mod` Second) in
  pad 4 y +:+ "-" +:+ pad 2 m +:+ "-" +:+ pad 2 d +:+ "T" +:+ pad 2 (s / 3600) +:+ ":" +:+
  pad 2 ((s / 60) `mod` 60) +:+ ":" +:+ pad 2 (s `mod` 60) +:+
  (if decide (frac = "") then "Z" else "." +:+ frac +:+ "Z").

(** The years [time.Time.MarshalJSON] writes. *)
Definition json_year (t : Z) : Prop := let '(y, _, _) := civil (t / day_nanos) in (0 <= y <= 9999)%Z.

#[global] Instance json_year_dec t : Decision (json_year t).
Proof. unfold json_year. destruct (civil _) as [[??] ?]. apply _. Defined.

Definition json_of_time (t : Z) : option json :=
  if decide (json_year t) then Some (JStr (format_time t)) else None.

Lemma format_time_examples :
  format_time <$> [zero_time; 0; 951868799123456000; 1709164800000000001; -1]%Z =
  ["0001-01-01T00:00:00Z"; "1970-01-01T00:00:00Z"; "2000-02-29T23:59:59.123456Z";
   "2024-02-29T00:00:00.000000001Z"; "1969-12-31T23:59:59.999999999Z"].
Proof. vm_compute. reflexivity. Qed.


(** *** An instant is told by its text *)

Lemma pad_length k z : String.length (pad k z) = k.
Proof. revert z. induction k as [|k IH]; intros z; simpl; [done|]. rewrite string_length_app, IH. simpl. lia. Qed.

Lemma digit_char_inj a b :
  (0 <= a < 10)%Z → (0 <= b < 10)%Z → digit_char a = digit_char b → a = b.
Proof.
  intros Ha Hb H. apply (f_equal nat_of_ascii) in H. unfold digit_char in H.
  rewrite !nat_ascii_embedding in H by lia. lia.
Qed.

Lemma pad_inj k a b :
  (0 <= a < 10 ^ Z.of_nat k)%Z → (0 <= b < 10 ^ Z.of_nat k)%Z → pad k a = pad k b → a = b.
Proof.
  revert a b. induction k as [|k IH]; intros a b Ha Hb H; [simpl in *; lia|].
  rewrite Nat2Z.inj_succ, Z.pow_succ_r in Ha, Hb by lia. cbn [pad] in H.
  apply string_app_inj_len in H as [Hq [= Hr]]; [|by rewrite !pad_length].
  apply IH in Hq; [|split; [apply Z.div_pos; lia|apply Z.div_lt_upper_bound; lia]..].
  apply digit_char_inj in Hr; [|apply Z.mod_pos_bound; lia..].
  rewrite (Z.div_mod a 10), (Z.div_mod b 10) by lia. congruence.
Qed.

(** What a trimmed fraction of [k] digits stood for. *)
Lemma trim_digits_inj k a b :
  (0 <= a < 10 ^ Z.of_nat k)%Z → (0 <= b < 10 ^ Z.of_nat k)%Z → trim_digits k a = trim_digits k b → a = b.
Proof.
  assert (∀ k z, String.length (trim_digits k z) ≤ k) as Hlen.
  { clear. induction k as [|k IH]; intros z; cbn [trim_digits]; [done|].
    case_decide; [|by rewrite pad_length]. specialize (IH (z / 10)%Z). lia. }
  revert a b. induction k as [|k IH]; intros a b Ha Hb H; [simpl in *; lia|].
  pose proof (Hlen k (a / 10)%Z). pose proof (Hlen k (b / 10)%Z).
  cbn [trim_digits] in H. repeat case_decide.
  - rewrite Nat2Z.inj_succ, Z.pow_succ_r in Ha, Hb by lia.
    apply IH in H; [|split; [apply Z.div_pos; lia|apply Z.div_lt_upper_bound; lia]..].
    rewrite (Z.div_mod a 10), (Z.div_mod b 10) by lia. congruence.
  - apply (f_equal String.length) in H. rewrite pad_length in H. lia.
  - apply (f_equal String.length) in H. rewrite pad_length in H. lia.
  - by apply (pad_inj (S k)).
Qed.

(** The year of an era starts at most 365 days before each of its days. *)
Lemma year_of_era doe :
  (0 <= doe < 146097)%Z →
  let yoe := ((doe - doe / 1460 + doe / 36524 - doe / 146096) / 365)%Z in
  (0 <= yoe <= 399 ∧ 0 <= doe - (365 * yoe + yoe / 4 - yoe / 100) <= 365)%Z.
Proof. intros H yoe. subst yoe. Z.div_mod_to_equations. lia. Qed.

(** The date of a day, seen from the day: how many whole years, months and
    days into its era it is. *)
Lemma civil_range day y m d :
  civil day = (y, m, d) →
  ∃ yoe mp, let z := (day + 719468)%Z in
    (0 <= yoe <= 399 ∧ 0 <= mp <= 11 ∧ 1 <= d <= 31 ∧
     m = (if decide (mp < 10) then mp + 3 else mp - 9) ∧
     y = (if decide (m <= 2) then yoe + 1 else yoe) + z / 146097 * 400 ∧
     z `mod` 146097 = 365 * yoe + yoe / 4 - yoe / 100 + ((153 * mp + 2) / 5 + d - 1))%Z.
Proof.
  unfold civil, civil_of_doe. set (z := (day + 719468)%Z). intros [= <- <- <-].
  pose proof (year_of_era (z `mod` 146097) (Z.mod_pos_bound z 146097 eq_refl)) as [Hy Hd].
  set (yoe := ((z `mod` 146097 - z `mod` 146097 / 1460 + z `mod` 146097 / 36524 - z `mod` 146097 / 146096) / 365)%Z) in *.
  set (doy := (z `mod` 146097 - (365 * yoe + yoe / 4 - yoe / 100))%Z) in *.
  exists yoe, ((5 * doy + 2) / 153)%Z. simpl. clearbody yoe.
  split_and!; try done; try (subst doy; lia); clearbody doy; Z.div_mod_to_equations; lia.
Qed.

Lemma civil_inj a b : civil a = civil b → a = b.
Proof.
  destruct (civil a) as [[y m] d] eqn:Ea, (civil b) as [[y' m'] d'] eqn:Eb. intros [= <- <- <-].
  apply civil_range in Ea as (yo & mp & Ha), Eb as (yo' & mp' & Hb).
  destruct Ha as (?&?&?&Hm&Hy&Hz), Hb as (?&?&?&Hm'&Hy'&Hz').
  assert (mp = mp') as <- by (rewrite Hm in Hm'; repeat case_decide; lia). clear Hm Hm'.
  assert ((a + 719468) / 146097 = (b + 719468) / 146097 ∧ yo = yo')%Z as [He <-] by (case_decide; lia).
  pose proof (Z.div_mod (a + 719468) 146097). pose proof (Z.div_mod (b + 719468) 146097). lia.
Qed.

Lemma frac_inj (x y : string) :
  (if decide (x = "") then "Z" else "." +:+ x +:+ "Z") = (if decide (y = "") then "Z" else "." +:+ y +:+ "Z") → x = y.
Proof.
  repeat case_decide; subst; try done. intros [= E]. pose proof (f_equal String.length E) as Hl.
  rewrite !string_length_app in Hl.
  apply (string_app_inj_len x y "Z" "Z") in E as [? _]; [done|]. simpl in Hl. lia.
Qed.

Lemma clock_inj s s' :
  (s / 3600 = s' / 3600 → (s / 60) `mod` 60 = (s' / 60) `mod` 60 → s `mod` 60 = s' `mod` 60 → s = s')%Z.
Proof. intros. Z.div_mod_to_equations. lia. Qed.

Lemma clock_range s :
  (0 <= s < 86400 → 0 <= s / 3600 < 100 ∧ 0 <= (s / 60) `mod` 60 < 100 ∧ 0 <= s `mod` 60 < 100)%Z.
Proof. intros. split_and!; Z.div_mod_to_equations; lia. Qed.

(** An instant by its day, second of the day and fraction. *)
Lemma instant_split t :
  (0 <= t `mod` day_nanos / Second < 86400 ∧
   t = t / day_nanos * day_nanos + t `mod` day_nanos / Second * Second + t `mod` Second)%Z.
Proof. unfold day_nanos, Second. Z.div_mod_to_equations. lia. Qed.

(** Whole years of at most four digits, two-digit months, days and times of
    day, and a fraction of a second. *)
Lemma format_time_inj a b : json_year a → json_year b → format_time a = format_time b → a = b.
Proof.
  unfold json_year, format_time.
  destruct (civil (a / day_nanos)) as [[y m] d] eqn:Ea, (civil (b / day_nanos)) as [[y' m'] d'] eqn:Eb.
  intros Hya Hyb H. pose proof (civil_range _ _ _ _ Ea) as (?&?&?&?&?&Hma&_).
  pose proof (civil_range _ _ _ _ Eb) as (?&?&?&?&?&Hmb&_).
  assert (1 <= m <= 12 ∧ 1 <= m' <= 12)%Z as [? ?] by (subst m m'; repeat case_decide; lia). clear Hma Hmb.
  pose proof (instant_split a) as [Hs Ha]. pose proof (instant_split b) as [Hs' Hb].
  set (s := (a `mod` day_nanos / Second)%Z) in *. set (s' := (b `mod` day_nanos / Second)%Z) in *.
  pose proof (clock_range s Hs). pose proof (clock_range s' Hs').
  assert (∀ z z', (0 <= z < 100 → 0 <= z' < 100 → pad 2 z = pad 2 z' → z = z')%Z) as Hpad by (intros; by apply (pad_inj 2)).
  repeat match type of H with
  | pad ?k ?z +:+ _ = pad ?k ?z' +:+ _ =>
      let H' := fresh "H" in apply string_app_inj_len in H as [H' H]; [|by rewrite !pad_length]
  | ?c +:+ _ = ?c +:+ _ => apply string_app_inj_len in H as [_ H]; [|done]
  end.
  apply frac_inj, trim_digits_inj in H; [|apply Z.mod_pos_bound; done..].
  match goal with E : pad 4 _ = _ |- _ => apply (pad_inj 4) in E as <-; [|lia..] end.
  assert (m = m' ∧ d = d') as [<- <-] by (split; apply Hpad; lia || done).
  assert (a / day_nanos = b / day_nanos)%Z as Hday by (apply civil_inj; congruence).
  assert (s = s') as Hsec by (apply clock_inj; apply Hpad; tauto).
  rewrite Ha, Hb. congruence.
Qed.

(** ** Numbers that are written are JSON numbers *)

Definition digits (s : string) : Prop := s ≠ "" ∧ string_forallb is_digit s = true.

Definition no_digit_first (s : string) : Prop := match s with String a _ => is_digit a = false | "" => True end.

Lemma digits1_digits s rest : digits s → no_digit_first rest → digits1 (s +:+ rest) = Some (s, rest).
Proof.
  intros [Hne Hs] Hr. unfold digits1. rewrite (span_app _ _ s "" rest) by (by apply span_all || done).
  by rewrite decide_False.
Qed.

(** A number put together from its parts. *)
Lemma num_ok_parts (neg : bool) i fr ex :
  i = "0" ∨ (digits i ∧ ∀ t, i ≠ String "0" t) →
  fr = "" ∨ (∃ f, fr = String "." f ∧ digits f) →
  ex = "" ∨ (∃ g e, ex = String "e" (String g e) ∧ (g = "+"%char ∨ g = "-"%char) ∧ digits e) →
  num_ok ((if neg then "-" else "") +:+ i +:+ fr +:+ ex).
Proof.
  intros Hi Hf He. unfold num_ok, parse_number.
  assert (sign_part ((if neg then "-" else "") +:+ i +:+ fr +:+ ex) = ((if neg then "-" else ""), i +:+ fr +:+ ex)) as ->.
  { destruct neg; [done|]. change ("" +:+ ?x) with x. destruct Hi as [->|[[Hne Hd] _]]; [done|].
    destruct i as [|a i]; [done|]. rewrite string_app_cons. unfold sign_part. rewrite decide_False; [done|].
    intros ->. by vm_compute in Hd. }
  assert (no_digit_first (fr +:+ ex)) as Hn1.
  { destruct Hf as [->|(f & -> & _)]; [|done]. by destruct He as [->|(g & e & -> & _)]. }
  assert (no_digit_first ex) as Hn2 by (by destruct He as [->|(g & e & -> & _)]).
  assert (int_part (i +:+ fr +:+ ex) = Some (i, fr +:+ ex)) as ->.
  { destruct Hi as [->|[Hd H0]]; [done|]. destruct i as [|a i]; [by destruct Hd|]. rewrite string_app_cons.
    cbn [int_part]. rewrite decide_False by (intros ->; by eapply H0). rewrite <-string_app_cons. by apply digits1_digits. }
  cbn [mbind option_bind].
  assert (frac_part (fr +:+ ex) = Some (fr, ex)) as ->.
  { destruct Hf as [->|(f & -> & Hd)].
    - by destruct He as [->|(g & e & -> & _)].
    - rewrite string_app_cons. cbn [frac_part]. rewrite decide_True by done. by rewrite digits1_digits. }
  cbn [mbind option_bind].
  assert (exp_part ex = Some (ex, "")) as ->; [|done].
  destruct He as [->|(g & e & -> & Hg & Hd)]; [done|]. cbn [exp_part]. rewrite decide_True by by left.
  rewrite decide_True by done. rewrite <-(string_app_nil_r e) at 1. by rewrite digits1_digits.
Qed.

Lemma pretty_pos_digits p : digits (pretty (Zpos p)) ∧ ∀ t, pretty (Zpos p) ≠ String "0" t.
Proof.
  destruct (pretty_N_go_digits (Npos p) "") as (c & t & E & Hc & Ht); [lia|]. rewrite string_app_nil_r in E.
  assert (pretty (Zpos p) = String c t) as -> by exact E. split; [by split|]. naive_solver.
Qed.

Lemma shortest_go_pos fuel m e p : ∃ d p', shortest_go fuel m e p = (Zpos d, p').
Proof.
  revert p. induction fuel as [|n IH]; intros p; [by eexists _, _|]. cbn [shortest_go].
  destruct (shortest_at m e p) as [[]|]; eauto.
Qed.

Lemma digits_split k s : digits s → k < String.length s → digits (string_drop k s).
Proof.
  intros [Hne Hs] Hk. revert k Hk. induction s as [|a s IH]; intros k Hk; [done|].
  destruct k as [|k]; [by split|]. cbn [string_drop]. simpl in Hs, Hk. apply andb_true_iff in Hs as [_ Hs].
  apply IH; [by intros ->; simpl in Hk; lia|done|lia].
Qed.

Lemma digits_take k s : digits s → 0 < k → digits (string_take k s).
Proof.
  intros [Hne Hs] Hk. destruct s as [|a s]; [done|]. destruct k as [|k]; [lia|]. split; [done|].
  clear Hne Hk. revert s a Hs. induction k as [|k IH]; intros s a Hs; simpl in *;
    apply andb_true_iff in Hs as [Ha Hs]; rewrite Ha; [done|].
  destruct s as [|b s]; [done|]. exact (IH s b Hs).
Qed.

Lemma digits_app s t : digits s → string_forallb is_digit t = true → digits (s +:+ t).
Proof. intros [Hne Hs] Ht. split; [by destruct s|]. by rewrite string_forallb_app, Hs. Qed.

Lemma zeros_digits n : string_forallb is_digit (zeros n) = true.
Proof. by induction n. Qed.

Lemma digits_app_r s t : string_forallb is_digit s = true → digits t → digits (s +:+ t).
Proof. intros Hs [Hne Ht]. split; [by destruct s|]. by rewrite string_forallb_app, Hs. Qed.

(** A float is written as a JSON number. *)
Lemma format_float_num x s : format_float x = Some s → num_ok s.
Proof.
  destruct x as [sg|sg| |sg m e]; try done; [by destruct sg; intros [= <-]|].
  cbn [format_float]. unfold shortest. destruct (shortest_go_pos 25 m e ((Zpos (digits2_pos m) + e) * 30103 / 100000 + 2))
    as (d & p & ->). destruct (pretty_pos_digits d) as [Hd H0].
  set (ds := pretty (Zpos d)) in *. clearbody ds. intros H. apply (inj Some) in H. subst s.
  set (n := String.length ds). assert (0 < n) as Hn by (destruct Hd, ds; [done|unfold n; simpl; lia]).
  assert (∀ body, num_ok ((if sg then "-" else "") +:+ body) → num_ok (if sg then String "-" body else body)) as Hsg
    by (by destruct sg). apply Hsg. clear Hsg.
  assert (∀ k, 0 < k → digits (string_take k ds) ∧ ∀ t, string_take k ds ≠ String "0" t) as Htake.
  { intros k Hk. split; [by apply digits_take|]. destruct ds as [|a ds]; [by destruct Hd|].
    destruct k as [|k]; [lia|]. intros t [= -> _]. by eapply H0. }
  case_decide as Hx.
  - set (x10 := (Z.of_nat n + p - 1)%Z) in *.
    assert (digits (pretty (Z.abs x10))) as Hex.
    { assert (∃ q, Z.abs x10 = Zpos q) as [q ->] by (destruct x10; [lia|by eexists..]). apply pretty_pos_digits. }
    apply (num_ok_parts sg _ _ ("e" +:+ (if decide (x10 < 0)%Z then "-" else "+") +:+ pretty (Z.abs x10))).
    + right. by apply Htake; lia.
    + case_decide; [by left|]. right. eexists. split; [done|]. apply digits_split; [done|unfold n in *; lia].
    + right. case_decide; do 2 eexists; split_and!; eauto.
  - case_decide as Hp; [|case_decide as Hx2].
    + rewrite <-(string_app_nil_r (ds +:+ _)), <-(string_app_nil_r ((ds +:+ _) +:+ "")), string_app_assoc.
      apply (num_ok_parts sg _ "" ""); [|by left..]. right. split; [apply digits_app; [done|apply zeros_digits]|].
      intros t Ht. destruct ds as [|a ds]; [by destruct Hd|]. injection Ht as -> _. by eapply H0.
    + rewrite <-(string_app_nil_r (_ +:+ "." +:+ _)), !string_app_assoc.
      apply (num_ok_parts sg _ ("." +:+ _) ""); [..|by left].
      * right. by apply Htake; lia.
      * right. eexists. split; [done|]. apply digits_split; [done|unfold n in *; lia].
    + change ("0." +:+ ?x) with ("0" +:+ ("." +:+ x)).
      rewrite <-(string_app_nil_r ("0" +:+ _)), (string_app_assoc "0").
      apply (num_ok_parts sg "0" ("." +:+ _) ""); [by left| |by left].
      right. eexists. split; [done|]. apply digits_app_r; [apply zeros_digits|done].
Qed.
