(* ===== verification/GoTime.v ===== *)
(** * GoTime

    Reading the instants that [time.RFC3339Nano] writes: [time.Parse] with
    that layout, or with [time.RFC3339], which accept the same texts, and
    that it reads back what was written. *)
From S2P Require Import Prelude Json JsonParse GoValue.

(** ** Parsing *)

Definition digit_value (a : ascii) : option Z :=
  if is_digit a then Some (Z.of_nat (nat_of_ascii a) - 48)%Z else None.

(** Exactly [k] digits. *)
Fixpoint read_digits (k : nat) (acc : Z) (s : string) : option (Z * string) :=
  match k, s with
  | 0, _ => Some (acc, s)
  | S k', String a s' => d ← digit_value a; read_digits k' (10 * acc + d) s'
  | S _, "" => None
  end.

(** One or two digits, as an hour may be written. *)
Definition read_hour (s : string) : option (Z * string) :=
  match read_digits 2 0 s with
  | Some r => Some r
  | None => read_digits 1 0 s
  end.

Definition expect (c : ascii) (s : string) : option string :=
  match s with
  | String a s' => if decide (a = c) then Some s' else None
  | "" => None
  end.

(** The first nine digits of a fraction, as nanoseconds. *)
Fixpoint nanos_of (k : nat) (acc : Z) (s : string) : Z :=
  match k with
  | 0 => acc
  | S k' =>
      match s with
      | String a s' => nanos_of k' (10 * acc + default 0%Z (digit_value a)) s'
      | "" => nanos_of k' (10 * acc) ""
      end
  end.

(** A fraction of a second, which may be missing. *)
Definition read_fraction (s : string) : Z * string :=
  match s with
  | String c (String a _ as t) =>
      if decide ((c = "."%char ∨ c = ","%char) ∧ is_digit a = true) then
        let '(ds, rest) := span is_digit t in (nanos_of 9 0 ds, rest)
      else (0%Z, s)
  | _ => (0%Z, s)
  end.

(** The offset from UTC in seconds, at the end of the text. *)
Definition read_zone (s : string) : option Z :=
  match s with
  | "Z" => Some 0%Z
  | String c s1 =>
      if decide (c = "+"%char ∨ c = "-"%char) then
        '(h, s2) ← read_digits 2 0 s1;
        s3 ← expect ":" s2;
        '(m, s4) ← read_digits 2 0 s3;
        if decide (s4 = "" ∧ h <= 24 ∧ m <= 60)%Z
        then Some (if decide (c = "-"%char) then - (h * 3600 + m * 60) else h * 3600 + m * 60)%Z else None
      else None
  | "" => None
  end.

Definition leap (y : Z) : bool :=
  bool_decide (y `mod` 4 = 0 ∧ (y `mod` 100 ≠ 0 ∨ y `mod` 400 = 0))%Z.

Definition days_in (m y : Z) : Z :=
  if decide (m = 2)%Z then if leap y then 29 else 28
  else if decide (m = 4 ∨ m = 6 ∨ m = 9 ∨ m = 11)%Z then 30 else 31.

(** The day of a date, counted from January 1, 1970. *)
Definition day_of (y m d : Z) : Z :=
  let y' := (if decide (m <= 2) then y - 1 else y)%Z in
  let mp := (if decide (m <= 2) then m + 9 else m - 3)%Z in
  let yoe := (y' `mod` 400)%Z in
  (y' / 400 * 146097 + (365 * yoe + yoe / 4 - yoe / 100) + ((153 * mp + 2) / 5 + d - 1) - 719468)%Z.

Definition parse_time (s : string) : option Z :=
  '(y, s) ← read_digits 4 0 s;
  s ← expect "-" s;
  '(mo, s) ← read_digits 2 0 s;
  s ← expect "-" s;
  '(d, s) ← read_digits 2 0 s;
  s ← expect "T" s;
  '(h, s) ← read_hour s;
  s ← expect ":" s;
  '(mi, s) ← read_digits 2 0 s;
  s ← expect ":" s;
  '(se, s) ← read_digits 2 0 s;
  let '(ns, s) := read_fraction s in
  off ← read_zone s;
  if decide (1 <= mo <= 12 ∧ 1 <= d <= days_in mo y ∧ h < 24 ∧ mi < 60 ∧ se < 60)%Z
  then Some ((day_of y mo d * 86400 + h * 3600 + mi * 60 + se - off) * Second + ns)%Z else None.

Lemma parse_time_examples :
  parse_time <$> ["1970-01-01T00:00:00Z"; "2000-02-29T23:59:59.123456Z"; "2024-02-29T01:00:00.000000001+01:00"; "2023-02-29T00:00:00Z";
    "1970-01-01T0:00:00,5Z"; "1970-01-01T00:00:60Z"; "1970-01-01T00:00:00"; "0001-01-01T00:00:00Z"] =
  [Some 0; Some 951868799123456000; Some 1709164800000000001; None; Some 500000000; None; None; Some zero_time]%Z.
Proof. vm_compute. reflexivity. Qed.

(** ** Reading what was written *)

Lemma digit_value_char z : (0 <= z < 10)%Z → digit_value (digit_char z) = Some z.
Proof.
  intros Hz. unfold digit_value, digit_char, is_digit, byte_in. rewrite nat_ascii_embedding by lia.
  rewrite bool_decide_eq_true_2 by lia. f_equal. lia.
Qed.

Lemma read_digits_add k j acc s :
  read_digits (k + j) acc s = ('(a, s') ← read_digits k acc s; read_digits j a s').
Proof.
  revert acc s. induction k as [|k IH]; intros acc s; [done|]. destruct s as [|a s]; [done|]. simpl.
  destruct (digit_value a); [|done]. simpl. apply IH.
Qed.

Lemma read_digits_pad k z acc rest :
  (0 <= z < 10 ^ Z.of_nat k)%Z → read_digits k acc (pad k z +:+ rest) = Some (acc * 10 ^ Z.of_nat k + z, rest)%Z.
Proof.
  revert z rest. induction k as [|k IH]; intros z rest Hz; [simpl in *; do 2 f_equal; lia|].
  rewrite Nat2Z.inj_succ, Z.pow_succ_r in Hz by lia. rewrite Nat2Z.inj_succ, Z.pow_succ_r by lia.
  replace (S k) with (k + 1) by lia. rewrite read_digits_add. cbn [Nat.add pad]. rewrite Nat.add_1_r. cbn [pad].
  rewrite string_app_assoc, IH by (split; [apply Z.div_pos; lia|apply Z.div_lt_upper_bound; lia]).
  cbn [mbind option_bind]. rewrite string_app_cons. cbn [read_digits].
  rewrite digit_value_char by (apply Z.mod_pos_bound; lia). cbn [mbind option_bind]. change ("" +:+ rest) with rest.
  do 2 f_equal. pose proof (Z.div_mod z 10). nia.
Qed.

Lemma nanos_of_pad k i z acc :
  (0 <= z < 10 ^ Z.of_nat k)%Z →
  nanos_of (k + i) acc (pad k z) = nanos_of i (acc * 10 ^ Z.of_nat k + z)%Z "".
Proof.
  assert (∀ k i z acc t, (0 <= z < 10 ^ Z.of_nat k)%Z →
    nanos_of (k + i) acc (pad k z +:+ t) = nanos_of i (acc * 10 ^ Z.of_nat k + z)%Z t) as H.
  { clear. induction k as [|k IH]; intros i z acc t Hz; [simpl in *; f_equal; lia|].
    rewrite Nat2Z.inj_succ, Z.pow_succ_r in Hz by lia. rewrite Nat2Z.inj_succ, Z.pow_succ_r by lia.
    replace (S k + i) with (k + S i) by lia. cbn [pad].
    rewrite string_app_assoc, IH by (split; [apply Z.div_pos; lia|apply Z.div_lt_upper_bound; lia]).
    rewrite string_app_cons. cbn [nanos_of]. rewrite digit_value_char by (apply Z.mod_pos_bound; lia).
    change ("" +:+ t) with t. simpl. f_equal. pose proof (Z.div_mod z 10). nia. }
  intros Hz. rewrite <-(H k i z acc "" Hz). by rewrite string_app_nil_r.
Qed.

Lemma nanos_of_nil i acc : nanos_of i acc "" = (acc * 10 ^ Z.of_nat i)%Z.
Proof.
  revert acc. induction i as [|i IH]; intros acc; [simpl; lia|].
  rewrite Nat2Z.inj_succ, Z.pow_succ_r by lia. cbn [nanos_of]. rewrite IH. lia.
Qed.

Lemma nanos_of_trim k i z :
  (0 <= z < 10 ^ Z.of_nat k)%Z → nanos_of (k + i) 0 (trim_digits k z) = (z * 10 ^ Z.of_nat i)%Z.
Proof.
  revert i z. induction k as [|k IH]; intros i z Hz; [cbn [trim_digits]; rewrite nanos_of_nil; simpl in *; lia|].
  cbn [trim_digits]. case_decide as Hm.
  - rewrite Nat2Z.inj_succ, Z.pow_succ_r in Hz by lia. replace (S k + i) with (k + S i) by lia.
    rewrite IH by (split; [apply Z.div_pos; lia|apply Z.div_lt_upper_bound; lia]).
    rewrite Nat2Z.inj_succ, Z.pow_succ_r by lia. pose proof (Z.div_mod z 10). nia.
  - rewrite nanos_of_pad by done. by rewrite nanos_of_nil.
Qed.

Lemma pad_digits k z : string_forallb is_digit (pad k z) = true.
Proof.
  revert z. induction k as [|k IH]; intros z; [done|]. cbn [pad]. rewrite string_forallb_app, IH. cbn [string_forallb].
  pose proof (digit_value_char (z `mod` 10) (Z.mod_pos_bound z 10 eq_refl)) as H. unfold digit_value in H.
  by destruct (is_digit _).
Qed.

Lemma trim_digits_digits k z : string_forallb is_digit (trim_digits k z) = true.
Proof.
  revert z. induction k as [|k IH]; intros z; [done|]. cbn [trim_digits]. case_decide; [apply IH|apply pad_digits].
Qed.

Lemma read_fraction_written z :
  (0 <= z < Second)%Z →
  read_fraction (if decide (trim_digits 9 z = "") then "Z" else "." +:+ trim_digits 9 z +:+ "Z") = (z, "Z").
Proof.
  intros Hz. pose proof (nanos_of_trim 9 0 z Hz) as Hn. rewrite Z.mul_1_r in Hn. change (9 + 0) with 9 in Hn.
  pose proof (trim_digits_digits 9 z) as Hd. destruct (trim_digits 9 z) as [|a t].
  - by rewrite decide_True, <-Hn by done.
  - rewrite decide_False by done. change ("." +:+ String a t +:+ "Z") with (String "." (String a (t +:+ "Z"))).
    unfold read_fraction. assert (is_digit a = true) as Ha by (simpl in Hd; by apply andb_true_iff in Hd as [? _]).
    rewrite decide_True by auto. change (String a (t +:+ "Z")) with (String a t +:+ "Z").
    rewrite (span_app _ _ (String a t) "" "Z") by (by apply span_all || done). by rewrite Hn.
Qed.

(** ** Dates *)

Lemma day_of_civil day y m d : civil day = (y, m, d) → day_of y m d = day.
Proof.
  intros H. apply civil_range in H as (yoe & mp & Hyoe & Hmp & Hd & Hm & Hy & Hz).
  set (z := (day + 719468)%Z) in *. unfold day_of.
  assert (m <= 2 ↔ 10 <= mp)%Z as Hm2 by (destruct (decide (mp < 10)%Z); lia).
  assert ((if decide (m <= 2) then y - 1 else y) = yoe + z / 146097 * 400)%Z as ->.
  { destruct (decide (m <= 2)%Z); lia. }
  assert ((if decide (m <= 2) then m + 9 else m - 3) = mp)%Z as ->.
  { destruct (decide (mp < 10)%Z), (decide (m <= 2)%Z); lia. }
  rewrite Z.mod_add, Z.div_add, Z.mod_small, Z.div_small by lia.
  pose proof (Z.div_mod z 146097 ltac:(lia)). subst z. lia.
Qed.

Definition year_of_doe (doe : Z) : Z := ((doe - doe / 1460 + doe / 36524 - doe / 146096) / 365)%Z.

(** The last day of a year that starts in March is a leap day only when a
    leap year follows. *)
Lemma leap_day doe yoe :
  (0 <= yoe <= 399 → year_of_doe doe = yoe → doe = 365 * yoe + yoe / 4 - yoe / 100 + 365 → leap (yoe + 1) = true)%Z.
Proof.
  intros Hy Hdoe Hd.
  assert (forallb (λ n, let y := Z.of_nat n in
    implb (bool_decide (year_of_doe (365 * y + y / 4 - y / 100 + 365) = y)%Z) (leap (y + 1))) (seq 0 400) = true) as H
    by (vm_compute; reflexivity).
  rewrite forallb_forall in H. specialize (H (Z.to_nat yoe)). cbv zeta in H. rewrite Z2Nat.id in H by lia.
  rewrite bool_decide_eq_true_2 in H by (by rewrite <-Hd). apply H. apply list_elem_of_In, elem_of_seq. lia.
Qed.

Lemma leap_era y e : leap (y + e * 400) = leap y.
Proof.
  unfold leap.
  assert ((y + e * 400) `mod` 4 = y `mod` 4)%Z as -> by (replace (e * 400)%Z with (e * 100 * 4)%Z by lia; apply Z.mod_add; lia).
  assert ((y + e * 400) `mod` 100 = y `mod` 100)%Z as -> by (replace (e * 400)%Z with (e * 4 * 100)%Z by lia; apply Z.mod_add; lia).
  by rewrite Z.mod_add by lia.
Qed.

Lemma civil_valid day y m d : civil day = (y, m, d) → (1 <= m <= 12 ∧ 1 <= d <= days_in m y)%Z.
Proof.
  unfold civil, civil_of_doe. set (z := (day + 719468)%Z).
  pose proof (year_of_era (z `mod` 146097) (Z.mod_pos_bound z 146097 eq_refl)) as [Hy Hd]. fold (year_of_doe (z `mod` 146097)) in *.
  pose proof (leap_day (z `mod` 146097) _ Hy eq_refl) as Hl. cbv zeta in *.
  set (yoe := year_of_doe (z `mod` 146097)) in *.
  set (doy := (z `mod` 146097 - (365 * yoe + yoe / 4 - yoe / 100))%Z) in *. intros [= <- <- <-].
  assert (doy = 365 → leap (yoe + 1) = true)%Z as Hl' by (intros; apply Hl; lia). clear Hl.
  set (mp := ((5 * doy + 2) / 153)%Z). set (e := (z / 146097)%Z). clearbody yoe doy e.
  assert (0 <= mp <= 11)%Z as Hmp by (subst mp; Z.div_mod_to_equations; lia).
  assert (153 * mp <= 5 * doy + 2 < 153 * mp + 153)%Z as Hb by (subst mp; Z.div_mod_to_equations; lia).
  clearbody mp. split; [case_decide; lia|].
  assert (mp = 11 ∨ mp ≠ 11)%Z as [->|Hne] by lia.
  - change (11 - 9)%Z with 2%Z. rewrite decide_False by lia. unfold days_in. rewrite decide_True by lia.
    rewrite decide_True by lia. change ((153 * 11 + 2) / 5)%Z with 337%Z. rewrite leap_era.
    destruct (decide (doy = 365)%Z) as [E|Hne]; [rewrite (Hl' E); lia|destruct (leap _); lia].
  - assert (mp = 0 ∨ mp = 1 ∨ mp = 2 ∨ mp = 3 ∨ mp = 4 ∨ mp = 5 ∨ mp = 6 ∨ mp = 7 ∨ mp = 8 ∨ mp = 9 ∨ mp = 10)%Z as Hin by lia.
    clear Hmp Hl' Hy Hd Hne. unfold days_in.
    destruct_or! Hin; subst mp; repeat case_decide; try lia; Z.div_mod_to_equations; lia.
Qed.

Lemma expect_app c r : expect c (String c "" +:+ r) = Some r.
Proof. rewrite string_app_cons. simpl. by rewrite decide_True. Qed.

Lemma read_pad2 z rest : (0 <= z < 100)%Z → read_digits 2 0 (pad 2 z +:+ rest) = Some (z, rest).
Proof. intros Hz. by rewrite read_digits_pad. Qed.

(** A written instant is read back. *)
Lemma parse_format_time t : json_year t → parse_time (format_time t) = Some t.
Proof.
  unfold json_year, format_time. destruct (civil (t / day_nanos)) as [[y m] d] eqn:E. intros Hy.
  pose proof (civil_valid _ _ _ _ E) as [Hm Hd]. pose proof (day_of_civil _ _ _ _ E) as Hday.
  pose proof (instant_split t) as [Hs Ht]. set (s := (t `mod` day_nanos / Second)%Z) in *.
  assert (0 <= s / 3600 < 24 ∧ 0 <= (s / 60) `mod` 60 < 60 ∧ 0 <= s `mod` 60 < 60 ∧
          s = s / 3600 * 3600 + (s / 60) `mod` 60 * 60 + s `mod` 60)%Z as (Hh & Hmi & Hse & Hsum)
    by (clear -Hs; Z.div_mod_to_equations; lia).
  assert (days_in m y <= 31)%Z as H31 by (unfold days_in; repeat case_decide; destruct (leap y); lia).
  unfold parse_time. rewrite read_digits_pad by (simpl; lia). cbn [mbind option_bind].
  rewrite expect_app. cbn [mbind option_bind]. rewrite read_pad2 by lia. cbn [mbind option_bind].
  rewrite expect_app. cbn [mbind option_bind]. rewrite read_pad2 by lia. cbn [mbind option_bind].
  rewrite expect_app. cbn [mbind option_bind]. unfold read_hour. rewrite read_pad2 by lia. cbn [mbind option_bind].
  rewrite expect_app. cbn [mbind option_bind]. rewrite read_pad2 by lia. cbn [mbind option_bind].
  rewrite expect_app. cbn [mbind option_bind]. rewrite read_pad2 by lia. cbn [mbind option_bind].
  rewrite read_fraction_written by (apply Z.mod_pos_bound; done). simpl (read_zone "Z"). cbn [mbind option_bind].
  rewrite Z.mul_0_l, Z.add_0_l, decide_True, Hday by lia. f_equal. unfold day_nanos in *. lia.
Qed.

(** Its text has no space around it. *)
Lemma trim_digit_head a : is_digit a = true → ∀ n t, trim_prefixes space_runes n (String a t) = String a t.
Proof.
  intros Ha [|n] t; [done|]. cbn [trim_prefixes].
  assert (Forall (λ p, match p with String b _ => is_digit b | "" => true end = false) space_runes) as Hs
    by (apply (bool_decide_unpack _); vm_compute; reflexivity).
  assert (omap (λ p, cut_prefix p (String a t)) space_runes = []) as ->; [|done].
  induction Hs as [|[|b p] l Hb _ IH]; [done..|]. cbn [omap list_omap cut_prefix].
  rewrite decide_False by (intros ->; congruence). exact IH.
Qed.

Lemma TrimSpace_time t : TrimSpace (format_time t) = format_time t.
Proof.
  assert (∃ a s, format_time t = String a (s +:+ "Z") ∧ is_digit a = true) as (a & s & -> & Ha).
  { unfold format_time. destruct (civil _) as [[y m] d]. pose proof (pad_digits 4 y) as Hp.
    destruct (pad 4 y) as [|a w] eqn:Ew; [by destruct (pad 3 (y / 10)%Z) eqn:E3; cbn [pad] in Ew, E3; rewrite ?E3 in Ew|].
    apply andb_true_iff in Hp as [Ha _]. exists a. set (frac := trim_digits _ _).
    exists (w +:+ "-" +:+ pad 2 m +:+ "-" +:+ pad 2 d +:+ "T" +:+ pad 2 ((t `mod` day_nanos) / Second / 3600) +:+ ":" +:+
      pad 2 (((t `mod` day_nanos) / Second / 60) `mod` 60) +:+ ":" +:+ pad 2 (((t `mod` day_nanos) / Second) `mod` 60) +:+
      (if decide (frac = "") then "" else "." +:+ frac)).
    split; [|done]. rewrite !string_app_cons, !string_app_assoc. case_decide; by rewrite ?string_app_assoc. }
  apply (TrimSpace_between a "Z"); [by apply trim_digit_head|by intros []].
Qed.
