(* ===== verification/Base64.v ===== *)
(** * Base64

    [base64.RawURLEncoding] of Go's [encoding/base64]: the URL alphabet
    without padding. *)
From Stdlib Require Import ZifyNat.
From S2P Require Import Prelude.

(** The digit of a value below 64. *)
Definition b64_char (n : nat) : ascii :=
  ascii_of_nat
    (if decide (n < 26) then 65 + n
     else if decide (n < 52) then 71 + n
     else if decide (n < 62) then n - 4
     else if decide (n = 62) then 45 else 95).

Definition b64_value (a : ascii) : option nat :=
  let n := nat_of_ascii a in
  if decide (65 ≤ n ≤ 90) then Some (n - 65)
  else if decide (97 ≤ n ≤ 122) then Some (n - 71)
  else if decide (48 ≤ n ≤ 57) then Some (n + 4)
  else if decide (n = 45) then Some 62
  else if decide (n = 95) then Some 63
  else None.

(** [EncodeToString]. *)
Fixpoint b64_encode (s : string) : string :=
  match s with
  | "" => ""
  | String a s1 =>
      let x := nat_of_ascii a in
      match s1 with
      | "" => String (b64_char (x / 4)) (String (b64_char (x mod 4 * 16)) "")
      | String b s2 =>
          let y := nat_of_ascii b in
          match s2 with
          | "" => String (b64_char (x / 4)) (String (b64_char (x mod 4 * 16 + y / 16)) (String (b64_char (y mod 16 * 4)) ""))
          | String c s3 =>
              let z := nat_of_ascii c in
              String (b64_char (x / 4)) (String (b64_char (x mod 4 * 16 + y / 16))
                (String (b64_char (y mod 16 * 4 + z / 64)) (String (b64_char (z mod 64)) (b64_encode s3))))
          end
      end
  end.

Definition is_newline (a : ascii) : bool := bool_decide (nat_of_ascii a = 10 ∨ nat_of_ascii a = 13).

Fixpoint string_filter (p : ascii → bool) (s : string) : string :=
  match s with
  | "" => ""
  | String a s' => if p a then String a (string_filter p s') else string_filter p s'
  end.

(** Groups of four digits; the last may hold two or three. Bits of it that
    make no whole byte are ignored. *)
Fixpoint b64_groups (s : string) : option string :=
  match s with
  | "" => Some ""
  | String a (String b s2) =>
      v1 ← b64_value a; v2 ← b64_value b;
      let x := ascii_of_nat (v1 * 4 + v2 / 16) in
      match s2 with
      | "" => Some (String x "")
      | String c s3 =>
          v3 ← b64_value c;
          let y := ascii_of_nat (v2 mod 16 * 16 + v3 / 4) in
          match s3 with
          | "" => Some (String x (String y ""))
          | String d s4 =>
              v4 ← b64_value d;
              let z := ascii_of_nat (v3 mod 4 * 64 + v4) in
              (λ t, String x (String y (String z t))) <$> b64_groups s4
          end
      end
  | String _ "" => None
  end.

(** [DecodeString]: line breaks are skipped. *)
Definition b64_decode (s : string) : option string := b64_groups (string_filter (λ a, negb (is_newline a)) s).

Lemma b64_char_value n : n < 64 → b64_value (b64_char n) = Some n ∧ is_newline (b64_char n) = false.
Proof.
  intros Hn. assert (Forall (λ n, b64_value (b64_char n) = Some n ∧ is_newline (b64_char n) = false) (seq 0 64)) as H.
  { apply (bool_decide_unpack _). vm_compute. exact I. }
  rewrite Forall_forall in H. apply H, elem_of_seq. lia.
Qed.

(** Bounds of quotients and remainders by constants. *)
Ltac solve_small := zify; Z.to_euclidean_division_equations; lia.

Lemma filter_char n s :
  n < 64 →
  string_filter (λ a, negb (is_newline a)) (String (b64_char n) s) =
  String (b64_char n) (string_filter (λ a, negb (is_newline a)) s).
Proof. intros Hn. simpl. by rewrite (proj2 (b64_char_value n Hn)). Qed.

Lemma b64_value_char n : n < 64 → b64_value (b64_char n) = Some n.
Proof. intros Hn. by apply b64_char_value. Qed.

Lemma byte_of_parts (a : ascii) n : n = nat_of_ascii a → ascii_of_nat n = a.
Proof. intros ->. apply ascii_nat_embedding. Qed.

(** Decoding what was encoded gives it back. *)
Lemma b64_decode_encode s : b64_decode (b64_encode s) = Some s.
Proof.
  unfold b64_decode. remember (String.length s) as n eqn:Hn. assert (String.length s ≤ n) as Hle by lia. clear Hn.
  revert s Hle. induction n as [n IH] using (well_founded_induction lt_wf); intros s Hle.
  destruct s as [|a [|b [|c s]]]; [done|..]; cbn [b64_encode].
  all: pose proof (nat_ascii_bounded a) as Ha; try pose proof (nat_ascii_bounded b) as Hb; try pose proof (nat_ascii_bounded c) as Hc.
  all: set (x := nat_of_ascii a) in *; try set (y := nat_of_ascii b) in *; try set (z := nat_of_ascii c) in *.
  all: rewrite !filter_char by solve_small.
  all: cbn [string_filter b64_groups].
  all: repeat (rewrite b64_value_char by solve_small; cbn [mbind option_bind]).
  3: rewrite (IH (String.length s)) by (simpl in Hle; lia).
  all: cbn [fmap option_fmap option_map]; repeat (rewrite (byte_of_parts a) by (fold x; solve_small)).
  all: try rewrite (byte_of_parts b) by (fold y; solve_small).
  all: try rewrite (byte_of_parts c) by (fold z; solve_small).
  all: done.
Qed.
