(* ===== verification/Cedar.v ===== *)
(** * Cedar

    The two libraries the policy engine calls, as interfaces: go-spiffe's
    parser of SPIFFE IDs and cedar-go's policies, entities and
    authorizer. Their code is not part of the program; the classes of
    laws state the documented behaviour that theorems use, and the
    instances at the end show that the laws can hold. *)
From S2P Require Import Prelude.

(** ** go-spiffe *)

(** [spiffeid.ID]; a trust domain is its name, the zero one is empty. *)
Record SpiffeID := mkSpiffeID {
  sid_td : string;
  sid_path : string;
}.

(** [*url.URL], as far as it is read. *)
Record uri := mkURI {
  uri_scheme : string;
  uri_text : string;
}.

(** [ID.String]. *)
Definition id_string (id : SpiffeID) : string := "spiffe://" +:+ sid_td id +:+ sid_path id.

Class Spiffe := {
  (** [spiffeid.FromString] and [spiffeid.FromURI]. *)
  FromString : string → option SpiffeID;
  FromURI : uri → option SpiffeID;
  (** [spiffeid.TrustDomainFromString]. *)
  TrustDomainFromString : string → option string;
}.

(** An ID is its trust domain and path, written out; the name of a trust
    domain is not empty and parses to the trust domain. *)
Class SpiffeLaws `{Spiffe} := {
  FromString_text : ∀ s id, FromString s = Some id → s = "spiffe://" +:+ sid_td id +:+ sid_path id;
  FromString_td : ∀ s id, FromString s = Some id → TrustDomainFromString (sid_td id) = Some (sid_td id);
  TrustDomain_name : ∀ s td, TrustDomainFromString s = Some td → td ≠ "" ∧ TrustDomainFromString td = Some td;
}.

(** ** cedar-go *)

(** [cedar.EntityUID]: a type and an id. *)
Abbreviation EntityUID := (string * string)%type.

(** The values the engine makes; [COther] is any other Cedar value an
    entities file may hold, as its text. *)
Inductive cvalue :=
| CBool (b : bool)
| CString (s : string)
| CLong (z : Z)
| CSet (l : list cvalue)
| COther (text : string).

Abbreviation crecord := (gmap string cvalue).

(** [cedar.Entity], without the UID it is stored under. *)
Record CEntity := mkCEntity {
  ent_parents : gset EntityUID;
  ent_attrs : crecord;
  ent_tags : crecord;
}.

Definition no_entity : CEntity := mkCEntity ∅ ∅ ∅.

Abbreviation EntityMap := (gmap (string * string) CEntity).

Record CRequest := mkCRequest {
  cr_principal : EntityUID;
  cr_action : EntityUID;
  cr_resource : EntityUID;
  cr_context : crecord;
}.

(** [cedar.Diagnostic]: the policies that decided, and those that failed
    with their messages. *)
Record Diagnostic := mkDiagnostic {
  diag_reasons : list string;
  diag_errors : list (string * string);
}.

Class Cedar := {
  CPolicy : Type;
  (** [cedar.NewPolicySetFromBytes(name, text)]: policies by the ids it
      gives them, or the parse error. *)
  NewPolicySetFromBytes : string → string → result string (gmap string CPolicy);
  (** [p.Annotations()["id"]]. *)
  annotated_id : CPolicy → option string;
  (** [p.Effect() == cedar.Forbid]. *)
  is_forbid : CPolicy → bool;
  (** [json.Unmarshal] of an entities file into a [cedar.EntityMap]. *)
  UnmarshalEntities : string → result string EntityMap;
  (** [cedar.Authorize]. *)
  Authorize : gmap string CPolicy → EntityMap → CRequest → bool * Diagnostic;
}.

Abbreviation CPolicySet := (gmap string CPolicy).

(** Cedar's decision: an allow is due to permits of the policy set, at least
    one and no forbid; without policies there is nothing to decide by. *)
Class CedarLaws `{Cedar} := {
  Authorize_allow : ∀ ps ents r d, Authorize ps ents r = (true, d) →
    diag_reasons d ≠ [] ∧ ∀ id, id ∈ diag_reasons d → ∃ p, ps !! id = Some p ∧ is_forbid p = false;
  Authorize_none : ∀ ents r, Authorize ∅ ents r = (false, mkDiagnostic [] []);
}.

(** ** Instances *)

(** A parser that takes the trust domain up to the first slash and requires
    path segments that are not empty. *)
Definition toy_td (s : string) : option string :=
  if decide (s = "" ∨ ¬ no_byte "/" s) then None else Some s.

Definition toy_spiffe (s : string) : option SpiffeID :=
  rest ← cut_prefix "spiffe://" s;
  match split_byte "/" rest with
  | td :: segs =>
      td' ← toy_td td;
      if decide (Forall (λ w, w ≠ "") segs) then
        Some (mkSpiffeID td' (string_drop (String.length td) rest))
      else None
  | [] => None
  end.

Module Toy.
#[export] Instance spiffe : Spiffe :=
  {| FromString := toy_spiffe; FromURI u := toy_spiffe (uri_text u); TrustDomainFromString := toy_td |}.

(** Policies are single words: the permit or forbid of everything, or a
    forbid that fails to evaluate. *)
Inductive word := permit | forbid | broken.

Definition parse_word (name text : string) : result string (gmap string word) :=
  if decide (text = "permit") then Ok {[ "policy0" := permit ]}
  else if decide (text = "forbid") then Ok {[ "policy0" := forbid ]}
  else if decide (text = "broken") then Ok {[ "policy0" := broken ]}
  else Err "syntax".

Definition ids_of (w : word → bool) (ps : gmap string word) : list string :=
  (filter (λ kv, w kv.2 = true) (map_to_list ps)).*1.

Definition decide_words (ps : gmap string word) (ents : EntityMap) (r : CRequest) : bool * Diagnostic :=
  let permits := ids_of (λ w, match w with permit => true | _ => false end) ps in
  let forbids := ids_of (λ w, match w with forbid => true | _ => false end) ps in
  let failed := (λ id, (id, "attribute not found")) <$> ids_of (λ w, match w with broken => true | _ => false end) ps in
  match forbids, permits with
  | _ :: _, _ => (false, mkDiagnostic forbids failed)
  | [], _ :: _ => (true, mkDiagnostic permits failed)
  | [], [] => (false, mkDiagnostic [] failed)
  end.

#[export] Instance cedar : Cedar := {|
  CPolicy := word;
  NewPolicySetFromBytes := parse_word;
  annotated_id _ := None;
  is_forbid w := match w with permit => false | _ => true end;
  UnmarshalEntities _ := Ok ∅;
  Authorize := decide_words;
|}.
End Toy.

#[export] Instance toy_spiffe_laws : @SpiffeLaws Toy.spiffe.
Proof.
  assert (∀ s td, toy_td s = Some td → s = td ∧ td ≠ "" ∧ toy_td td = Some td) as Htd.
  { intros s td. unfold toy_td. case_decide as E; [done|]. intros [= <-]. rewrite decide_False by done. tauto. }
  assert (∀ s id, toy_spiffe s = Some id →
    s = "spiffe://" +:+ sid_td id +:+ sid_path id ∧ toy_td (sid_td id) = Some (sid_td id)) as Hid.
  { intros s id. unfold toy_spiffe. intros (rest & ->%cut_prefix_Some & H)%bind_Some.
    destruct (split_byte "/" rest) as [|td segs] eqn:E; [done|].
    apply bind_Some in H as (td' & Ht & H). apply Htd in Ht as (<- & _ & Ht). case_decide; [|done].
    injection H as <-. simpl. split; [|done]. f_equal.
    pose proof (join_split_byte "/" rest) as Hj. rewrite E in Hj.
    destruct segs as [|w ws]; cbn [join_byte] in Hj; rewrite <-Hj.
    - clear. induction td as [|a td IH]; [done|]. rewrite string_app_cons. simpl. by rewrite IH at 1.
    - clear. f_equal. induction td as [|a td IH]; [done|]. rewrite string_app_cons. simpl. done. }
  split; simpl; intros s x H; [by destruct (Hid _ _ H)|by destruct (Hid _ _ H)|by destruct (Htd _ _ H)].
Qed.

#[export] Instance toy_cedar_laws : @CedarLaws Toy.cedar.
Proof.
  split; [|by intros]. intros ps ents r d. simpl. unfold Toy.decide_words.
  destruct (Toy.ids_of _ ps) eqn:E; [|done].
  destruct (Toy.ids_of (λ w, match w with Toy.permit => true | _ => false end) ps) as [|i l] eqn:Ep; [done|].
  intros [= <-]. simpl. split; [done|]. intros id Hid. rewrite <-Ep in Hid.
  unfold Toy.ids_of in Hid. apply list_elem_of_fmap in Hid as ([k w] & -> & Hw).
  apply list_elem_of_filter in Hw as [Hp Hin%elem_of_map_to_list]. exists w. by destruct w.
Qed.
