(* ===== verification/Directory.v ===== *)
(** * Directory

    The projection of domains and groups into Cedar's entities
    (internal/server/policy/directory.go): a domain is an entity below its
    parent, a group an entity without parents, and a SPIFFE ID is placed,
    per request, in the deepest domain its path names and in the groups it
    is a member of at that moment. *)
From S2P Require Import Prelude AuditKeyring Store Domains Cedar.

Definition DomainEntityType : string := "Domain".
Definition GroupEntityType : string := "Group".
Definition SpiffeEntityType : string := "Spiffe".

Record Membership := mkMembership {
  ms_group : string;
  ms_expires : Z;
}.

#[global] Instance Membership_eq_dec : EqDecision Membership.
Proof. solve_decision. Defined.

(** [Directory]; the zero trust domain is the empty name. *)
Record Directory := mkDirectory {
  dirTrustDomain : string;
  dirDomains : gmap string string;
  dirGroups : list string;
  dirMemberships : gmap string (list Membership);
}.

Definition no_directory : Directory := mkDirectory "" ∅ [] ∅.

Record directorySnapshot := mkSnapshot {
  snap_trustDomain : string;
  snap_domains : gset string;
  snap_memberships : gmap string (list Membership);
}.

Definition no_snapshot : directorySnapshot := mkSnapshot "" ∅ ∅.

Definition domain_entity (parent : string) : CEntity :=
  if decide (parent ≠ "") then mkCEntity {[ (DomainEntityType, parent) ]} ∅ ∅ else no_entity.

(** The loops of [buildDirectory]: one over a map, whose order does not
    matter since its keys are distinct, then one over the groups. *)
Definition buildDirectory (d : Directory) : EntityMap * directorySnapshot :=
  let ents := list_to_map ((λ np, ((DomainEntityType, np.1), domain_entity np.2)) <$> map_to_list (dirDomains d)) in
  let ents := foldl (λ ents g, <[(GroupEntityType, g) := no_entity]> ents) ents (dirGroups d) in
  (ents, mkSnapshot (dirTrustDomain d) (dom (dirDomains d)) (dirMemberships d)).

(** The path segments before the first that holds a dot. *)
Fixpoint before_dot (segs : list string) : list string :=
  match segs with
  | [] => []
  | seg :: segs' => if contains_byte "." seg then [] else seg :: before_dot segs'
  end.

(** The loop [for n := len(segs); n > 0; n--]. *)
Fixpoint deepest (domains : gset string) (segs : list string) (n : nat) : string :=
  match n with
  | 0 => ""
  | S n' =>
      let name := join_byte "." (take n segs) in
      if decide (name ∈ domains) then name else deepest domains segs n'
  end.

(** [strings.TrimPrefix(path, "/")] split at slashes. *)
Definition path_segs (path : string) : list string :=
  split_byte "/" (match cut_prefix "/" path with Some r => r | None => path end).

Section spiffe.
Context `{Spiffe}.

Definition domainOfSPIFFEID (raw : string) (domains : gset string) (td : string) : string :=
  match FromString raw with
  | None => ""
  | Some id =>
      if decide (sid_td id ≠ td ∨ sid_path id = "") then ""
      else
        let segs := before_dot (path_segs (sid_path id)) in
        deepest domains segs (length segs)
  end.

(** The parents a SPIFFE ID gets at an instant. *)
Definition spiffe_parents (snap : directorySnapshot) (now : Z) (id : string) : list EntityUID :=
  (if decide (snap_trustDomain snap ≠ "") then
     let dom := domainOfSPIFFEID id (snap_domains snap) (snap_trustDomain snap) in
     if decide (dom ≠ "") then [(DomainEntityType, dom)] else []
   else []) ++
  ((λ m, (GroupEntityType, ms_group m)) <$>
     filter (λ m, IsZero (ms_expires m) = true ∨ now < ms_expires m)%Z (default [] (snap_memberships snap !! id))).

Definition add_parents (snap : directorySnapshot) (now : Z) (ents : EntityMap) (uid : EntityUID) : EntityMap :=
  if decide (uid.1 ≠ SpiffeEntityType) then ents
  else
    match spiffe_parents snap now uid.2 with
    | [] => ents
    | add =>
        let ent := default no_entity (ents !! uid) in
        <[uid := mkCEntity (list_to_set add ∪ ent_parents ent) (ent_attrs ent) (ent_tags ent)]> ents
    end.

Definition withSPIFFEParents (ents : EntityMap) (snap : directorySnapshot) (now : Z) (uids : list EntityUID) : EntityMap :=
  if decide (snap_domains snap = ∅ ∧ snap_memberships snap = ∅) then ents
  else foldl (add_parents snap now) ents uids.

End spiffe.

(** The merge of [rebuildLocked]: the directory wins. *)
Definition merge_entities (static directory : EntityMap) : EntityMap := directory ∪ static.

(** ** The deepest domain of a path *)

Definition labels (name : string) : list string := split_byte "." name.

Lemma contains_byte_false c s : contains_byte c s = false ↔ no_byte c s.
Proof.
  unfold contains_byte, no_byte. rewrite negb_false_iff. induction s as [|a s IH]; simpl; [done|].
  rewrite andb_true_iff, bool_decide_eq_true, IH. case_decide as Ha; [naive_solver|].
  destruct (split_byte c s) as [|w ws] eqn:E; [by apply split_byte_ne in E|]. naive_solver.
Qed.

Lemma split_join_byte c l : l ≠ [] → Forall (no_byte c) l → split_byte c (join_byte c l) = l.
Proof.
  induction l as [|w [|w' l] IH]; intros Hl Hf; [done|..]; inversion Hf; subst.
  - done.
  - change (join_byte c (w :: w' :: l)) with (w +:+ String c (join_byte c (w' :: l))).
    rewrite split_byte_app, IH by done. by match goal with H : no_byte c w |- _ => rewrite H end.
Qed.

Lemma before_dot_spec segs :
  Forall (no_byte ".") (before_dot segs) ∧ before_dot segs `prefix_of` segs ∧
  ∀ l, l `prefix_of` segs → Forall (no_byte ".") l → l `prefix_of` before_dot segs.
Proof.
  induction segs as [|w segs (IH1 & IH2 & IH3)]; simpl.
  - split_and!; [done|done|]. by intros l Hl%prefix_nil_inv; subst.
  - destruct (contains_byte "." w) eqn:E.
    + split_and!; [done|apply prefix_nil|]. intros [|w' l] Hl Hf; [apply prefix_nil|].
      apply prefix_cons_inv_1 in Hl as ->. inversion Hf; subst.
      apply contains_byte_false in H1. congruence.
    + apply contains_byte_false in E. split_and!; [by constructor|by apply prefix_cons|].
      intros [|w' l] Hl Hf; [apply prefix_nil|]. pose proof (prefix_cons_inv_1 _ _ _ _ Hl) as ->.
      apply prefix_cons_inv_2 in Hl. inversion Hf; subst. by apply prefix_cons, IH3.
Qed.

Lemma labels_inj a b : labels a = labels b → a = b.
Proof. apply split_byte_inj. Qed.

Lemma labels_no_dot name : Forall (no_byte ".") (labels name).
Proof.
  unfold labels, no_byte. induction name as [|a s IH]; simpl; [by constructor|].
  case_decide as Ha; [by constructor|]. destruct (split_byte "." s) as [|w ws]; inversion IH; subst.
  - constructor; [|done]. simpl. by rewrite decide_False.
  - constructor; [|done]. simpl. rewrite decide_False by done. by rewrite H1.
Qed.

Lemma labels_take segs n :
  Forall (no_byte ".") segs → take n segs ≠ [] → labels (join_byte "." (take n segs)) = take n segs.
Proof. intros H Hn. apply split_join_byte; [done|]. by apply Forall_take. Qed.

(** The name a loop over the first [n] segments finds: the longest that is
    known, or none. *)
Lemma deepest_spec domains segs n name :
  Forall (no_byte ".") segs → n ≤ length segs → deepest domains segs n = name →
  (name ≠ "" → name ∈ domains ∧ labels name `prefix_of` take n segs) ∧
  (∀ d, d ∈ domains → d ≠ "" → labels d `prefix_of` take n segs → name ≠ "" ∧ labels d `prefix_of` labels name).
Proof.
  intros Hf. revert name. induction n as [|n IH]; intros name Hn; cbn [deepest].
  - intros <-. split; [done|]. intros d _ _ Hd. apply prefix_nil_inv in Hd. by apply split_byte_ne in Hd.
  - assert (take (S n) segs ≠ []) as Hne by (destruct segs; simpl in *; [lia|done]).
    pose proof (labels_take segs (S n) Hf Hne) as Hl. case_decide as Hin.
    + intros <-. split; [by rewrite Hl|]. intros d Hd Hd0 Hp. rewrite Hl. split; [|done]. intros E.
      rewrite E in Hl. rewrite <-Hl in Hp. destruct Hp as [[|? ?] Hk].
      * rewrite app_nil_r in Hk. by apply (labels_inj "" d) in Hk.
      * destruct (labels d) as [|? [|? ?]] eqn:E'; try done. by apply split_byte_ne in E'.
    + intros Hname. destruct (IH name) as [IH1 IH2]; [lia|done|].
      assert (take n segs `prefix_of` take (S n) segs) as Hpre.
      { rewrite (take_S_r segs n (default "" (segs !! n))); [by eexists|].
        destruct (segs !! n) eqn:E; [done|]. apply lookup_ge_None in E. lia. }
      split; [intros [? ?]%IH1; split; [done|by etrans]|].
      intros d Hd Hd0 Hp. apply IH2; [done..|]. destruct Hp as [k Hk].
      destruct k as [|w k _] using rev_ind.
      * rewrite app_nil_r, <-Hl in Hk. apply labels_inj in Hk as <-. done.
      * rewrite app_assoc in Hk. rewrite (take_S_r segs n (default "" (segs !! n))) in Hk.
        -- apply app_inj_tail in Hk as [-> _]. by eexists.
        -- destruct (segs !! n) eqn:E; [done|]. apply lookup_ge_None in E. lia.
Qed.

(** The labels of a domain are the first segments of a path. *)
Definition on_path (name : string) (path : string) : Prop := labels name `prefix_of` path_segs path.

Section placed.
Context `{Spiffe}.

(** Where a SPIFFE ID of the trust domain is placed: in the deepest known
    domain on its path, if there is one. *)
Lemma domainOfSPIFFEID_spec raw domains td id :
  FromString raw = Some id → sid_td id = td → sid_path id ≠ "" →
  let name := domainOfSPIFFEID raw domains td in
  (name ≠ "" → name ∈ domains ∧ on_path name (sid_path id)) ∧
  (∀ d, d ∈ domains → d ≠ "" → on_path d (sid_path id) → name ≠ "" ∧ labels d `prefix_of` labels name).
Proof.
  intros Hid Htd Hpath name. unfold name, domainOfSPIFFEID. rewrite Hid, decide_False by naive_solver.
  destruct (before_dot_spec (path_segs (sid_path id))) as (Hf & Hpre & Hmax).
  set (segs := before_dot _) in *.
  destruct (deepest_spec domains segs (length segs) _ Hf (le_n _) eq_refl) as [H1 H2].
  rewrite firstn_all in H1, H2. split.
  - intros [? ?]%H1. split; [done|]. unfold on_path. by etrans.
  - intros d Hd Hd0 Hp. apply H2; [done..|]. apply Hmax; [done|]. apply labels_no_dot.
Qed.

Lemma domainOfSPIFFEID_foreign raw domains td :
  (∀ id, FromString raw = Some id → sid_td id ≠ td ∨ sid_path id = "") → domainOfSPIFFEID raw domains td = "".
Proof.
  unfold domainOfSPIFFEID. destruct (FromString raw) as [id|]; [|done]. intros Hid. by rewrite decide_True by auto.
Qed.

Lemma domainOfSPIFFEID_known raw domains td :
  domainOfSPIFFEID raw domains td ≠ "" → domainOfSPIFFEID raw domains td ∈ domains.
Proof.
  intros Hne. destruct (FromString raw) as [id|] eqn:Hid; [|by rewrite domainOfSPIFFEID_foreign in Hne by naive_solver].
  destruct (decide (sid_td id ≠ td ∨ sid_path id = "")) as [Hf|Hf].
  - by rewrite domainOfSPIFFEID_foreign in Hne by naive_solver.
  - apply Decidable.not_or in Hf as [Htd%dec_stable Hp].
    by apply (domainOfSPIFFEID_spec raw domains td id).
Qed.

End placed.

(** ** The hierarchy of entities *)

(** Cedar's [in]: an entity is in another that is reached over parents. *)
Definition uid_parent (ents : EntityMap) (a b : EntityUID) : Prop :=
  ∃ e, ents !! a = Some e ∧ b ∈ ent_parents e.

Definition uid_in (ents : EntityMap) : EntityUID → EntityUID → Prop := rtc (uid_parent ents).

(** What a refresh projects: valid names under the parents they imply, all
    of them known, and memberships in groups that are projected too. *)
Record dir_tree (d : Directory) : Prop := {
  dt_name : ∀ n p, dirDomains d !! n = Some p → ValidateDomainName n = None ∧ p = ParentOf n;
  dt_parent : ∀ n p, dirDomains d !! n = Some p → p ≠ "" → is_Some (dirDomains d !! p);
  dt_group : ∀ who l m, dirMemberships d !! who = Some l → m ∈ l → ms_group m ∈ dirGroups d;
}.

Lemma insert_groups_lookup (l : list string) (ents : EntityMap) (uid : EntityUID) :
  foldl (λ ents g, <[(GroupEntityType, g) := no_entity]> ents) ents l !! uid =
  if decide (uid.1 = GroupEntityType ∧ uid.2 ∈ l) then Some no_entity else ents !! uid.
Proof.
  revert ents. induction l as [|g l IH]; intros ents; simpl.
  - rewrite decide_False by set_solver. done.
  - rewrite IH. destruct uid as [t i]. simpl. destruct (decide (t = GroupEntityType ∧ i ∈ l)) as [[-> Hi]|Hn].
    + rewrite decide_True by set_solver. done.
    + destruct (decide ((t, i) = (GroupEntityType, g))) as [[= -> ->]|Hne].
      * rewrite lookup_insert_eq, decide_True by set_solver. done.
      * rewrite lookup_insert_ne by done. rewrite decide_False; [done|].
        intros [-> [->|?]%elem_of_cons]; naive_solver.
Qed.

Lemma domain_entities_lookup (m : gmap string string) uid :
  (list_to_map ((λ np, ((DomainEntityType, np.1), domain_entity np.2)) <$> map_to_list m) : EntityMap) !! uid =
  if decide (uid.1 = DomainEntityType) then domain_entity <$> m !! uid.2 else None.
Proof.
  destruct uid as [t i]. simpl. destruct (list_to_map _ !! _) as [e|] eqn:E.
  - apply elem_of_list_to_map_2, list_elem_of_fmap in E as ([n p] & [= -> -> ->] & Hin%elem_of_map_to_list).
    simpl. by rewrite Hin.
  - case_decide as Ht; [subst|done]. destruct (m !! i) as [p|] eqn:Hi; [|done]. exfalso.
    apply not_elem_of_list_to_map_2 in E. apply E. rewrite list_elem_of_fmap.
    exists ((DomainEntityType, i), domain_entity p). split; [done|]. apply list_elem_of_fmap.
    exists (i, p). split; [done|]. by apply elem_of_map_to_list.
Qed.

Lemma buildDirectory_lookup d uid :
  (buildDirectory d).1 !! uid =
  if decide (uid.1 = GroupEntityType ∧ uid.2 ∈ dirGroups d) then Some no_entity
  else if decide (uid.1 = DomainEntityType) then domain_entity <$> dirDomains d !! uid.2 else None.
Proof. simpl. by rewrite insert_groups_lookup, domain_entities_lookup. Qed.

Section hierarchy.
Context `{Spiffe}.

Lemma add_parents_lookup snap now ents uid u :
  add_parents snap now ents uid !! u =
  if decide (u = uid ∧ u.1 = SpiffeEntityType ∧ spiffe_parents snap now u.2 ≠ []) then
    let ent := default no_entity (ents !! u) in
    Some (mkCEntity (list_to_set (spiffe_parents snap now u.2) ∪ ent_parents ent) (ent_attrs ent) (ent_tags ent))
  else ents !! u.
Proof.
  unfold add_parents. case_decide as Ht; [rewrite decide_False by naive_solver; done|].
  destruct (spiffe_parents snap now uid.2) as [|x l] eqn:E; [rewrite decide_False by naive_solver; done|].
  destruct (decide (u = uid)) as [->|Hne].
  - rewrite lookup_insert_eq, decide_True by (rewrite E; split_and!; [done|done|done]). by rewrite E.
  - rewrite lookup_insert_ne, decide_False by naive_solver. done.
Qed.

(** An entity during a request: a SPIFFE ID the request names has its
    domain and groups as further parents, every other is as it is stored. *)
Lemma withSPIFFEParents_lookup ents snap now uids u :
  withSPIFFEParents ents snap now uids !! u =
  if decide (u ∈ uids ∧ u.1 = SpiffeEntityType ∧ spiffe_parents snap now u.2 ≠ []) then
    let ent := default no_entity (ents !! u) in
    Some (mkCEntity (list_to_set (spiffe_parents snap now u.2) ∪ ent_parents ent) (ent_attrs ent) (ent_tags ent))
  else ents !! u.
Proof.
  unfold withSPIFFEParents. case_decide as Hempty.
  { rewrite decide_False; [done|]. intros (_ & _ & Hp). apply Hp. destruct Hempty as [Hd Hm].
    unfold spiffe_parents, domainOfSPIFFEID. rewrite Hd, Hm, lookup_empty. simpl.
    assert (∀ segs n, deepest ∅ segs n = "") as Hno by (intros segs n; induction n; simpl; [done|by rewrite decide_False by set_solver]).
    rewrite app_nil_r. case_decide; [|done]. destruct (FromString u.2); [|done].
    rewrite Hno. by destruct (decide (_ ∨ _)). }
  clear Hempty. revert ents. induction uids as [|x uids IH]; intros ents; cbn [foldl].
  - rewrite decide_False by set_solver. done.
  - rewrite IH, !add_parents_lookup. destruct (decide (u.1 = SpiffeEntityType ∧ spiffe_parents snap now u.2 ≠ [])) as [[Ht Hp]|Hn].
    + destruct (decide (u ∈ uids)) as [Hu|Hu].
      * rewrite !(decide_True (P := _ ∈ _ ∧ _)) by set_solver.
        destruct (decide (u = x)) as [->|Hx].
        -- rewrite (decide_True (P := x = x ∧ _)) by done. simpl. do 2 f_equal. set_solver.
        -- rewrite (decide_False (P := u = x ∧ _)) by naive_solver. done.
      * rewrite (decide_False (P := u ∈ uids ∧ _)) by naive_solver.
        destruct (decide (u = x)) as [->|Hx].
        -- rewrite !decide_True by set_solver. done.
        -- rewrite !decide_False by set_solver. done.
    + rewrite !decide_False by set_solver. done.
Qed.

End hierarchy.

(** ** Membership during a request *)

Section request.
Context `{Spiffe} (d : Directory) (static : EntityMap) (now : Z) (uids : list EntityUID).

(** The entities one evaluation reads. *)
Definition request_entities : EntityMap :=
  withSPIFFEParents (merge_entities static (buildDirectory d).1) (buildDirectory d).2 now uids.

Lemma request_domain n p :
  dirDomains d !! n = Some p → request_entities !! (DomainEntityType, n) = Some (domain_entity p).
Proof.
  intros Hn. unfold request_entities. rewrite withSPIFFEParents_lookup, decide_False by naive_solver.
  apply lookup_union_Some_l. rewrite buildDirectory_lookup, decide_False by naive_solver. simpl. by rewrite Hn.
Qed.

Lemma request_group g : g ∈ dirGroups d → request_entities !! (GroupEntityType, g) = Some no_entity.
Proof.
  intros Hg. unfold request_entities. rewrite withSPIFFEParents_lookup, decide_False by naive_solver.
  apply lookup_union_Some_l. by rewrite buildDirectory_lookup, decide_True.
Qed.

(** An ID without an entity of its own has exactly the parents of its
    domain and groups. *)
Lemma request_spiffe id b :
  (SpiffeEntityType, id) ∈ uids → static !! (SpiffeEntityType, id) = None →
  uid_parent request_entities (SpiffeEntityType, id) b ↔ b ∈ spiffe_parents (buildDirectory d).2 now id.
Proof.
  intros Hu Hs. unfold uid_parent, request_entities. rewrite withSPIFFEParents_lookup.
  assert (merge_entities static (buildDirectory d).1 !! (SpiffeEntityType, id) = None) as Hm.
  { unfold merge_entities. apply lookup_union_None. split; [|done]. rewrite buildDirectory_lookup.
    by rewrite decide_False by naive_solver. }
  rewrite Hm. cbn [fst snd]. case_decide as Hd.
  - split; [intros (e & [= <-] & Hb); set_solver|]. intros Hb. eexists. split; [done|]. set_solver.
  - split; [naive_solver|]. intros Hb. destruct Hd. split_and!; [done..|]. by intros E; rewrite E in Hb; apply not_elem_of_nil in Hb.
Qed.

Lemma elem_of_spiffe_parents id u :
  u ∈ spiffe_parents (buildDirectory d).2 now id ↔
  (dirTrustDomain d ≠ "" ∧ ∃ dom', dom' ≠ "" ∧ u = (DomainEntityType, dom') ∧
     dom' = domainOfSPIFFEID id (dom (dirDomains d)) (dirTrustDomain d)) ∨
  (∃ l m, dirMemberships d !! id = Some l ∧ m ∈ l ∧ u = (GroupEntityType, ms_group m) ∧
     (ms_expires m = zero_time ∨ now < ms_expires m)%Z).
Proof.
  unfold spiffe_parents. cbn [buildDirectory snd snap_trustDomain snap_domains snap_memberships].
  rewrite elem_of_app, list_elem_of_fmap. f_equiv.
  - repeat case_decide; set_solver.
  - split.
    + intros (m & -> & [Hm Hin]%list_elem_of_filter). rewrite IsZero_spec in Hm.
      destruct (dirMemberships d !! id) as [l|]; [|by apply not_elem_of_nil in Hin]. by exists l, m.
    + intros (l & m & -> & Hin & -> & Hm). exists m. split; [done|]. apply list_elem_of_filter.
      by rewrite IsZero_spec.
Qed.

(** Every way out of a SPIFFE ID starts with one of its parents. *)
Lemma spiffe_in id u :
  (SpiffeEntityType, id) ∈ uids → static !! (SpiffeEntityType, id) = None →
  uid_in request_entities (SpiffeEntityType, id) u ↔
  u = (SpiffeEntityType, id) ∨
  ∃ v, v ∈ spiffe_parents (buildDirectory d).2 now id ∧ uid_in request_entities v u.
Proof.
  intros Hu Hs. split.
  - intros Hin. inversion Hin as [|? v ? Hv Hin']; [by left|]. right. exists v. split; [|done].
    by apply request_spiffe in Hv.
  - intros [->|(v & Hv & Hin)]; [apply rtc_refl|]. eapply rtc_l; [by apply request_spiffe|done].
Qed.

Lemma group_in g u : g ∈ dirGroups d → uid_in request_entities (GroupEntityType, g) u → u = (GroupEntityType, g).
Proof.
  intros Hg Hin. inversion Hin as [|? w ? (e & He & Hw) _]; [done|].
  rewrite (request_group g Hg) in He. injection He as <-. set_solver.
Qed.

Hypothesis Htree : dir_tree d.

Lemma known_name n : is_Some (dirDomains d !! n) → n ≠ "" ∧ dirDomains d !! n = Some (ParentOf n).
Proof.
  intros [p Hp]. destruct (dt_name d Htree n p Hp) as [Hv ->]. split; [|done].
  by apply ValidateDomainName_None in Hv as [? _].
Qed.

Lemma domain_parent n u :
  is_Some (dirDomains d !! n) →
  uid_parent request_entities (DomainEntityType, n) u ↔
  ParentOf n ≠ "" ∧ u = (DomainEntityType, ParentOf n).
Proof.
  intros [? Hp]%known_name. unfold uid_parent. rewrite (request_domain n _ Hp).
  unfold domain_entity. split.
  - intros (e & [= <-] & Hu). case_decide; simpl in Hu; set_solver.
  - intros [Hne ->]. eexists. split; [done|]. rewrite decide_True by done. simpl. set_solver.
Qed.

(** From a known domain the parents lead to the domains above it. *)
Lemma domain_in n u :
  is_Some (dirDomains d !! n) →
  uid_in request_entities (DomainEntityType, n) u ↔
  ∃ m, u = (DomainEntityType, m) ∧ is_Some (dirDomains d !! m) ∧ labels m `prefix_of` labels n.
Proof.
  intros Hn. split.
  - intros Hin. remember (DomainEntityType, n) as v eqn:Ev. revert n Hn Ev.
    induction Hin as [v|v w u Hvw Hwu IH]; intros n Hn ->; [by exists n|].
    apply domain_parent in Hvw as [Hne ->]; [|done]. pose proof (known_name n Hn) as [_ Hp].
    destruct (IH (ParentOf n)) as (m & -> & Hm & Hpre); [by eapply dt_parent|done|].
    exists m. split_and!; [done..|]. etrans; [done|].
    destruct (ParentOf_cases n) as [[_ ?]|(l & _ & _ & Hl)]; [done|]. unfold labels. rewrite Hl. by eexists.
  - intros (m & -> & Hm & Hpre). revert Hn Hpre. induction (well_founded_ltof _ String.length n) as [n _ IH]; unfold ltof in IH.
    intros Hn [k Hk]. destruct k as [|l k _] using rev_ind.
    + rewrite app_nil_r in Hk. apply labels_inj in Hk as ->. apply rtc_refl.
    + pose proof (known_name n Hn) as [Hn0 Hp].
      destruct (ParentOf_cases n) as [[Hl _]|(l' & _ & _ & Hl)]; unfold labels in Hk; rewrite Hl in Hk.
      { rewrite app_assoc in Hk. symmetry in Hk. apply app_eq_unit in Hk as [[Hk _]|[_ Hk]]; [|done].
        apply app_nil in Hk as [Hk _]. by apply split_byte_ne in Hk. }
      rewrite app_assoc in Hk. apply app_inj_tail in Hk as [Hk _].
      assert (ParentOf n ≠ "") as Hne.
      { intros E. rewrite E in Hk. apply (known_name m) in Hm as [Hm _]. apply Hm.
        destruct k; [rewrite app_nil_r in Hk; by apply (labels_inj m "")|].
        destruct (split_byte "." m) as [|? [|? ?]] eqn:E'; try done. by apply split_byte_ne in E'. }
      eapply rtc_l; [apply domain_parent; [done|]; by split|].
      apply IH; [by apply ParentOf_shorter|by eapply dt_parent|by eexists].
Qed.

Lemma membership_group id l m : dirMemberships d !! id = Some l → m ∈ l → ms_group m ∈ dirGroups d.
Proof. apply (dt_group d Htree). Qed.

End request.

(** ** Properties *)


(** A SPIFFE ID is [in] a group during a request exactly when it has a
    membership of that group which has not expired by then, whatever its
    trust domain and whatever the group's domain. *)
Theorem spiffe_in_group `{Spiffe} d static now uids raw g :
  dir_tree d → (SpiffeEntityType, raw) ∈ uids → static !! (SpiffeEntityType, raw) = None →
  uid_in (request_entities d static now uids) (SpiffeEntityType, raw) (GroupEntityType, g) ↔
  ∃ l m, dirMemberships d !! raw = Some l ∧ m ∈ l ∧ ms_group m = g ∧
         (ms_expires m = zero_time ∨ now < ms_expires m)%Z.
Proof.
  intros Ht Hu Hs. rewrite spiffe_in by done. split.
  - intros [[=]|(v & Hv & Hvn)]. apply elem_of_spiffe_parents in Hv as [(_ & m & Hm & -> & ->)|(l & m & Hl & Hm & -> & Ha)].
    + apply domainOfSPIFFEID_known, elem_of_dom in Hm. by apply domain_in in Hvn as (m' & [= ] & _).
    + apply group_in in Hvn as [= ->]; [by exists l, m|by eapply membership_group].
  - intros (l & m & Hl & Hm & <- & Ha). right. exists (GroupEntityType, ms_group m). split; [|apply rtc_refl].
    apply elem_of_spiffe_parents. right. by exists l, m.
Qed.

(** *** Witnesses *)

Definition media : Directory := mkDirectory "td"
  (list_to_map [("media", ""); ("media.news", "media"); ("ops", "")]) ["media:eds"; "ops:oncall"]
  {[ "spiffe://td/media/news/web" := [mkMembership "media:eds" zero_time; mkMembership "ops:oncall" 50] ]}.

Definition news_web : EntityUID := (SpiffeEntityType, "spiffe://td/media/news/web").

Lemma media_tree : dir_tree media.
Proof.
  assert (∀ n p, dirDomains media !! n = Some p → n = "media" ∨ n = "media.news" ∨ n = "ops") as Hn.
  { intros n p E%elem_of_list_to_map_2. set_solver. }
  split.
  - intros n p H. destruct (Hn n p H) as [->|[->| ->]]; vm_compute in H; injection H as <-; vm_compute; done.
  - intros n p H. destruct (Hn n p H) as [->|[->| ->]]; vm_compute in H; injection H as <-; intros Hne; try (by destruct Hne); vm_compute; eauto.
  - intros who l m H Hm. unfold media in H. cbn [dirMemberships] in H. apply lookup_singleton_Some in H as [_ <-].
    apply elem_of_cons in Hm as [->|Hm]; [left|]. apply list_elem_of_singleton in Hm as ->. right; left.
Qed.


Lemma spiffe_in_group_witness :
  uid_in (@request_entities Toy.spiffe media ∅ 50 [news_web]) news_web (GroupEntityType, "media:eds") ∧
  ¬ uid_in (@request_entities Toy.spiffe media ∅ 50 [news_web]) news_web (GroupEntityType, "ops:oncall").
Proof.
  assert (∀ g, uid_in (@request_entities Toy.spiffe media ∅ 50 [news_web]) news_web (GroupEntityType, g) ↔
    ∃ l m, dirMemberships media !! news_web.2 = Some l ∧ m ∈ l ∧ ms_group m = g ∧
           (ms_expires m = zero_time ∨ 50 < ms_expires m)%Z) as H.
  { intros g. apply (@spiffe_in_group Toy.spiffe media ∅ 50 [news_web] _ g media_tree);
    vm_compute; first [reflexivity|by left]. }
  rewrite !H. split.
  - eexists _, _. split; [vm_compute; reflexivity|]. split; [left|]. split; [reflexivity|]. by left.
  - intros (l & m & Hl & Hm & Hg & Ha). vm_compute in Hl. injection Hl as <-.
    apply elem_of_cons in Hm as [->|Hm]; [discriminate|]. apply list_elem_of_singleton in Hm as ->.
    destruct Ha as [Ha|Ha]; [discriminate|]. vm_compute in Ha. discriminate.
Defined.
