(* ===== verification/Request.v ===== *)
(** * Request

    The AuthZEN evaluation request on its way into Cedar
    (internal/server/policy/engine.go): the checks on it, the bridge from
    JSON values to Cedar's, which has neither null nor fractions, and the
    request identifier (requestid.go). *)
From Stdlib Require Import SpecFloat.
From S2P Require Import Prelude Crypto Json GoValue Cedar.

Record Entity := mkEntity {
  entType : string;
  entID : string;
  entAttrs : anymap;
}.

(** [Action] carries only its name. *)
Record EvalRequest := mkEvalRequest {
  reqSubject : Entity;
  reqAction : string;
  reqResource : Entity;
  reqContext : anymap;
}.

Inductive value_error :=
| NullValue
| Fractional (x : float64)
| OutOfRange (x : float64).

Inductive request_error :=
| SubjectRequired
| ActionRequired
| ResourceRequired
| BadContext (key : string) (e : value_error)
| BadSubject (key : string) (e : value_error)
| BadResource (key : string) (e : value_error).

Fixpoint containsNull (v : any) : bool :=
  match v with
  | ANil => true
  | AMap m => (fix go m := match m with [] => false | (_, e) :: m' => containsNull e || go m' end) m
  | AArr l => (fix go l := match l with [] => false | e :: l' => containsNull e || go l' end) l
  | _ => false
  end.

(** The number of a whole float within [int64]. *)
Definition valueOf_float (x : float64) : result value_error cvalue :=
  match whole x with
  | None => Err (Fractional x)
  | Some z => if decide (two63 <= z ∨ z < - two63)%Z then Err (OutOfRange x) else Ok (CLong z)
  end.

(** A nested object becomes the text of its JSON; the error of a marshal
    that fails is dropped. *)
Definition valueOf_object (v : any) : cvalue :=
  CString (match json_of_any v with Some j => json_print j | None => "" end).

Fixpoint valueOf (v : any) : result value_error cvalue :=
  match v with
  | ANil => Err NullValue
  | ABool b => Ok (CBool b)
  | AStr s => Ok (CString s)
  | AFloat x => valueOf_float x
  | AInt z => Ok (CLong z)
  | AStrs l => Ok (CSet (CString <$> l))
  | AArr l =>
      vals ← (fix go l := match l with [] => Ok [] | e :: l' => x ← valueOf e; xs ← go l'; Ok (x :: xs) end) l;
      Ok (CSet vals)
  | AMap _ => Ok (valueOf_object v)
  end.

(** [recordFromMap]; of several keys that fail, the loop over a Go map
    reports any one: here it is the first. *)
Fixpoint recordFromMap (m : anymap) : result (string * value_error) crecord :=
  match m with
  | [] => Ok ∅
  | (k, v) :: m' =>
      if containsNull v then recordFromMap m'
      else match valueOf v with
           | Ok x => r ← recordFromMap m'; Ok (<[k := x]> r)
           | Err e => Err (k, e)
           end
  end.

Definition validate (r : EvalRequest) : option request_error :=
  if decide (TrimSpace (entType (reqSubject r)) = "" ∨ TrimSpace (entID (reqSubject r)) = "") then Some SubjectRequired
  else if decide (TrimSpace (reqAction r) = "") then Some ActionRequired
  else if decide (TrimSpace (entType (reqResource r)) = "" ∨ TrimSpace (entID (reqResource r)) = "") then Some ResourceRequired
  else None.

Definition named (f : string → value_error → request_error) {A} (r : result (string * value_error) A) : result request_error A :=
  match r with Ok a => Ok a | Err (k, e) => Err (f k e) end.

Definition requestEntities (subUID : EntityUID) (subAttrs : anymap) (resUID : EntityUID) (resAttrs : anymap) :
    result request_error EntityMap :=
  out ← (if decide (subAttrs ≠ []) then
           rec ← named BadSubject (recordFromMap subAttrs); Ok {[ subUID := mkCEntity ∅ rec ∅ ]}
         else Ok ∅);
  if decide (resAttrs ≠ [] ∧ resUID ≠ subUID) then
    rec ← named BadResource (recordFromMap resAttrs); Ok (<[resUID := mkCEntity ∅ rec ∅]> out)
  else Ok out.

Definition uid_of (e : Entity) : EntityUID := (entType e, entID e).

Definition prepare (req : EvalRequest) : result request_error (CRequest * EntityMap) :=
  match validate req with
  | Some e => Err e
  | None =>
      ctxRecord ← named BadContext (recordFromMap (reqContext req));
      overlays ← requestEntities (uid_of (reqSubject req)) (entAttrs (reqSubject req))
                                 (uid_of (reqResource req)) (entAttrs (reqResource req));
      Ok (mkCRequest (uid_of (reqSubject req)) ("Action", reqAction req) (uid_of (reqResource req)) ctxRecord, overlays)
  end.

Definition Validate (req : EvalRequest) : option request_error :=
  match prepare req with Ok _ => None | Err e => Some e end.

(** ** Request identifiers *)

Definition MaxRequestIDBytes : nat := 128.

Definition is_request_id_byte (a : ascii) : bool :=
  let n := nat_of_ascii a in
  bool_decide (97 ≤ n ≤ 122) || bool_decide (65 ≤ n ≤ 90) || bool_decide (48 ≤ n ≤ 57) ||
  bool_decide (a ∈ ["-"; "."; "_"; "~"; ":"; "/"; "+"; "="; "@"; ";"]%char).

Definition ValidRequestID (id : string) : bool :=
  bool_decide (id ≠ "" ∧ String.length id ≤ MaxRequestIDBytes) && string_forallb is_request_id_byte id.

(** [strings.Join(h.Values(RequestIDHeader), ", ")]. *)
Fixpoint RequestIDFrom (values : list string) : string :=
  match values with
  | [] => ""
  | [v] => v
  | v :: vs => v +:+ ", " +:+ RequestIDFrom vs
  end.

Definition RequestIDForAudit (id : string) : string * string :=
  if decide (id = "") then ("", "")
  else if ValidRequestID id then (id, "")
  else ("", sha256_hex id).

(** ** Values *)

Lemma valueOf_float_Ok x v : valueOf_float x = Ok v → ∃ z, v = CLong z ∧ whole x = Some z ∧ in_int64 z.
Proof.
  unfold valueOf_float. destruct (whole x) as [z|]; [|done]. case_decide as Hz; [done|].
  intros [= <-]. exists z. unfold in_int64. split_and!; [done|done|lia|lia].
Qed.

Definition assoc (k : string) (m : anymap) : option any := (list_to_map m : gmap string any) !! k.

(** The record of a map: each key with the Cedar form of its value, save
    those that are null or hold one. *)
Lemma recordFromMap_lookup m r k :
  NoDup m.*1 → recordFromMap m = Ok r →
  r !! k = (v ← assoc k m; if containsNull v then None else match valueOf v with Ok x => Some x | Err _ => None end).
Proof.
  unfold assoc. revert r. induction m as [|[k' v] m IH]; intros r Hnd; [by intros [= <-]|].
  apply NoDup_cons in Hnd as [Hk Hnd]. cbn [recordFromMap list_to_map foldr fst snd].
  assert (∀ r, recordFromMap m = Ok r → r !! k' = None) as Hfree.
  { intros r' Hr. destruct (decide (k = k')) as [->|Hne].
    - rewrite (IH r' Hnd Hr). by rewrite (not_elem_of_list_to_map_1 m).
    - clear IH. revert r' Hr. clear -Hk. induction m as [|[k2 v2] m IH]; intros r'; [by intros [= <-]|].
      apply not_elem_of_cons in Hk as [Hk2 Hk]. cbn [recordFromMap]. destruct (containsNull v2); [by apply IH|].
      destruct (valueOf v2); [|done]. intros (r2 & H2 & [= <-])%result_bind_Ok.
      rewrite lookup_insert_ne by done. by apply IH. }
  destruct (decide (k = k')) as [->|Hne].
  - rewrite lookup_insert_eq. simpl. destruct (containsNull v); [by apply Hfree|].
    destruct (valueOf v) as [x|e] eqn:Ev; [|done]. intros (r2 & H2 & [= <-])%result_bind_Ok. by rewrite lookup_insert_eq.
  - rewrite lookup_insert_ne by done. destruct (containsNull v); [by apply IH|].
    destruct (valueOf v) as [x|e] eqn:Ev; [|done]. intros (r2 & H2 & [= <-])%result_bind_Ok.
    rewrite lookup_insert_ne by done. by apply IH.
Qed.

Section any_ind.
Context (P : any → Prop).
Context (Hleaf : ∀ v, match v with AArr _ | AMap _ => True | _ => P v end).
Context (Harr : ∀ l, Forall P l → P (AArr l)) (Hmap : ∀ m, Forall (λ kv, P kv.2) m → P (AMap m)).

Fixpoint any_nested_ind (v : any) : P v :=
  match v with
  | AArr l => Harr l ((fix go l : Forall P l :=
      match l with [] => Forall_nil_2 P | x :: l' => Forall_cons_2 P x l' (any_nested_ind x) (go l') end) l)
  | AMap m => Hmap m ((fix go m : Forall (λ kv, P kv.2) m :=
      match m with [] => Forall_nil_2 _ | x :: m' => Forall_cons_2 _ x m' (any_nested_ind x.2) (go m') end) m)
  | v => Hleaf v
  end.
End any_ind.

Ltac induct_any v :=
  revert v; match goal with |- ∀ v, @?P v => apply (any_nested_ind P) end; cbv beta;
  [intros v|intros l IH|intros m _].

(** The loop over an array. *)
Lemma valueOf_array l v :
  valueOf (AArr l) = Ok v → ∃ xs, v = CSet xs ∧ Forall2 (λ e x, valueOf e = Ok x) l xs.
Proof.
  cbn [valueOf]. intros (xs & Hgo & [= <-])%result_bind_Ok. exists xs. split; [done|].
  revert xs Hgo. induction l as [|e l IH]; intros xs; [by intros [= <-]|].
  intros (x & Hx & (ys & Hys & [= <-])%result_bind_Ok)%result_bind_Ok. constructor; auto.
Qed.

(** The numbers of a value, outside nested objects, and of its Cedar form. *)
Fixpoint numbers (v : any) : list (option Z) :=
  match v with
  | AFloat x => [whole x]
  | AInt z => [Some z]
  | AArr l => (fix go l := match l with [] => [] | e :: l' => numbers e ++ go l' end) l
  | _ => []
  end.

Fixpoint longs (v : cvalue) : list Z :=
  match v with
  | CLong z => [z]
  | CSet l => (fix go l := match l with [] => [] | e :: l' => longs e ++ go l' end) l
  | _ => []
  end.

(** The machine integers the program's own code may put in a value. *)
Fixpoint ints_ok (v : any) : Prop :=
  match v with
  | AInt z => in_int64 z
  | AArr l => (fix go l := match l with [] => True | e :: l' => ints_ok e ∧ go l' end) l
  | _ => True
  end.

Lemma valueOf_numbers v : ∀ x, ints_ok v → valueOf v = Ok x → Some <$> longs x = numbers v ∧ Forall in_int64 (longs x).
Proof.
  induct_any v.
  - destruct v as [|b|f|z|s|ss| |]; try done; intros x Hi; try (by intros [= <-]; simpl; auto).
    + intros (z & -> & Hz & Hr)%valueOf_float_Ok. simpl. rewrite Hz. auto.
    + intros [= <-]. simpl. clear. induction ss as [|s ss [IH1 IH2]]; simpl in *; auto.
  - intros v Hi (xs & -> & Hxs)%valueOf_array. simpl in *.
    induction Hxs as [|e x l xs Hx _ IHxs]; [done|]. inversion IH as [|? ? IHe IHl]; subst.
    destruct Hi as [Hi Hil]. destruct (IHe x Hi Hx) as [E1 E2]. destruct (IHxs IHl Hil) as [E3 E4].
    rewrite fmap_app, E1, E3, Forall_app. auto.
  - intros x _ [= <-]. done.
Qed.

(** A value without null has a Cedar form unless a number in it has none. *)
Lemma valueOf_not_null v : valueOf v = Err NullValue → containsNull v = true.
Proof.
  induct_any v.
  - destruct v as [|b|f|z|s|ss| |]; try done. simpl. unfold valueOf_float.
    destruct (whole f); [|done]. by case_decide.
  - cbn [valueOf containsNull]. intros H. induction l as [|e l IHl]; [done|].
    inversion IH as [|? ? He Hl]; subst. apply orb_true_iff.
    destruct (valueOf e) as [x|err] eqn:Ee; simpl in H; [right|left; apply He; by injection H as ->].
    apply IHl; [done|]. destruct ((fix go l0 := match l0 with [] => _ | e0 :: l1 => _ end) l); [done|exact H].
  - done.
Qed.

(** A record built from a request holds, for every property without a
    null, exactly the numbers of the request's JSON, none rounded,
    truncated or wrapped, and all of them within [int64]; a property that
    is null or holds one anywhere is absent, so that two missing values
    never compare equal. *)
Theorem record_exact m r k :
  NoDup m.*1 → recordFromMap m = Ok r →
  match assoc k m with
  | Some v =>
      if containsNull v then r !! k = None
      else ∃ x, r !! k = Some x ∧ (ints_ok v → Some <$> longs x = numbers v ∧ Forall in_int64 (longs x))
  | None => r !! k = None
  end.
Proof.
  intros Hnd Hr. pose proof (recordFromMap_lookup m r k Hnd Hr) as Hk.
  destruct (assoc k m) as [v|] eqn:Ha; simpl in Hk; [|done]. destruct (containsNull v) eqn:Hn; [done|].
  destruct (valueOf v) as [x|e] eqn:Hv; [exists x; split; [done|]; intros; by apply valueOf_numbers|].
  exfalso. unfold assoc in Ha. apply elem_of_list_to_map_2 in Ha. clear Hk Hnd. revert r Hr. induction m as [|[k' v'] m IH].
  - by apply not_elem_of_nil in Ha.
  - intros r. cbn [recordFromMap]. apply elem_of_cons in Ha as [[= <- <-]|Ha]; [by rewrite Hn, Hv|].
    destruct (containsNull v'); [by apply IH|]. destruct (valueOf v'); [|done].
    intros (r' & Hr' & _)%result_bind_Ok. by eapply IH.
Qed.

(** The only reason a record is refused is a number Cedar cannot hold:
    one with a fraction or one outside [int64]. *)
Theorem record_refused m k e :
  recordFromMap m = Err (k, e) →
  ∃ v, (k, v) ∈ m ∧ containsNull v = false ∧ valueOf v = Err e ∧ e ≠ NullValue.
Proof.
  induction m as [|[k' v'] m IH]; [done|]. cbn [recordFromMap]. destruct (containsNull v') eqn:Hn.
  { intros (v & ? & ?)%IH. exists v. split; [by right|done]. }
  destruct (valueOf v') as [x|e'] eqn:Hv.
  - destruct (recordFromMap m) as [r|[k2 e2]]; simpl; [done|]. intros [= -> ->].
    destruct IH as (v & ? & ?); [done|]. exists v. split; [by right|done].
  - intros [= -> ->]. exists v'. split_and!; [by left|done..|]. intros ->. apply valueOf_not_null in Hv. congruence.
Qed.

Definition float_of (lit : string) : any := match ParseFloat lit with Some x => AFloat x | None => ANil end.

Definition big_float : any := Eval vm_compute in float_of "9007199254740993".
Definition neg_float : any := Eval vm_compute in float_of "-5.0".
Definition part_float : any := Eval vm_compute in float_of "5.9".

Definition request_attrs : anymap :=
  [("l", AArr [AStr "x"; neg_float]); ("n", big_float); ("tenant", ANil)].

Lemma record_exact_witness :
  ∃ r, recordFromMap request_attrs = Ok r ∧ r !! "tenant" = None ∧
       (∃ x, r !! "n" = Some x ∧ longs x = [9007199254740992%Z]) ∧ (∃ x, r !! "l" = Some x ∧ longs x = [(-5)%Z]).
Proof.
  destruct (recordFromMap request_attrs) as [r|e] eqn:E; [|vm_compute in E; discriminate].
  assert (NoDup request_attrs.*1) as Hnd by (apply (bool_decide_eq_true_1 _); vm_compute; reflexivity).
  exists r. split; [reflexivity|].
  pose proof (record_exact request_attrs r "tenant" Hnd E) as Ht.
  pose proof (record_exact request_attrs r "n" Hnd E) as Hn.
  pose proof (record_exact request_attrs r "l" Hnd E) as Hl.
  replace (assoc "tenant" request_attrs) with (Some ANil) in Ht by (vm_compute; reflexivity).
  replace (assoc "n" request_attrs) with (Some big_float) in Hn by (vm_compute; reflexivity).
  replace (assoc "l" request_attrs) with (Some (AArr [AStr "x"; neg_float])) in Hl by (vm_compute; reflexivity).
  split; [exact Ht|]. split.
  - destruct Hn as (x & Hx & H). exists x. split; [exact Hx|]. destruct (H I) as [H' _].
    replace (numbers big_float) with [Some 9007199254740992%Z] in H' by (vm_compute; reflexivity).
    destruct (longs x) as [|a [|? ?]]; simplify_eq/=; done.
  - destruct Hl as (x & Hx & H). exists x. split; [exact Hx|]. destruct H as [H' _]; [simpl; tauto|].
    replace (numbers (AArr [AStr "x"; neg_float])) with [Some (-5)%Z] in H' by (vm_compute; reflexivity).
    destruct (longs x) as [|a [|? ?]]; simplify_eq/=; done.
Defined.

Lemma record_refused_witness :
  ∃ v e, ("load", v) ∈ [("load", part_float)] ∧ containsNull v = false ∧ valueOf v = Err e ∧ e ≠ NullValue.
Proof.
  destruct (recordFromMap [("load", part_float)]) as [r|[k e]] eqn:E; [vm_compute in E; discriminate|].
  pose proof E as E'. vm_compute in E'. injection E' as <- He.
  destruct (record_refused _ _ _ E) as (v & Hv). exists v, e. exact Hv.
Defined.
