(* ===== verification/Engine.v ===== *)
(** * Engine

    The policy decision point (internal/server/policy/engine.go): the
    Cedar sources of files and of the API, the entities they are decided
    with, and the evaluation of a request. Loading parses everything
    before it swaps anything in; evaluation treats a forbid it cannot
    evaluate as one that holds. *)
From S2P Require Import Prelude AuditKeyring Store Domains GoValue Cedar Directory Request.

(** ** Sources *)

Definition StoredPolicyPrefix : string := "api/".

Definition StoredPolicyKey (id : string) : string := StoredPolicyPrefix +:+ id.

(** [unionSources]: files first, then the stored policies under their keys. *)
Definition unionSources (files stored : gmap string string) : gmap string string :=
  kmap StoredPolicyKey stored ∪ files.

(** [strings.TrimSuffix(base, filepath.Ext(base))]. *)
Definition trim_ext (base : string) : string :=
  match last_index "." base with
  | Some i => if contains_byte "/" (string_drop i base) then base else string_take i base
  | None => base
  end.

Inductive load_error :=
| SlashInName (name : string)
| ParseError (name msg : string)
| DuplicatePolicy (id name : string)
| EntitiesError (msg : string)
| NoPolicy
| DefinedByFile (id : string)
| RevisionMismatch (claimed computed : string)
| BadTrustDomain (name : string)
| EncodeError.

Section engine.
Context `{Cedar}.

(** The id a policy of a source is given. *)
Definition policy_id (base autoID : string) (p : CPolicy) : string :=
  let stored := HasPrefix base StoredPolicyPrefix in
  let stem := if stored then base else trim_ext base in
  match annotated_id p with
  | Some v =>
      if decide (v ≠ "") then (if stored then stem +:+ "::" +:+ v else v)
      else stem +:+ "::" +:+ autoID
  | None => stem +:+ "::" +:+ autoID
  end.

(** One policy of [fileSet.All()]. *)
Definition add_policy (base : string) (ps : CPolicySet) (ap : string * CPolicy) : result load_error CPolicySet :=
  let id := policy_id base ap.1 ap.2 in
  match ps !! id with
  | Some _ => Err (DuplicatePolicy id base)
  | None => Ok (<[id := ap.2]> ps)
  end.

Fixpoint fold_result {E A B} (f : B → A → result E B) (b : B) (l : list A) : result E B :=
  match l with
  | [] => Ok b
  | a :: l' => b' ← f b a; fold_result f b' l'
  end.

Definition add_source (ps : CPolicySet) (src : string * string) : result load_error CPolicySet :=
  match NewPolicySetFromBytes src.1 src.2 with
  | Err msg => Err (ParseError src.1 msg)
  | Ok fileSet => fold_result (add_policy src.1) ps (map_to_list fileSet)
  end.

(** The sources in the order of their names. *)
Definition in_order (sources : gmap string string) : list (string * string) :=
  merge_sort (λ a b, String.le a.1 b.1) (map_to_list sources).

Definition parsePolicies (sources : gmap string string) : result load_error CPolicySet :=
  fold_result add_source ∅ (in_order sources).

Definition parseEntities (entitiesJSON : string) : result load_error EntityMap :=
  if decide (entitiesJSON = "") then Ok ∅
  else match UnmarshalEntities entitiesJSON with
       | Ok ents => Ok ents
       | Err msg => Err (EntitiesError msg)
       end.

Definition parseSources (sources : gmap string string) (entitiesJSON : string) : result load_error (CPolicySet * EntityMap) :=
  ps ← parsePolicies sources;
  ents ← parseEntities entitiesJSON;
  Ok (ps, ents).

(** ** The index of entities by type *)

Definition index_add (idx : gmap string (list Entity)) (uid : EntityUID) : gmap string (list Entity) :=
  <[uid.1 := default [] (idx !! uid.1) ++ [mkEntity uid.1 uid.2 []]]> idx.

Definition sort_bucket : list Entity → list Entity := merge_sort (λ a b, String.le (entID a) (entID b)).

Definition indexByType (ents : EntityMap) : gmap string (list Entity) :=
  sort_bucket <$> foldl index_add ∅ (map_to_list ents).*1.

(** ** State *)

Record Engine := mkEngine {
  policies : CPolicySet;
  static : EntityMap;
  sources : gmap string string;
  files : gmap string string;
  fileIDs : gset string;
  stored : option (gmap string string);
  staticRaw : string;
  dirSpec : Directory;
  directory : EntityMap;
  snap : directorySnapshot;
  entities : EntityMap;
  byType : gmap string (list Entity);
  revision : string;
}.

Definition new_engine : Engine :=
  mkEngine ∅ ∅ ∅ ∅ ∅ None "" no_directory ∅ no_snapshot ∅ ∅ "".

Definition rebuildLocked (e : Engine) : Engine :=
  let merged := merge_entities (static e) (directory e) in
  mkEngine (policies e) (static e) (sources e) (files e) (fileIDs e) (stored e) (staticRaw e) (dirSpec e)
    (directory e) (snap e) merged (indexByType merged) (revision e).

Definition LoadSources (srcs : gmap string string) (entitiesJSON : string) (e : Engine) : result load_error Engine :=
  match filter (λ n, contains_byte "/" n = true) (map_to_list srcs).*1 with
  | name :: _ => Err (SlashInName name)
  | [] =>
      let union := unionSources srcs (default ∅ (stored e)) in
      '(ps, ents) ← parseSources union entitiesJSON;
      '(filePS, _) ← parseSources srcs "";
      Ok (rebuildLocked (mkEngine ps ents union srcs (dom filePS) (stored e) entitiesJSON (dirSpec e)
            (directory e) (snap e) (entities e) (byType e) (revision e)))
  end.

Definition SetStoredPolicies (st : gmap string string) (e : Engine) : result load_error Engine :=
  if decide (stored e = Some st) then Ok e
  else
    let union := unionSources (files e) st in
    '(ps, _) ← parseSources union "";
    Ok (mkEngine ps (static e) union (files e) (fileIDs e) (Some st) (staticRaw e) (dirSpec e)
          (directory e) (snap e) (entities e) (byType e) (revision e)).

Definition FilePolicies (e : Engine) : gmap string string := files e.

Definition CheckStored (id text : string) (e : Engine) : result load_error (list string) :=
  '(ps, _) ← parseSources {[ StoredPolicyKey id := text ]} "";
  let ids := sort_strings (elements (dom ps)) in
  if decide (ids = []) then Err NoPolicy
  else match filter (λ pid, pid ∈ fileIDs e) ids with
       | pid :: _ => Err (DefinedByFile pid)
       | [] => Ok ids
       end.

Definition engine_Snapshot (e : Engine) : gmap string string * string * Directory := (sources e, staticRaw e, dirSpec e).

Definition setDirectoryLocked (d : Directory) (ents : EntityMap) (s : directorySnapshot) (e : Engine) : Engine :=
  mkEngine (policies e) (static e) (sources e) (files e) (fileIDs e) (stored e) (staticRaw e) d ents s
    (entities e) (byType e) (revision e).

Definition SetDirectory (d : Directory) (e : Engine) : Engine :=
  let '(ents, s) := buildDirectory d in rebuildLocked (setDirectoryLocked d ents s e).

Definition EntitiesOfType (typ : string) (e : Engine) : list Entity := default [] (byType e !! typ).

Definition ActionEntityType : string := "Action".

Definition ActionNames (e : Engine) : list string := entID <$> EntitiesOfType ActionEntityType e.

(** ** Evaluation *)

Record PolicyError := mkPolicyError {
  pe_policy : string;
  pe_message : string;
}.

Record DecisionContext := mkDecisionContext {
  dc_reasons : list string;
  dc_errors : list PolicyError;
}.

Record EvalResponse := mkEvalResponse {
  resp_decision : bool;
  resp_context : option DecisionContext;
  resp_reasons : list string;
}.

Definition ForCaller (r : EvalResponse) : EvalResponse :=
  match resp_context r with
  | Some c =>
      if decide (dc_errors c = []) then r
      else mkEvalResponse (resp_decision r)
             (Some (mkDecisionContext (dc_reasons c) ((λ e, mkPolicyError (pe_policy e) "") <$> dc_errors c)))
             (resp_reasons r)
  | None => r
  end.

(** [p == nil || p.Effect() == cedar.Forbid]. *)
Definition may_forbid (ps : CPolicySet) (id : string) : bool :=
  match ps !! id with Some p => is_forbid p | None => true end.

Definition erroredForbids (ps : CPolicySet) (d : Diagnostic) : list string :=
  filter (λ id, may_forbid ps id = true) (diag_errors d).*1.

Definition respond (ps : CPolicySet) (ok : bool) (d : Diagnostic) : EvalResponse :=
  let failed := erroredForbids ps d in
  let decision := if decide (failed = []) then ok else false in
  let reasons := (if decide (failed ≠ [] ∧ ok = true) then [] else diag_reasons d) ++ failed in
  mkEvalResponse decision
    (if decide (diag_reasons d ≠ [] ∨ diag_errors d ≠ []) then
       Some (mkDecisionContext reasons ((λ em, mkPolicyError em.1 em.2) <$> diag_errors d))
     else None)
    reasons.

Context `{Spiffe}.

(** The entities of one evaluation: those of the request where none is
    declared, and the parents of the SPIFFE IDs it names. *)
Definition eval_entities (now : Z) (req : CRequest) (overlays : EntityMap) (e : Engine) : EntityMap :=
  withSPIFFEParents (entities e ∪ overlays) (snap e) now [cr_principal req; cr_resource req].

Definition EvaluateRevision (now : Z) (req : EvalRequest) (e : Engine) : result request_error (EvalResponse * string) :=
  '(cedarReq, overlays) ← prepare req;
  let '(ok, diag) := Authorize (policies e) (eval_entities now cedarReq overlays e) cedarReq in
  Ok (respond (policies e) ok diag, revision e).

Definition Evaluate (now : Z) (req : EvalRequest) (e : Engine) : result request_error EvalResponse :=
  '(resp, _) ← EvaluateRevision now req e; Ok resp.

End engine.

(** ** What a set of sources defines *)

Section sources.
Context `{Cedar}.

(** A policy a source holds, under the id it is given. *)
Definition defines (srcs : gmap string string) (id : string) (p : CPolicy) : Prop :=
  ∃ name text fs auto, srcs !! name = Some text ∧ NewPolicySetFromBytes name text = Ok fs ∧
    fs !! auto = Some p ∧ id = policy_id name auto p.

(** The ids of one source that parses, and of a list of them. *)
Definition source_ids (src : string * string) : list string :=
  match NewPolicySetFromBytes src.1 src.2 with
  | Ok fs => (λ ap, policy_id src.1 ap.1 ap.2) <$> map_to_list fs
  | Err _ => []
  end.

Lemma elem_of_source_ids src id :
  id ∈ source_ids src ↔ ∃ fs auto p, NewPolicySetFromBytes src.1 src.2 = Ok fs ∧ fs !! auto = Some p ∧
    id = policy_id src.1 auto p.
Proof.
  unfold source_ids. destruct (NewPolicySetFromBytes src.1 src.2) as [fs|msg].
  - rewrite list_elem_of_fmap. split.
    + intros ([auto p] & -> & Hin%elem_of_map_to_list). by exists fs, auto, p.
    + intros (fs' & auto & p & [= <-] & Hp & ->). exists (auto, p). by rewrite elem_of_map_to_list.
  - split; [by intros ?%not_elem_of_nil|by intros (? & ? & ? & [=] & _)].
Qed.

Definition parses (src : string * string) : Prop := is_ok (NewPolicySetFromBytes src.1 src.2) = true.

Lemma add_policies_Ok base l ps ps' :
  fold_result (add_policy base) ps l = Ok ps' →
  ∀ id p, ps' !! id = Some p ↔ ps !! id = Some p ∨ ∃ ap, ap ∈ l ∧ ap.2 = p ∧ id = policy_id base ap.1 ap.2.
Proof.
  revert ps. induction l as [|[a p0] l IH]; intros ps Hf id p; cbn [fold_result] in Hf.
  - injection Hf as <-. set_solver.
  - apply result_bind_Ok in Hf as (ps1 & H1 & Hf). unfold add_policy in H1. cbn [fst snd] in H1.
    destruct (ps !! policy_id base a p0) eqn:E; [done|]. injection H1 as <-.
    rewrite (IH _ Hf). destruct (decide (id = policy_id base a p0)) as [->|Hne].
    + rewrite lookup_insert_eq, E. split.
      * intros [[= ->]|(ap & ? & ?)]; right; [exists (a, p); set_solver|exists ap; set_solver].
      * intros [?|([a' p'] & [[= -> ->]|Hin]%elem_of_cons & <- & Hid)]; [done|by left|].
        right. by exists (a', p').
    + rewrite lookup_insert_ne by done. f_equiv. set_solver.
Qed.

Lemma add_policies_ok base l ps :
  is_ok (fold_result (add_policy base) ps l) = true ↔
  NoDup ((λ ap, policy_id base ap.1 ap.2) <$> l) ∧ (∀ id, id ∈ (λ ap, policy_id base ap.1 ap.2) <$> l → ps !! id = None).
Proof.
  revert ps. induction l as [|[a p0] l IH]; intros ps; cbn [fold_result fmap list_fmap].
  - split; [|done]. intros _. split; [constructor|]. by intros ? ?%not_elem_of_nil.
  - assert (add_policy base ps (a, p0) = match ps !! policy_id base a p0 with
      | Some _ => Err (DuplicatePolicy (policy_id base a p0) base) | None => Ok (<[policy_id base a p0 := p0]> ps) end) as -> by done.
    rewrite NoDup_cons. destruct (ps !! policy_id base a p0) eqn:E; simpl.
    + split; [done|]. intros [_ Hfree]. rewrite Hfree in E by (by left). done.
    + rewrite IH. split.
      * intros [Hnd Hfree]. split.
        -- split; [|done]. intros Hin. specialize (Hfree _ Hin). by rewrite lookup_insert_eq in Hfree.
        -- intros id [->|Hin]%elem_of_cons; [done|]. specialize (Hfree _ Hin).
           by apply lookup_insert_None in Hfree as [? _].
      * intros [[Hn Hnd] Hfree]. split; [done|]. intros id Hin. apply lookup_insert_None.
        split; [apply Hfree; by right|]. intros <-. done.
Qed.

Lemma add_sources_Ok l ps ps' :
  fold_result add_source ps l = Ok ps' →
  ∀ id p, ps' !! id = Some p ↔ ps !! id = Some p ∨
    ∃ src fs auto, src ∈ l ∧ NewPolicySetFromBytes src.1 src.2 = Ok fs ∧ fs !! auto = Some p ∧ id = policy_id src.1 auto p.
Proof.
  revert ps. induction l as [|src l IH]; intros ps Hf id p; cbn [fold_result] in Hf.
  - injection Hf as <-. set_solver.
  - apply result_bind_Ok in Hf as (ps1 & H1 & Hf). rewrite (IH _ Hf). unfold add_source in H1.
    destruct (NewPolicySetFromBytes src.1 src.2) as [fs|] eqn:Efs; [|done].
    rewrite (add_policies_Ok _ _ _ _ H1). split.
    + intros [[?|([a p'] & Hin%elem_of_map_to_list & <- & ->)]|(src' & fs' & auto & Hin & ?)]; [by left|..]; right.
      * exists src, fs, a. split; [left|done].
      * exists src', fs', auto. split; [by right|done].
    + intros [?|(src' & fs' & auto & [->|Hin]%elem_of_cons & Hfs & Hp & ->)]; [by left; left|..].
      * left; right. exists (auto, p). rewrite elem_of_map_to_list. rewrite Efs in Hfs. by injection Hfs as ->.
      * right. by exists src', fs', auto.
Qed.

Lemma add_sources_ok l ps :
  is_ok (fold_result add_source ps l) = true ↔
  Forall parses l ∧ NoDup (mjoin (source_ids <$> l)) ∧ (∀ id, id ∈ mjoin (source_ids <$> l) → ps !! id = None).
Proof.
  revert ps. induction l as [|src l IH]; intros ps; cbn [fold_result fmap list_fmap mjoin list_join].
  - split; [|done]. intros _. split_and!; [done|constructor|]. by intros ? ?%not_elem_of_nil.
  - rewrite Forall_cons, NoDup_app. assert (add_source ps src = match NewPolicySetFromBytes src.1 src.2 with
      | Err msg => Err (ParseError src.1 msg) | Ok fs => fold_result (add_policy src.1) ps (map_to_list fs) end) as -> by done.
    assert (source_ids src = match NewPolicySetFromBytes src.1 src.2 with
      | Ok fs => (λ ap, policy_id src.1 ap.1 ap.2) <$> map_to_list fs | Err _ => [] end) as -> by done.
    unfold parses at 1. destruct (NewPolicySetFromBytes src.1 src.2) as [fs|]; simpl; [|naive_solver].
    set (ids := _ <$> map_to_list fs). pose proof (add_policies_ok src.1 (map_to_list fs) ps) as Hok. fold ids in Hok.
    destruct (fold_result (add_policy src.1) ps (map_to_list fs)) as [ps1|] eqn:E; simpl.
    + destruct Hok as [[Hnd Hfree] _]; [done|].
      assert (∀ id, ps1 !! id = None ↔ ps !! id = None ∧ id ∉ ids) as Hnone.
      { intros id. pose proof (add_policies_Ok _ _ _ _ E id) as Hd. rewrite !eq_None_not_Some. split.
        - intros Hn. split; [intros [p Hp]; apply Hn; exists p; rewrite Hd; by left|].
          intros Hin. apply Hn. apply list_elem_of_fmap in Hin as (ap & -> & Hap). exists ap.2. rewrite Hd. right. by exists ap.
        - intros [Hn Hi] [p [Hp|(ap & Hap & <- & ->)]%Hd]; [by apply Hn; exists p|]. apply Hi, list_elem_of_fmap. by exists ap. }
      rewrite IH. unfold source_ids in *. setoid_rewrite Hnone. setoid_rewrite elem_of_app.
      split; [intros (Hp & Hnd' & Hf')|intros ((_ & Hp) & (_ & Hdisj & Hnd') & Hf')].
      * split_and!; try done; [intros x Hx Hin; by apply Hf' in Hin as [_ ?]|intros id [?|?]; [by apply Hfree|by apply Hf']].
      * split_and!; try done. intros id Hid. split; [by apply Hf'; right|]. intros Hin. by apply (Hdisj id).
    + split; [done|]. intros (_ & (Hnd & _) & Hf'). apply Hok. split; [done|]. intros id Hid. apply Hf', elem_of_app. by left.
Qed.

Lemma in_order_perm srcs : in_order srcs ≡ₚ map_to_list srcs.
Proof. apply merge_sort_Permutation. Qed.

(** The policies of sources that load are those the sources define. *)
Lemma parsePolicies_defines srcs ps :
  parsePolicies srcs = Ok ps → ∀ id p, ps !! id = Some p ↔ defines srcs id p.
Proof.
  intros Hp id p. rewrite (add_sources_Ok _ _ _ Hp), lookup_empty. split.
  - intros [?|([name text] & fs & auto & Hin & ?)]; [done|]. rewrite in_order_perm, elem_of_map_to_list in Hin.
    by exists name, text, fs, auto.
  - intros (name & text & fs & auto & Hin & ?). right. exists (name, text), fs, auto.
    by rewrite in_order_perm, elem_of_map_to_list.
Qed.

(** Sources load exactly when each of them parses and no id comes twice. *)
Lemma parsePolicies_ok srcs :
  is_ok (parsePolicies srcs) = true ↔
  Forall parses (map_to_list srcs) ∧ NoDup (mjoin (source_ids <$> map_to_list srcs)).
Proof.
  unfold parsePolicies. rewrite add_sources_ok, in_order_perm.
  split; [tauto|]. intros [? ?]. split_and!; [done..|].
  intros id _. apply lookup_empty.
Qed.

End sources.

(** ** The index *)

Lemma index_add_lookup l idx typ :
  foldl index_add idx l !! typ =
  match filter (λ uid, uid.1 = typ) l with
  | [] => idx !! typ
  | us => Some (default [] (idx !! typ) ++ ((λ uid, mkEntity uid.1 uid.2 []) <$> us))
  end.
Proof.
  revert idx. induction l as [|u l IH]; intros idx; [done|]. cbn [foldl]. rewrite IH, filter_cons.
  unfold index_add. destruct (decide (u.1 = typ)) as [<-|Hne].
  - rewrite lookup_insert_eq. simpl. destruct (filter _ l); simpl; [done|]. by rewrite <-app_assoc.
  - rewrite lookup_insert_ne by done. done.
Qed.

(** The bucket of a type: every entity of the type once, in the order of
    the ids. *)
Lemma indexByType_spec ents typ :
  let bucket := default [] (indexByType ents !! typ) in
  Sorted String.le (entID <$> bucket) ∧ NoDup (entID <$> bucket) ∧
  ∀ e, e ∈ bucket ↔ e = mkEntity typ (entID e) [] ∧ is_Some (ents !! (typ, entID e)).
Proof.
  intros bucket. set (us := filter (λ uid, uid.1 = typ) (map_to_list ents).*1).
  assert (bucket = sort_bucket ((λ uid, mkEntity uid.1 uid.2 []) <$> us)) as ->.
  { unfold bucket, indexByType. rewrite lookup_fmap, index_add_lookup, lookup_empty. fold us. by destruct us. }
  unfold sort_bucket. split_and!.
  - eapply (Sorted_fmap entID (λ a b, String.le (entID a) (entID b))); [done|]. apply Sorted_merge_sort.
    intros a b. apply (total String.le).
  - rewrite merge_sort_Permutation, <-list_fmap_compose. simpl.
    assert (NoDup us) as Hnd by (apply NoDup_filter, NoDup_fst_map_to_list).
    assert (Forall (λ u, u.1 = typ) us) as Hty.
    { apply Forall_forall. by intros u [? _]%list_elem_of_filter. }
    clearbody us. induction Hnd as [|[t i] us Hu Hnd IH]; cbn [fmap list_fmap]; [constructor|].
    apply Forall_cons in Hty as [Ht Hty]. simpl in Ht. subst t. constructor; [|by apply IH].
    intros ([t i'] & E & Hin)%list_elem_of_fmap. rewrite Forall_forall in Hty. pose proof (Hty _ Hin) as Ht.
    simpl in *. by subst.
  - intros e. rewrite merge_sort_Permutation, list_elem_of_fmap. unfold us. setoid_rewrite list_elem_of_filter.
    setoid_rewrite list_elem_of_fmap. split.
    + intros ([t i] & -> & Ht & (uid & Hu & Hin)). simpl in *. subst t. split; [done|].
      destruct uid as [? ent]. simpl in Hu. subst. apply elem_of_map_to_list in Hin. by exists ent.
    + intros [-> [ent He]]. exists (typ, entID e). split; [done|]. split; [done|].
      exists ((typ, entID e), ent). split; [done|]. by apply elem_of_map_to_list.
Qed.

(** ** Names *)

Lemma cut_prefix_app p s : cut_prefix p (p +:+ s) = Some s.
Proof. by apply cut_prefix_Some. Qed.

Lemma HasPrefix_app p s : HasPrefix (p +:+ s) p = true.
Proof. unfold HasPrefix. rewrite cut_prefix_app. by apply bool_decide_eq_true. Qed.

#[global] Instance StoredPolicyKey_inj : Inj (=) (=) StoredPolicyKey.
Proof. intros a b E. apply string_app_inj_len in E as [_ ->]; done. Qed.

(** A file name: none of a stored policy. *)
Definition file_name (n : string) : Prop := HasPrefix n StoredPolicyPrefix = false.

Lemma file_name_key n id : file_name n → n ≠ StoredPolicyKey id.
Proof. intros Hn ->. unfold file_name, StoredPolicyKey in Hn. by rewrite HasPrefix_app in Hn. Qed.

Lemma no_slash_file_name n : no_byte "/" n → file_name n.
Proof.
  intros Hn. apply bool_decide_eq_false. intros [r Hr]. apply cut_prefix_Some in Hr as ->.
  unfold no_byte, StoredPolicyPrefix in Hn.
  change ("api/" +:+ r) with ("api" +:+ String "/" r) in Hn. rewrite split_byte_app in Hn.
  apply (f_equal length) in Hn. rewrite length_app in Hn. simpl in Hn.
  destruct (split_byte "/" r) eqn:E; [by apply split_byte_ne in E|]. simpl in Hn. lia.
Qed.

(** ** The invariant *)

Section ok.
Context `{Cedar}.

(** What the engine holds agrees: the policies are those of its sources,
    which are the union of the file and stored ones; the entities are the
    static ones below the directory's, indexed. *)
Record engine_ok (e : Engine) : Prop := {
  eo_policies : parsePolicies (sources e) = Ok (policies e);
  eo_sources : sources e = unionSources (files e) (default ∅ (stored e));
  eo_files : ∀ n t, files e !! n = Some t → file_name n;
  eo_file_ids : ∃ ps, parsePolicies (files e) = Ok ps ∧ fileIDs e = dom ps;
  eo_static : parseEntities (staticRaw e) = Ok (static e);
  eo_directory : buildDirectory (dirSpec e) = (directory e, snap e);
  eo_entities : entities e = merge_entities (static e) (directory e);
  eo_index : byType e = indexByType (entities e);
}.

Lemma new_engine_ok : engine_ok new_engine.
Proof.
  split; cbn; try done.
  - by eexists.
Qed.

Lemma parseSources_Ok srcs raw ps ents :
  parseSources srcs raw = Ok (ps, ents) → parsePolicies srcs = Ok ps ∧ parseEntities raw = Ok ents.
Proof.
  unfold parseSources. intros (ps' & Hp & (ents' & He & [= <- <-])%result_bind_Ok)%result_bind_Ok. done.
Qed.

Lemma LoadSources_Ok srcs raw e e' :
  LoadSources srcs raw e = Ok e' →
  ∃ ps ents fps, parsePolicies (unionSources srcs (default ∅ (stored e))) = Ok ps ∧ parseEntities raw = Ok ents ∧
    parsePolicies srcs = Ok fps ∧ (∀ n t, srcs !! n = Some t → file_name n) ∧
    e' = rebuildLocked (mkEngine ps ents (unionSources srcs (default ∅ (stored e))) srcs (dom fps) (stored e) raw
           (dirSpec e) (directory e) (snap e) (entities e) (byType e) (revision e)).
Proof.
  unfold LoadSources. destruct (filter _ _) as [|name l] eqn:Ef; [|done].
  intros ([ps ents] & [Hp He]%parseSources_Ok & ([fps ?] & [Hf _]%parseSources_Ok & [= <-])%result_bind_Ok)%result_bind_Ok.
  exists ps, ents, fps. split_and!; try done. intros n t Hn. apply no_slash_file_name, contains_byte_false, not_true_is_false. intros Hc.
  assert (n ∈ filter (λ n, contains_byte "/" n = true) (map_to_list srcs).*1) as Hin.
  { apply list_elem_of_filter. split; [done|]. apply list_elem_of_fmap. exists (n, t). by rewrite elem_of_map_to_list. }
  rewrite Ef in Hin. by apply not_elem_of_nil in Hin.
Qed.

Lemma SetStoredPolicies_Ok st e e' :
  SetStoredPolicies st e = Ok e' →
  (stored e = Some st ∧ e' = e) ∨
  ∃ ps, parsePolicies (unionSources (files e) st) = Ok ps ∧
    e' = mkEngine ps (static e) (unionSources (files e) st) (files e) (fileIDs e) (Some st) (staticRaw e) (dirSpec e)
           (directory e) (snap e) (entities e) (byType e) (revision e).
Proof.
  unfold SetStoredPolicies. case_decide; [intros [= <-]; by left|]. intros ([ps ?] & [Hp _]%parseSources_Ok & [= <-])%result_bind_Ok.
  right. by exists ps.
Qed.

Lemma LoadSources_ok srcs raw e e' : engine_ok e → LoadSources srcs raw e = Ok e' → engine_ok e'.
Proof. intros [] (ps & ents & fps & Hp & He & Hf & Hn & ->)%LoadSources_Ok. split; cbn; eauto. Qed.

Lemma SetStoredPolicies_ok st e e' : engine_ok e → SetStoredPolicies st e = Ok e' → engine_ok e'.
Proof. intros Hok [[_ ->]|(ps & Hp & ->)]%SetStoredPolicies_Ok; [done|]. destruct Hok. split; cbn; eauto. Qed.

Lemma SetDirectory_ok d e : engine_ok e → engine_ok (SetDirectory d e).
Proof.
  intros []. unfold SetDirectory. destruct (buildDirectory d) as [ents s] eqn:E. split; cbn; eauto.
Qed.

End ok.

(** ** Files and stored policies *)

Lemma name_match_no_colon s : name_match s = true → no_byte ":" s.
Proof.
  intros Hm. apply (no_byte_forallb ":" is_name_byte); [done|]. destruct s as [|a s]; [done|]. simpl in *.
  apply andb_true_iff in Hm as [Ha Ht]. unfold is_name_byte at 1. rewrite Ha. simpl. clear Ha.
  induction s as [|b s IH]; [done|]. destruct s as [|c s].
  - simpl in *. unfold is_name_byte. by rewrite Ht.
  - cbn [name_tail] in Ht. apply andb_true_iff in Ht as [Hb Ht]. cbn [string_forallb]. rewrite Hb. by apply IH.
Qed.

Section stored.
Context `{Cedar}.

Lemma unionSources_lookup fs st n t :
  (∀ n t, fs !! n = Some t → file_name n) →
  unionSources fs st !! n = Some t ↔ fs !! n = Some t ∨ ∃ id, n = StoredPolicyKey id ∧ st !! id = Some t.
Proof.
  intros Hfs. unfold unionSources. rewrite lookup_union_Some_raw, lookup_kmap_Some by apply _.
  split; [tauto|]. intros [Hn|(id & -> & Hid)]; [right|left; eauto]. split; [|done].
  apply eq_None_not_Some. intros [t' (id & -> & _)%lookup_kmap_Some]; [|apply _]. by eapply file_name_key; [eapply Hfs|].
Qed.

(** A stored policy defines ids below its own key only. *)
Lemma stored_id id auto p :
  ∃ v, policy_id (StoredPolicyKey id) auto p = StoredPolicyKey id +:+ "::" +:+ v.
Proof.
  unfold policy_id, StoredPolicyKey. rewrite HasPrefix_app.
  destruct (annotated_id p) as [v|]; [|by eexists]. case_decide; by eexists.
Qed.

Lemma defines_union fs st id p :
  (∀ n t, fs !! n = Some t → file_name n) →
  defines (unionSources fs st) id p ↔
  defines fs id p ∨ ∃ sid text fset auto, st !! sid = Some text ∧
    NewPolicySetFromBytes (StoredPolicyKey sid) text = Ok fset ∧ fset !! auto = Some p ∧
    id = policy_id (StoredPolicyKey sid) auto p.
Proof.
  intros Hfs. unfold defines. split.
  - intros (name & text & fset & auto & Hn & Hrest). apply unionSources_lookup in Hn; [|done]. destruct Hn as [Hn|(sid & -> & Hs)].
    + left. by exists name, text, fset, auto.
    + right. by exists sid, text, fset, auto.
  - intros [(name & text & fset & auto & Hn & Hrest)|(sid & text & fset & auto & Hs & Hrest)].
    + exists name, text, fset, auto. rewrite unionSources_lookup by done. by split; [left|].
    + exists (StoredPolicyKey sid), text, fset, auto. rewrite unionSources_lookup by done. split; [right; eauto|done].
Qed.

(** The policies of the files, in an engine whatever its stored ones. *)
Lemma file_policies e id p :
  engine_ok e → id ∈ fileIDs e → policies e !! id = Some p ↔ defines (files e) id p.
Proof.
  intros Hok Hid. destruct (eo_file_ids e Hok) as (fps & Hf & Hdom). rewrite Hdom in Hid. apply elem_of_dom in Hid as [p' Hp'].
  rewrite (parsePolicies_defines _ _ (eo_policies e Hok)), (eo_sources e Hok), defines_union by apply (eo_files e Hok).
  split; [|by left]. intros [?|Hst]; [done|].
  assert (policies e !! id = Some p) as Hp.
  { rewrite (parsePolicies_defines _ _ (eo_policies e Hok)), (eo_sources e Hok), defines_union by apply (eo_files e Hok). by right. }
  assert (policies e !! id = Some p') as Hp2.
  { rewrite (parsePolicies_defines _ _ (eo_policies e Hok)), (eo_sources e Hok), defines_union by apply (eo_files e Hok).
    left. by rewrite <-(parsePolicies_defines _ _ Hf). }
  rewrite Hp in Hp2. injection Hp2 as ->. by rewrite <-(parsePolicies_defines _ _ Hf).
Qed.

(** C31. Whatever set of stored policies is put in force, every policy a file
    defines stays as it was, and every other policy in force has an id
    below the key of the stored policy it came from: the API can add
    policies, never replace or remove a file's. *)
Theorem stored_policies_add st e e' :
  engine_ok e → SetStoredPolicies st e = Ok e' →
  (∀ id, id ∈ fileIDs e → policies e' !! id = policies e !! id) ∧
  (∀ id p, policies e' !! id = Some p → id ∈ fileIDs e ∨
     ∃ sid, is_Some (st !! sid) ∧ HasPrefix id (StoredPolicyKey sid +:+ "::") = true).
Proof.
  intros Hok HS. pose proof (SetStoredPolicies_ok _ _ _ Hok HS) as Hok'.
  assert (files e' = files e ∧ fileIDs e' = fileIDs e ∧ default ∅ (stored e') = st) as (Hf & Hi & Hs).
  { apply SetStoredPolicies_Ok in HS as [[Hst ->]|(ps & _ & ->)]; cbn; [by rewrite Hst|done]. }
  split.
  - intros id Hid. apply option_eq. intros p. rewrite (file_policies e) by done.
    rewrite (file_policies e') by (by rewrite ?Hi). by rewrite Hf.
  - intros id p Hp. rewrite (parsePolicies_defines _ _ (eo_policies e' Hok')), (eo_sources e' Hok'), defines_union in Hp
      by apply (eo_files e' Hok'). destruct Hp as [Hp|(sid & text & fset & auto & Hsid & _ & _ & ->)].
    + left. destruct (eo_file_ids e' Hok') as (fps & Hfp & Hdom). rewrite <-Hi, Hdom. apply elem_of_dom. exists p.
      by rewrite (parsePolicies_defines _ _ Hfp).
    + right. rewrite Hs in Hsid. exists sid. split; [eauto|]. destruct (stored_id sid auto p) as [v ->].
      rewrite <-string_app_assoc. apply HasPrefix_app.
Qed.

(** The sources of an engine as a list: the files, then the stored ones. *)
Lemma map_to_list_union fs st :
  (∀ n t, fs !! n = Some t → file_name n) →
  map_to_list (unionSources fs st) ≡ₚ map_to_list fs ++ (prod_map StoredPolicyKey id <$> map_to_list st).
Proof.
  intros Hfs. apply NoDup_Permutation.
  - apply NoDup_map_to_list.
  - apply NoDup_app. split_and!; [apply NoDup_map_to_list| |].
    + intros [n t] Hin%elem_of_map_to_list ([sid t'] & [= -> ->] & _)%list_elem_of_fmap.
      by eapply file_name_key; [eapply Hfs|].
    + apply NoDup_fmap; [|apply NoDup_map_to_list]. intros [a ta] [b tb] E.
      pose proof (f_equal fst E) as E1. pose proof (f_equal snd E) as E2. cbn in E2. subst tb.
      apply StoredPolicyKey_inj in E1. cbn in E1. by subst b.
  - intros [n t]. rewrite elem_of_map_to_list, unionSources_lookup, elem_of_app, elem_of_map_to_list, list_elem_of_fmap by done.
    f_equiv. split.
    + intros (sid & -> & Hs). exists (sid, t). by rewrite elem_of_map_to_list.
    + intros ([sid t'] & [= -> ->] & Hs%elem_of_map_to_list). by exists sid.
Qed.

(** The ids of stored policies with valid names do not meet. *)
Lemma stored_ids_NoDup l :
  NoDup l.*1 → Forall (λ src, no_byte ":" src.1) l →
  Forall (λ src, NoDup (source_ids (StoredPolicyKey src.1, src.2))) l →
  NoDup (mjoin (source_ids <$> (prod_map StoredPolicyKey id <$> l))).
Proof.
  induction l as [|[sid t] l IH]; cbn [fmap list_fmap]; [constructor|].
  rewrite NoDup_cons, !Forall_cons. intros [Hsid Hnd] [Hc Hcs] [Hids Hidss].
  change (mjoin (?x :: ?r)) with (x ++ mjoin r). apply NoDup_app. split_and!; [done| |by apply IH].
  assert (∀ sid' t' x, x ∈ source_ids (StoredPolicyKey sid', t') → ∃ v, x = StoredPolicyKey sid' +:+ "::" +:+ v) as Hx.
  { intros sid' t' x (fs & auto & p & _ & _ & ->)%elem_of_source_ids. apply stored_id. }
  intros x Hin (ids & Hx' & ([sid' t'] & -> & ([sid2 t2] & [= -> ->] & Hl)%list_elem_of_fmap)%list_elem_of_fmap)%list_elem_of_join.
  destruct (Hx _ _ _ Hin) as [v ->]. destruct (Hx _ _ _ Hx') as [v' E]. unfold StoredPolicyKey in E.
  rewrite !string_app_assoc in E. apply string_app_inj_len in E as [_ E]; [|done].
  cbn [fst] in *. apply (cut_first_inj ":") in E as [-> _]; [|done|by rewrite Forall_forall in Hcs; apply (Hcs (sid2, t2))].
  apply Hsid, list_elem_of_fmap. by exists (sid2, t2).
Qed.

Lemma CheckStored_Ok sid text e ids :
  CheckStored sid text e = Ok ids →
  parses (StoredPolicyKey sid, text) ∧ NoDup (source_ids (StoredPolicyKey sid, text)) ∧
  ∀ id, id ∈ source_ids (StoredPolicyKey sid, text) → id ∉ fileIDs e.
Proof.
  unfold CheckStored. intros ([ps ?] & [Hp _]%parseSources_Ok & Hids)%result_bind_Ok.
  assert (is_ok (parsePolicies {[StoredPolicyKey sid := text]}) = true) as Hok by (by rewrite Hp).
  apply parsePolicies_ok in Hok as [Hpar Hnd]. rewrite map_to_list_singleton in Hpar, Hnd.
  cbn [fmap list_fmap mjoin list_join] in Hnd. rewrite app_nil_r in Hnd. split_and!; [by inversion Hpar|done|].
  intros id Hid Hfile. case_decide as Hne; [done|].
  destruct (filter _ _) as [|x l] eqn:Ef; [|done]. clear Hids.
  assert (id ∈ filter (λ pid, pid ∈ fileIDs e) (sort_strings (elements (dom ps)))) as Hin.
  { apply list_elem_of_filter. split; [done|]. rewrite sort_strings_Permutation, elem_of_elements, elem_of_dom.
    apply elem_of_source_ids in Hid as (fset & auto & p & Hfs & Hin & ->). exists p.
    apply (parsePolicies_defines _ _ Hp). exists (StoredPolicyKey sid), text, fset, auto.
    split; [apply lookup_singleton_eq|]. exact (conj Hfs (conj Hin eq_refl)). }
  rewrite Ef in Hin. by apply not_elem_of_nil in Hin.
Qed.

(** A set of stored policies loads whenever each of them passed the
    check on its own: two valid policies never clash with each other, and
    the check rules out a clash with a file. *)
Theorem checked_policies_load st e :
  engine_ok e →
  (∀ sid text, st !! sid = Some text → name_match sid = true ∧ is_ok (CheckStored sid text e) = true) →
  is_ok (SetStoredPolicies st e) = true.
Proof.
  intros Hok Hst. unfold SetStoredPolicies. case_decide; [done|].
  assert (is_ok (parsePolicies (unionSources (files e) st)) = true) as Hu.
  2: { unfold parseSources. destruct (parsePolicies _); [|done]. cbn. done. }
  assert (∀ sid text, st !! sid = Some text → no_byte ":" sid ∧ ∃ ids, CheckStored sid text e = Ok ids) as Hst'.
  { intros sid text Hs. destruct (Hst sid text Hs) as [Hn Hc]. split; [by apply name_match_no_colon|].
    destruct (CheckStored sid text e) as [ids|]; [by eexists|done]. }
  destruct (eo_file_ids e Hok) as (fps & Hf & Hdom).
  assert (is_ok (parsePolicies (files e)) = true) as Hfok by (by rewrite Hf).
  apply parsePolicies_ok in Hfok as [Hfp Hfn]. apply parsePolicies_ok.
  pose proof (map_to_list_union (files e) st (eo_files e Hok)) as Hperm.
  assert (mjoin (source_ids <$> map_to_list (unionSources (files e) st)) ≡ₚ
    mjoin (source_ids <$> map_to_list (files e)) ++ mjoin (source_ids <$> (prod_map StoredPolicyKey id <$> map_to_list st))) as Hids.
  { by rewrite Hperm, fmap_app, join_app. }
  rewrite Hids, Hperm, Forall_app, NoDup_app. split_and!; [done| |done| |].
  - apply Forall_forall. intros src ([sid t] & -> & Hs%elem_of_map_to_list)%list_elem_of_fmap.
    destruct (Hst' sid t Hs) as (_ & ids & Hc). by apply CheckStored_Ok in Hc as [? _].
  - intros id Hid (x & Hx & ([sid t] & -> & ([sid2 t2] & [= -> ->] & Hs%elem_of_map_to_list)%list_elem_of_fmap)%list_elem_of_fmap)%list_elem_of_join.
    destruct (Hst' _ _ Hs) as (_ & ids & (_ & _ & Hc)%CheckStored_Ok). apply (Hc id Hx). rewrite Hdom. apply elem_of_dom.
    apply list_elem_of_join in Hid as (y & Hy & ([n t] & -> & Hn%elem_of_map_to_list)%list_elem_of_fmap).
    apply elem_of_source_ids in Hy as (fset & auto & p & Hfs & Hin & ->). exists p.
    apply (parsePolicies_defines _ _ Hf). by exists n, t, fset, auto.
  - apply stored_ids_NoDup; [apply NoDup_fst_map_to_list|..]; apply Forall_forall; intros [sid t] Hs%elem_of_map_to_list;
      destruct (Hst' _ _ Hs) as (Hn & ids & Hc); [done|]. by apply CheckStored_Ok in Hc as (_ & ? & _).
Qed.

End stored.

(** ** Evaluation *)

Section evaluation.
Context `{CedarLaws, Spiffe}.

Lemma EvaluateRevision_Ok now req e resp rev :
  EvaluateRevision now req e = Ok (resp, rev) →
  ∃ creq overlays ok diag, prepare req = Ok (creq, overlays) ∧
    Authorize (policies e) (eval_entities now creq overlays e) creq = (ok, diag) ∧
    resp = respond (policies e) ok diag ∧ rev = revision e.
Proof.
  unfold EvaluateRevision. intros ([creq overlays] & Hp & Hr)%result_bind_Ok.
  destruct (Authorize _ _ _) as [ok diag] eqn:Ea. injection Hr as <- <-. by exists creq, overlays, ok, diag.
Qed.

Lemma erroredForbids_nil ps d :
  erroredForbids ps d = [] ↔ ∀ em, em ∈ diag_errors d → ∃ p, ps !! em.1 = Some p ∧ is_forbid p = false.
Proof.
  unfold erroredForbids. split.
  - intros Hnil em Hem. destruct (may_forbid ps em.1) eqn:Em.
    + assert (em.1 ∈ filter (λ id, may_forbid ps id = true) (diag_errors d).*1) as Hin.
      { apply list_elem_of_filter. split; [done|]. apply list_elem_of_fmap. by exists em. }
      rewrite Hnil in Hin. by apply not_elem_of_nil in Hin.
    + unfold may_forbid in Em. destruct (ps !! em.1) as [p|]; [by exists p|done].
  - intros Hall. destruct (filter _ _) as [|id l] eqn:Ef; [done|]. exfalso.
    assert (id ∈ filter (λ id, may_forbid ps id = true) (diag_errors d).*1) as Hin by (rewrite Ef; left).
    apply list_elem_of_filter in Hin as [Hm (em & -> & Hem)%list_elem_of_fmap].
    destruct (Hall em Hem) as (p & Hp & Hf). unfold may_forbid in Hm. rewrite Hp in Hm. congruence.
Qed.

(** C11. An evaluation allows exactly when Cedar does and every policy that
    failed to evaluate is a permit of the policy set; the reasons of an
    allow are permits in force, at least one. A forbid that cannot be
    evaluated denies, and is among the reasons. *)
Theorem evaluate_fails_closed now req e resp rev :
  EvaluateRevision now req e = Ok (resp, rev) →
  ∃ creq overlays ok diag, prepare req = Ok (creq, overlays) ∧
    Authorize (policies e) (eval_entities now creq overlays e) creq = (ok, diag) ∧
    (resp_decision resp = true ↔ ok = true ∧
       ∀ em, em ∈ diag_errors diag → ∃ p, policies e !! em.1 = Some p ∧ is_forbid p = false) ∧
    (resp_decision resp = true →
       resp_reasons resp ≠ [] ∧
       ∀ id, id ∈ resp_reasons resp → ∃ p, policies e !! id = Some p ∧ is_forbid p = false) ∧
    (∀ em, em ∈ diag_errors diag → may_forbid (policies e) em.1 = true →
       resp_decision resp = false ∧ em.1 ∈ resp_reasons resp).
Proof.
  intros (creq & overlays & ok & diag & Hp & Ha & -> & ->)%EvaluateRevision_Ok. exists creq, overlays, ok, diag.
  pose proof (erroredForbids_nil (policies e) diag) as Hnil. unfold respond. cbn [resp_decision resp_reasons].
  split_and!; [done|done|..].
  - rewrite <-Hnil. case_decide; naive_solver.
  - case_decide as Hd; [|done]. intros ->. rewrite Hd, app_nil_r, decide_False by naive_solver.
    by apply (Authorize_allow _ _ _ _ Ha).
  - intros em Hem Hm. assert (em.1 ∈ erroredForbids (policies e) diag) as Hin.
    { apply list_elem_of_filter. split; [done|]. apply list_elem_of_fmap. by exists em. }
    rewrite decide_False by (intros E; rewrite E in Hin; by apply not_elem_of_nil in Hin).
    split; [done|]. apply elem_of_app. by right.
Qed.

Lemma requestEntities_dom su sa ru ra out uid :
  requestEntities su sa ru ra = Ok out → is_Some (out !! uid) → uid = su ∨ uid = ru.
Proof.
  unfold requestEntities. intros (o1 & Hsub & Hres)%result_bind_Ok Hu.
  assert (∀ u, is_Some (o1 !! u) → u = su) as Ho1.
  { destruct (decide (sa ≠ [])); [apply result_bind_Ok in Hsub as (r & _ & [= <-])|injection Hsub as <-]; intros u [x Hx].
    - by apply lookup_singleton_Some in Hx as [-> _].
    - by rewrite lookup_empty in Hx. }
  destruct (decide (ra ≠ [] ∧ ru ≠ su)); [apply result_bind_Ok in Hres as (r & _ & [= <-])|injection Hres as <-]; [|left; by apply Ho1].
  destruct (decide (uid = ru)) as [->|Hne]; [by right|]. rewrite lookup_insert_ne in Hu by done. left. by apply Ho1.
Qed.

(** The attributes of a request never replace what is declared: an
    entity of the store is evaluated with its own attributes and parents,
    to which only a SPIFFE ID's domain and groups are added; every other
    entity of the evaluation is the request's subject or resource. *)
Theorem declared_entities_win now req e creq overlays uid :
  prepare req = Ok (creq, overlays) →
  match entities e !! uid with
  | Some ent => ∃ ent', eval_entities now creq overlays e !! uid = Some ent' ∧ ent_attrs ent' = ent_attrs ent ∧
      ent_tags ent' = ent_tags ent ∧
      (uid.1 = SpiffeEntityType → ent_parents ent' = ent_parents ent ∪ ent_parents ent') ∧
      (uid.1 ≠ SpiffeEntityType → ent' = ent)
  | None => is_Some (eval_entities now creq overlays e !! uid) → uid = uid_of (reqSubject req) ∨ uid = uid_of (reqResource req)
  end.
Proof.
  unfold prepare. destruct (validate req); [done|].
  intros (ctx & Hctx & (ov & Hov & [= <- <-])%result_bind_Ok)%result_bind_Ok.
  unfold eval_entities. rewrite withSPIFFEParents_lookup. cbn [cr_principal cr_resource].
  destruct (entities e !! uid) as [ent|] eqn:Ee.
  - rewrite (lookup_union_Some_l _ _ _ _ Ee). case_decide as Hd; eexists; (split; [done|]); cbn.
    + split_and!; [done|done|set_solver|tauto].
    + split_and!; [done|done|set_solver|done].
  - rewrite (lookup_union_r _ _ _ Ee). case_decide as Hd; [set_solver|]. by apply requestEntities_dom with (1 := Hov).
Qed.

End evaluation.

(** *** Witnesses *)

#[local] Existing Instance Toy.cedar.
#[local] Existing Instance Toy.spiffe.

Definition base_sources : gmap string string := {[ "base.cedar" := "permit" ]}.

Definition get_engine (r : result load_error Engine) : Engine := match r with Ok e => e | Err _ => new_engine end.

Definition file_engine : Engine := get_engine (LoadSources base_sources "" new_engine).

Lemma file_engine_ok : engine_ok file_engine.
Proof.
  unfold file_engine. destruct (LoadSources base_sources "" new_engine) as [e|err] eqn:E.
  - exact (LoadSources_ok _ _ _ _ new_engine_ok E).
  - apply new_engine_ok.
Qed.

Definition read_request : EvalRequest :=
  mkEvalRequest (mkEntity "User" "alice" [("team", AStr "news")]) "read" (mkEntity "Doc" "d1" []) [].

Lemma stored_policies_add_witness :
  ∃ e', SetStoredPolicies {[ "lock" := "forbid" ]} file_engine = Ok e' ∧
        policies e' !! "base::policy0" = policies file_engine !! "base::policy0" ∧
        is_Some (policies e' !! "api/lock::policy0").
Proof.
  assert (is_ok (SetStoredPolicies {[ "lock" := "forbid" ]} file_engine) = true) as [e' E]%is_ok_Ok by (vm_compute; reflexivity).
  exists e'. split; [exact E|].
  destruct (stored_policies_add _ _ _ file_engine_ok E) as [Hkeep _].
  split; [apply Hkeep; apply (bool_decide_eq_true_1 _); vm_compute; reflexivity|].
  assert (match SetStoredPolicies {[ "lock" := "forbid" ]} file_engine with
          | Ok e => bool_decide (is_Some (policies e !! "api/lock::policy0")) | Err _ => false end = true) as Hb
    by (vm_compute; reflexivity).
  rewrite E in Hb. exact (bool_decide_eq_true_1 _ Hb).
Defined.

Lemma checked_policies_load_witness :
  is_ok (SetStoredPolicies (<["lock" := "forbid"]> {[ "open" := "permit" ]}) file_engine) = true.
Proof.
  apply (checked_policies_load _ _ file_engine_ok). intros sid text Hs.
  apply lookup_insert_Some in Hs as [[<- <-]|[_ Hs]]; [split; vm_compute; reflexivity|].
  apply lookup_singleton_Some in Hs as [<- <-]. split; vm_compute; reflexivity.
Defined.

Definition broken_engine : Engine := get_engine (SetStoredPolicies {[ "lock" := "broken" ]} file_engine).

Lemma evaluate_fails_closed_witness :
  ∃ resp rev, EvaluateRevision 0 read_request broken_engine = Ok (resp, rev) ∧ resp_decision resp = false ∧
          "api/lock::policy0" ∈ resp_reasons resp.
Proof.
  assert (is_ok (EvaluateRevision 0 read_request broken_engine) = true) as [[resp rev] E]%is_ok_Ok by (vm_compute; reflexivity).
  destruct (evaluate_fails_closed _ _ _ _ _ E) as (creq & ov & ok & diag & Hp & Ha & _ & _ & Hf).
  exists resp, rev. split; [exact E|].
  assert (match prepare read_request with
          | Ok (c, o) => bool_decide (diag_errors (Authorize (policies broken_engine) (eval_entities 0 c o broken_engine) c).2 =
                                      [("api/lock::policy0", "attribute not found")])
          | Err _ => false end = true) as Hb by (vm_compute; reflexivity).
  rewrite Hp in Hb. cbv beta iota in Hb. rewrite Ha in Hb. apply bool_decide_eq_true_1 in Hb. cbn [snd] in Hb.
  apply (Hf ("api/lock::policy0", "attribute not found")); [rewrite Hb; left|vm_compute; reflexivity].
Defined.

Definition declared_engine : Engine :=
  mkEngine ∅ {[ ("User", "alice") := mkCEntity ∅ {[ "team" := CString "ops" ]} ∅ ]} ∅ ∅ ∅ None "" no_directory ∅
    no_snapshot {[ ("User", "alice") := mkCEntity ∅ {[ "team" := CString "ops" ]} ∅ ]} ∅ "".

Lemma declared_entities_win_witness :
  ∃ creq ov ent, prepare read_request = Ok (creq, ov) ∧
    eval_entities 0 creq ov declared_engine !! ("User", "alice") = Some ent ∧
    ent_attrs ent = {[ "team" := CString "ops" ]}.
Proof.
  assert (is_ok (prepare read_request) = true) as [[creq ov] E]%is_ok_Ok by (vm_compute; reflexivity).
  pose proof (declared_entities_win 0 read_request declared_engine creq ov ("User", "alice") E) as H.
  replace (entities declared_engine !! ("User", "alice")) with (Some (mkCEntity ∅ {[ "team" := CString "ops" ]} ∅)) in H
    by (vm_compute; reflexivity).
  destruct H as (ent & He & Hattrs & _). exists creq, ov, ent. split; [exact E|]. split; [exact He|exact Hattrs].
Defined.
