(* ===== verification/Bundle.v ===== *)
(** * Bundle

    The policy bundle a node agent decides from
    (internal/server/policy/bundle.go): the engine's sources, static
    entities and directory, under a revision that is the SHA-256 of their
    JSON, and the signature over the revision and the time of issue. *)
From S2P Require Import Prelude Crypto Json JsonParse JsonRaw AuditKeyring Store Domains GoValue Base64 Cedar Directory Request Engine.

Record BundleMembership := mkBundleMembership {
  bm_group : string;
  bm_expires : Z;
}.

Record BundleDirectory := mkBundleDirectory {
  bd_trust_domain : string;
  bd_domains : gmap string string;
  bd_groups : list string;
  bd_memberships : gmap string (list BundleMembership);
}.

Record Bundle := mkBundle {
  b_revision : string;
  b_policies : gmap string string;
  b_entities : string;
  b_directory : BundleDirectory;
  b_issued_at : Z;
  b_signature : string;
}.

(** ** JSON *)

Definition membership_json (m : BundleMembership) : json :=
  JObj (("group", JStr (bm_group m)) ::
        (if IsZero (bm_expires m) then [] else [("expires_at", JStr (format_time (bm_expires m)))])).

Definition memberships_json (ms : list BundleMembership) : json := JArr (membership_json <$> ms).

Definition directory_json (d : BundleDirectory) : json :=
  JObj (omit_empty (bool_decide (bd_trust_domain d = "")) ("trust_domain", JStr (bd_trust_domain d)) ++
        omit_empty (bool_decide (bd_domains d = ∅)) ("domains", JMap (JStr <$> bd_domains d)) ++
        omit_empty (bool_decide (bd_groups d = [])) ("groups", JArr (JStr <$> bd_groups d)) ++
        omit_empty (bool_decide (bd_memberships d = ∅)) ("memberships", JMap (memberships_json <$> bd_memberships d))).

(** The expiries [time.Time.MarshalJSON] can write; a zero one is omitted. *)
Definition expiries_ok (d : BundleDirectory) : Prop :=
  map_Forall (λ _ ms, Forall (λ m, bm_expires m = zero_time ∨ json_year (bm_expires m)) ms) (bd_memberships d).

#[global] Instance expiries_ok_dec d : Decision (expiries_ok d).
Proof. unfold expiries_ok. apply _. Defined.

Definition entities_json (raw : string) : Prop := raw = "" ∨ json_parse raw ≠ None.

(** The JSON of a bundle without its revision, signature and issue time. *)
Definition bundle_text (b : Bundle) : string :=
  obj_text ([("revision", json_string ""); ("policies", json_print (JMap (JStr <$> b_policies b)))] ++
            omit_empty (bool_decide (b_entities b = "")) ("entities", compact outside (b_entities b)) ++
            [("directory", json_print (directory_json (b_directory b)))]).

#[global] Instance json_parse_None_dec (raw : string) : Decision (json_parse raw ≠ None).
Proof. destruct (json_parse raw); [left|right]; naive_solver. Defined.

Definition bundleRevision (b : Bundle) : result load_error string :=
  if decide (entities_json (b_entities b) ∧ expiries_ok (b_directory b)) then Ok (sha256_hex (bundle_text b))
  else Err EncodeError.

Definition CheckRevision (b : Bundle) : result load_error () :=
  rev ← bundleRevision b;
  if decide (rev = b_revision b) then Ok tt else Err (RevisionMismatch (b_revision b) rev).

(** ** Export and load *)

Definition bundle_membership (m : Membership) : BundleMembership := mkBundleMembership (ms_group m) (ms_expires m).

Definition membership_of (m : BundleMembership) : Membership := mkMembership (bm_group m) (bm_expires m).

Definition sort_memberships : list BundleMembership → list BundleMembership :=
  merge_sort (λ a b, String.le (bm_group a) (bm_group b)).

Definition bundle_directory (d : Directory) : BundleDirectory :=
  mkBundleDirectory (dirTrustDomain d) (dirDomains d) (sort_strings (dirGroups d))
    ((λ ms, sort_memberships (bundle_membership <$> ms)) <$> dirMemberships d).

(** The stored policies and the files of a bundle. *)
Definition stored_of (policies : gmap string string) : gmap string string :=
  list_to_map (omap (λ nt, (λ id, (id, nt.2)) <$> cut_prefix StoredPolicyPrefix nt.1) (map_to_list policies)).

Definition files_of (policies : gmap string string) : gmap string string :=
  filter (λ nt, HasPrefix nt.1 StoredPolicyPrefix = false) policies.

Section bundle.
Context `{Cedar, Spiffe}.

Definition export_bundle (e : Engine) : result load_error Bundle :=
  let '(sources, raw, dir) := engine_Snapshot e in
  let b := mkBundle "" sources raw (bundle_directory dir) zero_time "" in
  rev ← bundleRevision b;
  Ok (mkBundle rev sources raw (bundle_directory dir) zero_time "").

(** The directory of a bundle; an empty list of memberships leaves no
    entry. *)
Definition directory_of (td : string) (d : BundleDirectory) : Directory :=
  mkDirectory td (bd_domains d) (bd_groups d)
    (fmap (M := list) membership_of <$>
       (filter (λ pm : string * list BundleMembership, pm.2 ≠ []) (bd_memberships d) : gmap string (list BundleMembership))).

Definition bundle_trust_domain (name : string) : result load_error string :=
  if decide (name ≠ "") then
    match TrustDomainFromString name with Some td => Ok td | None => Err (BadTrustDomain name) end
  else Ok "".

Definition LoadBundle (b : Bundle) (e : Engine) : result load_error Engine :=
  rev ← bundleRevision b;
  if decide (rev ≠ b_revision b) then Err (RevisionMismatch (b_revision b) rev)
  else
    td ← bundle_trust_domain (bd_trust_domain (b_directory b));
    let dir := directory_of td (b_directory b) in
    '(ps, st) ← parseSources (b_policies b) (b_entities b);
    let fs := files_of (b_policies b) in
    '(filePS, _) ← parseSources fs "";
    let '(ents, s) := buildDirectory dir in
    Ok (rebuildLocked (mkEngine ps st (b_policies b) fs (dom filePS) (Some (stored_of (b_policies b))) (b_entities b)
          dir ents s (entities e) (byType e) (b_revision b))).

End bundle.

(** ** Signatures *)

(** [crypto/ecdsa] on P-256: a key pair signs a digest into ASN.1 bytes,
    which the public key verifies. *)
Class Ecdsa := {
  PrivateKey : Type;
  PublicKey : Type;
  is_p256 : PrivateKey → bool;
  SignASN1 : PrivateKey → string → option string;
  VerifyASN1 : PublicKey → string → string → bool;
}.

Definition bundleSigningInput (revision : string) (issuedAt : Z) : string :=
  sha256 ("omega-policy-bundle-v1:" +:+ revision +:+ ":" +:+ pretty (UnixNano issuedAt)).

Definition SignBundleAt `{Ecdsa} (b : Bundle) (key : PrivateKey) (issuedAt : Z) : option Bundle :=
  if is_p256 key then
    sig ← SignASN1 key (bundleSigningInput (b_revision b) issuedAt);
    Some (mkBundle (b_revision b) (b_policies b) (b_entities b) (b_directory b) issuedAt (b64_encode sig))
  else None.

Definition VerifyBundle `{Ecdsa} (b : Bundle) (pub : PublicKey) : bool :=
  if decide (b_signature b = "" ∨ IsZero (b_issued_at b) = true) then false
  else match b64_decode (b_signature b) with
       | None => false
       | Some sig => VerifyASN1 pub (bundleSigningInput (b_revision b) (b_issued_at b)) sig
       end.

(** ** Taking a bundle apart *)

Lemma files_of_union fs st :
  (∀ n t, fs !! n = Some t → file_name n) → files_of (unionSources fs st) = fs.
Proof.
  intros Hfs. apply map_eq. intros n. apply option_eq. intros t. unfold files_of.
  rewrite map_lookup_filter_Some, unionSources_lookup by done. cbn [fst]. split.
  - intros [[?|(id & -> & _)] Hp]; [done|]. unfold StoredPolicyKey in Hp. by rewrite HasPrefix_app in Hp.
  - intros Hn. split; [by left|]. by eapply Hfs.
Qed.

Lemma stored_of_lookup m id : stored_of m !! id = m !! StoredPolicyKey id.
Proof.
  unfold stored_of. apply option_eq. intros t. rewrite <-elem_of_list_to_map.
  - rewrite list_elem_of_omap. split.
    + intros ([n t'] & Hin%elem_of_map_to_list & Hc). cbn [fst snd] in Hc.
      destruct (cut_prefix StoredPolicyPrefix n) as [r|] eqn:E; [|done]. injection Hc as -> ->.
      by apply cut_prefix_Some in E as ->.
    + intros Hm. exists (StoredPolicyKey id, t). rewrite elem_of_map_to_list. split; [done|]. cbn [fst snd].
      unfold StoredPolicyKey. by rewrite cut_prefix_app.
  - pose proof (NoDup_fst_map_to_list m) as Hnd. induction (map_to_list m) as [|[n t'] l IH]; [constructor|].
    apply NoDup_cons in Hnd as [Hn Hnd]. cbn [omap list_omap fst snd].
    destruct (cut_prefix StoredPolicyPrefix n) as [r|] eqn:E; [|by apply IH]. cbn [fmap option_fmap option_map list_fmap fst]. constructor; [|by apply IH].
    intros ([id' t2] & Hid & ([n' t3] & Hin & Hc)%list_elem_of_omap)%list_elem_of_fmap. cbn in Hid. subst id'.
    cbn [fst snd] in Hc. destruct (cut_prefix StoredPolicyPrefix n') as [r'|] eqn:E'; [|done]. injection Hc as -> ->.
    apply cut_prefix_Some in E, E'. subst n n'. apply Hn, list_elem_of_fmap. by exists (StoredPolicyPrefix +:+ r, t2).
Qed.

Lemma stored_of_union fs st :
  (∀ n t, fs !! n = Some t → file_name n) → stored_of (unionSources fs st) = st.
Proof.
  intros Hfs. apply map_eq. intros id. rewrite stored_of_lookup. apply option_eq. intros t.
  rewrite unionSources_lookup by done. split.
  - intros [Hn|(id' & E%StoredPolicyKey_inj & Hid)]; [|by subst]. destruct (file_name_key _ id (Hfs _ _ Hn) eq_refl).
  - intros Hid. right. by exists id.
Qed.

(** ** The directory of a bundle *)

Section equiv.
Context `{Spiffe}.

(** Evaluation depends on a snapshot only through the parents it gives. *)
Lemma withSPIFFEParents_equiv ents s1 s2 now uids :
  (∀ id, spiffe_parents s1 now id ≡ₚ spiffe_parents s2 now id) →
  withSPIFFEParents ents s1 now uids = withSPIFFEParents ents s2 now uids.
Proof.
  intros Hs. apply map_eq. intros u. rewrite !withSPIFFEParents_lookup.
  assert (spiffe_parents s1 now u.2 ≠ [] ↔ spiffe_parents s2 now u.2 ≠ []) as Hnil.
  { specialize (Hs u.2). split; intros Hne E; rewrite E in Hs; [by apply Permutation_nil_r in Hs|by apply Permutation_nil_l in Hs]. }
  assert ((list_to_set (spiffe_parents s1 now u.2) : gset EntityUID) = list_to_set (spiffe_parents s2 now u.2)) as ->.
  { apply list_to_set_perm_L, Hs. }
  repeat case_decide; tauto.
Qed.

Lemma directory_of_entities d td :
  (buildDirectory (directory_of td (bundle_directory d))).1 = (buildDirectory d).1.
Proof.
  apply map_eq. intros uid. rewrite !buildDirectory_lookup. cbn [directory_of bundle_directory dirGroups dirDomains bd_groups bd_domains].
  rewrite (decide_ext _ (uid.1 = GroupEntityType ∧ uid.2 ∈ dirGroups d)); [done|]. by rewrite sort_strings_Permutation.
Qed.

Lemma directory_of_parents d now id :
  spiffe_parents (buildDirectory (directory_of (dirTrustDomain d) (bundle_directory d))).2 now id ≡ₚ
  spiffe_parents (buildDirectory d).2 now id.
Proof.
  unfold spiffe_parents. cbn [buildDirectory snd snap_trustDomain snap_domains snap_memberships directory_of bundle_directory
    dirTrustDomain dirDomains dirMemberships bd_domains bd_memberships].
  apply Permutation_app_head. apply fmap_Permutation, filter_Permutation. rewrite lookup_fmap, map_lookup_filter, lookup_fmap.
  destruct (dirMemberships d !! id) as [ms|]; simpl; [|done].
  assert (membership_of <$> sort_memberships (bundle_membership <$> ms) ≡ₚ ms) as Hms.
  { unfold sort_memberships. rewrite merge_sort_Permutation, <-list_fmap_compose.
    rewrite (list_fmap_ext _ (λ x, x)); [by rewrite list_fmap_id|]. by intros _ [] _. }
  case_guard as Hg; simpl; [done|].
  by rewrite Hg in Hms.
Qed.

End equiv.

Section roundtrip.
Context `{Cedar, Spiffe}.

Lemma union_of_parts m : unionSources (files_of m) (stored_of m) = m.
Proof.
  apply map_eq. intros n. apply option_eq. intros t.
  assert (∀ n t, files_of m !! n = Some t → file_name n) as Hf by (by intros ? ? [_ ?]%map_lookup_filter_Some).
  rewrite unionSources_lookup by done. unfold files_of. rewrite map_lookup_filter_Some. cbn [fst]. split.
  - intros [[? _]|(id & -> & Hid)]; [done|]. by rewrite stored_of_lookup in Hid.
  - intros Hn. destruct (HasPrefix n StoredPolicyPrefix) eqn:E; [|by left]. right.
    apply bool_decide_eq_true in E as [r Hr]. apply cut_prefix_Some in Hr as ->. exists r. by rewrite stored_of_lookup.
Qed.

Lemma LoadBundle_ok b e0 e : LoadBundle b e0 = Ok e → engine_ok e.
Proof.
  unfold LoadBundle. intros (rev & _ & Hl)%result_bind_Ok. case_decide; [done|].
  apply result_bind_Ok in Hl as (td & _ & ([ps st] & [Hp Hs]%parseSources_Ok & ([fps ?] & [Hf _]%parseSources_Ok & Hl)%result_bind_Ok)%result_bind_Ok).
  destruct (buildDirectory _) as [ents sn] eqn:Ed. injection Hl as <-. split; cbn; try done.
  - by rewrite union_of_parts.
  - by intros n t [_ ?]%map_lookup_filter_Some.
  - by exists fps.
Qed.

(** The loaders of an engine. *)
Inductive engine_load (e : Engine) : Engine → Prop :=
| load_sources srcs raw e' : LoadSources srcs raw e = Ok e' → engine_load e e'
| load_stored st e' : SetStoredPolicies st e = Ok e' → engine_load e e'
| load_directory d : engine_load e (SetDirectory d e)
| load_bundle b e' : LoadBundle b e = Ok e' → engine_load e e'.

(** C34. After any sequence of loads, of which any may have failed and left
    the engine alone, what the engine evaluates agrees with what it
    reports and hands out: its policies are those of its sources, the
    sources the union of files and stored policies under distinct names,
    its entities the static ones below the directory's, and the search
    index holds every entity once, in order. *)
Theorem engine_consistent e :
  rtc engine_load new_engine e →
  engine_ok e ∧
  ∀ typ, Sorted String.le (entID <$> EntitiesOfType typ e) ∧ NoDup (entID <$> EntitiesOfType typ e) ∧
         ∀ ent, ent ∈ EntitiesOfType typ e ↔ ent = mkEntity typ (entID ent) [] ∧ is_Some (entities e !! (typ, entID ent)).
Proof.
  intros Hr. assert (engine_ok e) as Hok.
  { remember new_engine as e0 eqn:E0. assert (engine_ok e0) as Hok0 by (subst; apply new_engine_ok). clear E0.
    induction Hr as [|e0 e1 e2 Hl _ IH]; [done|]. apply IH. destruct Hl; [by eapply LoadSources_ok|by eapply SetStoredPolicies_ok|by apply SetDirectory_ok|by eapply LoadBundle_ok]. }
  split; [done|]. intros typ. unfold EntitiesOfType. rewrite (eo_index e Hok). apply indexByType_spec.
Qed.

(** C7. An agent that loads the bundle of an engine answers every request,
    at any instant, as the engine would; the load succeeds whatever the
    agent held before, and its policies, files and stored policies are the
    engine's. *)
Theorem bundle_equivalent e b e0 :
  engine_ok e → (dirTrustDomain (dirSpec e) = "" ∨ TrustDomainFromString (dirTrustDomain (dirSpec e)) = Some (dirTrustDomain (dirSpec e))) →
  export_bundle e = Ok b →
  ∃ e', LoadBundle b e0 = Ok e' ∧ engine_ok e' ∧ revision e' = b_revision b ∧
    policies e' = policies e ∧ files e' = files e ∧ default ∅ (stored e') = default ∅ (stored e) ∧
    ∀ now req, Evaluate now req e' = Evaluate now req e.
Proof.
  intros Hok Htd Hb. unfold export_bundle, engine_Snapshot in Hb. apply result_bind_Ok in Hb as (rev & Hrev & [= <-]).
  assert (bundleRevision (mkBundle rev (sources e) (staticRaw e) (bundle_directory (dirSpec e)) zero_time "") = Ok rev) as Hrev'
    by exact Hrev.
  assert (bundle_trust_domain (dirTrustDomain (dirSpec e)) = Ok (dirTrustDomain (dirSpec e))) as Hbt.
  { unfold bundle_trust_domain. case_decide as Hd; [|by rewrite Hd]. destruct Htd as [?|Htd]; [done|]. by rewrite Htd. }
  destruct (eo_file_ids e Hok) as (fps & Hf & Hdom). pose proof (eo_files e Hok) as Hfs.
  unfold LoadBundle. rewrite Hrev'. cbn [mbind result_bind b_revision b_policies b_entities b_directory].
  rewrite decide_False by (by intros ?). cbn [bd_trust_domain bundle_directory]. rewrite Hbt. cbn [mbind result_bind].
  unfold parseSources. rewrite (eo_policies e Hok), (eo_static e Hok). cbn [mbind result_bind].
  rewrite (eo_sources e Hok), files_of_union, stored_of_union, Hf by done. cbn [mbind result_bind].
  set (d := directory_of (dirTrustDomain (dirSpec e)) _). destruct (buildDirectory d) as [ents s] eqn:Ed.
  assert (ents = directory e) as Hents.
  { pose proof (directory_of_entities (dirSpec e) (dirTrustDomain (dirSpec e))) as E.
    fold d in E. rewrite Ed, (eo_directory e Hok) in E. exact E. }
  eexists. split; [done|]. split; [|split_and!; try done].
  - split; cbn; try done.
    + rewrite <-(eo_sources e Hok). apply (eo_policies e Hok).
    + by exists fps.
    + apply (eo_static e Hok).
  - intros now req. unfold Evaluate, EvaluateRevision. destruct (prepare req) as [[creq ov]|err]; [|done].
    cbn [mbind result_bind]. unfold eval_entities. cbn [rebuildLocked policies entities snap static directory].
    rewrite Hents, <-(eo_entities e Hok).
    assert (withSPIFFEParents (entities e ∪ ov) s now [cr_principal creq; cr_resource creq] =
            withSPIFFEParents (entities e ∪ ov) (snap e) now [cr_principal creq; cr_resource creq]) as ->;
      [|by destruct (Authorize _ _ _)].
    apply withSPIFFEParents_equiv. intros id. pose proof (directory_of_parents (dirSpec e) now id) as E.
    fold d in E. by rewrite Ed, (eo_directory e Hok) in E.
Qed.

End roundtrip.

(** *** Witnesses *)

#[local] Existing Instance Toy.cedar.
#[local] Existing Instance Toy.spiffe.

Definition media_engine : Engine := SetDirectory media broken_engine.

Lemma broken_engine_ok : engine_ok broken_engine.
Proof.
  assert (is_ok (SetStoredPolicies {[ "lock" := "broken" ]} file_engine) = true) as [e E]%is_ok_Ok by (vm_compute; reflexivity).
  unfold broken_engine. rewrite E. exact (SetStoredPolicies_ok _ _ _ file_engine_ok E).
Qed.

Lemma bundle_equivalent_witness :
  ∃ b e', export_bundle media_engine = Ok b ∧ LoadBundle b new_engine = Ok e' ∧
          Evaluate 10 read_request e' = Evaluate 10 read_request media_engine.
Proof.
  assert (is_ok (export_bundle media_engine) = true) as [b Hb]%is_ok_Ok by (vm_compute; reflexivity).
  assert (TrustDomainFromString (dirTrustDomain (dirSpec media_engine)) = Some (dirTrustDomain (dirSpec media_engine))) as Htd
    by (vm_compute; reflexivity).
  exists b. destruct (bundle_equivalent media_engine b new_engine (SetDirectory_ok media _ broken_engine_ok)
    (or_intror Htd) Hb) as (e' & Hl & _ & _ & _ & _ & _ & He).
  exists e'. split; [exact Hb|]. split; [exact Hl|]. apply He.
Defined.

Lemma engine_consistent_witness : engine_ok media_engine.
Proof.
  assert (is_ok (LoadSources base_sources "" new_engine) = true) as [e1 E1]%is_ok_Ok by (vm_compute; reflexivity).
  assert (is_ok (SetStoredPolicies {[ "lock" := "broken" ]} file_engine) = true) as [e2 E2]%is_ok_Ok by (vm_compute; reflexivity).
  apply engine_consistent. apply (rtc_l _ _ file_engine).
  - unfold file_engine. apply (load_sources _ base_sources ""). rewrite E1. reflexivity.
  - apply (rtc_l _ _ broken_engine); [|apply rtc_once, load_directory].
    unfold broken_engine. apply (load_stored _ {[ "lock" := "broken" ]}). rewrite E2. reflexivity.
Defined.
