(* ===== verification/Wire.v ===== *)
(** * Wire

    The JSON of evaluation requests and responses, by the field tags of
    internal/server/policy/engine.go. A node agent writes it into the
    decisions it ships, and the control plane into the audit chain. *)
From S2P Require Import Prelude Json JsonParse JsonRaw Decode GoValue GoTime Cedar Request Engine.

Definition anymap_json (m : anymap) : option json := json_of_any (AMap m).

(** A [map[string]any] under [omitempty]. *)
Definition map_field (name : string) (m : anymap) : option (list (string * json)) :=
  if decide (m = []) then Some [] else j ← anymap_json m; Some [(name, j)].

Definition entity_json (e : Entity) : option json :=
  attrs ← map_field "properties" (entAttrs e);
  Some (JObj ([("type", JStr (entType e)); ("id", JStr (entID e))] ++ attrs)).

Definition request_json (r : EvalRequest) : option json :=
  sub ← entity_json (reqSubject r);
  res ← entity_json (reqResource r);
  ctx ← map_field "context" (reqContext r);
  Some (JObj ([("subject", sub); ("action", JObj [("name", JStr (reqAction r))]); ("resource", res)] ++ ctx)).

Definition strings_json (l : list string) : json := JArr (JStr <$> l).

Definition policy_error_json (e : PolicyError) : json :=
  JObj (("policy", JStr (pe_policy e)) ::
        omit_empty (bool_decide (pe_message e = "")) ("message", JStr (pe_message e))).

Definition context_json (c : DecisionContext) : json :=
  JObj (omit_empty (bool_decide (dc_reasons c = [])) ("reasons", strings_json (dc_reasons c)) ++
        omit_empty (bool_decide (dc_errors c = [])) ("errors", JArr (policy_error_json <$> dc_errors c))).

Definition response_json (r : EvalResponse) : json :=
  JObj ([("decision", JBool (resp_decision r))] ++
        match resp_context r with Some c => [("context", context_json c)] | None => [] end ++
        omit_empty (bool_decide (resp_reasons r = [])) ("reasons", strings_json (resp_reasons r))).

(** ** Decoding *)

(** [time.Time.UnmarshalJSON], which reads the bytes between the quotes as
    they are. *)
Definition dec_time : decoder Z := λ raw cur,
  if decide (raw = "null") then Some cur
  else match raw with
       | String a s => if decide (a = quote) then parse_time (string_take (String.length s - 1) s) else None
       | "" => None
       end.

(** A [map[string]any]: null clears it, and new keys join the ones there
    are. *)
Definition dec_anymap : decoder anymap := λ raw cur,
  match json_parse raw with
  | Some JNull => Some []
  | Some (JObj l) => foldl (λ acc kv, m ← acc; y ← any_of_json kv.2; Some (map_put kv.1 y m)) (Some cur) l
  | _ => None
  end.

Definition zero_entity : Entity := mkEntity "" "" [].

Definition dec_entity : decoder Entity := dec_struct
  [("type", dec_part entType (λ x e, mkEntity x (entID e) (entAttrs e)) dec_string);
   ("id", dec_part entID (λ x e, mkEntity (entType e) x (entAttrs e)) dec_string);
   ("properties", dec_part entAttrs (λ x e, mkEntity (entType e) (entID e) x) dec_anymap)].

(** An action is its name. *)
Definition dec_action : decoder string := dec_struct [("name", dec_string)].

Definition zero_request : EvalRequest := mkEvalRequest zero_entity "" zero_entity [].

Definition dec_request : decoder EvalRequest := dec_struct
  [("subject", dec_part reqSubject (λ x r, mkEvalRequest x (reqAction r) (reqResource r) (reqContext r)) dec_entity);
   ("action", dec_part reqAction (λ x r, mkEvalRequest (reqSubject r) x (reqResource r) (reqContext r)) dec_action);
   ("resource", dec_part reqResource (λ x r, mkEvalRequest (reqSubject r) (reqAction r) x (reqContext r)) dec_entity);
   ("context", dec_part reqContext (λ x r, mkEvalRequest (reqSubject r) (reqAction r) (reqResource r) x) dec_anymap)].

Definition dec_policy_error : decoder PolicyError := dec_struct
  [("policy", dec_part pe_policy (λ x e, mkPolicyError x (pe_message e)) dec_string);
   ("message", dec_part pe_message (λ x e, mkPolicyError (pe_policy e) x) dec_string)].

Definition dec_context : decoder DecisionContext := dec_struct
  [("reasons", dec_part dc_reasons (λ x c, mkDecisionContext x (dc_errors c)) (dec_slice dec_string ""));
   ("errors", dec_part dc_errors (λ x c, mkDecisionContext (dc_reasons c) x) (dec_slice dec_policy_error (mkPolicyError "" "")))].

Definition zero_response : EvalResponse := mkEvalResponse false None [].

Definition response_fields : list (string * decoder EvalResponse) :=
  [("decision", dec_part resp_decision (λ x r, mkEvalResponse x (resp_context r) (resp_reasons r)) dec_bool);
   ("context", dec_part resp_context (λ x r, mkEvalResponse (resp_decision r) x (resp_reasons r))
                 (dec_ptr dec_context (mkDecisionContext [] [])));
   ("reasons", dec_part resp_reasons (λ x r, mkEvalResponse (resp_decision r) (resp_context r) x) (dec_slice dec_string ""))].

Definition dec_response : decoder EvalResponse := dec_struct response_fields.

(** *** The body of a request *)

Definition closed_value (v : json) : bool :=
  match v with JObj _ | JArr _ | JStr _ => true | _ => false end.

(** What [json.NewDecoder(http.MaxBytesReader(w, r.Body, limit)).Decode]
    reads of a body: the text of its first value, whatever comes after it,
    or the status the handlers answer. [broken] says whether a body over
    the limit has a syntax error before it, which the scanner then meets
    first. *)
Definition body_value (limit : Z) (broken : bool) (s : string) : result Z string :=
  let fits := bool_decide (Z.of_nat (String.length s) <= limit)%Z in
  let t := skip_space (if fits then s else string_take (Z.to_nat limit) s) in
  let failed := Err (if fits || broken then 400 else 413)%Z in
  match parse_value (S (2 * String.length t)) 0 t with
  | Some (v, rest) =>
      if fits || closed_value v || bool_decide (rest ≠ "") then Ok (string_take (String.length t - String.length rest) t)
      else failed
  | None => failed
  end.

(** ** What is written is well formed *)

Lemma json_of_any_wf v : ∀ j, json_of_any v = Some j → json_wf j.
Proof.
  revert v. match goal with |- ∀ v, @?P v => apply (any_nested_ind P) end; cbv beta.
  - intros [| | | | |l| |]; try done; intros j; cbn [json_of_any].
    + by intros [= <-].
    + by intros [= <-].
    + intros (s & Hs & ->)%fmap_Some. by eapply format_float_num.
    + intros [= <-]. apply num_ok_pretty.
    + by intros [= <-].
    + intros [= <-]. simpl. by induction l.
  - intros l IH j. cbn [json_of_any]. intros (js & Hgo & ->)%fmap_Some. cbn [json_wf].
    revert js Hgo. induction IH as [|x l Hx _ IHl]; intros js; [by intros [= <-]|].
    destruct (json_of_any x) as [y|] eqn:Ey; [|done]. cbn [mbind option_bind].
    intros (ys & Hys & ->)%fmap_Some. simpl. eauto.
  - intros l IH j. cbn [json_of_any]. intros (js & Hgo & ->)%fmap_Some. cbn [json_wf].
    revert js Hgo. induction IH as [|[k x] l Hx _ IHl]; intros js; [by intros [= <-]|].
    simpl in Hx. destruct (json_of_any x) as [y|] eqn:Ey; [|done]. cbn [mbind option_bind].
    intros (ys & Hys & ->)%fmap_Some. simpl. eauto.
Qed.

Lemma strings_json_wf l : json_wf (strings_json l).
Proof. apply wf_arr. by induction l; constructor. Qed.

Lemma map_field_wf name m l : map_field name m = Some l → Forall (λ kv, json_wf kv.2) l.
Proof.
  unfold map_field, anymap_json. case_decide; [by intros [= <-]|].
  destruct (json_of_any (AMap m)) as [j|] eqn:E; [|done]. intros [= <-]. constructor; [|done]. by eapply json_of_any_wf.
Qed.

Lemma entity_json_wf e j : entity_json e = Some j → json_wf j.
Proof.
  unfold entity_json. destruct (map_field _ _) as [l|] eqn:E; [|done]. intros [= <-].
  apply wf_obj. repeat constructor. by eapply map_field_wf.
Qed.

Lemma request_json_wf r j : request_json r = Some j → json_wf j.
Proof.
  unfold request_json. destruct (entity_json (reqSubject r)) eqn:E1; [|done].
  destruct (entity_json (reqResource r)) eqn:E2; [|done]. cbn [mbind option_bind].
  destruct (map_field _ _) eqn:E3; [|done]. intros [= <-].
  apply wf_obj. repeat (constructor; [first [by eapply entity_json_wf|by repeat constructor]|]). by eapply map_field_wf.
Qed.

Lemma response_json_wf r : json_wf (response_json r).
Proof.
  assert (∀ b (n : string) l, Forall (λ kv : string * json, json_wf kv.2) (omit_empty b (n, strings_json l))) as Hs.
  { intros [] n l; [constructor|]. constructor; [apply strings_json_wf|done]. }
  apply wf_obj. apply Forall_app. split; [by repeat constructor|]. apply Forall_app. split; [|apply Hs].
  destruct (resp_context r) as [c|]; [|done]. constructor; [|done]. apply wf_obj. apply Forall_app. split; [apply Hs|].
  unfold omit_empty. destruct (bool_decide _); [constructor|]. constructor; [|done]. apply wf_arr, Forall_fmap.
  induction (dc_errors c) as [|e l IH]; constructor; [|done]. apply wf_obj. constructor; [done|].
  destruct (bool_decide _); by repeat constructor.
Qed.

(** ** How deep it is nested *)

Lemma strings_json_depth l : (json_depth (strings_json l) <= 1)%N.
Proof. apply (json_depth_arr _ 0). apply Forall_fmap. by induction l; constructor. Qed.

Lemma response_json_depth r : (json_depth (response_json r) <= 4)%N.
Proof.
  assert (∀ b (n : string) l, Forall (λ kv : string * json, (json_depth kv.2 <= 3)%N) (omit_empty b (n, strings_json l))) as Hs.
  { intros [] n l; [constructor|]. constructor; [|done]. pose proof (strings_json_depth l). simpl in *. lia. }
  apply (json_depth_obj _ 3). apply Forall_app. split; [by repeat constructor|]. apply Forall_app. split; [|apply Hs].
  destruct (resp_context r) as [c|]; [|done]. constructor; [|done]. apply (json_depth_obj _ 2), Forall_app.
  unfold omit_empty. split; (destruct (bool_decide _); [constructor|constructor; [|done]]).
  - pose proof (strings_json_depth (dc_reasons c)). simpl in *. lia.
  - apply (json_depth_arr _ 1), Forall_fmap. induction (dc_errors c) as [|e l IH]; constructor; [|done].
    apply (json_depth_obj _ 0). constructor; [done|]. by destruct (bool_decide _); repeat constructor.
Qed.

(** ** Reading a body that was printed *)

Lemma string_take_all s : string_take (String.length s) s = s.
Proof. pose proof (string_take_app s "") as H. by rewrite string_app_nil_r in H. Qed.

Lemma string_take_proper n s : n < String.length s → ∃ a t, s = string_take n s +:+ String a t.
Proof.
  revert s. induction n as [|n IH]; intros [|a s] Hn; simpl in Hn; try lia; [by exists a, s|].
  destruct (IH s) as (b & t & E); [lia|]. exists b, t. rewrite E at 1. done.
Qed.

(** The reader of a body takes an object that was written whole, or fails
    on its size. *)
Lemma body_value_print limit broken l :
  json_wf (JObj l) → (json_depth (JObj l) <= maxNestingDepth)%N →
  body_value limit broken (json_print (JObj l)) =
  if decide (Z.of_nat (String.length (json_print (JObj l))) <= limit)%Z then Ok (json_print (JObj l))
  else Err (if broken then 400 else 413)%Z.
Proof.
  intros Hwf Hd. unfold body_value. destruct (print_head _ Hwf) as (a & u & Ha & Hsp & _).
  assert (skip_space (json_print (JObj l)) = json_print (JObj l)) as Hskip by (rewrite Ha; by apply skip_space_head).
  case_decide as Hle.
  - rewrite bool_decide_true, Hskip by done. cbn [orb].
    pose proof (json_print_parses _ Hwf (S (2 * String.length (json_print (JObj l)))) 0%N "" ltac:(lia) Hd I) as E.
    rewrite string_app_nil_r in E. rewrite E. cbn [String.length]. by rewrite Nat.sub_0_r, string_take_all.
  - rewrite bool_decide_false by done. cbn [orb].
    destruct (Z.to_nat limit) as [|n] eqn:En; [done|].
    destruct (string_take_proper (S n) (json_print (JObj l))) as (b & t & Ht); [lia|].
    assert (skip_space (string_take (S n) (json_print (JObj l))) = string_take (S n) (json_print (JObj l))) as ->
      by (rewrite Ha; simpl; by rewrite Hsp).
    by rewrite (parse_prefix_None l _ b t) by done.
Qed.
