(* ===== verification/Spool.v ===== *)
(** * Spool

    The file in which a node agent keeps the decisions it has answered and
    not yet shipped (internal/agent/localpdp/localpdp.go): one JSON line per
    decision, appended and synced before the decision is answered. A crash
    can leave any part of the line being written. *)
From S2P Require Import Prelude Json JsonParse JsonRaw Decode.

(** A decision encoded for shipping, with the revision it was made with. *)
Record queued := mkQueued {
  q_id : string;
  q_raw : string;
  q_revision : string;
}.

#[global] Instance queued_eq_dec : EqDecision queued.
Proof. solve_decision. Defined.

(** ** Lines *)

Definition newline : ascii := "010"%char.

(** [json.Marshal] of a raw message; a nil one is null, and text that is
    not JSON is an error. *)
Definition marshal_raw (raw : string) : option string :=
  if decide (raw = "") then Some "null"
  else match json_parse raw with Some _ => Some (compact outside raw) | None => None end.

(** The line of [spoolEntry]. *)
Definition spool_line (q : queued) : option string :=
  raw ← marshal_raw (q_raw q);
  Some (obj_text [("id", json_string (q_id q)); ("revision", json_string (q_revision q)); ("decision", raw)]
        +:+ String newline "").

Fixpoint spool_bytes (l : list queued) : option string :=
  match l with
  | [] => Some ""
  | q :: l' => line ← spool_line q; rest ← spool_bytes l'; Some (line +:+ rest)
  end.

Definition dec_spoolEntry : decoder queued :=
  dec_struct
    [("id", dec_part q_id (λ s q, mkQueued s (q_raw q) (q_revision q)) dec_string);
     ("revision", dec_part q_revision (λ s q, mkQueued (q_id q) (q_raw q) s) dec_string);
     ("decision", dec_part q_raw (λ s q, mkQueued (q_id q) s (q_revision q)) dec_raw)].

Definition blank (line : string) : bool := bool_decide (TrimSpace line = "").

(** The index of the last line that is not blank, if there is one. *)
Fixpoint last_line (i : nat) (lines : list string) : option nat :=
  match lines with
  | [] => None
  | line :: lines' =>
      match last_line (S i) lines' with
      | Some n => Some n
      | None => if blank line then None else Some i
      end
  end.

(** The loop of [RestoreSpool]: a line that cannot be read is skipped when
    it is the last one, and otherwise an error with its number. *)
Fixpoint restore_lines (last : option nat) (i : nat) (lines : list string) : result nat (list queued) :=
  match lines with
  | [] => Ok []
  | line :: lines' =>
      if blank line then restore_lines last (S i) lines'
      else
        match dec_spoolEntry line (mkQueued "" "" "") with
        | Some q => qs ← restore_lines last (S i) lines'; Ok (q :: qs)
        | None => if decide (last = Some i) then restore_lines last (S i) lines' else Err (S i)
        end
  end.

Definition restore_bytes (raw : string) : result nat (list queued) :=
  let lines := split_byte newline raw in
  restore_lines (last_line 0 lines) 0 lines.

(** ** What the agent writes *)

(** A decision as the agent encodes it, with room for the two levels that
    a batch puts around it. *)
Record queued_ok (q : queued) : Prop := {
  qo_id : to_valid_utf8 (q_id q) = q_id q;
  qo_revision : to_valid_utf8 (q_revision q) = q_revision q;
  qo_raw : ∃ v, q_raw q = json_print v ∧ json_wf v ∧ (json_depth v + 2 <= maxNestingDepth)%N;
}.

Definition entry_json (q : queued) (v : json) : json :=
  JObj [("id", JStr (q_id q)); ("revision", JStr (q_revision q)); ("decision", v)].

Lemma json_print_ne v : json_wf v → json_print v ≠ "".
Proof. intros H. destruct (print_head v H) as (a & t & -> & _). done. Qed.

Lemma marshal_raw_print v :
  json_wf v → (json_depth v <= maxNestingDepth)%N → marshal_raw (json_print v) = Some (json_print v).
Proof.
  intros Hwf Hd. unfold marshal_raw. rewrite decide_False by by apply json_print_ne.
  by rewrite parse_print, compact_print.
Qed.

(** The line of a decision is the JSON of its entry. *)
Lemma spool_line_json q :
  queued_ok q → ∃ v, q_raw q = json_print v ∧ json_wf (entry_json q v) ∧
    (json_depth (entry_json q v) <= maxNestingDepth)%N ∧
    spool_line q = Some (json_print (entry_json q v) +:+ String newline "").
Proof.
  intros [_ _ (v & Hv & Hwf & Hd)]. exists v. split_and!; [done|by simpl|simpl; lia|].
  unfold spool_line. rewrite Hv, marshal_raw_print by (done || lia). done.
Qed.

Lemma dec_spoolEntry_print q v :
  queued_ok q → q_raw q = json_print v → json_wf (entry_json q v) →
  (json_depth (entry_json q v) <= maxNestingDepth)%N →
  dec_spoolEntry (json_print (entry_json q v)) (mkQueued "" "" "") = Some q.
Proof.
  intros [Hid Hrev _] Hraw Hwf Hd. unfold dec_spoolEntry, entry_json in *. rewrite dec_struct_print by done.
  cbn [map foldl fst snd].
  erewrite (dec_field_part _ (to_valid_utf8 "id")); [|done|apply dec_string_print].
  erewrite (dec_field_part _ (to_valid_utf8 "revision")); [|done|apply dec_string_print].
  erewrite (dec_field_part _ (to_valid_utf8 "decision")); [|done|done].
  cbn [q_id q_raw q_revision]. rewrite Hid, Hrev, <-Hraw. by destruct q.
Qed.

Lemma print_not_blank q v : blank (json_print (entry_json q v)) = false.
Proof.
  apply bool_decide_eq_false. cbn [json_print entry_json]. change ("{" +:+ ?x) with (String "{" x).
  by rewrite TrimSpace_braces.
Qed.

Lemma print_no_newline v : json_wf v → no_byte newline (json_print v).
Proof. intros H. by eapply no_byte_forallb; [|by apply json_print_print]. Qed.

(** ** Reading it back *)

(** A line that holds [q]. *)
Definition reads (q : queued) (line : string) : Prop :=
  blank line = false ∧ dec_spoolEntry line (mkQueued "" "" "") = Some q.

Lemma spool_bytes_lines l b :
  Forall queued_ok l → spool_bytes l = Some b →
  ∃ texts, Forall2 reads l texts ∧ ∀ p, split_byte newline (b +:+ p) = texts ++ split_byte newline p.
Proof.
  intros Hl. revert b. induction Hl as [|q l Hq _ IH]; intros b Hb; [injection Hb as <-; by exists []|].
  destruct (spool_line_json q Hq) as (v & Hv & Hwf & Hd & Hline). cbn [spool_bytes] in Hb. rewrite Hline in Hb.
  pose proof (print_no_newline _ Hwf) as Hnl.
  assert (reads q (json_print (entry_json q v))) as Hr
    by (split; [apply print_not_blank|by apply dec_spoolEntry_print]).
  clear Hline. remember (json_print (entry_json q v)) as text eqn:Htext. clear Htext.
  destruct (spool_bytes l) as [b'|]; [|done]. injection Hb as <-.
  destruct (IH b' eq_refl) as (texts & Ht & Hs). exists (text :: texts). split; [by constructor|].
  intros p. rewrite !string_app_assoc, string_app_cons, split_byte_app. change ("" +:+ ?x) with x.
  by rewrite Hs, Hnl.
Qed.

Lemma restore_lines_app l texts last i rest :
  Forall2 reads l texts →
  restore_lines last i (texts ++ rest) = (qs ← restore_lines last (i + length texts) rest; Ok (l ++ qs)).
Proof.
  intros H. revert i. induction H as [|q t l texts [Hb Hd] _ IH]; intros i.
  - simpl. rewrite Nat.add_0_r. by destruct (restore_lines last i rest).
  - cbn [app restore_lines]. rewrite Hb, Hd, IH. simpl. rewrite Nat.add_succ_r.
    by destruct (restore_lines last (S (i + length texts)) rest).
Qed.

Lemma last_line_app i texts line : blank line = false → last_line i (texts ++ [line]) = Some (i + length texts).
Proof.
  intros Hb. revert i. induction texts as [|t texts IH]; intros i; simpl.
  - by rewrite Hb, Nat.add_0_r.
  - rewrite IH. f_equal. lia.
Qed.

Lemma proper_prefix_app p a t s b : p +:+ String a t = s +:+ String b "" → ∃ t', s = p +:+ t'.
Proof.
  revert s. induction p as [|c p IH]; intros s H; [by exists s|].
  destruct s as [|d s]; [by injection H as _ H; destruct p|].
  rewrite !string_app_cons in H. injection H as -> H. destruct (IH s H) as [t' ->]. by exists t'.
Qed.

Lemma spool_recovers_aux l b q p p' :
  Forall queued_ok l → queued_ok q → spool_bytes l = Some b → spool_line q = Some (p +:+ p') →
  restore_bytes (b +:+ p) = Ok (if decide (String.length p' ≤ 1) then l ++ [q] else l).
Proof.
  intros Hl Hq Hb Hp. destruct (spool_bytes_lines l b Hl Hb) as (texts & Ht & Hs).
  destruct (spool_line_json q Hq) as (v & Hv & Hwf & Hd & Hline). rewrite Hp in Hline. apply (inj Some) in Hline.
  set (text := json_print (entry_json q v)) in *.
  assert (reads q text) as [Hnb Hdec] by (split; [apply print_not_blank|by apply dec_spoolEntry_print]).
  assert (split_byte newline text = [text]) as Hnl by apply (print_no_newline _ Hwf).
  unfold restore_bytes. rewrite Hs. clear Hs Hb Hp. destruct p' as [|a p'].
  - rewrite string_app_nil_r in Hline. subst p. rewrite split_byte_app, Hnl.
    clearbody text. change (split_byte newline "") with [""]. rewrite (restore_lines_app l) by done.
    cbn [app restore_lines]. by rewrite Hnb, Hdec.
  - destruct (proper_prefix_app _ _ _ _ _ Hline) as [t' Ht'].
    assert (String a p' = t' +:+ String newline "") as Htail.
    { rewrite Ht', string_app_assoc in Hline. by apply string_app_inj_len in Hline as [_ Hline]. }
    assert (split_byte newline p = [p]) as ->.
    { pose proof (json_print_print _ Hwf) as Hpr. fold text in Hpr. rewrite Ht', string_forallb_app, andb_true_iff in Hpr.
      eapply (no_byte_forallb newline is_print); [done|apply Hpr]. }
    rewrite (restore_lines_app l) by done. cbn [restore_lines].
    assert (String.length (String a p') = S (String.length t')) as Hlen
      by (rewrite Htail, string_length_app; simpl; lia).
    destruct t' as [|c t'].
    + rewrite string_app_nil_r in Ht'. rewrite <-Ht', Hnb, Hdec, (decide_True (P := _ ≤ 1)) by by rewrite Hlen. done.
    + rewrite (decide_False (P := _ ≤ 1)) by (rewrite Hlen; simpl; lia). destruct (blank p) eqn:Hbl; [simpl; by rewrite app_nil_r|].
      unfold dec_spoolEntry. rewrite dec_struct_invalid by by eapply json_prefix_None.
      rewrite last_line_app, decide_True by done. simpl. by rewrite app_nil_r.
Qed.

(** C28. A spool that a crash cut off anywhere in the line it was writing is
    read back exactly: every decision whose line was complete before is
    restored, in order, and the last one is restored precisely when at most
    its newline is missing. No torn line is mistaken for a decision, and
    none makes the agent refuse to start. *)
Theorem spool_recovers l b q p p' :
  Forall queued_ok l → queued_ok q → spool_bytes l = Some b → spool_line q = Some (p +:+ p') →
  restore_bytes (b +:+ p) = Ok (if decide (String.length p' ≤ 1) then l ++ [q] else l).
Proof. apply spool_recovers_aux. Qed.

(** *** Witness *)

(** The second line lost its end. *)
Lemma spool_recovers_witness :
  ∃ b p, spool_bytes [mkQueued "d1" "{}" "r1"] = Some b ∧ restore_bytes (b +:+ p) = Ok [mkQueued "d1" "{}" "r1"].
Proof.
  exists (default "" (spool_bytes [mkQueued "d1" "{}" "r1"])), (string_take 20 (default "" (spool_line (mkQueued "d2" "{}" "r1")))).
  split; [vm_compute; reflexivity|].
  assert (∀ id, to_valid_utf8 id = id → queued_ok (mkQueued id "{}" "r1")) as Hok.
  { intros id Hid. split; [exact Hid|reflexivity|]. exists (JObj []). split; [reflexivity|]. split; [exact I|].
    vm_compute. discriminate. }
  refine (spool_recovers [mkQueued "d1" "{}" "r1"] _ (mkQueued "d2" "{}" "r1") _
    (string_drop 20 (default "" (spool_line (mkQueued "d2" "{}" "r1")))) _ _ _ _).
  - constructor; [apply Hok; reflexivity|constructor].
  - apply Hok. reflexivity.
  - vm_compute. reflexivity.
  - vm_compute. reflexivity.
Defined.
