(* ===== verification/LocalPDP.v ===== *)
(** * LocalPDP

    The node agent's local policy decision point
    (internal/agent/localpdp/localpdp.go): it loads the control plane's
    bundle, answers requests from it while it is fresh, keeps every answer
    until the control plane has recorded it, and drops an answer only when
    the control plane rejects it by itself, reporting the loss. *)
From S2P Require Import Prelude Crypto Json JsonParse JsonRaw Decode AuditKeyring Store Domains GoValue.
From S2P Require Import GoTime Base64 Cedar Directory Request Engine Bundle Wire Spool.

(** ** Configuration *)

Section config.
Context `{!Ecdsa}.

Record Config := mkConfig {
  SyncInterval : Z;
  MaxAge : Z;
  FlushInterval : Z;
  BufferSize : Z;
  cfgTrustDomain : string;
  BundleKey : option PublicKey;
  SpoolPath : string;
}.

(** The defaults [New] puts in. *)
Definition config_defaults (c : Config) : Config :=
  let sync := if decide (SyncInterval c <= 0)%Z then (10 * Second)%Z else SyncInterval c in
  mkConfig sync
    (if decide (MaxAge c <= 0)%Z then wrap64 (6 * sync) else MaxAge c)
    (if decide (FlushInterval c <= 0)%Z then (2 * Second)%Z else FlushInterval c)
    (if decide (BufferSize c <= 0)%Z then 10000%Z else BufferSize c)
    (cfgTrustDomain c) (BundleKey c) (SpoolPath c).
End config.

(** ** State *)

(** What waits to be shipped, and what is known of losses. *)
Record Queue := mkQueue {
  pending : list queued;
  reserved : Z;
  droppedIDs : list string;
  lossID : string;
  dropStreak : Z;
  dropTimes : list Z;
  droppedDigests : list string;
  batchCap : Z;
  removed : Z;
}.

Definition empty_queue : Queue := mkQueue [] 0 [] "" 0 [] [] 0 0.

Definition set_pending (l : list queued) (q : Queue) : Queue :=
  mkQueue l (reserved q) (droppedIDs q) (lossID q) (dropStreak q) (dropTimes q) (droppedDigests q) (batchCap q) (removed q).

Definition set_reserved (n : Z) (q : Queue) : Queue :=
  mkQueue (pending q) n (droppedIDs q) (lossID q) (dropStreak q) (dropTimes q) (droppedDigests q) (batchCap q) (removed q).

Definition set_batchCap (n : Z) (q : Queue) : Queue :=
  mkQueue (pending q) (reserved q) (droppedIDs q) (lossID q) (dropStreak q) (dropTimes q) (droppedDigests q) n (removed q).

Definition set_dropTimes (l : list Z) (q : Queue) : Queue :=
  mkQueue (pending q) (reserved q) (droppedIDs q) (lossID q) (dropStreak q) l (droppedDigests q) (batchCap q) (removed q).

(** Takes the first [n] decisions off the queue. *)
Definition remove_first (n : nat) (q : Queue) : Queue :=
  mkQueue (drop n (pending q)) (reserved q) (droppedIDs q) (lossID q) (dropStreak q) (dropTimes q) (droppedDigests q)
    (batchCap q) (wrap64 (removed q + Z.of_nat n)).

(** The files of the agent: the spool, and the issue time of the newest
    bundle next to it. [None] is a file that does not exist. *)
Record Disk := mkDisk {
  spool_file : option string;
  mark_file : option string;
}.

Inductive pdp_error :=
| FetchFailed
| UnsignedNotModified
| FetchStatus (code : Z)
| DecodeBundle
| NoTrustDomain
| WrongTrustDomain (td : string)
| BadBundle (e : load_error)
| BadSignature
| OlderBundle
| BundleTooOld
| BundleInFuture
| NotSynced
| BufferFull
| BadRequest (e : request_error)
| EncodeFailed
| SpoolNotOpen
| SpoolFailed
| SpoolUnreadable (line : nat)
| MarkUnreadable
| ShipFailed
| ShipStatus (code : Z)
| TooManyDrops
| IndexOutOfRange.

Section pdp.
Context `{!Spiffe, !Cedar, !Ecdsa}.

Record PDP := mkPDP {
  cfg : Config;
  engine : Engine;
  pdp_revision : string;
  issuedAt : Z;
  synced : Z;
  queue : Queue;
  warnedUnverified : bool;
  spool : bool;
}.

Definition set_queue (q : Queue) (p : PDP) : PDP :=
  mkPDP (cfg p) (engine p) (pdp_revision p) (issuedAt p) (synced p) q (warnedUnverified p) (spool p).

Definition set_spool (open : bool) (p : PDP) : PDP :=
  mkPDP (cfg p) (engine p) (pdp_revision p) (issuedAt p) (synced p) (queue p) (warnedUnverified p) open.

Definition set_synced (t : Z) (p : PDP) : PDP :=
  mkPDP (cfg p) (engine p) (pdp_revision p) (issuedAt p) t (queue p) (warnedUnverified p) (spool p).

Definition set_issuedAt (t : Z) (p : PDP) : PDP :=
  mkPDP (cfg p) (engine p) (pdp_revision p) t (synced p) (queue p) (warnedUnverified p) (spool p).

Definition New (c : Config) : PDP :=
  mkPDP (config_defaults c) new_engine "" zero_time zero_time empty_queue false false.

(** ** Syncing *)

(** What the control plane answered: a status, with the decoded bundle
    where the body is one. *)
Inductive fetched :=
| NoResponse
| Response (code : Z) (body : option Bundle).

Definition maxClockSkew : Z := Minute.

(** The checks on a bundle that has to be signed. *)
Definition check_signed (now : Z) (key : PublicKey) (b : Bundle) (p : PDP) : result pdp_error () :=
  match CheckRevision b with
  | Err e => Err (BadBundle e)
  | Ok _ =>
      if VerifyBundle b key then
        if decide (b_issued_at b < issuedAt p - maxClockSkew)%Z then Err OlderBundle
        else if decide (MaxAge (cfg p) < TimeSub now (b_issued_at b))%Z then Err BundleTooOld
        else if decide (maxClockSkew < TimeSub (b_issued_at b) now)%Z then Err BundleInFuture
        else Ok tt
      else Err BadSignature
  end.

Definition check_bundle (now : Z) (b : Bundle) (p : PDP) : result pdp_error () :=
  if decide (cfgTrustDomain (cfg p) = "") then Err NoTrustDomain
  else if decide (bd_trust_domain (b_directory b) ≠ cfgTrustDomain (cfg p))
       then Err (WrongTrustDomain (bd_trust_domain (b_directory b)))
  else match BundleKey (cfg p) with
       | Some key => check_signed now key b p
       | None => Ok tt
       end.

(** [saveIssuedAt]: the write happens when there is a spool, and its
    failure is only logged. *)
Definition saveIssuedAt (written : bool) (t : Z) (p : PDP) (d : Disk) : Disk :=
  if decide (SpoolPath (cfg p) ≠ "" ∧ written = true) then mkDisk (spool_file d) (Some (format_time t)) else d.

(** Whether an agent without a key has seen a signed bundle; it says so
    once. *)
Definition warn_unverified (b : Bundle) (p : PDP) : PDP :=
  if decide (BundleKey (cfg p) = None ∧ b_signature b ≠ "") then
    mkPDP (cfg p) (engine p) (pdp_revision p) (issuedAt p) (synced p) (queue p) true (spool p)
  else p.

(** The end of [Sync], at time [now']: the bundle [b] was loaded as [e]. *)
Definition loaded (now' : Z) (b : Bundle) (e : Engine) (written : bool) (p : PDP) (d : Disk) : PDP * Disk :=
  let mark := if decide (now' < b_issued_at b)%Z then now' else b_issued_at b in
  let advanced := bool_decide (issuedAt p < mark)%Z in
  (mkPDP (cfg p) e (b_revision b) (if advanced then mark else issuedAt p) now' (queue p) (warnedUnverified p) (spool p),
   if advanced then saveIssuedAt written mark p d else d).

(** [Sync]: the bundle is checked at [now] and loaded at [now']. *)
Definition Sync (now now' : Z) (resp : fetched) (written : bool) (p : PDP) (d : Disk) : result pdp_error () * (PDP * Disk) :=
  match resp with
  | NoResponse => (Err FetchFailed, (p, d))
  | Response code body =>
      if decide (code = 304)%Z then
        match BundleKey (cfg p) with
        | Some _ => (Err UnsignedNotModified, (p, d))
        | None => (Ok tt, (set_synced now p, d))
        end
      else if decide (code ≠ 200)%Z then (Err (FetchStatus code), (p, d))
      else
        match body with
        | None => (Err DecodeBundle, (p, d))
        | Some b =>
            match check_bundle now b p with
            | Err e => (Err e, (p, d))
            | Ok _ =>
                let p := warn_unverified b p in
                match LoadBundle b (engine p) with
                | Err e => (Err (BadBundle e), (p, d))
                | Ok e => (Ok tt, loaded now' b e written p d)
                end
            end
        end
  end.

(** ** The spool *)

(** What becomes of a write to the spool: it may stop after some bytes, and
    the sync after it may fail. *)
Inductive write_outcome := Written | Partial (bytes : nat) | NotSyncedToDisk.

(** What becomes of [rewriteSpoolLocked]: it may fail before the rename, or
    after it when the new file is opened. *)
Inductive rewrite_outcome := Rewritten | NotRenamed | NotReopened.

Record spool_io := mkSpoolIO {
  io_stat : bool;
  io_write : write_outcome;
  io_truncate : bool;
  io_rewrite : rewrite_outcome;
}.

Definition rewriteSpoolLocked (o : rewrite_outcome) (p : PDP) (d : Disk) : result pdp_error () * (PDP * Disk) :=
  match spool_bytes (pending (queue p)) with
  | None => (Err EncodeFailed, (p, d))
  | Some b =>
      match o with
      | NotRenamed => (Err SpoolFailed, (p, d))
      | NotReopened => (Err SpoolFailed, (set_spool false p, mkDisk (Some b) (mark_file d)))
      | Rewritten => (Ok tt, (set_spool true p, mkDisk (Some b) (mark_file d)))
      end
  end.

Definition append_spool (s : string) (d : Disk) : Disk :=
  mkDisk (Some (default "" (spool_file d) +:+ s)) (mark_file d).

(** [spoolDecision]: a write that fails is taken back, or the file is
    rebuilt from what is pending. *)
Definition spoolDecision (io : spool_io) (q : queued) (p : PDP) (d : Disk) : result pdp_error () * (PDP * Disk) :=
  match spool_line q with
  | None => (Err EncodeFailed, (p, d))
  | Some line =>
      if io_stat io then
        let failed n :=
          if io_truncate io then (Err SpoolFailed, (p, d))
          else (Err SpoolFailed, (rewriteSpoolLocked (io_rewrite io) p (append_spool (string_take n line) d)).2) in
        match io_write io with
        | Written => (Ok tt, (p, append_spool line d))
        | Partial n => failed n
        | NotSyncedToDisk => failed (String.length line)
        end
      else (Err SpoolFailed, (p, d))
  end.

(** [loadIssuedAt]: a time that cannot be parsed is ignored, a file that
    cannot be read ([readable] is false) is an error. *)
Definition loadIssuedAt (readable : bool) (d : Disk) : result pdp_error Z :=
  match mark_file d with
  | None => Ok zero_time
  | Some text => if readable then Ok (default zero_time (parse_time (TrimSpace text))) else Err MarkUnreadable
  end.

(** [RestoreSpool], run on a new PDP before it serves. *)
Definition RestoreSpool (readable : bool) (o : rewrite_outcome) (p : PDP) (d : Disk) : result pdp_error () * (PDP * Disk) :=
  if decide (SpoolPath (cfg p) = "") then (Ok tt, (p, d))
  else if decide (readable = false ∧ spool_file d ≠ None) then (Err SpoolFailed, (p, d))
  else
    match restore_bytes (default "" (spool_file d)) with
    | Err n => (Err (SpoolUnreadable n), (p, d))
    | Ok restored =>
        match loadIssuedAt readable d with
        | Err e => (Err e, (p, d))
        | Ok t =>
            let p := if IsZero t then p else set_issuedAt t p in
            rewriteSpoolLocked o (set_queue (set_pending (restored ++ pending (queue p)) (queue p)) p) d
        end
    end.

(** ** Deciding *)

Record decision := mkDecision {
  dID : string;
  dDecidedAt : Z;
  dRequestID : string;
  dRequestIDSHA256 : string;
  dRequest : EvalRequest;
  dResponse : EvalResponse;
}.

Definition decision_json (d : decision) : option json :=
  at_ ← json_of_time (dDecidedAt d);
  req ← request_json (dRequest d);
  Some (JObj ([("id", JStr (dID d)); ("decided_at", at_)] ++
              omit_empty (bool_decide (dRequestID d = "")) ("request_id", JStr (dRequestID d)) ++
              omit_empty (bool_decide (dRequestIDSHA256 d = "")) ("request_id_sha256", JStr (dRequestIDSHA256 d)) ++
              [("request", req); ("response", response_json (dResponse d))])).

(** Checks freshness and takes a slot of the buffer. *)
Definition reserve (now : Z) (p : PDP) : result pdp_error PDP :=
  let waiting := (Z.of_nat (length (pending (queue p))) + reserved (queue p))%Z in
  if decide (IsZero (synced p) = true ∨ (MaxAge (cfg p) < TimeSub now (synced p))%Z) then Err NotSynced
  else if decide (BufferSize (cfg p) <= waiting)%Z then Err BufferFull
  else Ok (set_queue (set_reserved (reserved (queue p) + 1) (queue p)) p).

(** Gives the slot back. *)
Definition release (p : PDP) : PDP := set_queue (set_reserved (reserved (queue p) - 1) (queue p)) p.

(** [newID] of 16 random bytes. *)
Definition newID (rnd : string) : string := hex_encode rnd.

(** The decision at [now], encoded at [now'] under a new id. *)
Definition make_decision (now now' : Z) (rnd : string) (req : EvalRequest) (requestID : string) (p : PDP)
    : result pdp_error (EvalResponse * queued) :=
  match EvaluateRevision now req (engine p) with
  | Err e => Err (BadRequest e)
  | Ok (resp, rev) =>
      let '(plainID, digestID) := RequestIDForAudit requestID in
      match decision_json (mkDecision (newID rnd) now' plainID digestID req resp) with
      | None => Err EncodeFailed
      | Some j => Ok (resp, mkQueued (newID rnd) (json_print j) rev)
      end
  end.

(** Puts the decision on disk, when there is a spool, and on the queue. *)
Definition record_decision (io : spool_io) (q : queued) (p : PDP) (d : Disk) : result pdp_error () * (PDP * Disk) :=
  let enqueue (pd : PDP * Disk) :=
    let qu := queue pd.1 in
    (Ok tt, (set_queue (set_reserved (reserved qu - 1) (set_pending (pending qu ++ [q]) qu)) pd.1, pd.2)) in
  if decide (SpoolPath (cfg p) ≠ "") then
    if spool p then
      match spoolDecision io q p d with
      | (Ok _, pd) => enqueue pd
      | (Err e, (p', d')) => (Err e, (release p', d'))
      end
    else (Err SpoolNotOpen, (release p, d))
  else enqueue (p, d).

(** [evaluate] when nothing runs beside it. *)
Definition evaluate (now now' : Z) (rnd : string) (io : spool_io) (req : EvalRequest) (requestID : string) (p : PDP) (d : Disk)
    : result pdp_error EvalResponse * (PDP * Disk) :=
  match reserve now p with
  | Err e => (Err e, (p, d))
  | Ok p =>
      match make_decision now now' rnd req requestID p with
      | Err e => (Err e, (release p, d))
      | Ok (resp, q) =>
          match record_decision io q p d with
          | (Err e, pd) => (Err e, pd)
          | (Ok _, pd) => (Ok resp, pd)
          end
      end
  end.

(** ** Shipping *)

Definition maxDropStreak : Z := 3.
Definition maxDropsPerHour : nat := 10.
Definition maxBatchBytes : Z := 786432.
Definition maxBatchDecisions : Z := 1000.

(** How many decisions go into a batch: [n] are in it with [size] bytes. *)
Fixpoint batch_len (limit : Z) (rev : string) (n size : Z) (l : list queued) : nat :=
  match l with
  | [] => 0
  | q :: l' =>
      let size' := (size + Z.of_nat (String.length (q_raw q)) + 1)%Z in
      if decide ((n < limit)%Z ∧ q_revision q = rev ∧ ¬ (0 < n ∧ maxBatchBytes < size')%Z)
      then S (batch_len limit rev (n + 1) size' l') else 0
  end.

(** What one round of [flush] sends: a batch of one revision, or a loss
    report by itself. *)
Record shipment := mkShipment {
  sh_revision : string;
  sh_batch : list queued;
  sh_droppedIDs : list string;
  sh_droppedDigests : list string;
  sh_lossID : string;
}.

Definition head_revision (l : list queued) : string :=
  match l with [] => "" | q :: _ => q_revision q end.

Definition plan (q : Queue) : option shipment :=
  if decide (pending q = [] ∧ droppedIDs q = []) then None
  else
    let limit := if decide (0 < batchCap q)%Z then batchCap q else maxBatchDecisions in
    let rev := head_revision (pending q) in
    let n := if decide (droppedIDs q = []) then batch_len limit rev 0 0 (pending q) else 0 in
    Some (mkShipment rev (take n (pending q)) (droppedIDs q) (droppedDigests q) (lossID q)).

(** The body of the request, keys in order; an error when a decision cannot
    be embedded. *)
Definition body (sh : shipment) : option string :=
  raws ← mapM (λ q, marshal_raw (q_raw q)) (sh_batch sh);
  Some (obj_text ([("bundle_revision", json_string (sh_revision sh)); ("decisions", "[" +:+ join_byte "," raws +:+ "]")] ++
    (if decide (sh_droppedIDs sh = []) then []
     else [("dropped", json_print (JInt (Z.of_nat (length (sh_droppedIDs sh)))));
           ("dropped_digests", json_print (strings_json (sh_droppedDigests sh)));
           ("dropped_ids", json_print (strings_json (sh_droppedIDs sh)));
           ("loss_id", json_string (sh_lossID sh))]))).

(** What came back: nothing, or a status with the number of decisions the
    control plane says it recorded, and whether that could be read. *)
Inductive answer :=
| NoAnswer
| Answer (code : Z) (readable : bool) (recorded : Z).

(** Drops of the last hour. *)
Definition recentDrops (now : Z) (q : Queue) : Queue * nat :=
  let keep := filter (λ t, now - Hour < t)%Z (dropTimes q) in
  (set_dropTimes keep q, length keep).

(** Drops the first decision, to be reported as lost. *)
Definition drop_first (now : Z) (rnd : string) (x : queued) (rest : list queued) (q : Queue) : Queue :=
  mkQueue rest (reserved q) (droppedIDs q ++ [q_id x])
    (if decide (lossID q = "") then newID rnd else lossID q) (dropStreak q + 1) (dropTimes q ++ [now])
    (droppedDigests q ++ [sha256_hex (q_raw x)]) 0 (wrap64 (removed q + 1)).

(** The control plane took the shipment. *)
Definition shipped (sh : shipment) (q : Queue) : Queue :=
  let n := length (sh_batch sh) in
  let q := remove_first n q in
  let ids := drop (length (sh_droppedIDs sh)) (droppedIDs q) in
  mkQueue (pending q) (reserved q) ids
    (if decide (sh_droppedIDs sh ≠ [] ∧ ids = []) then "" else lossID q)
    (if decide (0 < n) then 0%Z else dropStreak q) (dropTimes q)
    (drop (length (sh_droppedDigests sh)) (droppedDigests q)) 0 (removed q).

Inductive outcome :=
| Again (q : Queue)
| Stop (e : option pdp_error) (q : Queue).

(** The control plane refused the batch as sent, [left] of whose decisions
    it has not recorded. *)
Definition rejected (now : Z) (rnd : string) (left : Z) (q : Queue) : outcome :=
  if decide (1 < left)%Z then Again (set_batchCap ((left + 1) / 2) q)
  else if decide (maxDropStreak <= dropStreak q)%Z then Stop (Some TooManyDrops) q
  else
    let '(q, recent) := recentDrops now q in
    if decide (maxDropsPerHour ≤ recent) then Stop (Some TooManyDrops) q
    else match pending q with
         | x :: rest => Again (drop_first now rnd x rest q)
         | [] => Stop (Some IndexOutOfRange) q
         end.

(** The rest of a round, once the answer to [sh] is there. *)
Definition settle (now : Z) (rnd : string) (sh : shipment) (a : answer) (q : Queue) : outcome :=
  match a with
  | NoAnswer => Stop (Some ShipFailed) q
  | Answer code readable recorded =>
      if decide (code = 200)%Z then Again (shipped sh q)
      else
        let n := Z.of_nat (length (sh_batch sh)) in
        let partial := bool_decide (0 < recorded < n)%Z in
        let q := if readable && partial then remove_first (Z.to_nat recorded) q else q in
        if decide ((code = 400 ∨ code = 413) ∧ 0 < n)%Z then
          rejected now rnd (if partial then n - recorded else n) q
        else Stop (Some (ShipStatus code)) q
  end.

(** One round, given the answer. *)
Definition round (now : Z) (rnd : string) (a : answer) (q : Queue) : outcome :=
  match plan q with
  | None => Stop None q
  | Some sh =>
      match body sh with
      | None => Stop (Some EncodeFailed) q
      | Some _ => settle now rnd sh a q
      end
  end.

(** [flush] when nothing runs beside it, given what each round meets: the
    time, random bytes and the answer. [None] is a loop that has not ended
    when the script has. *)
Fixpoint flush (script : list (Z * string * answer)) (q : Queue) : option (option pdp_error * Queue) :=
  match script with
  | [] => None
  | (now, rnd, a) :: script' =>
      match round now rnd a q with
      | Again q' => flush script' q'
      | Stop e q' => Some (e, q')
      end
  end.

(** [Flush]: the spool is rewritten when something was taken off the queue. *)
Definition Flush (script : list (Z * string * answer)) (o : rewrite_outcome) (p : PDP) (d : Disk)
    : option (option pdp_error * (PDP * Disk)) :=
  '(err, q) ← flush script (queue p);
  let p' := set_queue q p in
  Some
    (if decide (SpoolPath (cfg p) ≠ "" ∧ removed q ≠ removed (queue p)) then
       match rewriteSpoolLocked o p' d with
       | (Err e, pd) => (match err with Some e' => Some e' | None => Some e end, pd)
       | (Ok _, pd) => (err, pd)
       end
     else (err, (p', d))).

(** *** The listener *)

Definition MaxRequestBytes : Z := 65536.

(** What a caller gets: a status, the response where there is one, and the
    request id it sent. *)
Record served := mkServed {
  sv_code : Z;
  sv_response : option EvalResponse;
  sv_request_id : string;
}.

(** POST /access/v1/evaluation with the values of the request id header. *)
Definition serve_evaluation (now now' : Z) (rnd : string) (io : spool_io) (broken : bool) (ids : list string) (body : string)
    (p : PDP) (d : Disk) : served * (PDP * Disk) :=
  let requestID := RequestIDFrom ids in
  match body_value MaxRequestBytes broken body with
  | Err c => (mkServed c None requestID, (p, d))
  | Ok raw =>
      match dec_request raw zero_request with
      | None => (mkServed 400 None requestID, (p, d))
      | Some req =>
          match Validate req with
          | Some _ => (mkServed 400 None requestID, (p, d))
          | None =>
              match evaluate now now' rnd io req requestID p d with
              | (Ok resp, pd) => (mkServed 200 (Some (ForCaller resp)) requestID, pd)
              | (Err e, pd) =>
                  (mkServed (match e with NotSynced | BufferFull => 503 | _ => 500 end)%Z None requestID, pd)
              end
          end
      end
  end.

Definition Status (p : PDP) : string * Z * nat := (pdp_revision p, synced p, length (pending (queue p))).

End pdp.

(** ** What is queued can be written *)

(** The request leaves room for the objects around it: the decision, and
    the batch of decisions that holds it. *)
Definition shallow (req : EvalRequest) : Prop :=
  match request_json req with Some j => (json_depth j + 3 <= maxNestingDepth)%N | None => True end.

#[global] Instance shallow_dec req : Decision (shallow req).
Proof. unfold shallow. destruct (request_json req); apply _. Defined.

Lemma decision_json_ok d j :
  decision_json d = Some j → shallow (dRequest d) → json_wf j ∧ (json_depth j + 2 <= maxNestingDepth)%N.
Proof.
  unfold decision_json, shallow, json_of_time. case_decide; [|done]. cbn [mbind option_bind].
  destruct (request_json (dRequest d)) as [r|] eqn:Er; [|done]. intros [= <-] Hd. apply request_json_wf in Er.
  assert (∀ b n s, Forall (λ kv : string * json, json_wf kv.2 ∧ (json_depth kv.2 <= 0)%N) (omit_empty b (n, JStr s))) as Ho
    by (intros [] n s; by repeat constructor).
  assert (∀ P Q : string * json → Prop, (∀ x, P x → Q x) → ∀ l, Forall P l → Forall Q l) as Himpl
    by (intros P Q HPQ l Hl; by eapply Forall_impl).
  pose proof (response_json_wf (dResponse d)) as Hw. pose proof (response_json_depth (dResponse d)) as Hrd. split.
  - apply wf_obj. constructor; [done|]. constructor; [done|]. apply Forall_app. split; [eapply Himpl; [|apply Ho]; naive_solver|].
    apply Forall_app. split; [eapply Himpl; [|apply Ho]; naive_solver|]. apply Forall_cons. split; [done|]. by apply Forall_singleton.
  - etrans; [apply N.add_le_mono_r, (json_depth_obj _ (maxNestingDepth - 3))|unfold maxNestingDepth; lia].
    constructor; [done|]. constructor; [done|]. apply Forall_app. split; [eapply Himpl; [|apply Ho]; intros ? [_ ?]; simpl; lia|].
    apply Forall_app. split; [eapply Himpl; [|apply Ho]; intros ? [_ ?]; simpl; lia|].
    unfold maxNestingDepth in *. apply Forall_cons. split; [cbn [snd]; lia|]. apply Forall_singleton. cbn [snd]. lia.
Qed.

(** A batch of decisions that can be written has a body. *)
Lemma body_ok sh : Forall queued_ok (sh_batch sh) → is_Some (body sh).
Proof.
  intros H. unfold body. assert (is_Some (mapM (λ q, marshal_raw (q_raw q)) (sh_batch sh))) as [raws ->]; [|by eexists].
  apply mapM_is_Some. induction H as [|q l [_ _ (v & Hv & Hwf & Hd)] _ IH]; constructor; [|done].
  simpl. rewrite Hv, marshal_raw_print by (done || lia). by eexists.
Qed.

(** ** The loop of [flush] ends *)

Definition batch_limit (q : Queue) : Z := if decide (0 < batchCap q)%Z then batchCap q else maxBatchDecisions.

Lemma batch_limit_pos q : (1 <= batch_limit q)%Z.
Proof. unfold batch_limit, maxBatchDecisions. case_decide; lia. Qed.

Lemma batch_len_bound limit rev n size l :
  batch_len limit rev n size l ≤ length l ∧
  (0 < batch_len limit rev n size l → (n + Z.of_nat (batch_len limit rev n size l) <= limit)%Z).
Proof.
  revert n size. induction l as [|q l IH]; intros n size; [simpl; lia|]. cbn [batch_len length].
  case_decide as H; [|simpl; lia]. destruct (IH (n + 1)%Z (size + Z.of_nat (String.length (q_raw q)) + 1)%Z) as [H1 H2]. lia.
Qed.

Lemma batch_len_pos limit l : (1 <= limit)%Z → l ≠ [] → 0 < batch_len limit (head_revision l) 0 0 l.
Proof.
  intros Hl Hne. destruct l as [|q l]; [done|]. cbn [batch_len head_revision]. rewrite decide_True by (split_and!; [lia|done|lia]). lia.
Qed.

(** What a shipment is: a loss report without decisions, or between one
    decision and as many as the limit allows from the front of the queue. *)
Lemma plan_cases q sh :
  plan q = Some sh →
  sh_droppedIDs sh = droppedIDs q ∧ sh_droppedDigests sh = droppedDigests q ∧ sh_lossID sh = lossID q ∧
  sh_batch sh = take (length (sh_batch sh)) (pending q) ∧ length (sh_batch sh) ≤ length (pending q) ∧
  ((droppedIDs q ≠ [] ∧ sh_batch sh = []) ∨
   (droppedIDs q = [] ∧ 0 < length (sh_batch sh) ∧ (Z.of_nat (length (sh_batch sh)) <= batch_limit q)%Z)).
Proof.
  unfold plan. case_decide as H0; [done|]. fold (batch_limit q). intros [= <-]. cbn [sh_droppedIDs sh_droppedDigests sh_lossID sh_batch].
  case_decide as Hd.
  - destruct (batch_len_bound (batch_limit q) (head_revision (pending q)) 0 0 (pending q)) as [H1 H2].
    pose proof (batch_len_pos (batch_limit q) (pending q) (batch_limit_pos q)) as H3.
    set (n := batch_len _ _ _ _ _) in *. assert (0 < n) as Hn by (apply H3; intros E; by apply H0).
    rewrite length_take, Nat.min_l by done. split_and!; try done. right. split_and!; [done|done|]. specialize (H2 Hn). lia.
  - split_and!; try done; [simpl; lia|]. by left.
Qed.

(** A measure of the work left: decisions count most, an open loss report
    less than one of them, and the size of the next batch least. *)
Definition flush_measure (q : Queue) : Z :=
  2002 * Z.of_nat (length (pending q)) + (if decide (droppedIDs q = []) then 0 else 1001) + batch_limit q.

Lemma shipped_measure sh q : plan q = Some sh → (flush_measure (shipped sh q) < flush_measure q)%Z.
Proof.
  intros H. apply plan_cases in H as (Hids & _ & _ & _ & Hlen & Hc). pose proof (batch_limit_pos q) as Hl.
  unfold flush_measure at 1, shipped, batch_limit at 1. cbn [pending droppedIDs batchCap remove_first]. rewrite Hids, drop_all.
  rewrite (decide_True (P := [] = [])), decide_False by (done || lia). rewrite length_drop.
  unfold flush_measure, maxBatchDecisions. destruct Hc as [[Hd Hb]|(Hd & Hn & _)].
  - rewrite Hb, decide_False by done. simpl. lia.
  - rewrite decide_True by done. lia.
Qed.

Lemma rejected_measure now rnd left sh q q1 q' :
  plan q = Some sh → droppedIDs q = [] → droppedIDs q1 = [] → (left <= Z.of_nat (length (sh_batch sh)))%Z →
  length (pending q1) ≤ length (pending q) → batchCap q1 = batchCap q →
  rejected now rnd left q1 = Again q' → (flush_measure q' < flush_measure q)%Z.
Proof.
  intros H Hd Hd1 Hleft Hlen Hcap. apply plan_cases in H as (_ & _ & _ & _ & _ & [[? _]|(_ & Hn & Hlim)]); [done|].
  pose proof (batch_limit_pos q) as Hl. unfold rejected. case_decide as Hc.
  - intros [= <-]. unfold flush_measure at 1, batch_limit at 1. cbn [set_batchCap pending droppedIDs batchCap].
    rewrite Hd1, decide_True by done. assert (0 < (left + 1) / 2 < left)%Z by (Z.div_mod_to_equations; lia).
    rewrite decide_True by lia. unfold flush_measure. rewrite (decide_True (P := droppedIDs q = [])) by done. lia.
  - case_decide; [done|]. unfold recentDrops. case_decide; [done|]. cbn [set_dropTimes pending].
    destruct (pending q1) as [|x rest]; [done|]. intros [= <-]. unfold flush_measure, drop_first, batch_limit at 1.
    cbn [pending droppedIDs batchCap set_dropTimes]. rewrite Hd1, Hd. rewrite decide_False by by destruct (droppedIDs q1).
    rewrite (decide_True (P := [] = [])) by done. rewrite decide_False by lia. unfold maxBatchDecisions. simpl in *. lia.
Qed.

Lemma round_measure now rnd a q q' : round now rnd a q = Again q' → (flush_measure q' < flush_measure q)%Z.
Proof.
  unfold round. destruct (plan q) as [sh|] eqn:Hp; [|done]. destruct (body sh); [|done].
  destruct a as [|code readable recorded]; [done|]. cbn [settle].
  case_decide as Hc; [intros [= <-]; by apply shipped_measure|].
  case_decide as Hr; [|done]. pose proof (plan_cases _ _ Hp) as (_ & _ & _ & _ & _ & [[_ Hb]|(Hd & Hn & _)]).
  { rewrite Hb in Hr. simpl in Hr. lia. }
  intros H. eapply rejected_measure in H; [exact H|done|done|..].
  - by destruct (readable && _).
  - case_bool_decide; lia.
  - destruct (readable && _); [|done]. cbn [remove_first pending]. rewrite length_drop. lia.
  - by destruct (readable && _).
Qed.

(** C26. However the control plane answers, the loop of [flush] ends: it
    takes at most as many rounds as [flush_measure] of the queue says,
    that is 2002 for every waiting decision and a constant more, whether
    batches are accepted, recorded in part, refused, halved or dropped. *)
Theorem flush_terminates q script :
  (flush_measure q < Z.of_nat (length script))%Z → ∃ e q', flush script q = Some (e, q').
Proof.
  revert q. induction script as [|[[now rnd] a] script IH]; intros q Hlen.
  { pose proof (batch_limit_pos q). unfold flush_measure in Hlen. simpl in Hlen. case_decide; lia. }
  cbn [flush].
  destruct (round now rnd a q) as [q'|e q'] eqn:E; [|by eexists _, _].
  apply round_measure in E. apply IH. simpl in Hlen. lia.
Qed.

(** ** The loop of [flush] drains the queue *)

(** C27. While the control plane takes what it is sent, one flush empties
    the queue and delivers every loss report, and ends without an error. *)
Theorem flush_drains q script :
  Forall queued_ok (pending q) → Forall (λ x, ∃ r n, x.2 = Answer 200 r n) script →
  (flush_measure q < Z.of_nat (length script))%Z →
  ∃ q', flush script q = Some (None, q') ∧ pending q' = [] ∧ droppedIDs q' = [].
Proof.
  intros Hok Hall. revert q Hok. induction Hall as [|[[now rnd] a] script (r & n & Ha) _ IH]; intros q Hok Hlen.
  { pose proof (batch_limit_pos q). unfold flush_measure in Hlen. simpl in Hlen. case_decide; lia. }
  cbn [flush]. simpl in Ha. subst a. destruct (round now rnd (Answer 200 r n) q) as [q'|e q'] eqn:E.
  - pose proof (round_measure _ _ _ _ _ E) as Hm. apply IH; [|simpl in Hlen; lia].
    unfold round in E. destruct (plan q) as [sh|]; [|done]. destruct (body sh); [|done]. cbn [settle] in E.
    rewrite decide_True in E by done. injection E as <-. by apply Forall_drop.
  - unfold round in E. destruct (plan q) as [sh|] eqn:Ep.
    + destruct (body_ok sh) as [t Ht].
      { apply plan_cases in Ep as (_ & _ & _ & -> & _). by apply Forall_take. }
      rewrite Ht in E. cbn [settle] in E. by rewrite decide_True in E by done.
    + injection E as <- <-. unfold plan in Ep. case_decide as Hd; [|done]. exists q. by destruct Hd.
Qed.

(** ** What a caller gets *)

Section served.
Context `{!Spiffe, !Cedar, !Ecdsa}.

Lemma record_decision_cases io q p d r p' d' :
  record_decision io q p d = (r, (p', d')) →
  reserved (queue p') = (reserved (queue p) - 1)%Z ∧
  ((r = Ok tt ∧ pending (queue p') = pending (queue p) ++ [q] ∧
    (SpoolPath (cfg p) ≠ "" → ∃ line, spool_line q = Some line ∧ d' = append_spool line d)) ∨
   (is_ok r = false ∧ pending (queue p') = pending (queue p))).
Proof.
  unfold record_decision, spoolDecision. case_decide as Hs.
  2:{ intros [= <- <- <-]. split; [done|]. left. split_and!; [done|done|]. by intros ?. }
  destruct (spool p); [|intros [= <- <- <-]; split; [done|by right]].
  destruct (spool_line q) as [line|]; [|intros [= <- <- <-]; split; [done|by right]].
  destruct (io_stat io); [|intros [= <- <- <-]; split; [done|by right]].
  assert (∀ n p2 d2, (rewriteSpoolLocked (io_rewrite io) p (append_spool (string_take n line) d)).2 = (p2, d2) → queue p2 = queue p) as Hrw.
  { intros n p2 d2. unfold rewriteSpoolLocked. destruct (spool_bytes _), (io_rewrite io); by intros [= <- <-]. }
  assert (∀ n, (if io_truncate io then (Err SpoolFailed, (p, d))
     else (Err SpoolFailed, (rewriteSpoolLocked (io_rewrite io) p (append_spool (string_take n line) d)).2)) =
     (Err SpoolFailed : result pdp_error (), (if io_truncate io then (p, d)
     else (rewriteSpoolLocked (io_rewrite io) p (append_spool (string_take n line) d)).2))) as E by (by destruct (io_truncate io)).
  destruct (io_write io) as [|n|].
  { intros [= <- <- <-]. split; [done|]. left. split_and!; [done|done|]. eauto. }
  all: rewrite E; destruct (io_truncate io); [intros [= <- <- <-]; split; [done|by right]|].
  all: destruct (rewriteSpoolLocked _ _ _).2 as [p2 d2] eqn:E2; intros [= <- <- <-]; apply Hrw in E2; cbn; rewrite E2; split; [done|by right].
Qed.


End served.

(** *** Witnesses *)

Definition demo_queue : Queue :=
  set_pending [mkQueued "d1" (json_print (JObj [("id", JStr "d1")])) "r1"; mkQueued "d2" (json_print (JObj [("id", JStr "d2")])) "r2"]
    empty_queue.

Lemma small_queued_ok id rev :
  to_valid_utf8 id = id → to_valid_utf8 rev = rev → queued_ok (mkQueued id (json_print (JObj [("id", JStr id)])) rev).
Proof.
  intros Hi Hr. split; [done|done|]. exists (JObj [("id", JStr id)]). split_and!; [done|by simpl|].
  simpl. unfold maxNestingDepth. lia.
Qed.

Lemma demo_queue_ok : Forall queued_ok (pending demo_queue).
Proof. apply Forall_cons. split; [|apply Forall_singleton]; by apply small_queued_ok. Qed.

Lemma flush_terminates_witness :
  ∃ e q', flush (replicate (Z.to_nat 5006) (0%Z, "0123456789abcdef", Answer 400 true 0)) demo_queue = Some (e, q').
Proof. apply flush_terminates. vm_compute. reflexivity. Defined.

Lemma flush_drains_witness :
  ∃ q', flush (replicate (Z.to_nat 5006) (0%Z, "", Answer 200 true 0)) demo_queue = Some (None, q') ∧ pending q' = [] ∧ droppedIDs q' = [].
Proof.
  apply flush_drains.
  - exact demo_queue_ok.
  - apply Forall_replicate. exists true, 0%Z. reflexivity.
  - vm_compute. reflexivity.
Defined.
