(* ===== verification/Node.v ===== *)
(** * Node

    A node agent over time: evaluations that run side by side, shipments on
    their way, bundle syncs, failing writes and crashes, in any order. The
    steps are the parts of LocalPDP between which the code holds no lock;
    beside the agent's own state a node remembers, for the theorems, which
    decisions were made, answered, acknowledged and dropped. *)
From S2P Require Import Prelude Crypto Json JsonParse JsonRaw Decode AuditKeyring Store Domains GoValue.
From S2P Require Import GoTime Base64 Cedar Directory Request Engine Bundle Wire Spool LocalPDP.

(** ** Hexadecimal text is valid UTF-8 *)

Lemma ascii_valid s : string_forallb (byte_in 0 127) s = true → to_valid_utf8 s = s.
Proof.
  induction s as [|a s IH]; [done|]. cbn [string_forallb]. rewrite andb_true_iff. intros [Ha Hs].
  cbn [to_valid_utf8]. by rewrite Ha, IH.
Qed.

Lemma hex_encode_ascii s : string_forallb (byte_in 0 127) (hex_encode s) = true.
Proof.
  induction s as [|a s IH]; [done|]. cbn [hex_encode string_forallb]. rewrite IH.
  by destruct a as [[][][][][][][][]].
Qed.

Lemma Forall_subseteq {A} (P : A → Prop) (l k : list A) : l ⊆ k → Forall P k → Forall P l.
Proof. intros Hs Hk. apply list.Forall_forall. intros x Hx. rewrite list.Forall_forall in Hk. by apply Hk, Hs. Qed.

Section node.
Context {spf : Spiffe} {cdr : Cedar} {ecd : Ecdsa}.

Record Node := mkNode {
  nd_pdp : PDP;
  nd_disk : Disk;
  nd_ship : option shipment;
  made : list queued;
  answered : list queued;
  acked : list queued;
  lost : list string;
}.

Definition nd_queue (n : Node) : Queue := queue (nd_pdp n).

Definition set_pdp (pd : PDP * Disk) (n : Node) : Node :=
  mkNode pd.1 pd.2 (nd_ship n) (made n) (answered n) (acked n) (lost n).

(** The decisions of a shipment that an answer acknowledges. *)
Definition acked_by (sh : shipment) (a : answer) : list queued :=
  match a with
  | NoAnswer => []
  | Answer code readable recorded =>
      if decide (code = 200)%Z then sh_batch sh
      else if readable && bool_decide (0 < recorded < Z.of_nat (length (sh_batch sh)))%Z
           then take (Z.to_nat recorded) (sh_batch sh) else []
  end.

Definition outcome_queue (o : outcome) : Queue := match o with Again q => q | Stop _ q => q end.

(** The write was undone, or the file was rebuilt. *)
Definition repaired (io : spool_io) : Prop := io_truncate io = true ∨ io_rewrite io ≠ NotRenamed.

Inductive node_step (n : Node) : Node → Prop :=
| step_reserve now p' :
    reserve now (nd_pdp n) = Ok p' → node_step n (set_pdp (p', nd_disk n) n)
| step_release :
    (0 < reserved (nd_queue n))%Z → node_step n (set_pdp (release (nd_pdp n), nd_disk n) n)
| step_make now now' rnd req requestID resp q :
    make_decision now now' rnd req requestID (nd_pdp n) = Ok (resp, q) →
    shallow req → q_id q ∉ q_id <$> made n →
    node_step n (mkNode (nd_pdp n) (nd_disk n) (nd_ship n) (made n ++ [q]) (answered n) (acked n) (lost n))
| step_answer io q pd :
    q ∈ made n → (0 < reserved (nd_queue n))%Z → record_decision io q (nd_pdp n) (nd_disk n) = (Ok tt, pd) →
    node_step n (mkNode pd.1 pd.2 (nd_ship n) (made n) (answered n ++ [q]) (acked n) (lost n))
| step_spool_failed io q e pd :
    q ∈ made n → (0 < reserved (nd_queue n))%Z → repaired io →
    record_decision io q (nd_pdp n) (nd_disk n) = (Err e, pd) → node_step n (set_pdp pd n)
| step_plan sh :
    nd_ship n = None → plan (nd_queue n) = Some sh →
    node_step n (mkNode (nd_pdp n) (nd_disk n) (Some sh) (made n) (answered n) (acked n) (lost n))
| step_settle now rnd sh a q' :
    nd_ship n = Some sh → outcome_queue (settle now rnd sh a (nd_queue n)) = q' →
    node_step n (mkNode (set_queue q' (nd_pdp n)) (nd_disk n) None (made n) (answered n) (acked n ++ acked_by sh a)
                   (lost n ++ drop (length (droppedIDs (nd_queue n))) (droppedIDs q')))
| step_rewrite o r pd :
    SpoolPath (cfg (nd_pdp n)) ≠ "" → rewriteSpoolLocked o (nd_pdp n) (nd_disk n) = (r, pd) → node_step n (set_pdp pd n)
| step_sync now now' resp written r pd :
    Sync now now' resp written (nd_pdp n) (nd_disk n) = (r, pd) → node_step n (set_pdp pd n)
| step_crash c torn pd :
    SpoolPath (cfg (nd_pdp n)) ≠ "" → config_defaults c = cfg (nd_pdp n) →
    torn = "" ∨ (∃ q rest, q ∈ made n ∧ spool_line q = Some (torn +:+ rest)) →
    RestoreSpool true Rewritten (New c) (append_spool torn (nd_disk n)) = (Ok tt, pd) →
    node_step n (mkNode pd.1 pd.2 None (made n) (answered n) (acked n) (lost n)).

(** A node that has just started on an empty spool. *)
Definition node_start (c : Config) : Node :=
  let pd := (RestoreSpool true Rewritten (New c) (mkDisk None None)).2 in
  mkNode pd.1 pd.2 None [] [] [] [].

(** ** The invariant *)

(** The spool holds every pending decision. *)
Definition spooled (n : Node) : Prop :=
  SpoolPath (cfg (nd_pdp n)) ≠ "" →
  ∃ l b, spool_file (nd_disk n) = Some b ∧ spool_bytes l = Some b ∧ l ⊆ made n ∧ pending (nd_queue n) ⊆ l.

Definition ship_ok (n : Node) : Prop :=
  ∀ sh, nd_ship n = Some sh →
  sh_batch sh = take (length (sh_batch sh)) (pending (nd_queue n)) ∧
  length (sh_batch sh) ≤ length (pending (nd_queue n)) ∧
  sh_droppedIDs sh = droppedIDs (nd_queue n).

Record node_ok (n : Node) : Prop := {
  no_made : Forall queued_ok (made n);
  no_ids : NoDup (q_id <$> made n);
  no_pending : pending (nd_queue n) ⊆ made n;
  no_answered : ∀ q, q ∈ answered n → q ∈ pending (nd_queue n) ∨ q ∈ acked n ∨ q_id q ∈ lost n;
  no_spool : spooled n;
  no_ship : ship_ok n;
  no_revision : to_valid_utf8 (revision (engine (nd_pdp n))) = revision (engine (nd_pdp n));
}.

Lemma spool_bytes_app l q b line :
  spool_bytes l = Some b → spool_line q = Some line → spool_bytes (l ++ [q]) = Some (b +:+ line).
Proof.
  intros Hb Hl. revert b Hb. induction l as [|x l IH]; intros b Hb.
  - injection Hb as <-. cbn [app spool_bytes]. rewrite Hl. cbn [mbind option_bind]. by rewrite string_app_nil_r.
  - cbn [app spool_bytes] in *. destruct (spool_line x); [|done]. cbn [mbind option_bind] in *.
    destruct (spool_bytes l) as [b'|]; [|done]. injection Hb as <-. rewrite (IH b' eq_refl). cbn [mbind option_bind].
    by rewrite string_app_assoc.
Qed.

Lemma spool_bytes_ok l : Forall queued_ok l → is_Some (spool_bytes l).
Proof.
  induction 1 as [|q l Hq _ [b Hb]]; [by eexists|]. destruct (spool_line_json q Hq) as (v & _ & _ & _ & Hl).
  cbn [spool_bytes]. rewrite Hl, Hb. by eexists.
Qed.

(** A step that changes neither the queue nor the spool. *)
Lemma node_ok_frame n n' :
  node_ok n → pending (nd_queue n') = pending (nd_queue n) → droppedIDs (nd_queue n') = droppedIDs (nd_queue n) →
  cfg (nd_pdp n') = cfg (nd_pdp n) → spool_file (nd_disk n') = spool_file (nd_disk n) → nd_ship n' = nd_ship n →
  made n' = made n → answered n' = answered n → acked n' = acked n → lost n' = lost n →
  to_valid_utf8 (revision (engine (nd_pdp n'))) = revision (engine (nd_pdp n')) → node_ok n'.
Proof.
  intros [] Hp Hd Hc Hf Hs Hm Ha Hk Hl Hr.
  split; unfold spooled, ship_ok in *; rewrite ?Hp, ?Hd, ?Hc, ?Hf, ?Hs, ?Hm, ?Ha, ?Hk, ?Hl; done.
Qed.

Lemma queued_ok_made now now' rnd req requestID p resp q :
  make_decision now now' rnd req requestID p = Ok (resp, q) →
  to_valid_utf8 (revision (engine p)) = revision (engine p) →
  shallow req → queued_ok q.
Proof.
  unfold make_decision, EvaluateRevision. intros H Hr Hs.
  destruct (prepare req) as [[creq ov]|]; [|done]. cbn [mbind result_bind] in H.
  destruct (Authorize _ _ _) as [ok diag]. cbn in H. destruct (RequestIDForAudit requestID).
  destruct (decision_json _) as [j|] eqn:Ej; [|done]. injection H as <- <-.
  apply decision_json_ok in Ej as [? ?]; [|done]. split; [|done|by exists j].
  apply ascii_valid, hex_encode_ascii.
Qed.

Lemma rewrite_cases o p d r pd :
  Forall queued_ok (pending (queue p)) → rewriteSpoolLocked o p d = (r, pd) →
  queue pd.1 = queue p ∧ cfg pd.1 = cfg p ∧ engine pd.1 = engine p ∧
  (o = NotRenamed ∧ pd.2 = d ∨ o ≠ NotRenamed ∧ spool_bytes (pending (queue p)) = spool_file pd.2).
Proof.
  intros Hok. unfold rewriteSpoolLocked. destruct (spool_bytes_ok _ Hok) as [b Hb]. rewrite Hb.
  destruct o; intros [= <- <-]; split_and!; try done; [by right|by left|by right].
Qed.

Lemma node_ok_rewrite n o r pd :
  node_ok n → rewriteSpoolLocked o (nd_pdp n) (nd_disk n) = (r, pd) → node_ok (set_pdp pd n).
Proof.
  intros [] H. assert (Forall queued_ok (pending (nd_queue n))) as Hp by by eapply Forall_subseteq.
  apply rewrite_cases in H as (Hq & Hc & He & Hd); [|done].
  split; unfold spooled, ship_ok, nd_queue in *; cbn [set_pdp nd_pdp nd_disk nd_ship made answered acked lost];
    rewrite ?Hq, ?Hc, ?He; try done.
  destruct Hd as [[_ ->]|[_ Hb]]; [done|]. intros _. destruct (spool_bytes_ok _ Hp) as [b Hb'].
  exists (pending (queue (nd_pdp n))), b. rewrite <-Hb. done.
Qed.

Lemma node_ok_answer n io q pd :
  node_ok n → q ∈ made n → record_decision io q (nd_pdp n) (nd_disk n) = (Ok tt, pd) →
  node_ok (mkNode pd.1 pd.2 (nd_ship n) (made n) (answered n ++ [q]) (acked n) (lost n)).
Proof.
  intros [Hmade Hids Hpend Hans Hspool Hship Hrev] Hq H.
  assert (∃ d', pd.1 = set_queue (set_reserved (reserved (nd_queue n) - 1)
            (set_pending (pending (nd_queue n) ++ [q]) (nd_queue n))) (nd_pdp n) ∧ pd.2 = d' ∧
          (SpoolPath (cfg (nd_pdp n)) = "" ∨ ∃ line, spool_line q = Some line ∧ d' = append_spool line (nd_disk n)))
    as (d' & Hp & -> & Hd).
  { unfold record_decision in H. case_decide as Hs; [|injection H as <-; eexists; split_and!; [done..|by left]].
    destruct (spool (nd_pdp n)); [|done]. unfold spoolDecision in H. destruct (spool_line q) as [line|] eqn:El; [|done].
    destruct (io_stat io); [|done]. destruct (io_write io);
      [|destruct (io_truncate io); [done|]; by destruct (rewriteSpoolLocked _ _ _) as [? [? ?]]..].
    injection H as <-. eexists. split_and!; [done..|]. right. eauto. }
  split; unfold spooled, ship_ok, nd_queue in *; cbn [nd_pdp nd_disk nd_ship made answered acked lost]; rewrite ?Hp;
    cbn [set_queue queue set_reserved set_pending pending droppedIDs cfg engine]; try done.
  - intros x [Hx|Hx]%elem_of_app; [by apply Hpend|]. apply list_elem_of_singleton in Hx. by subst.
  - intros x [Hx|Hx]%elem_of_app.
    + destruct (Hans x Hx) as [?|[?|?]]; auto. left. apply elem_of_app. by left.
    + left. apply elem_of_app. by right.
  - intros Hs. destruct (Hspool Hs) as (l & b & Hf & Hb & Hlm & Hpl). destruct Hd as [?|(line & Hline & ->)]; [done|].
    exists (l ++ [q]), (b +:+ line). cbn [append_spool spool_file]. rewrite Hf. split_and!; [done|by apply spool_bytes_app|..].
    + intros x [Hx|Hx]%elem_of_app; [by apply Hlm|]. apply list_elem_of_singleton in Hx. by subst.
    + intros x [Hx|Hx]%elem_of_app; apply elem_of_app; [left; by apply Hpl|by right].
  - intros sh Hsh. destruct (Hship sh Hsh) as (Hb & Hlen & Hdr). split_and!; [|rewrite length_app; lia|done].
    by rewrite take_app_le by done.
Qed.

Lemma node_ok_spool_failed n io q e pd :
  node_ok n → repaired io → record_decision io q (nd_pdp n) (nd_disk n) = (Err e, pd) → node_ok (set_pdp pd n).
Proof.
  intros Hok Hrep H. unfold record_decision in H.
  assert (∀ p d, node_ok (set_pdp (p, d) n) → node_ok (set_pdp (release p, d) n)) as Hrel
    by (intros p d Hp; by eapply node_ok_frame; [exact Hp|..|apply Hp]).
  assert (node_ok (set_pdp (nd_pdp n, nd_disk n) n)) as Hsame by by destruct n.
  case_decide as Hs; [|done]. destruct (spool (nd_pdp n)); [|injection H as <- <-; by apply Hrel].
  destruct (spoolDecision io q (nd_pdp n) (nd_disk n)) as [[[]|e'] [p d]] eqn:Hd; [done|].
  injection H as -> <-. apply Hrel. clear Hrel. unfold spoolDecision in Hd.
  destruct (spool_line q) as [line|]; [|by injection Hd as <- <- <-].
  destruct (io_stat io); [|by injection Hd as <- <- <-].
  assert (∀ k, (if io_truncate io then (Err SpoolFailed : result pdp_error (), (nd_pdp n, nd_disk n))
      else (Err SpoolFailed, (rewriteSpoolLocked (io_rewrite io) (nd_pdp n) (append_spool (string_take k line) (nd_disk n))).2))
    = (Err e, (p, d)) → node_ok (set_pdp (p, d) n)) as Hfail.
  { intros k. destruct (io_truncate io) eqn:Ht; [by intros [= <- <- <-]|].
    intros E. injection E as <- E.
    destruct (rewriteSpoolLocked (io_rewrite io) (nd_pdp n) (append_spool (string_take k line) (nd_disk n)))
      as [r pd] eqn:Hw. cbn [snd] in E. subst pd.
    destruct Hrep as [?|Hne]; [congruence|]. destruct Hok as [Hmade ? Hpend].
    assert (Forall queued_ok (pending (nd_queue n))) as Hp by by eapply Forall_subseteq.
    apply rewrite_cases in Hw as (Hq & Hc & He & [[? _]|[_ Hb]]); [done| |done].
    split; unfold spooled, ship_ok, nd_queue in *; cbn [set_pdp nd_pdp nd_disk nd_ship made answered acked lost fst snd] in *;
      rewrite ?Hq, ?Hc, ?He; try done.
    intros _. destruct (spool_bytes_ok _ Hp) as [b Hb']. exists (pending (queue (nd_pdp n))), b. rewrite <-Hb. done. }
  destruct (io_write io); [done|by eapply Hfail..].
Qed.

(** ** Answers *)

(** What one answer takes off the queue: nothing, the acknowledged
    decisions, or those and the one that is dropped. *)
Lemma settle_cases now rnd sh a q :
  sh_batch sh = take (length (sh_batch sh)) (pending q) → length (sh_batch sh) ≤ length (pending q) →
  sh_droppedIDs sh = droppedIDs q →
  let q' := outcome_queue (settle now rnd sh a q) in
  (pending q = acked_by sh a ++ pending q' ∧ drop (length (droppedIDs q)) (droppedIDs q') = []) ∨
  (∃ x, pending q = acked_by sh a ++ x :: pending q' ∧ drop (length (droppedIDs q)) (droppedIDs q') = [q_id x]).
Proof.
  intros Hb Hlen Hd. assert (∀ k, k ≤ length (sh_batch sh) → pending q = take k (sh_batch sh) ++ drop k (pending q)) as Hsplit.
  { intros k Hk. rewrite Hb, take_take, Nat.min_l by done. by rewrite take_drop. }
  destruct a as [|code readable recorded]; cbn [settle acked_by].
  { left. split; [done|]. by rewrite drop_all. }
  case_decide as Hc.
  { left. cbn [outcome_queue shipped pending remove_first droppedIDs]. rewrite Hd, drop_all. split; [|by rewrite drop_nil].
    rewrite Hb at 1. by rewrite take_drop. }
  set (partial := bool_decide _). set (q1 := if readable && partial then _ else q).
  assert (pending q = (if readable && partial then take (Z.to_nat recorded) (sh_batch sh) else []) ++ pending q1 ∧
          droppedIDs q1 = droppedIDs q) as [Hp1 Hd1].
  { subst q1. destruct (readable && partial) eqn:E; [|done]. apply andb_true_iff in E as [_ E%bool_decide_eq_true].
    split; [|done]. apply Hsplit. lia. }
  assert (∀ q', pending q' = pending q1 → droppedIDs q' = droppedIDs q1 →
    pending q = (if readable && partial then take (Z.to_nat recorded) (sh_batch sh) else []) ++ pending q' ∧
    drop (length (droppedIDs q)) (droppedIDs q') = []) as Hkeep.
  { intros q' -> ->. split; [done|]. by rewrite Hd1, drop_all. }
  case_decide; [|left; by apply Hkeep]. unfold rejected. case_decide; [left; by apply Hkeep|].
  case_decide; [left; by apply Hkeep|]. unfold recentDrops. case_decide; [left; by apply Hkeep|].
  cbn [set_dropTimes pending]. destruct (pending q1) as [|x rest] eqn:Ex.
  - left. cbn [outcome_queue]. apply Hkeep; [done|done].
  - right. exists x. cbn [outcome_queue drop_first pending droppedIDs set_dropTimes]. split; [done|].
    by rewrite Hd1, drop_app_length.
Qed.

Lemma node_ok_settle n now rnd sh a q' :
  node_ok n → nd_ship n = Some sh → outcome_queue (settle now rnd sh a (nd_queue n)) = q' →
  node_ok (mkNode (set_queue q' (nd_pdp n)) (nd_disk n) None (made n) (answered n) (acked n ++ acked_by sh a)
             (lost n ++ drop (length (droppedIDs (nd_queue n))) (droppedIDs q'))).
Proof.
  intros [Hmade Hids Hpend Hans Hspool Hship Hrev] Hsh Hq'. destruct (Hship sh Hsh) as (Hb & Hlen & Hd).
  pose proof (settle_cases now rnd sh a (nd_queue n) Hb Hlen Hd) as Hc. cbv zeta in Hc. rewrite Hq' in Hc.
  assert (∀ x, x ∈ pending (nd_queue n) → x ∈ pending q' ∨ x ∈ acked_by sh a ∨
            q_id x ∈ drop (length (droppedIDs (nd_queue n))) (droppedIDs q')) as Hacc.
  { intros x. destruct Hc as [[-> _]|(y & -> & ->)]; rewrite elem_of_app; [tauto|].
    rewrite elem_of_cons, list_elem_of_singleton. intros [?|[->|?]]; auto. }
  assert (pending q' ⊆ pending (nd_queue n)) as Hsub.
  { intros x Hx. destruct Hc as [[-> _]|(y & -> & _)]; apply elem_of_app; right; [done|]. by apply elem_of_cons; right. }
  split; unfold spooled, ship_ok; cbn [nd_queue nd_pdp nd_disk nd_ship made answered acked lost set_queue queue cfg engine]; try done.
  - by etrans.
  - intros x Hx. rewrite !elem_of_app. destruct (Hans x Hx) as [Hp|[?|?]]; [|tauto..]. destruct (Hacc x Hp) as [?|[?|?]]; tauto.
  - intros Hs. destruct (Hspool Hs) as (l & b & Hf & Hbytes & Hlm & Hpl). exists l, b. split_and!; try done. by etrans.
Qed.

Lemma LoadBundle_revision b e e' : LoadBundle b e = Ok e' → revision e' = b_revision b ∧ bundleRevision b = Ok (b_revision b).
Proof.
  unfold LoadBundle. intros (rev & Hr & H)%result_bind_Ok. case_decide as Hne; [done|]. subst rev.
  apply result_bind_Ok in H as (td & _ & H). apply result_bind_Ok in H as ([ps st] & _ & H).
  apply result_bind_Ok in H as ([fps fst] & _ & H). destruct (buildDirectory _). by injection H as <-.
Qed.

Lemma bundleRevision_ascii b r : bundleRevision b = Ok r → to_valid_utf8 r = r.
Proof. unfold bundleRevision. case_decide; [|done]. intros [= <-]. apply ascii_valid, hex_encode_ascii. Qed.

Lemma node_ok_sync n now now' resp written r pd :
  node_ok n → Sync now now' resp written (nd_pdp n) (nd_disk n) = (r, pd) → node_ok (set_pdp pd n).
Proof.
  intros Hok H. pose proof (no_revision _ Hok) as Hrev.
  assert (queue pd.1 = queue (nd_pdp n) ∧ cfg pd.1 = cfg (nd_pdp n) ∧ spool_file pd.2 = spool_file (nd_disk n) ∧
          to_valid_utf8 (revision (engine pd.1)) = revision (engine pd.1)) as (Hq & Hc & Hf & Hr).
  { unfold Sync in H. destruct resp as [|code body]; [by simplify_eq|].
    case_decide; [destruct (BundleKey _); by simplify_eq|]. case_decide; [by simplify_eq|].
    destruct body as [b|]; [|by simplify_eq]. destruct (check_bundle now b (nd_pdp n)); [|by simplify_eq].
    assert (∀ x : PDP, x = warn_unverified b (nd_pdp n) → queue x = queue (nd_pdp n) ∧ cfg x = cfg (nd_pdp n) ∧
              engine x = engine (nd_pdp n)) as Hw by (intros x ->; unfold warn_unverified; by case_decide).
    set (p1 := warn_unverified b (nd_pdp n)) in *. destruct (Hw p1 eq_refl) as (Hq & Hc & He). clearbody p1. clear Hw.
    destruct (LoadBundle b (engine p1)) as [e|e] eqn:El; injection H as <- <-; [|cbn [fst snd]; by rewrite He].
    apply LoadBundle_revision in El as [Hr1 Hr2%bundleRevision_ascii]. unfold loaded. cbn [fst snd queue cfg engine].
    split_and!; [done|done|..|by rewrite Hr1].
    destruct (bool_decide _); [|done]. unfold saveIssuedAt. by case_decide. }
  eapply node_ok_frame; try done; unfold nd_queue; cbn [set_pdp nd_pdp]; by rewrite Hq.
Qed.

(** Whatever was being written when the agent stopped, the spool is read
    back with every pending decision. *)
Lemma restart n c torn :
  node_ok n → SpoolPath (cfg (nd_pdp n)) ≠ "" → config_defaults c = cfg (nd_pdp n) →
  torn = "" ∨ (∃ q rest, q ∈ made n ∧ spool_line q = Some (torn +:+ rest)) →
  ∃ p b l, RestoreSpool true Rewritten (New c) (append_spool torn (nd_disk n)) = (Ok tt, (p, mkDisk (Some b) (mark_file (nd_disk n)))) ∧
    queue p = set_pending l empty_queue ∧ spool_bytes l = Some b ∧ l ⊆ made n ∧ pending (nd_queue n) ⊆ l ∧
    cfg p = cfg (nd_pdp n) ∧ engine p = new_engine.
Proof.
  intros [Hmade _ _ _ Hspool _ _] Hs Hc Ht. destruct (Hspool Hs) as (l & b & Hf & Hb & Hlm & Hpl).
  assert (Forall queued_ok l) as Hl by by eapply Forall_subseteq.
  assert (∃ l', restore_bytes (b +:+ torn) = Ok l' ∧ l ⊆ l' ∧ l' ⊆ made n ∧ Forall queued_ok l') as (l' & Hr & Hll & Hlm' & Hl').
  { destruct Ht as [->|(q & rest & Hq & Hline)].
    - exists l. split_and!; try done. destruct (spool_bytes_lines l b Hl Hb) as (texts & Hrd & Hsp). unfold restore_bytes.
      rewrite Hsp, (restore_lines_app l) by done. change (split_byte newline "") with [""]. cbn [restore_lines]. simpl.
      by rewrite app_nil_r.
    - assert (queued_ok q) as Hqo by (rewrite list.Forall_forall in Hmade; by apply Hmade).
      rewrite (spool_recovers_aux l b q torn rest Hl Hqo Hb Hline). eexists. split; [done|].
      case_decide; [|done]. split_and!.
      + intros x Hx. apply elem_of_app. by left.
      + intros x [Hx|Hx]%elem_of_app; [by apply Hlm|]. apply list_elem_of_singleton in Hx. by subst.
      + apply Forall_app. split; [done|]. by constructor. }
  destruct (spool_bytes_ok l' Hl') as [b' Hb'].
  unfold RestoreSpool. cbn [cfg New]. rewrite Hc, decide_False by done. rewrite decide_False by (by intros [? _]).
  assert (default "" (spool_file (append_spool torn (nd_disk n))) = b +:+ torn) as -> by (simpl; by rewrite Hf).
  rewrite Hr. assert (∃ t, loadIssuedAt true (append_spool torn (nd_disk n)) = Ok t) as [t ->]
    by (unfold loadIssuedAt; destruct (mark_file _); by eexists).
  set (p0 := if IsZero t then New c else set_issuedAt t (New c)).
  assert (queue p0 = empty_queue ∧ cfg p0 = config_defaults c ∧ engine p0 = new_engine) as (Hq & Hcf & He)
    by (subst p0; by destruct (IsZero t)). clearbody p0.
  exists (set_spool true (set_queue (set_pending l' empty_queue) p0)), b', l'. split_and!; try done; [| |by rewrite <-Hc].
  - rewrite Hq. unfold rewriteSpoolLocked. cbn [set_queue queue set_pending pending empty_queue]. by rewrite app_nil_r, Hb'.
  - by etrans.
Qed.

Lemma node_ok_crash n c torn pd :
  node_ok n → SpoolPath (cfg (nd_pdp n)) ≠ "" → config_defaults c = cfg (nd_pdp n) →
  torn = "" ∨ (∃ q rest, q ∈ made n ∧ spool_line q = Some (torn +:+ rest)) →
  RestoreSpool true Rewritten (New c) (append_spool torn (nd_disk n)) = (Ok tt, pd) →
  node_ok (mkNode pd.1 pd.2 None (made n) (answered n) (acked n) (lost n)).
Proof.
  intros Hok Hs Hc Ht H. destruct (restart n c torn Hok Hs Hc Ht) as (p & b & l & Hr & Hq & Hb & Hlm & Hpl & Hcf & He).
  rewrite Hr in H. injection H as <-. destruct Hok as [Hmade Hids Hpend Hans _ _ _].
  split; unfold spooled, ship_ok, nd_queue; cbn [nd_pdp nd_disk nd_ship made answered acked lost fst snd spool_file];
    rewrite ?Hq, ?He; cbn [set_pending pending]; try done.
  - intros x Hx. destruct (Hans x Hx) as [?|?]; [left; by apply Hpl|by right].
  - intros _. by exists l, b.
Qed.

Lemma node_step_ok n n' : node_ok n → node_step n n' → node_ok n'.
Proof.
  intros Hok Hst. destruct Hst as [now p' H|H|now now' rnd req requestID resp q H Hsh Hid|io q pd Hq _ H|io q e pd Hq _ Hr H
    |sh Hs Hp|now rnd sh a q' Hs H|o r pd Hs H|now now' resp written r pd H|c torn pd Hs Hc Ht H].
  - unfold reserve in H. case_decide; [done|]. case_decide; [done|]. injection H as <-. by eapply node_ok_frame; [exact Hok|..|apply Hok].
  - by eapply node_ok_frame; [exact Hok|..|apply Hok].
  - pose proof (queued_ok_made _ _ _ _ _ _ _ _ H (no_revision _ Hok) Hsh) as Hqo. destruct Hok as [Hmade Hids Hpend Hans Hspool Hship Hrev].
    split; try done; cbn [made nd_queue nd_pdp].
    + apply Forall_app. split; [done|by constructor].
    + rewrite fmap_app. apply NoDup_app. split_and!; [done| |apply NoDup_singleton]. intros x Hx Hy.
      apply list_elem_of_singleton in Hy. by subst.
    + etrans; [exact Hpend|]. intros x Hx. apply elem_of_app. by left.
    + intros Hsp. destruct (Hspool Hsp) as (l & b & Hf & Hb & Hlm & Hpl). exists l, b. split_and!; try done.
      etrans; [exact Hlm|]. intros x Hx. apply elem_of_app. by left.
  - by eapply node_ok_answer.
  - by eapply node_ok_spool_failed.
  - destruct Hok as [Hmade Hids Hpend Hans Hspool Hship Hrev]. split; try done. intros sh' [= <-].
    apply plan_cases in Hp as (? & _ & _ & ? & ? & _). done.
  - by eapply node_ok_settle.
  - by eapply node_ok_rewrite.
  - by eapply node_ok_sync.
  - by eapply node_ok_crash.
Qed.

Lemma node_start_ok c : node_ok (node_start c).
Proof.
  unfold node_start, RestoreSpool. case_decide as Hs; split; try done; try apply NoDup_nil_2;
    try (by intros q Hq%elem_of_nil); intros Hne; [done|]. by exists [], "".
Qed.

Lemma node_reach_ok c n : rtc node_step (node_start c) n → node_ok n.
Proof.
  intros H. pose proof (node_start_ok c) as Hok. revert Hok. induction H as [|x y z Hst _ IH]; [done|].
  intros Hx. apply IH. by eapply node_step_ok.
Qed.

(** What the queue and the spool do not touch. *)
Definition rest_of (p : PDP) := (cfg p, engine p, pdp_revision p, issuedAt p, synced p).

Lemma rewrite_rest o p d : rest_of (rewriteSpoolLocked o p d).2.1 = rest_of p ∧ mark_file (rewriteSpoolLocked o p d).2.2 = mark_file d.
Proof. unfold rewriteSpoolLocked. by destruct (spool_bytes _), o. Qed.

Lemma record_rest io q p d : rest_of (record_decision io q p d).2.1 = rest_of p ∧ mark_file (record_decision io q p d).2.2 = mark_file d.
Proof.
  unfold record_decision, spoolDecision. case_decide; [|done]. destruct (spool p); [|done].
  destruct (spool_line q) as [line|]; [|done].
  assert (∀ n, rest_of (rewriteSpoolLocked (io_rewrite io) p (append_spool (string_take n line) d)).2.1 = rest_of p ∧
    mark_file (rewriteSpoolLocked (io_rewrite io) p (append_spool (string_take n line) d)).2.2 = mark_file d) as Hrw.
  { intros n. destruct (rewrite_rest (io_rewrite io) p (append_spool (string_take n line) d)) as [-> ->]. done. }
  destruct (io_stat io); [|done]. destruct (io_write io) as [|n|], (io_truncate io); try done.
  - specialize (Hrw n). by destruct (rewriteSpoolLocked _ _ _) as [? [? ?]].
  - specialize (Hrw (String.length line)). by destruct (rewriteSpoolLocked _ _ _) as [? [? ?]].
Qed.

Lemma sync_cfg now now' resp written p d : cfg (Sync now now' resp written p d).2.1 = cfg p.
Proof.
  unfold Sync. destruct resp as [|code body]; [done|]. case_decide; [by destruct (BundleKey _)|]. case_decide; [done|].
  destruct body as [b|]; [|done]. destruct (check_bundle _ _ _); [|done].
  assert (cfg (warn_unverified b p) = cfg p) as Hw by (unfold warn_unverified; by case_decide).
  by destruct (LoadBundle _ _).
Qed.

Lemma restore_cfg c readable o d pd r : RestoreSpool readable o (New c) d = (r, pd) → cfg pd.1 = config_defaults c.
Proof.
  unfold RestoreSpool, rewriteSpoolLocked. case_decide; [by intros [= <- <-]|]. case_decide; [by intros [= <- <-]|].
  destruct (restore_bytes _); [|by intros [= <- <-]]. destruct (loadIssuedAt _ _) as [t|]; [|by intros [= <- <-]].
  destruct (IsZero t); cbn [queue set_queue]; destruct (spool_bytes _), o; by intros [= <- <-].
Qed.

Lemma node_step_cfg n n' : node_step n n' → cfg (nd_pdp n') = cfg (nd_pdp n).
Proof.
  intros Hst. destruct Hst as [now p' H| | |io q pd Hq _ H|io q e pd Hq _ Hr H| |
    |o r pd Hs H|now now' resp written r pd H|c torn pd Hs Hc Ht H]; try done.
  - unfold reserve in H. case_decide; [done|]. case_decide; [done|]. by injection H as <-.
  - destruct (record_rest io q (nd_pdp n) (nd_disk n)) as [E _]. rewrite H in E. by injection E.
  - destruct (record_rest io q (nd_pdp n) (nd_disk n)) as [E _]. rewrite H in E. by injection E.
  - destruct (rewrite_rest o (nd_pdp n) (nd_disk n)) as [E _]. rewrite H in E. by injection E.
  - pose proof (sync_cfg now now' resp written (nd_pdp n) (nd_disk n)) as E. by rewrite H in E.
  - apply restore_cfg in H. by rewrite <-Hc.
Qed.

Lemma node_reach_cfg c n : rtc node_step (node_start c) n → cfg (nd_pdp n) = config_defaults c.
Proof.
  intros H. assert (cfg (nd_pdp (node_start c)) = config_defaults c) as E.
  { unfold node_start. cbn [nd_pdp]. destruct (RestoreSpool _ _ _ _) as [r pd] eqn:E. by apply restore_cfg in E. }
  revert E. induction H as [|x y z Hst _ IH]; [done|]. intros Hx. apply IH. rewrite <-Hx. by apply node_step_cfg.
Qed.

End node.

(** *** Witness *)

#[local] Existing Instance Toy.cedar.
#[local] Existing Instance Toy.spiffe.

Definition toy_ecdsa : Ecdsa := {|
  PrivateKey := (); PublicKey := (); is_p256 _ := true;
  SignASN1 _ _ := Some "signed"; VerifyASN1 _ _ sig := bool_decide (sig = "signed");
|}.
#[local] Existing Instance toy_ecdsa.

Definition get_ok {E A} (dflt : A) (r : result E A) : A := match r with Ok a => a | Err _ => dflt end.

Definition demo_config : Config := mkConfig 0 0 0 0 "td" None "/var/lib/omega/spool".

Definition demo_bundle : Bundle :=
  get_ok (mkBundle "" ∅ "" (mkBundleDirectory "" ∅ [] ∅) 0 "") (export_bundle media_engine).

(** An agent syncs, and answers one request. *)
Definition demo_synced : Node :=
  set_pdp (Sync 100 100 (Response 200 (Some demo_bundle)) true (nd_pdp (node_start demo_config)) (nd_disk (node_start demo_config))).2
    (node_start demo_config).

Definition demo_reserved : Node :=
  set_pdp (get_ok (nd_pdp demo_synced) (reserve 101 (nd_pdp demo_synced)), nd_disk demo_synced) demo_synced.

Definition demo_made : EvalResponse * queued :=
  get_ok (mkEvalResponse false None [], mkQueued "" "" "")
    (make_decision 101 101 "0123456789abcdef" read_request "" (nd_pdp demo_reserved)).

Definition demo_io : spool_io := mkSpoolIO true Written true Rewritten.

Definition demo_answered : Node :=
  let pd := (record_decision demo_io demo_made.2 (nd_pdp demo_reserved) (nd_disk demo_reserved)).2 in
  mkNode pd.1 pd.2 None [demo_made.2] [demo_made.2] [] [].

Lemma get_ok_eq {E A} (dflt : A) (r : result E A) : is_ok r = true → r = Ok (get_ok dflt r).
Proof. by destruct r. Qed.

Lemma pair_eq {A B C} (x : A * (B * C)) a : x.1 = a → x = (a, (x.2.1, x.2.2)).
Proof. destruct x as [? [? ?]]. by intros <-. Qed.

Lemma demo_answered_reached : rtc node_step (node_start demo_config) demo_answered.
Proof.
  apply (rtc_l _ _ demo_synced).
  { eapply step_sync. apply surjective_pairing. }
  apply (rtc_l _ _ demo_reserved).
  { apply (step_reserve _ 101), get_ok_eq. vm_compute. reflexivity. }
  apply (rtc_l _ _ (mkNode (nd_pdp demo_reserved) (nd_disk demo_reserved) (nd_ship demo_reserved) [demo_made.2] [] [] [])).
  { apply (step_make demo_reserved 101 101 "0123456789abcdef" read_request "" demo_made.1).
    - rewrite <-surjective_pairing. apply get_ok_eq. vm_compute. reflexivity.
    - apply (bool_decide_unpack _). vm_compute. reflexivity.
    - apply not_elem_of_nil. }
  apply rtc_once. unfold demo_answered. set (n := mkNode _ _ _ _ _ _ _).
  assert ((record_decision demo_io demo_made.2 (nd_pdp demo_reserved) (nd_disk demo_reserved)).1 = Ok tt) as E
    by (vm_compute; reflexivity).
  eapply (step_answer n demo_io demo_made.2).
  - by left.
  - vm_compute. reflexivity.
  - rewrite <-E. apply surjective_pairing.
Qed.


#[local] Notation demo_served :=
  (serve_evaluation 101 101 "0123456789abcdef" demo_io false ["r1"]
     (default "" (json_print <$> request_json read_request)) (nd_pdp demo_synced) (nd_disk demo_synced)).

