(* ===== verification/Trust.v ===== *)
(** * Trust

    What an agent decides from: with a bundle key, only bundles the control
    plane signed, for its own trust domain, fresh when they were loaded and
    loaded recently; and never, across restarts, one older than what it
    already has. *)
From S2P Require Import Prelude Crypto Json JsonParse JsonRaw Decode AuditKeyring Store Domains GoValue.
From S2P Require Import GoTime Base64 Cedar Directory Request Engine Bundle Wire Spool LocalPDP Node.

Section trust.
Context {spf : Spiffe} {cdr : Cedar} {ecd : Ecdsa}.

(** ** A sync *)

(** What a bundle had to pass at time [now], on an agent with a key that
    had loaded bundles up to [mark]. *)
Record admitted (key : PublicKey) (c : Config) (now mark : Z) (b : Bundle) : Prop := {
  ad_domain : bd_trust_domain (b_directory b) = cfgTrustDomain c ∧ cfgTrustDomain c ≠ "";
  ad_revision : CheckRevision b = Ok tt;
  ad_signature : VerifyBundle b key = true;
  ad_order : (mark - maxClockSkew <= b_issued_at b)%Z;
  ad_age : (TimeSub now (b_issued_at b) <= MaxAge c)%Z;
  ad_future : (TimeSub (b_issued_at b) now <= maxClockSkew)%Z;
}.

Lemma check_bundle_admitted now b p key :
  BundleKey (cfg p) = Some key → check_bundle now b p = Ok tt → admitted key (cfg p) now (issuedAt p) b.
Proof.
  intros Hk. unfold check_bundle, check_signed. case_decide as H1; [done|]. case_decide as H2; [done|]. rewrite Hk.
  destruct (CheckRevision b) as [[]|] eqn:Er; [|done]. destruct (VerifyBundle b key) eqn:Ev; [|done].
  case_decide; [done|]. case_decide; [done|]. case_decide; [done|]. intros _.
  split; first [done|lia].
Qed.

(** A sync that succeeds has loaded an admitted bundle; one that fails
    leaves what the agent decides from alone. *)
Lemma Sync_signed now now' resp written p d r p' d' key :
  BundleKey (cfg p) = Some key → Sync now now' resp written p d = (r, (p', d')) →
  (is_ok r = false ∧ engine p' = engine p ∧ synced p' = synced p ∧ issuedAt p' = issuedAt p ∧ mark_file d' = mark_file d) ∨
  (r = Ok tt ∧ ∃ b, resp = Response 200 (Some b) ∧ admitted key (cfg p) now (issuedAt p) b ∧
     LoadBundle b (engine p) = Ok (engine p') ∧ synced p' = now' ∧
     issuedAt p' = Z.max (issuedAt p) (Z.min now' (b_issued_at b)) ∧
     (d' = if decide (issuedAt p < issuedAt p')%Z then saveIssuedAt written (issuedAt p') p d else d)).
Proof.
  intros Hk. unfold Sync. destruct resp as [|code body]; [intros [= <- <- <-]; by left|].
  case_decide; [rewrite Hk; intros [= <- <- <-]; by left|]. case_decide as Hc; [intros [= <- <- <-]; by left|].
  destruct body as [b|]; [|intros [= <- <- <-]; by left].
  destruct (check_bundle now b p) as [[]|e] eqn:Ec; [|intros [= <- <- <-]; by left].
  assert (warn_unverified b p = p) as -> by (unfold warn_unverified; rewrite decide_False; [done|by rewrite Hk; intros [? _]]).
  destruct (LoadBundle b (engine p)) as [e|e] eqn:El; [|intros [= <- <- <-]; by left].
  intros [= <- <- <-]. right. split; [done|]. exists b. assert (code = 200%Z) as -> by (by destruct (decide (code = 200%Z))).
  set (mark := if decide (now' < b_issued_at b)%Z then now' else b_issued_at b).
  assert (mark = Z.min now' (b_issued_at b)) as Hm by (unfold mark; case_decide; lia).
  split_and!; [done|by apply check_bundle_admitted|done|done|..]; rewrite Hm; case_bool_decide; cbn [issuedAt].
  - lia.
  - lia.
  - by rewrite decide_True.
  - by rewrite decide_False by lia.
Qed.

(** ** Deciding *)

(** The agent has not synced since it started, or decides from a bundle
    that was admitted at [t] and loaded at the time of the last sync. *)
Definition trusted (key : PublicKey) (p : PDP) : Prop :=
  synced p = zero_time ∨
  ∃ b e t mark, LoadBundle b e = Ok (engine p) ∧ admitted key (cfg p) t mark b.

Lemma restored_synced c readable o d pd r : RestoreSpool readable o (New c) d = (r, pd) → synced pd.1 = zero_time.
Proof.
  unfold RestoreSpool, rewriteSpoolLocked. case_decide; [by intros [= <- <-]|]. case_decide; [by intros [= <- <-]|].
  destruct (restore_bytes _); [|by intros [= <- <-]]. destruct (loadIssuedAt _ _) as [t|]; [|by intros [= <- <-]].
  destruct (IsZero t); cbn [queue set_queue]; destruct (spool_bytes _), o; by intros [= <- <-].
Qed.

(** What a step changes of the agent, besides its queue and its spool. *)
Lemma node_step_trust n n' :
  node_step n n' →
  (engine (nd_pdp n') = engine (nd_pdp n) ∧ synced (nd_pdp n') = synced (nd_pdp n)) ∨
  (∃ now now' resp written r pd, Sync now now' resp written (nd_pdp n) (nd_disk n) = (r, pd) ∧ nd_pdp n' = pd.1) ∨
  synced (nd_pdp n') = zero_time.
Proof.
  intros Hst. destruct Hst as [now p' H| | |io q pd Hq _ H|io q e pd Hq _ Hr H| |
    |o r pd Hs H|now now' resp written r pd H|c torn pd Hs Hc Ht H]; try by left.
  - left. unfold reserve in H. case_decide; [done|]. case_decide; [done|]. by injection H as <-.
  - left. destruct (record_rest io q (nd_pdp n) (nd_disk n)) as [E _]. rewrite H in E. by injection E.
  - left. destruct (record_rest io q (nd_pdp n) (nd_disk n)) as [E _]. rewrite H in E. by injection E.
  - left. destruct (rewrite_rest o (nd_pdp n) (nd_disk n)) as [E _]. rewrite H in E. by injection E.
  - right. left. by eexists _, _, _, _, _, _.
  - right. right. by eapply restored_synced.
Qed.

Lemma trusted_step key n n' :
  BundleKey (cfg (nd_pdp n)) = Some key → node_step n n' → trusted key (nd_pdp n) → trusted key (nd_pdp n').
Proof.
  intros Hk Hst Ht. pose proof (node_step_cfg _ _ Hst) as Hc. unfold trusted. rewrite Hc.
  apply node_step_trust in Hst as [[-> ->]|[(now & now' & resp & w & r & [p' d'] & H & Hp)|Hz]]; [done| |by left].
  rewrite Hp. cbn [fst]. apply (Sync_signed _ _ _ _ _ _ _ _ _ key Hk) in H as
    [(_ & -> & -> & _)|(_ & b & _ & Had & Hl & _)]; [done|]. right. by eexists _, _, _, _.
Qed.

Lemma trusted_reach c n key : BundleKey c = Some key → rtc node_step (node_start c) n → trusted key (nd_pdp n).
Proof.
  intros Hk Hst. assert (cfg (nd_pdp (node_start c)) = config_defaults c ∧ trusted key (nd_pdp (node_start c))) as [Hc Ht].
  { unfold node_start. cbn [nd_pdp]. destruct (RestoreSpool _ _ _ _) as [r pd] eqn:E. split; [by eapply restore_cfg|].
    left. by eapply restored_synced. }
  revert Hc Ht. induction Hst as [|x y z Hxy _ IH]; [done|]. intros Hc Ht. apply IH.
  - rewrite <-Hc. by apply node_step_cfg.
  - eapply trusted_step; [|done|done]. by rewrite Hc.
Qed.

(** C20. An agent with a bundle key takes a decision only from a bundle that
    carries the control plane's signature over its content, is for the
    agent's trust domain, and was at most [MaxAge] old when it was checked;
    and only within [MaxAge] of the sync that loaded it. Unsigned answers
    do not count as syncs. *)
Theorem decides_from_signed_bundle c n key now p' :
  BundleKey c = Some key → rtc node_step (node_start c) n → reserve now (nd_pdp n) = Ok p' →
  ∃ b e t mark, LoadBundle b e = Ok (engine (nd_pdp n)) ∧ admitted key (config_defaults c) t mark b ∧
    (TimeSub now (synced (nd_pdp n)) <= MaxAge (config_defaults c))%Z.
Proof.
  intros Hk Hst Hr. pose proof (node_reach_cfg c n Hst) as Hc. unfold reserve in Hr. rewrite Hc in Hr.
  case_decide as Hd; [done|]. destruct (trusted_reach c n key Hk Hst) as [Hz|(b & e & t & mark & Hl & Ha)].
  - exfalso. apply Hd. left. by rewrite Hz.
  - rewrite Hc in Ha. exists b, e, t, mark. split_and!; [done|done|]. destruct (decide (MaxAge (config_defaults c) < TimeSub now (synced (nd_pdp n))))%Z; [tauto|lia].
Qed.

(** ** Replays *)

(** The mark on disk is the agent's. *)
Definition marked (p : PDP) (d : Disk) : Prop :=
  (issuedAt p = zero_time ∧ mark_file d = None) ∨ (json_year (issuedAt p) ∧ mark_file d = Some (format_time (issuedAt p))).

Lemma marked_sync key now now' b p d p1 d1 :
  BundleKey (cfg p) = Some key → SpoolPath (cfg p) ≠ "" → marked p d → json_year (Z.min now' (b_issued_at b)) →
  Sync now now' (Response 200 (Some b)) true p d = (Ok tt, (p1, d1)) → marked p1 d1.
Proof.
  intros Hk Hs Hm Hy H. apply (Sync_signed _ _ _ _ _ _ _ _ _ key Hk) in H as [[? _]|(_ & b' & [= <-] & _ & _ & _ & Hi & ->)]; [done|].
  case_decide as Hlt.
  - right. unfold saveIssuedAt. rewrite decide_True by done. cbn [mark_file]. split; [|done].
    assert (issuedAt p1 = Z.min now' (b_issued_at b)) as -> by lia. done.
  - assert (issuedAt p1 = issuedAt p) as E by lia. unfold marked. by rewrite E.
Qed.

(** A restarted agent has the mark it had. *)
Lemma marked_restart c p d d2 p2 d3 :
  marked p d → SpoolPath (config_defaults c) ≠ "" → mark_file d2 = mark_file d →
  RestoreSpool true Rewritten (New c) d2 = (Ok tt, (p2, d3)) → issuedAt p2 = issuedAt p.
Proof.
  intros Hm Hs Hf H. unfold RestoreSpool in H. cbn [cfg New] in H. rewrite decide_False in H by done.
  rewrite decide_False in H by (by intros [? _]). destruct (restore_bytes _) as [l|]; [|done].
  assert (loadIssuedAt true d2 = Ok (issuedAt p)) as E.
  { unfold loadIssuedAt. rewrite Hf. destruct Hm as [[-> ->]|[Hy ->]]; [done|]. by rewrite TrimSpace_time, parse_format_time. }
  rewrite E in H. unfold rewriteSpoolLocked in H. destruct (spool_bytes _); [|done]. injection H as <- _. cbn.
  destruct (IsZero (issuedAt p)) eqn:Ez; [|done]. cbn. unfold IsZero in Ez. by apply bool_decide_eq_true in Ez.
Qed.


End trust.

(** *** Witnesses *)

#[local] Existing Instance Toy.cedar.
#[local] Existing Instance Toy.spiffe.
#[local] Existing Instance toy_ecdsa.

Definition signed_config : Config := mkConfig 0 0 0 0 "td" (Some tt) "/var/lib/omega/spool".

(** A bundle signed one hour after the epoch. *)
Definition signed_bundle : Bundle :=
  match SignBundleAt demo_bundle tt Hour with Some b => b | None => demo_bundle end.

#[local] Notation signed_run :=
  (Sync Hour (Hour + 1) (Response 200 (Some signed_bundle)) true (nd_pdp (node_start signed_config)) (nd_disk (node_start signed_config))).

Lemma decides_from_signed_bundle_witness :
  ∃ b e t mark, LoadBundle b e = Ok (engine signed_run.2.1) ∧ admitted tt (config_defaults signed_config) t mark b.
Proof.
  set (n := set_pdp signed_run.2 (node_start signed_config)).
  assert (is_ok (reserve (Hour + Second) (nd_pdp n)) = true) as [p' Hp]%is_ok_Ok by (vm_compute; reflexivity).
  destruct (decides_from_signed_bundle signed_config n tt (Hour + Second)%Z p') as (b & e & t & mark & Hl & Ha & _).
  - reflexivity.
  - apply rtc_once. eapply step_sync. apply surjective_pairing.
  - exact Hp.
  - exists b, e, t, mark. split; [exact Hl|exact Ha].
Defined.

