(* ===== verification/Refusals.v ===== *)
(** * Refusals

    The limiter of audited refusals (internal/server/api/uiproxy.go): one
    row per caller, kind and route in a window, with the refusals between
    two rows counted in the second. *)
From S2P Require Import Prelude.

Definition refusalAuditWindow : Z := Minute.
Definition refusalMaxCallers : nat := Z.to_nat 10000.

Record refusalState := mkRefusalState {
  until : Z;
  suppressed : Z;
}.

Record refusalLimiter := mkLimiter {
  rl_window : Z;
  callers : gmap string refusalState;
  rl_max : nat;
  pruned : Z;
  warned : Z;
}.

Definition newRefusalLimiter (window : Z) : refusalLimiter := mkLimiter window ∅ refusalMaxCallers zero_time zero_time.

Definition set_callers (m : gmap string refusalState) (l : refusalLimiter) : refusalLimiter :=
  mkLimiter (rl_window l) m (rl_max l) (pruned l) (warned l).

(** At most one sweep a window of the entries whose window is over. *)
Definition sweep (now : Z) (l : refusalLimiter) : refusalLimiter :=
  if decide (rl_window l <= TimeSub now (pruned l))%Z
  then mkLimiter (rl_window l) (filter (λ kv, (now < until kv.2)%Z) (callers l)) (rl_max l) now (warned l)
  else l.

Definition warn (now : Z) (l : refusalLimiter) : refusalLimiter :=
  if decide (rl_window l <= TimeSub now (warned l))%Z
  then mkLimiter (rl_window l) (callers l) (rl_max l) (pruned l) now else l.

(** Opens a window for a caller. *)
Definition track (caller : string) (now : Z) (l : refusalLimiter) : refusalLimiter :=
  set_callers (<[caller := mkRefusalState (now + rl_window l) 0]> (callers l)) l.

Definition allow (caller : string) (now : Z) (l : refusalLimiter) : bool * Z * refusalLimiter :=
  match callers l !! caller with
  | Some st =>
      if decide (now < until st)%Z
      then (false, 0%Z, set_callers (<[caller := mkRefusalState (until st) (suppressed st + 1)]> (callers l)) l)
      else (true, suppressed st, track caller now l)
  | None =>
      if decide (size (callers l) < rl_max l) then (true, 0%Z, track caller now l)
      else
        let l := sweep now l in
        if decide (size (callers l) < rl_max l) then (true, 0%Z, track caller now l)
        else (true, 0%Z, warn now l)
  end.

Definition unrecorded (caller : string) (n : Z) (retry : bool) (l : refusalLimiter) : refusalLimiter :=
  match callers l !! caller with
  | Some st =>
      set_callers (<[caller := mkRefusalState (if retry then zero_time else until st) (suppressed st + n)]> (callers l)) l
  | None => l
  end.

(** One refusal as [delegate] handles it, with what became of its row;
    the result is the number of refusals the row speaks for. *)
Definition refuse_once (caller : string) (now : Z) (appended retry : bool) (l : refusalLimiter) : Z * refusalLimiter :=
  let '(ok, n, l) := allow caller now l in
  if (ok : bool) then
    if appended then ((n + 1)%Z, l) else (0%Z, unrecorded caller (n + 1) retry l)
  else (0%Z, l).

(** ** Every refusal is spoken for *)

Record refusal := mkRefusal {
  rf_caller : string;
  rf_now : Z;
  rf_appended : bool;
  rf_retry : bool;
}.

(** What the rows of a caller speak for in a run, and the limiter after it. *)
Fixpoint refusals_run (k : string) (l : refusalLimiter) (evs : list refusal) : Z * refusalLimiter :=
  match evs with
  | [] => (0%Z, l)
  | ev :: evs' =>
      let '(n, l') := refuse_once (rf_caller ev) (rf_now ev) (rf_appended ev) (rf_retry ev) l in
      let '(m, l'') := refusals_run k l' evs' in
      ((if decide (rf_caller ev = k) then n else 0) + m, l'')%Z
  end.

Definition waiting (k : string) (l : refusalLimiter) : Z := default 0%Z (suppressed <$> callers l !! k).

Definition refusals_of (k : string) (evs : list refusal) : Z :=
  Z.of_nat (length (filter (λ ev, rf_caller ev = k) evs)).

Lemma waiting_insert k c st m l :
  waiting k (set_callers (<[c := st]> m) l) = if decide (c = k) then suppressed st else default 0%Z (suppressed <$> m !! k).
Proof. unfold waiting. cbn. case_decide; [subst; by rewrite lookup_insert_eq|by rewrite lookup_insert_ne]. Qed.

(** Counting one refusal of a caller that has, or can get, an entry. *)
Lemma refuse_once_counts c now ap re l n l' :
  is_Some (callers l !! c) ∨ size (callers l) < rl_max l →
  refuse_once c now ap re l = (n, l') →
  rl_max l' = rl_max l ∧ dom (callers l') = {[c]} ∪ dom (callers l) ∧
  ∀ k, ((if decide (c = k) then n else 0) + waiting k l' = (if decide (c = k) then 1 else 0) + waiting k l)%Z.
Proof.
  intros Hroom. unfold refuse_once, allow, track, unrecorded.
  destruct (callers l !! c) as [st|] eqn:E.
  - case_decide; [|destruct ap; cbn [callers set_callers]; try rewrite lookup_insert_eq]; intros [= <- <-]; cbn [rl_max callers set_callers].
    all: split_and!; [done|set_solver|]. all: intros k; rewrite !waiting_insert; unfold waiting.
    all: case_decide; [subst k; rewrite E; cbn; lia|rewrite ?lookup_insert_ne by done; lia].
  - destruct Hroom as [[? [=]]|Hs]. rewrite decide_True by done.
    destruct ap; cbn [callers set_callers]; try rewrite lookup_insert_eq; intros [= <- <-]; cbn [rl_max callers set_callers].
    all: split_and!; [done|set_solver|]. all: intros k; rewrite !waiting_insert; unfold waiting.
    all: case_decide; [subst k; rewrite E; cbn; lia|rewrite ?lookup_insert_ne by done; lia].
Qed.

Lemma refusals_counted k evs : ∀ l,
  size (dom (callers l) ∪ list_to_set (rf_caller <$> evs)) ≤ rl_max l →
  ((refusals_run k l evs).1 + waiting k (refusals_run k l evs).2 = refusals_of k evs + waiting k l)%Z.
Proof.
  induction evs as [|ev evs IH]; intros l Hs; [done|]. cbn [refusals_run].
  destruct (refuse_once _ _ _ _ l) as [n l'] eqn:E.
  assert (is_Some (callers l !! rf_caller ev) ∨ size (callers l) < rl_max l) as Hroom.
  { destruct (callers l !! rf_caller ev) eqn:El; [by left; eauto|]. right.
    rewrite <-size_dom. eapply Nat.lt_le_trans; [|exact Hs]. apply subset_size. cbn. apply not_elem_of_dom in El. set_solver. }
  destruct (refuse_once_counts _ _ _ _ _ _ _ Hroom E) as (Hm & Hd & Hc). specialize (Hc k).
  assert (size (dom (callers l') ∪ list_to_set (rf_caller <$> evs)) ≤ rl_max l') as Hs'.
  { rewrite Hm, Hd. etrans; [|exact Hs]. apply subseteq_size. cbn. set_solver. }
  specialize (IH l' Hs'). destruct (refusals_run k l' evs) as [m l''] eqn:E'. cbn in *.
  unfold refusals_of in *. rewrite filter_cons. case_decide; cbn [length]; lia.
Qed.

(** C38. No refusal goes uncounted: while no more callers, kinds and routes
    are tracked than the limiter holds, the rows written for each of them
    and the count kept for its next row add up to the refusals it had,
    whatever rows could not be written. *)
Theorem refusals_accounted window k evs :
  size (list_to_set (rf_caller <$> evs) : gset string) ≤ refusalMaxCallers →
  ((refusals_run k (newRefusalLimiter window) evs).1 + waiting k (refusals_run k (newRefusalLimiter window) evs).2 =
   refusals_of k evs)%Z.
Proof.
  intros Hs. rewrite refusals_counted.
  - unfold waiting. cbn. rewrite lookup_empty. cbn. lia.
  - cbn. rewrite dom_empty_L. by rewrite (left_id_L ∅ (∪)).
Qed.

(** *** Witness *)

(** The second refusal falls into the window of the first, the third
    writes the row for both. *)
Lemma refusals_accounted_witness :
  let evs := [mkRefusal "p" 0 true true; mkRefusal "p" Second true true; mkRefusal "p" Minute true true] in
  (refusals_run "p" (newRefusalLimiter refusalAuditWindow) evs).1 = 3%Z ∧
  ((refusals_run "p" (newRefusalLimiter refusalAuditWindow) evs).1 +
   waiting "p" (refusals_run "p" (newRefusalLimiter refusalAuditWindow) evs).2 = refusals_of "p" evs)%Z.
Proof.
  split; [by vm_compute|]. apply refusals_accounted. apply (bool_decide_unpack _). vm_compute. exact I.
Defined.
