(* ===== verification/Http.v ===== *)
(** * Http

    The server around its handlers (internal/server/api/http.go, auth.go,
    domains.go, policies.go): its state, requests and replies, caller
    authentication, the audit helpers, and the reload of the directory and
    the stored policies into the engine. A handler runs in the monad [HM],
    in which answering ends the handler. *)
From S2P Require Import Prelude Crypto Json JsonParse JsonRaw Decode AuditKeyring Store Domains AuditChain Groups.
From S2P Require Import Policies Scim GoValue GoTime Cedar Directory Request Engine Bundle Wire Refusals.

(** ** Settings *)

Record UIProxyConfig := mkUIProxyConfig {
  Proxies : list string;
  Audience : string;
  MaxTokenTTL : Z;
}.

(** The settings of [Server] that handlers read; [trustDomain] is what
    [s.ca.TrustDomain()] reports, empty for the zero one. *)
Record Server := mkServer {
  requireAuth : bool;
  decisionRecorders : list string;
  rootAdmins : list string;
  trustDomain : string;
  entityStoreSearch : bool;
  uiProxy : UIProxyConfig;
}.

Definition maxJSONBodyBytes : Z := 1048576.

(** [strings.HasSuffix]. *)
Definition HasSuffix (s p : string) : bool := bool_decide (string_drop (String.length s - String.length p) s = p).

Definition mayRecordDecisions (s : Server) (caller : string) : bool :=
  if decide (requireAuth s = false ∨ caller = "") then false
  else existsb (λ r, bool_decide (caller = r) || (HasSuffix r "/" && HasPrefix caller r)) (decisionRecorders s).

(** ** Requests *)

(** What handlers read of a request. [r_tls] holds the verified chains of
    the connection, a certificate being the list of its URIs; [r_caller]
    and [r_via] are the context values [authenticate] sets. *)
Record HttpRequest := mkHttpRequest {
  r_tls : option (list (list (list (option uri))));
  r_userTokens : option (list string);
  r_pattern : string;
  r_path : gmap string string;
  r_query : gmap string string;
  r_ifMatch : string;
  r_ifNoneMatch : string;
  r_requestIDs : list string;
  r_broken : bool;
  r_body : string;
  r_caller : string;
  r_via : string;
}.

Definition PathValue (r : HttpRequest) (k : string) : string := default "" (r_path r !! k).
Definition Query (r : HttpRequest) (k : string) : string := default "" (r_query r !! k).

Definition with_caller (caller via : string) (r : HttpRequest) : HttpRequest :=
  mkHttpRequest (r_tls r) (r_userTokens r) (r_pattern r) (r_path r) (r_query r) (r_ifMatch r) (r_ifNoneMatch r)
    (r_requestIDs r) (r_broken r) (r_body r) caller via.

Definition rq_of (r : HttpRequest) : requester := mkRequester (r_caller r) (r_via r).

(** ** Replies *)

(** What an error answer says. *)
Inductive failure :=
| FStore (e : error)
| FLoad (e : load_error)
| FRequest (e : request_error)
| FText (msg : string)
| FAbout (msg value : string)
| FAt (i : nat) (f : failure)
| FReverted (kind : string)
| FRevertUnrecorded (kind : string)
| FRevertFailed (kind : string) (e : error).

Record PolicyView := mkPolicyView {
  pv_id : string;
  pv_source : string;
  pv_text : string;
  pv_digest : string;
  pv_version : Z;
  pv_etag : string;
  pv_created_by : string;
  pv_created_at : Z;
  pv_updated_by : string;
  pv_updated_at : Z;
}.

Inductive content :=
| Nothing
| Failed (f : failure)
| ShowDomain (d : Domain)
| ShowDomains (l : list Domain)
| ShowGroup (g : Group)
| ShowGroups (l : list Group)
| ShowPolicy (v : PolicyView)
| ShowPolicies (l : list PolicyView)
| ShowValidation (ids : list string)
| ShowDecision (r : EvalResponse)
| ShowDecisions (l : list EvalResponse)
| ShowEntities (l : list Entity) (next : string)
| ShowActions (l : list string) (next : string)
| ShowEvents (l : list AuditEvent)
| ShowVerification (v : AuditVerification)
| ShowRecorded (n : option Z)
| ShowBundle (b : Bundle)
| ShowLeader (is_leader : bool).

Record HttpReply := mkHttp {
  status : Z;
  shown : content;
}.

(** ** The server's state *)

Section http.
Context {spf : Spiffe} {cdr : Cedar}.

(** The store, the stores at the reads to come when others write to it
    meanwhile, the engine, [domainState] and the limiter of refusals. *)
Record Api := mkApi {
  ap_store : Store;
  ap_later : list Store;
  ap_engine : Engine;
  loadedAt : Z;
  interval : Z;
  broken : bool;
  ap_refusals : refusalLimiter;
}.

Definition set_store (s : Store) (a : Api) : Api :=
  mkApi s (ap_later a) (ap_engine a) (loadedAt a) (interval a) (broken a) (ap_refusals a).
Definition set_engine (e : Engine) (a : Api) : Api :=
  mkApi (ap_store a) (ap_later a) e (loadedAt a) (interval a) (broken a) (ap_refusals a).
Definition set_broken (b : bool) (a : Api) : Api :=
  mkApi (ap_store a) (ap_later a) (ap_engine a) (loadedAt a) (interval a) b (ap_refusals a).
Definition set_loadedAt (t : Z) (a : Api) : Api :=
  mkApi (ap_store a) (ap_later a) (ap_engine a) t (interval a) (broken a) (ap_refusals a).
Definition set_interval (d : Z) (a : Api) : Api :=
  mkApi (ap_store a) (ap_later a) (ap_engine a) (loadedAt a) d (broken a) (ap_refusals a).
Definition set_refusals (l : refusalLimiter) (a : Api) : Api :=
  mkApi (ap_store a) (ap_later a) (ap_engine a) (loadedAt a) (interval a) (broken a) l.

(** A store method, and reads that others write between. *)
Definition on_store {A} (m : M A) : GoM Api A := λ '(a, q),
  let '(r, (s, q')) := m (ap_store a, q) in (r, (set_store s a, q')).

Definition on_reads {A} (m : GoM (Store * list Store) A) : GoM Api A := λ '(a, q),
  let '(r, ((s, l), q')) := m ((ap_store a, ap_later a), q) in
  (r, (mkApi s l (ap_engine a) (loadedAt a) (interval a) (broken a) (ap_refusals a), q')).

(** *** Handlers *)

(** An [Err] is the reply a handler has written before it returned. *)
Definition HM (A : Type) : Type := Api * faults → result HttpReply A * (Api * faults).

#[global] Instance HM_ret : MRet HM := λ A a w, (Ok a, w).
#[global] Instance HM_bind : MBind HM := λ A B f m w,
  match m w with
  | (Ok a, w') => f a w'
  | (Err e, w') => (Err e, w')
  end.

Definition reply_with {A} (r : HttpReply) : HM A := λ w, (Err r, w).
Definition writeErr {A} (code : Z) (f : failure) : HM A := reply_with (mkHttp code (Failed f)).

(** A call that may fail, with its error as a value. *)
Definition call {A} (m : GoM Api A) : HM (result error A) := λ w,
  let '(r, w') := m w in (Ok r, w').

Definition peek {A} (f : Api → A) : HM A := λ w, (Ok (f w.1), w).

(** The reply of a handler and the state it leaves. *)
Definition serve (h : HM HttpReply) (w : Api * faults) : HttpReply * (Api * faults) :=
  match h w with (Ok r, w') | (Err r, w') => (r, w') end.

Definition decodeJSONBody {A} (dec : decoder A) (zero : A) (r : HttpRequest) : HM A :=
  match body_value maxJSONBodyBytes (r_broken r) (r_body r) with
  | Err c => writeErr c (FText "invalid JSON body")
  | Ok raw =>
      match dec raw zero with
      | None => writeErr 400 (FText "invalid JSON body")
      | Some x => mret x
      end
  end.

(** ** Callers *)

Definition spiffeIDFromTLS (cs : option (list (list (list (option uri))))) : result failure string :=
  match cs with
  | Some ((leaf :: _) :: _) =>
      match leaf with
      | [Some u] =>
          if decide (uri_scheme u = "spiffe") then
            match FromURI u with
            | Some id => Ok (id_string id)
            | None => Err (FText "client certificate SPIFFE ID")
            end
          else Err (FText "client certificate URI SAN is not a spiffe:// id")
      | [None] => Err (FText "client certificate URI SAN is not a spiffe:// id")
      | _ => Err (FText "client certificate must have exactly one URI SAN")
      end
  | _ => Err (FText "verified client certificate required")
  end.

Definition hideAdmins (sv : Server) (r : HttpRequest) : bool :=
  requireAuth sv && match spiffeIDFromTLS (r_tls r) with Ok _ => false | Err _ => true end.

(** ** The audit helpers *)

Definition appendAudit (now : Z) (ev : AuditEvent) : GoM Api () := on_store (AppendAudit now ev) ;; mret tt.

(** [s.audit]: a failure is only logged. *)
Definition audit (now : Z) (ev : AuditEvent) : HM () := call (appendAudit now ev) ;; mret tt.

(** [mustJSON], of a value [json.Marshal] may refuse. *)
Definition mustJSON (v : option json) : string := match v with Some j => json_print j | None => "{}" end.

(** ** Gates *)

Definition leaderOnly (h : HttpRequest → HM HttpReply) (r : HttpRequest) : HM HttpReply :=
  ok ← peek (λ a, IsLeader (ap_store a));
  if (ok : bool) then h r else writeErr 503 (FStore ErrNotLeader).

End http.
