(* ===== verification/Auth.v ===== *)
(** * Auth

    Who a request comes from (internal/server/api/auth.go, uiproxy.go):
    the identity of the client's certificate, or the person a trusted
    proxy presents a user token for. *)
From Stdlib Require Import SpecFloat.
From S2P Require Import Prelude Crypto Json JsonParse JsonRaw Decode AuditKeyring Store Domains AuditChain Groups.
From S2P Require Import Policies Scim GoValue GoTime Cedar Directory Request Engine Bundle Wire Refusals Http.

Definition DefaultUIProxyAudience : string := "omega-ui".
Definition DefaultUIProxyMaxTokenTTL : Z := Hour.

(** The settings as [WithUIProxies] keeps them. *)
Definition WithUIProxies (c : UIProxyConfig) : UIProxyConfig :=
  mkUIProxyConfig (Proxies c) (if decide (Audience c = "") then DefaultUIProxyAudience else Audience c)
    (if decide (MaxTokenTTL c <= 0)%Z then DefaultUIProxyMaxTokenTTL else MaxTokenTTL c).

(** ** Tokens *)

(** Why the identity source refuses a token. *)
Inductive jwt_error := JwtExpired | JwtBadSignature | JwtOther.

(** go-jose's parser, and the identity source's [ParseJWTSVIDClaims], which
    checks a token's signature and times at [now]. *)
Class Tokens := {
  ParseSigned : string → bool;
  ParseJWTSVIDClaims : Z → string → result jwt_error (SpiffeID * anymap);
}.

Fixpoint claim (name : string) (claims : anymap) : option any :=
  match claims with
  | [] => None
  | (k, v) :: claims' => if decide (k = name) then Some v else claim name claims'
  end.

(** [int64(x)] of a [float64]: towards zero, and the least number when the
    result does not fit, as on amd64. *)
Definition int64_of_float (x : float64) : Z :=
  match x with
  | S754_zero _ => 0
  | S754_finite s m e =>
      let q := if decide (0 <= e)%Z then (Zpos m * 2 ^ e)%Z else (Zpos m `div` 2 ^ (- e))%Z in
      let v := if s then (- q)%Z else q in
      if decide (in_int64 v) then v else (- two63)%Z
  | _ => (- two63)%Z
  end.

(** [time.Unix(sec, 0)], whose seconds since year 1 wrap around. *)
Definition unix_seconds (sec : Z) : Z := ((wrap64 (sec + 62135596800) - 62135596800) * Second)%Z.

Definition claimNumericDate (claims : anymap) (name : string) : option Z :=
  match claim name claims with
  | Some (AFloat x) => Some (unix_seconds (int64_of_float x))
  | Some (AInt z) => Some (unix_seconds z)
  | _ => None
  end.

Definition claimExpiry (claims : anymap) : option Z := claimNumericDate claims "exp".

Definition audienceValues (v : option any) : list string :=
  match v with
  | Some (AStr s) => if decide (s = "") then [] else [s]
  | Some (AArr l) => omap (λ x, match x with AStr s => if decide (s = "") then None else Some s | _ => None end) l
  | Some (AStrs l) => l
  | _ => []
  end.

(** A user token's subject, or the kind of its refusal. [now] is the time
    the source checks the token at, [now'] the time of the check here. *)
Definition verifyUserToken `{Tokens} (c : UIProxyConfig) (now now' : Z) (token : string) : result string string :=
  if negb (ParseSigned token) then Err "malformed"
  else
    match ParseJWTSVIDClaims now token with
    | Err JwtExpired => Err "expired"
    | Err JwtBadSignature => Err "signature"
    | Err JwtOther => Err "unverified"
    | Ok (id, claims) =>
        if decide (audienceValues (claim "aud" claims) ≠ [Audience c]) then Err "audience"
        else
          match claimExpiry claims, claimNumericDate claims "iat" with
          | Some exp, Some iat =>
              if decide (exp <= now')%Z then Err "expired"
              else if decide (MaxTokenTTL c < TimeSub exp iat)%Z then Err "lifetime"
              else
                match claim "cnf" claims with
                | Some _ => Err "cnf"
                | None =>
                    match claim "act" claims with
                    | Some (AMap act) =>
                        match claim "kind" act with
                        | Some (AStr k) =>
                            if decide (k = "oidc-idp") then
                              match claim "act" act with Some _ => Err "act-chain" | None => Ok (id_string id) end
                            else Err "act"
                        | _ => Err "act"
                        end
                    | _ => Err "act"
                    end
                end
          | _, _ => Err "times"
          end
    end.

(** ** Callers *)

Section auth.
Context {spf : Spiffe} {cdr : Cedar} {tok : Tokens}.

(** The limiter's verdict on a refusal. *)
Definition ask_limiter (key : string) (now : Z) : HM (bool * Z) := λ w,
  let '(ok, n, l) := allow key now (ap_refusals w.1) in (Ok (ok, n), (set_refusals l w.1, w.2)).

Definition keep_unrecorded (key : string) (n : Z) (retry : bool) : HM () := λ w,
  (Ok tt, (set_refusals (unrecorded key n retry (ap_refusals w.1)) w.1, w.2)).

(** [refuse] of [delegate]: [clk 0] is the time it asks the limiter, [clk 1]
    that of the row. *)
Definition refuse {A} (clk : nat → Z) (r : HttpRequest) (proxy : string) (code : Z) (kind : string) (f : failure)
    (reason : string) : HM A :=
  let key := proxy +:+ String "000" (kind +:+ String "000" (r_pattern r)) in
  '(ok, n) ← ask_limiter key (clk 0);
  (if (ok : bool) then
     res ← call (appendAudit (clk 1) (new_event "ui_proxy.delegate" proxy "" "deny"
             (Some (json_print (JObj ([("reason", JStr reason); ("route", JStr (r_pattern r))] ++
                                      omit_empty (bool_decide (n <= 0)%Z) ("suppressed", JInt n)))))));
     match res with
     | Ok _ => mret tt
     | Err e => keep_unrecorded key (n + 1) (bool_decide (e ≠ ErrNotLeader))
     end
   else mret tt) ;;
  writeErr code f.

(** [reason] is the text of a refusal of the token itself. *)
Definition delegate (sv : Server) (clk : nat → Z) (reason : string → string) (r : HttpRequest) (proxy : string)
    (delegable : bool) (values : list string) : HM string :=
  if decide (proxy ∉ Proxies (uiProxy sv))
  then refuse clk r proxy 403 "not-proxy" (FText "caller is not a --ui-proxy and may not present Omega-User-Token")
         "caller is not a --ui-proxy and may not present Omega-User-Token"
  else if negb delegable
  then refuse clk r proxy 403 "route" (FText "this endpoint does not accept Omega-User-Token")
         "this endpoint does not accept Omega-User-Token"
  else
    match values with
    | [token] =>
        if decide (token = "")
        then refuse clk r proxy 401 "header" (FText "Omega-User-Token must hold exactly one token")
               "Omega-User-Token must hold exactly one token"
        else
          match verifyUserToken (uiProxy sv) (clk 2) (clk 3) token with
          | Ok user => mret user
          | Err kind => refuse clk r proxy 401 ("token-" +:+ kind) (FAbout "Omega-User-Token" kind) (reason token)
          end
    | _ =>
        refuse clk r proxy 401 "header" (FText "Omega-User-Token must hold exactly one token")
          "Omega-User-Token must hold exactly one token"
    end.

Definition authenticate (sv : Server) (clk : nat → Z) (reason : string → string) (delegable : bool)
    (h : HttpRequest → HM HttpReply) (r : HttpRequest) : HM HttpReply :=
  if negb (requireAuth sv) then h r
  else
    match spiffeIDFromTLS (r_tls r) with
    | Err f => writeErr 401 f
    | Ok id =>
        match r_userTokens r with
        | None => h (with_caller id "" r)
        | Some values =>
            user ← delegate sv clk reason r id delegable values;
            if decide (user = "") then mret (mkHttp 200 Nothing) else h (with_caller user id r)
        end
    end.

Definition requireSPIFFEAuth (sv : Server) (clk : nat → Z) (reason : string → string) := authenticate sv clk reason false.
Definition requireUserAuth (sv : Server) (clk : nat → Z) (reason : string → string) := authenticate sv clk reason true.

(** [authorizeIssuance]: the SVID a caller may ask for is its own. *)
Definition authorizeIssuance (sv : Server) (r : HttpRequest) (requested : string) : HM () :=
  if negb (requireAuth sv) then mret tt
  else if decide (r_caller r = "") then writeErr 401 (FText "authenticated client certificate required")
  else if decide (r_caller r = requested) then mret tt
  else writeErr 403 (FAbout "caller may not issue an SVID for a different identity" requested).

End auth.
