(* ===== verification/Reload.v ===== *)
(** * Reload

    Reloading the directory and the stored policies into the engine
    (internal/server/api/domains.go, policies.go): what is projected, when
    the loaded state counts as stale, and that it is the store's whenever a
    policy evaluating route is served. *)
From S2P Require Import Prelude Crypto Json AuditKeyring Store Domains AuditChain Groups.
From S2P Require Import Policies Scim GoValue Cedar Directory Request Engine Http.

Definition directoryStaleAfter : Z := 3.

(** [ErrStoredPolicySet]. *)
Definition errStoredPolicySet : error := ErrMsg "stored policy set does not load".

(** The tree [RefreshDirectory] projects: parents are derived from the
    names, and rows with an invalid name are left out. *)
Definition project_domains (items : list Domain) : gmap string string :=
  foldl (λ tree d, match ValidateDomainName (Name d) with
                   | Some _ => tree
                   | None => <[Name d := ParentOf (Name d)]> tree
                   end) ∅ items.

Definition gID (g : Group) : string := group_ID (gDomain g) (gName g).

Definition project_members (g : Group) (m : gmap string (list Membership)) : gmap string (list Membership) :=
  foldl (λ m x, <[Principal x := default [] (m !! Principal x) ++ [mkMembership (gID g) (ExpiresAt x)]]> m) m (gMembers g).

Definition project (td : string) (tree : gmap string string) (groups : list Group) : Directory :=
  mkDirectory td tree (gID <$> groups) (foldl (λ m g, project_members g m) ∅ groups).

(** The stored policies as the engine takes them. *)
Definition policy_texts (items : list Policy) : gmap string string :=
  foldl (λ m p, <[pID p := pText p]> m) ∅ items.

(** ** The projection of a database *)

Definition tree_of (d : DB) : gmap string string :=
  foldl (λ tree r, match ValidateDomainName r.1 with
                   | Some _ => tree
                   | None => <[r.1 := ParentOf r.1]> tree
                   end) ∅ (domain_rows d).

Definition groups_of (d : DB) : list Group :=
  (λ r, mkGroup r.1.1 r.1.2 (gr_description r.2)
          (default [] (members_by_group "" "" d !! group_ID r.1.1 r.1.2)) (UnixTime (gr_created_at r.2))) <$> group_list "" "" d.

(** The directory the engine should have, with the tree of one moment and
    the groups of another. *)
Definition directory_of_dbs (td : string) (x y : DB) : Directory := project td (tree_of x) (groups_of y).

Definition texts_of (d : DB) : gmap string string := policy_texts (policy_list d).

Lemma ListDomains_tree s q l w : ListDomains (s, q) = (Ok l, w) → project_domains l = tree_of (db s).
Proof.
  unfold ListDomains, adminsByDomain, on_db. intros H. destruct w. run_split H.
  unfold project_domains, tree_of. by rewrite foldl_fmap.
Qed.

Lemma ListGroups_groups s q l w : ListGroups "" (s, q) = (Ok l, w) → l = groups_of (db s).
Proof. unfold ListGroups, listGroups, groupMembers, on_db. intros H. destruct w. by run_split H. Qed.

Lemma ListPolicies_list s q l w : ListPolicies (s, q) = (Ok l, w) → l = policy_list (db s).
Proof. unfold ListPolicies, on_db. intros H. destruct w. by run_split H. Qed.

Section reload.
Context {spf : Spiffe} {cdr : Cedar}.

Definition loadStoredPolicies : GoM Api () :=
  catch (on_reads PolicySet) (λ r,
    match r with
    | Err (ErrAuditRowUnverified _) => throw errStoredPolicySet
    | Err e => throw e
    | Ok (items, recorded) =>
        match matchAuditChain items recorded with
        | Some _ => throw errStoredPolicySet
        | None =>
            e ← gets ap_engine;
            match SetStoredPolicies (policy_texts items) e with
            | Err _ => throw errStoredPolicySet
            | Ok e' => modify (set_engine e')
            end
        end
    end).

Definition RefreshDirectory (sv : Server) (now : Z) : GoM Api () :=
  items ← on_reads (at_next ListDomains);
  let tree := project_domains items in
  if decide (trustDomain sv = "" ∧ tree ≠ ∅)
  then throw (ErrMsg "domains exist but the identity source reports no trust domain")
  else
    groups ← on_reads (at_next (ListGroups ""));
    modify (λ a, set_engine (SetDirectory (project (trustDomain sv) tree groups) (ap_engine a)) a) ;;
    catch loadStoredPolicies (λ r,
      match r with
      | Err e => modify (λ a, if decide (e = errStoredPolicySet) then set_broken true a else a) ;; throw e
      | Ok _ => modify (λ a, set_broken false (set_loadedAt now a))
      end).

Definition refreshAfterWrite (sv : Server) (now : Z) : GoM Api () :=
  catch (RefreshDirectory sv now) (λ r,
    match r with
    | Ok _ => mret tt
    | Err _ => modify (set_broken true)
    end).

(** One round of [RunDirectorySync], whose errors are only logged. *)
Definition sync_round (sv : Server) (now : Z) : GoM Api () :=
  catch (RefreshDirectory sv now) (λ _, mret tt).

Definition directoryStale (now : Z) (a : Api) : bool :=
  broken a ||
  bool_decide (0 < interval a)%Z && bool_decide (wrap64 (directoryStaleAfter * interval a) < TimeSub now (loadedAt a))%Z.

(** The wrapper [fresh]. *)
Definition fresh (now : Z) (h : HttpRequest → HM HttpReply) (r : HttpRequest) : HM HttpReply :=
  stale ← peek (directoryStale now);
  if (stale : bool) then writeErr 503 (FText "policy directory is stale") else h r.

(** ** What a reload leaves *)

(** The stores a run of reads starts from and may still see. *)
Definition seen (a : Api) : list Store := ap_store a :: ap_later a.

(** Nothing but reads took place. *)
Record only_read (a a' : Api) : Prop := {
  or_seen : seen a' ⊆ seen a;
  or_engine : ap_engine a' = ap_engine a;
  or_broken : broken a' = broken a;
  or_loaded : loadedAt a' = loadedAt a;
  or_interval : interval a' = interval a;
  or_refusals : ap_refusals a' = ap_refusals a;
}.

#[global] Instance only_read_refl : Reflexive only_read.
Proof. by split. Qed.

#[global] Instance only_read_trans : Transitive only_read.
Proof. intros a b c [] []. split; [by etrans|congruence..]. Qed.

(** Reads over the stores that are seen, and what they say. *)
Definition reads {A} (m : GoM (Store * list Store) A) (P : list Store → A → Prop) : Prop :=
  ∀ s l q r s' l' q', m ((s, l), q) = (r, ((s', l'), q')) →
  s' :: l' ⊆ s :: l ∧ (∀ a, r = Ok a → P (s :: l) a) ∧ (l = [] → s' = s ∧ l' = []).

Lemma reads_next {A} (m : M A) (P : DB → A → Prop) :
  (∀ s q a w, m (s, q) = (Ok a, w) → P (db s) a) → reads (at_next m) (λ l a, ∃ s, s ∈ l ∧ P (db s) a).
Proof.
  intros Hm s l q r s' l' q'. unfold at_next. destruct (m (s, q)) as [r0 [s0 q0]] eqn:E. intros [= <- Hs <-].
  split_and!.
  - destruct l; injection Hs as <- <-; set_solver.
  - intros a ->. exists s. split; [left|eauto].
  - intros ->. by injection Hs as <- <-.
Qed.

Lemma reads_bind {A B} (m : GoM (Store * list Store) A) (k : A → GoM (Store * list Store) B) P Q :
  reads m P → (∀ a, reads (k a) (Q a)) → (∀ l l' a b, l' ⊆ l → P l a → Q a l' b → Q a l b) →
  reads (m ≫= k) (λ l b, ∃ a, P l a ∧ Q a l b).
Proof.
  intros Hm Hk Hmono s l q r s' l' q' H. apply bind_cases in H as [(a & [[s1 l1] q1] & H1 & H2)|(e & [[s1 l1] q1] & H1 & [= -> -> -> ->])].
  - apply Hm in H1 as (Hs1 & HP & He1). apply Hk in H2 as (Hs2 & HQ & He2). split_and!; [by etrans| |].
    + intros b ->. exists a. split; [by apply HP|]. eapply Hmono; [exact Hs1|by apply HP|by apply HQ].
    + intros ->. destruct He1 as [-> ->]; [done|]. by destruct He2 as [-> ->].
  - apply Hm in H1 as (Hs1 & HP & He1). split_and!; [done|done|done].
Qed.

Lemma reads_weaken {A} (m : GoM (Store * list Store) A) (P Q : list Store → A → Prop) :
  reads m P → (∀ l a, P l a → Q l a) → reads m Q.
Proof. intros Hm H s l q r s' l' q' E. apply Hm in E as (?&?&?). eauto. Qed.

Lemma on_reads_run {A} (m : GoM (Store * list Store) A) P a q r a' q' :
  reads m P → on_reads m (a, q) = (r, (a', q')) →
  only_read a a' ∧ (∀ x, r = Ok x → P (seen a) x) ∧ (ap_later a = [] → a' = a).
Proof.
  intros Hm. unfold on_reads. destruct (m _) as [r0 [[s l] q0]] eqn:E. intros [= <- <- <-].
  apply Hm in E as (Hs & HP & He). split_and!; [by split|done|]. destruct a as [s0 l0 e t i b rf]. cbn. intros ->.
  by destruct He as [-> ->].
Qed.

(** The policies are those of one of the stores seen. *)
Lemma PolicySet_reads : reads PolicySet (λ l x, ∃ s, s ∈ l ∧ x.1 = policy_list (db s)).
Proof.
  assert (∀ n before, reads (policy_set_loop n before) (λ l x, ∃ s, s ∈ l ∧ x.1 = policy_list (db s))) as Hloop.
  { induction n as [|n IH]; intros before; cbn [policy_set_loop].
    { intros s l q r s' l' q'. unfold throw. intros [= <- <- <- <-]. by split_and!. }
    eapply reads_weaken; [eapply (reads_bind _ _ (λ l x, ∃ s, s ∈ l ∧ x = policy_list (db s)) (λ its l x, (∃ s, s ∈ l ∧ x.1 = policy_list (db s)) ∨ x.1 = its))|].
    - apply (reads_next _ (λ d x, x = policy_list d)). intros s q a w H. by apply ListPolicies_list in H.
    - intros its. eapply reads_weaken; [eapply (reads_bind _ _ (λ _ _, True) (λ _ l x, (∃ s, s ∈ l ∧ x.1 = policy_list (db s)) ∨ x.1 = its))|].
      + eapply reads_weaken; [apply (reads_next _ (λ _ _, True))|]; done.
      + intros after. case_decide.
        * intros s l q r s' l' q'. intros [= <- <- <- <-]. split_and!; [done| |done]. intros x [= <-]. by right.
        * eapply reads_weaken; [apply IH|]. intros l x. by left.
      + intros l l' a b Hs _ [(s & Hin & ?)|?]; [left; exists s; split; [by apply Hs|done]|by right].
      + intros l x (_ & _ & ?). done.
    - intros l l' a b Hs _ [(s & Hin & ?)|?]; [left; exists s; split; [by apply Hs|done]|by right].
    - intros l x (its & (s & Hin & ->) & [?|?]); [done|]. by exists s. }
  eapply reads_weaken; [eapply (reads_bind _ _ (λ _ _, True) (λ _ l x, ∃ s, s ∈ l ∧ x.1 = policy_list (db s)))|].
  - eapply reads_weaken; [apply (reads_next _ (λ _ _, True))|]; done.
  - apply Hloop.
  - intros l l' _ b Hs _ (s & Hin & ?). exists s. split; [by apply Hs|done].
  - intros l x (_ & _ & ?). done.
Qed.

(** What a reload may do to the server: read, replace the engine, and set
    the fields that say how old it is. *)
Record reloaded (a a' : Api) : Prop := {
  rl_seen : seen a' ⊆ seen a;
  rl_quiet : ap_later a = [] → ap_store a' = ap_store a ∧ ap_later a' = [];
  rl_interval : interval a' = interval a;
  rl_refusals : ap_refusals a' = ap_refusals a;
}.

#[global] Instance reloaded_refl : Reflexive reloaded.
Proof. by split. Qed.

#[global] Instance reloaded_trans : Transitive reloaded.
Proof.
  intros a b c [Hs Hq Hi Hr] [Hs' Hq' Hi' Hr']. split; [by etrans| |congruence..].
  intros Hl. destruct Hq as [Hq1 Hq2]; [done|]. destruct Hq' as [-> ->]; [done|]. by rewrite Hq1.
Qed.

Lemma only_read_reloaded a a' : only_read a a' → (ap_later a = [] → a' = a) → reloaded a a'.
Proof. intros [] Hq. split; try done. intros Hl. by rewrite (Hq Hl). Qed.

Lemma SetStoredPolicies_stored st e e' :
  SetStoredPolicies st e = Ok e' → stored e' = Some st ∧ dirSpec e' = dirSpec e.
Proof.
  unfold SetStoredPolicies. case_decide as E; [by intros [= <-]|].
  destruct (parseSources _ _) as [[ps ids]|]; [|done]. by intros [= <-].
Qed.

Lemma SetDirectory_dirSpec d e : dirSpec (SetDirectory d e) = d ∧ stored (SetDirectory d e) = stored e.
Proof. done. Qed.

(** The engine after a reload of the stored policies. *)
Lemma loadStoredPolicies_run a q r a' q' :
  loadStoredPolicies (a, q) = (r, (a', q')) →
  reloaded a a' ∧ broken a' = broken a ∧ loadedAt a' = loadedAt a ∧ dirSpec (ap_engine a') = dirSpec (ap_engine a) ∧
  match r with
  | Ok _ => ∃ s, s ∈ seen a ∧ stored (ap_engine a') = Some (texts_of (db s))
  | Err _ => ap_engine a' = ap_engine a
  end.
Proof.
  unfold loadStoredPolicies, catch. destruct (on_reads PolicySet (a, q)) as [r1 [a1 q1]] eqn:E.
  apply (on_reads_run _ _ _ _ _ _ _ PolicySet_reads) in E as (Hro & HP & Hq).
  pose proof (only_read_reloaded _ _ Hro Hq) as Hrl. destruct Hro as [_ He Hb Hl _ _].
  assert (∀ e : error, (throw e : GoM Api ()) (a1, q1) = (r, (a', q')) → reloaded a a' ∧ broken a' = broken a ∧
    loadedAt a' = loadedAt a ∧ dirSpec (ap_engine a') = dirSpec (ap_engine a) ∧
    match r with Ok _ => ∃ s, s ∈ seen a ∧ stored (ap_engine a') = Some (texts_of (db s)) | Err _ => ap_engine a' = ap_engine a end) as Hthrow.
  { intros e [= <- <- <-]. by rewrite He. }
  destruct r1 as [[items rec]|e]; [|by destruct e; apply Hthrow]. destruct (HP _ eq_refl) as (s & Hs & Hit). cbn in Hit. subst items.
  destruct (matchAuditChain _ _); [by apply Hthrow|]. unfold mbind, GoM_bind, gets. cbn [fst snd].
  destruct (SetStoredPolicies _ _) as [e'|] eqn:Es; [|by apply Hthrow]. apply SetStoredPolicies_stored in Es as [Est Edir].
  intros [= <- <- <-]. split_and!; try done; [destruct Hrl; by split|cbn; by rewrite Edir, He|by exists s].
Qed.

(** The loaded state is that of stores that were seen: the tree of one, the
    groups of another and the policies of a third. *)
Definition loaded_from (sv : Server) (l : list Store) (e : Engine) : Prop :=
  ∃ x y z, x ∈ l ∧ y ∈ l ∧ z ∈ l ∧ dirSpec e = directory_of_dbs (trustDomain sv) (db x) (db y) ∧ stored e = Some (texts_of (db z)).

(** The reload either ends with the state of the stores it saw, or fails
    and leaves the policies and at most replaces the directory. *)
Lemma RefreshDirectory_run sv now a q r a' q' :
  RefreshDirectory sv now (a, q) = (r, (a', q')) →
  reloaded a a' ∧
  match r with
  | Ok _ => broken a' = false ∧ loadedAt a' = now ∧ loaded_from sv (seen a) (ap_engine a')
  | Err _ => (broken a' = true ∨ broken a' = broken a) ∧ loadedAt a' = loadedAt a ∧
      stored (ap_engine a') = stored (ap_engine a) ∧
      (dirSpec (ap_engine a') = dirSpec (ap_engine a) ∨
       ∃ x y, x ∈ seen a ∧ y ∈ seen a ∧ dirSpec (ap_engine a') = directory_of_dbs (trustDomain sv) (db x) (db y))
  end.
Proof.
  intros H. unfold RefreshDirectory in H.
  apply bind_cases in H as [(items & [a1 q1] & H1 & H)|(e & [a1 q1] & H1 & [= -> -> ->])].
  all: eapply on_reads_run in H1 as (Hro1 & HP1 & Hq1);
    [|apply (reads_next _ (λ d l, project_domains l = tree_of d)); intros s ? ? ? Hl; by eapply ListDomains_tree].
  all: pose proof (only_read_reloaded _ _ Hro1 Hq1) as Hrl1; destruct Hro1 as [Hs1 He1 Hb1 Hl1 _ _].
  2:{ split; [done|]. rewrite He1, Hb1, Hl1. auto. }
  destruct (HP1 _ eq_refl) as (x & Hx & Htree). rewrite Htree in H. case_decide.
  { injection H as <- <- <-. split; [done|]. rewrite He1, Hb1, Hl1. auto. }
  apply bind_cases in H as [(gs & [a2 q2] & H2 & H)|(e & [a2 q2] & H2 & [= -> -> ->])].
  all: eapply on_reads_run in H2 as (Hro2 & HP2 & Hq2);
    [|apply (reads_next _ (λ d l, l = groups_of d)); intros s ? ? ? Hl; by eapply ListGroups_groups].
  all: pose proof (only_read_reloaded _ _ Hro2 Hq2) as Hrl2; destruct Hro2 as [Hs2 He2 Hb2 Hl2 _ _].
  all: assert (reloaded a a2) as Hrl12 by (by etrans).
  2:{ split; [done|]. rewrite He2, He1, Hb2, Hb1, Hl2, Hl1. auto. }
  destruct (HP2 _ eq_refl) as (y & Hy & ->). erewrite bind_run in H by done. cbn [fst snd] in H.
  unfold catch in H. destruct (loadStoredPolicies _) as [r3 [a3 q3]] eqn:H3.
  apply loadStoredPolicies_run in H3 as (Hrl3 & Hb3 & Hl3 & Hd3 & H3). cbn [broken loadedAt set_engine ap_engine] in *.
  rewrite (proj1 (SetDirectory_dirSpec _ _)) in Hd3.
  assert (reloaded a2 a3) as Hrl23 by (destruct Hrl3; by split). assert (reloaded a a3) as Hrl by (by etrans).
  destruct r3 as [[]|e].
  - injection H as <- <- <-. destruct H3 as (z & Hz & Hst). split; [destruct Hrl; by split|].
    split_and!; [done|done|]. exists x, y, z. split_and!; [done|by apply Hs1|by apply Hs1, Hs2|done|done].
  - erewrite bind_run in H by done. injection H as <- <- <-. cbn [fst snd].
    split; [case_decide; [destruct Hrl; by split|done]|].
    assert (stored (ap_engine a3) = stored (ap_engine a)) as Hst by (rewrite H3; cbn; by rewrite He2, He1).
    split_and!; [case_decide; [by left|by right; rewrite Hb3, Hb2, Hb1]|case_decide; cbn; by rewrite Hl3, Hl2, Hl1|by case_decide|].
    right. exists x, y. split_and!; [done|by apply Hs1|by case_decide].
Qed.
End reload.
