(* ===== verification/Replica.v ===== *)
(** * Replica

    A replica that reloads its engine while others, its own handlers
    included, write to the store. A handler commits its write, reloads and
    answers; reloads are serialised by [refreshMu], but writes happen
    between the reads of a reload, and between a failed reload and the
    moment its handler marks the loaded state as broken. *)
From S2P Require Import Prelude Crypto Json AuditKeyring Store Domains AuditChain Groups.
From S2P Require Import Policies Scim Reach GoValue Cedar Directory Request Engine Refusals Http Reload.

Section replica.
Context {spf : Spiffe} {cdr : Cedar} (sv : Server).

(** The stores so far, the last one being the present; a write of this
    replica is known by the position of the store it left. [rp_committed]
    are the writes whose handler has yet to reload, [rp_failed] those whose
    reload has failed, [rp_answered] those that were answered. *)
Record Replica := mkReplica {
  rp_history : list Store;
  rp_api : Api;
  rp_committed : list nat;
  rp_failed : list nat;
  rp_answered : list nat;
}.

(** The reload as it runs while the store goes through [l]. *)
Definition reload_during (now : Z) (l : list Store) (q : faults) (a : Api) : result error () * (Api * faults) :=
  RefreshDirectory sv now (mkApi (ap_store a) l (ap_engine a) (loadedAt a) (interval a) (broken a) (ap_refusals a), q).

(** The server after it, at the store that is then the present one. *)
Definition after_reload (l : list Store) (a a' : Api) : Api :=
  mkApi (default (ap_store a) (last l)) [] (ap_engine a') (loadedAt a') (interval a') (broken a') (ap_refusals a').

Inductive store_run : Store → list Store → Prop :=
| run_nil s : store_run s []
| run_cons s s' l : store_step s s' → store_run s' l → store_run s (s' :: l).

Inductive replica_step (y : Replica) : Replica → Prop :=
| rs_write s' :
    store_step (ap_store (rp_api y)) s' →
    replica_step y (mkReplica (rp_history y ++ [s']) (set_store s' (rp_api y)) (rp_committed y) (rp_failed y) (rp_answered y))
| rs_commit :
    replica_step y (mkReplica (rp_history y) (rp_api y) (length (rp_history y) - 1 :: rp_committed y) (rp_failed y) (rp_answered y))
| rs_reload now l q a' q' k pre post :
    store_run (ap_store (rp_api y)) l → rp_committed y = pre ++ k :: post →
    reload_during now l q (rp_api y) = (Ok tt, (a', q')) →
    replica_step y (mkReplica (rp_history y ++ l) (after_reload l (rp_api y) a') (pre ++ post) (rp_failed y) (k :: rp_answered y))
| rs_reload_failed now l q e a' q' k pre post :
    store_run (ap_store (rp_api y)) l → rp_committed y = pre ++ k :: post →
    reload_during now l q (rp_api y) = (Err e, (a', q')) →
    replica_step y (mkReplica (rp_history y ++ l) (after_reload l (rp_api y) a') (pre ++ post) (k :: rp_failed y) (rp_answered y))
| rs_mark k pre post :
    rp_failed y = pre ++ k :: post →
    replica_step y (mkReplica (rp_history y) (set_broken true (rp_api y)) (rp_committed y) (pre ++ post) (k :: rp_answered y))
| rs_sync now l q r a' q' :
    store_run (ap_store (rp_api y)) l → reload_during now l q (rp_api y) = (r, (a', q')) →
    replica_step y (mkReplica (rp_history y ++ l) (after_reload l (rp_api y) a') (rp_committed y) (rp_failed y) (rp_answered y)).

(** A replica that has just loaded its state. *)
Definition replica_start (a : Api) : Replica := mkReplica [ap_store a] a [] [] [].

(** ** The invariant *)

(** What is loaded is no older than the [i]-th store. *)
Definition loaded_since (y : Replica) (i : nat) : Prop :=
  i < length (rp_history y) ∧ loaded_from sv (drop i (rp_history y)) (ap_engine (rp_api y)).

Record replica_ok (y : Replica) : Prop := {
  ro_present : last (rp_history y) = Some (ap_store (rp_api y));
  ro_committed : ∀ k, k ∈ rp_committed y → k < length (rp_history y);
  ro_failed : ∀ k, k ∈ rp_failed y → k < length (rp_history y);
  ro_answered : ∀ k, k ∈ rp_answered y → k < length (rp_history y);
  ro_fresh : broken (rp_api y) = true ∨ ∃ i, loaded_since y i ∧ ∀ k, k ∈ rp_answered y → k ≤ i;
}.

Lemma loaded_from_mono l l' e : l ⊆ l' → loaded_from sv l e → loaded_from sv l' e.
Proof. intros Hs (x & y & z & Hx & Hy & Hz & H). exists x, y, z. auto. Qed.

(** The stores a reload sees are the present one and those after it. *)
Lemma present_drop (h l : list Store) s : last h = Some s → drop (length h - 1) (h ++ l) = s :: l.
Proof.
  intros [h' ->]%last_Some. rewrite length_app. cbn. replace (length h' + 1 - 1) with (length h') by lia.
  by rewrite <-app_assoc, drop_app_length.
Qed.

Lemma last_present (h l : list Store) s : last h = Some s → last (h ++ l) = Some (default s (last l)).
Proof. intros Hh. rewrite last_app, Hh. by destruct (last l). Qed.

Lemma reload_sees y l now q r a' q' :
  last (rp_history y) = Some (ap_store (rp_api y)) →
  reload_during now l q (rp_api y) = (r, (a', q')) →
  let h := rp_history y ++ l in
  match r with
  | Ok _ => broken a' = false ∧ loaded_from sv (drop (length (rp_history y) - 1) h) (ap_engine a')
  | Err _ => (broken a' = true ∨ broken a' = broken (rp_api y)) ∧
      ∀ i, loaded_since y i → loaded_from sv (drop i h) (ap_engine a')
  end.
Proof.
  intros Hp H. unfold reload_during in H. apply RefreshDirectory_run in H as [_ H]. cbn zeta.
  rewrite (present_drop _ _ _ Hp). destruct r as [u|e].
  - destruct H as (Hb & _ & Hl). done.
  - destruct H as (Hb & _ & Hst & Hd). split; [done|]. intros i (Hi & x & yy & z & Hx & Hy & Hz & Hdir & Hsto).
    assert (ap_store (rp_api y) :: l ⊆ drop i (rp_history y ++ l)) as Hsub.
    { rewrite <-(present_drop _ l _ Hp).
      replace (length (rp_history y) - 1) with (i + (length (rp_history y) - 1 - i)) by lia.
      rewrite <-drop_drop. intros s. apply subseteq_drop. }
    assert (drop i (rp_history y) ⊆ drop i (rp_history y ++ l)) as Hgrow.
    { rewrite drop_app_le by lia. set_solver. }
    cbn [ap_engine] in *. destruct Hd as [Hd|(x' & y' & Hx' & Hy' & Hd)].
    + exists x, yy, z. rewrite Hd, Hst. auto.
    + exists x', y', z. split_and!; [by apply Hsub|by apply Hsub|by apply Hgrow|done|by rewrite Hst].
Qed.

(** A reload keeps the invariant, whoever runs it. *)
Lemma reload_ok y now l q r a' q' committed failed answered :
  replica_ok y → reload_during now l q (rp_api y) = (r, (a', q')) →
  (∀ k, k ∈ committed → k ∈ rp_committed y) → (∀ k, k ∈ failed → k ∈ rp_committed y ∨ k ∈ rp_failed y) →
  (∀ k, k ∈ answered → k ∈ rp_answered y ∨ (r = Ok tt ∧ k ∈ rp_committed y)) →
  replica_ok (mkReplica (rp_history y ++ l) (after_reload l (rp_api y) a') committed failed answered).
Proof.
  intros [Hp Hc Hf Ha Hfr] H Hcom Hfai Hans. pose proof (reload_sees _ _ _ _ _ _ _ Hp H) as Hsee. cbn zeta in Hsee.
  assert (0 < length (rp_history y)) as Hlen by (destruct (rp_history y); [done|cbn; lia]).
  assert (∀ k, k < length (rp_history y) → k < length (rp_history y ++ l)) as Hlt by (intros; rewrite length_app; lia).
  split; cbn [rp_history rp_api rp_committed rp_failed rp_answered after_reload ap_store broken].
  - by apply last_present.
  - intros k Hk. auto.
  - intros k [?|?]%Hfai; auto.
  - intros k [?|[_ ?]]%Hans; auto.
  - destruct r as [[]|e].
    + destruct Hsee as [Hb Hl]. right. exists (length (rp_history y) - 1). split; [split; [apply Hlt; lia|done]|].
      intros k [?%Ha|[_ ?%Hc]]%Hans; lia.
    + destruct Hsee as [Hb Hl]. destruct Hfr as [Hfr|(i & Hi & Hle)]; [left; destruct Hb; congruence|].
      right. exists i. split; [split; [apply Hlt, Hi|by apply Hl]|]. intros k [?|[? _]]%Hans; [auto|done].
Qed.

Lemma replica_step_ok y y' : replica_step y y' → replica_ok y → replica_ok y'.
Proof.
  intros Hst Hok. pose proof Hok as [Hp Hc Hf Ha Hfr].
  assert (0 < length (rp_history y)) as Hlen by (destruct (rp_history y); [done|cbn; lia]).
  destruct Hst as [s' _| |now l q a' q' k pre post _ Ek H|now l q e a' q' k pre post _ Ek H|k pre post Ek|now l q r a' q' _ H].
  - assert (∀ k, k < length (rp_history y) → k < length (rp_history y ++ [s'])) as Hlt by (intros; rewrite length_app; lia).
    split; cbn; [by rewrite last_snoc|auto..|]. destruct Hfr as [?|(i & [Hi Hl] & Hle)]; [by left|right].
    exists i. split; [|done]. split; [by apply Hlt|]. eapply loaded_from_mono; [|exact Hl]. cbn. rewrite drop_app_le by lia. set_solver.
  - split; cbn; try done. intros k [->|?]%elem_of_cons; [lia|auto].
  - eapply reload_ok; [done|exact H|..]; rewrite Ek; set_solver.
  - eapply reload_ok; [done|exact H|..]; rewrite ?Ek; set_solver.
  - split; cbn; [done|done|..|by left].
    + intros k' Hk. apply Hf. rewrite Ek. set_solver.
    + intros k' [->|?]%elem_of_cons; [apply Hf; rewrite Ek; set_solver|auto].
  - eapply reload_ok; [done|exact H|..]; auto.
Qed.

(** C13. A write is in force once it is answered: a replica evaluates a
    request only while everything loaded, the tree of domains, the groups
    with their members and the stored policies, is at least as new as every
    write it has answered, however writes, reloads and their failures
    interleave. *)
Theorem answered_writes_in_force a y now k :
  broken a = true ∨ loaded_from sv [ap_store a] (ap_engine a) →
  rtc replica_step (replica_start a) y → directoryStale now (rp_api y) = false → k ∈ rp_answered y →
  loaded_from sv (drop k (rp_history y)) (ap_engine (rp_api y)).
Proof.
  intros Hstart Hst Hfresh Hk. assert (replica_ok y) as [_ _ _ _ Hf].
  { revert Hst. apply rtc_ind_r; [|intros x z _ Hxz IH; by eapply replica_step_ok].
    split; cbn; [done|set_solver..|]. destruct Hstart as [?|Hl]; [by left|right]. exists 0. split; [split; [cbn; lia|done]|set_solver]. }
  unfold directoryStale in Hfresh. destruct Hf as [Hb|(i & [Hi Hl] & Hle)]; [by rewrite Hb in Hfresh|].
  eapply loaded_from_mono; [|exact Hl]. replace i with (k + (i - k)) by (specialize (Hle k Hk); lia).
  rewrite <-drop_drop. intros s. apply subseteq_drop.
Qed.

End replica.

(** ** An example *)

#[local] Existing Instance Toy.spiffe.
#[local] Existing Instance Toy.cedar.

Definition demo_server : Server := mkServer true [] [] "td" false (mkUIProxyConfig [] "" 0).

(** A replica that has not loaded anything yet, a domain that is created on
    it, and the reload that ends with the answer. *)
Definition blank_replica : Api := mkApi start_store [] new_engine 0 0 true (newRefusalLimiter 0).
Definition with_org : Api := set_store org_created blank_replica.
Definition reloaded_org : Api := after_reload [] with_org (reload_during demo_server 1000 [] [] with_org).2.1.
Definition answered_org : Replica := mkReplica [start_store; org_created] reloaded_org [] [] [1].

Lemma answered_writes_in_force_witness :
  loaded_from demo_server [org_created] (ap_engine reloaded_org) ∧ dirSpec (ap_engine reloaded_org) ≠ dirSpec new_engine.
Proof.
  split; [|intros E; apply (f_equal (λ d, size (dirDomains d))) in E; vm_compute in E; discriminate].
  apply (answered_writes_in_force demo_server blank_replica answered_org 1000 1).
  - left. reflexivity.
  - eapply rtc_l; [apply (rs_write demo_server _ org_created), ss_write, ss_create_domain|].
    eapply rtc_l; [apply rs_commit|]. eapply rtc_once.
    change answered_org with (mkReplica ([start_store; org_created] ++ []) (after_reload [] with_org (reload_during demo_server 1000 [] [] with_org).2.1) ([] ++ []) [] [1]).
    apply (rs_reload demo_server (mkReplica [start_store; org_created] with_org [1] [] []) 1000 [] [] _ [] 1 [] []); [constructor|reflexivity|].
    apply run_result; vm_compute; reflexivity.
  - vm_compute. reflexivity.
  - left.
Defined.
