(* ===== verification/DomainApi.v ===== *)
(** * DomainApi

    The handlers of domains (internal/server/api/domains.go, http.go): who
    administers a domain, and writes that are recorded in the audit chain
    or undone. *)
From S2P Require Import Prelude Crypto Json JsonParse JsonRaw Decode AuditKeyring Store Domains AuditChain Groups.
From S2P Require Import Policies Scim GoValue GoTime Cedar Directory Request Engine Bundle Wire Http Reload.

(** ** JSON *)

Definition domain_json (d : Domain) : option json :=
  at_ ← json_of_time (CreatedAt d);
  Some (JObj ([("name", JStr (Name d))] ++
              omit_empty (bool_decide (Parent d = "")) ("parent", JStr (Parent d)) ++
              omit_empty (bool_decide (Description d = "")) ("description", JStr (Description d)) ++
              omit_empty (bool_decide (Admins d = [])) ("admins", strings_json (Admins d)) ++
              [("created_at", at_)])).

Definition zero_domain : Domain := mkDomain "" "" "" [] zero_time.

Definition dec_domain : decoder Domain := dec_struct
  [("name", dec_part Name (λ x d, mkDomain x (Parent d) (Description d) (Admins d) (CreatedAt d)) dec_string);
   ("parent", dec_part Parent (λ x d, mkDomain (Name d) x (Description d) (Admins d) (CreatedAt d)) dec_string);
   ("description", dec_part Description (λ x d, mkDomain (Name d) (Parent d) x (Admins d) (CreatedAt d)) dec_string);
   ("admins", dec_part Admins (λ x d, mkDomain (Name d) (Parent d) (Description d) x (CreatedAt d)) (dec_slice dec_string ""));
   ("created_at", dec_part CreatedAt (λ x d, mkDomain (Name d) (Parent d) (Description d) (Admins d) x) dec_time)].

Definition dec_DomainAdminRequest : decoder string := dec_struct [("principal", dec_string)].

(** The payload of the admin events. *)
Definition principal_json (p : string) : json := JObj [("principal", JStr p)].

(** ** Who administers what *)

(** The names from a domain up to its top-level domain; a parent's name is
    shorter, so the length of the name bounds the loop. *)
Fixpoint chain_from (fuel : nat) (name : string) : list string :=
  match fuel with
  | 0 => []
  | S fuel' => if decide (name = "") then [] else name :: chain_from fuel' (ParentOf name)
  end.

Definition domain_chain (name : string) : list string := chain_from (String.length name) name.

Section domain_api.
Context {spf : Spiffe} {cdr : Cedar}.

Definition mayAdminister (sv : Server) (caller domain : string) : GoM Api bool :=
  if negb (requireAuth sv) then mret true
  else if decide (caller = "") then mret false
  else if decide (caller ∈ rootAdmins sv) then mret true
  else
    let chain := domain_chain domain in
    admins ← on_store (AdminsOf chain);
    mret (existsb (λ name, bool_decide (caller ∈ default [] (admins !! name))) chain).

Definition authorizeDomainWrite (sv : Server) (now : Z) (r : HttpRequest) (kind target domain : string) : HM () :=
  ok ← call (mayAdminister sv (r_caller r) domain);
  match ok with
  | Err e => writeErr 500 (FStore e)
  | Ok true => mret tt
  | Ok false =>
      audit now (new_event kind (r_caller r) target "deny"
                   (Some (mustJSON (Some (JObj [("reason", JStr "not an admin of the domain or any ancestor")]))))) ;;
      writeErr 403 (FAbout "caller is not an admin of" (if decide (domain = "") then "a top-level domain" else domain))
  end.

(** ** Recorded or undone *)

Definition reverted (ev : AuditEvent) : AuditEvent :=
  mkAuditEvent (Seq ev) (Ts ev) (Kind ev) (Actor ev) (Subject ev) "reverted" (Payload ev) (PrevHash ev) (Hash ev) (KeyID ev).

(** [clk 2], [clk 4] and [clk 5] are the times of the append, of the append
    of the revert, and of the reload, which is deferred to the return. *)
Definition recordOrUndo (sv : Server) (clk : nat → Z) (ev : AuditEvent) (undo : M ()) : HM () :=
  res ← call (appendAudit (clk 2) ev);
  match res with
  | Ok _ => mret tt
  | Err _ =>
      undone ← call (on_store undo);
      match undone with
      | Err e => call (refreshAfterWrite sv (clk 5)) ;; writeErr 500 (FRevertFailed (Kind ev) e)
      | Ok _ =>
          rev ← call (appendAudit (clk 4) (reverted ev));
          call (refreshAfterWrite sv (clk 5)) ;;
          match rev with
          | Err _ => writeErr 500 (FRevertUnrecorded (Kind ev))
          | Ok _ => writeErr 500 (FReverted (Kind ev))
          end
      end
  end.

(** ** Handlers *)

Definition getDomain (sv : Server) (r : HttpRequest) : HM HttpReply :=
  res ← call (on_store (GetDomain (PathValue r "name")));
  match res with
  | Err ErrNotFound => writeErr 404 (FStore ErrNotFound)
  | Err e => writeErr 500 (FStore e)
  | Ok d =>
      mret (mkHttp 200 (ShowDomain
        (if hideAdmins sv r then mkDomain (Name d) (Parent d) (Description d) [] (CreatedAt d) else d)))
  end.

Definition listDomains (sv : Server) (r : HttpRequest) : HM HttpReply :=
  res ← call (on_store ListDomains);
  match res with
  | Err e => writeErr 500 (FStore e)
  | Ok items =>
      mret (mkHttp 200 (ShowDomains
        (if hideAdmins sv r then (λ d, mkDomain (Name d) (Parent d) (Description d) [] (CreatedAt d)) <$> items else items)))
  end.

Definition createDomain (sv : Server) (clk : nat → Z) (r : HttpRequest) : HM HttpReply :=
  d ← decodeJSONBody dec_domain zero_domain r;
  match ValidateDomainName (Name d) with
  | Some e => writeErr 400 (FStore e)
  | None =>
      match filter (λ a, FromString a = None) (Admins d) with
      | a :: _ => writeErr 400 (FAbout "admin" a)
      | [] =>
          authorizeDomainWrite sv (clk 0) r "domain.create" (Name d) (ParentOf (Name d)) ;;
          let caller := r_caller r in
          let d := if decide (Admins d = [] ∧ caller ≠ "")
                   then mkDomain (Name d) (Parent d) (Description d) [caller] (CreatedAt d) else d in
          res ← call (on_store (CreateDomain (clk 1) d));
          match res with
          | Err ErrAlreadyExists => writeErr 409 (FStore ErrAlreadyExists)
          | Err (ErrParentNotFound p) => writeErr 400 (FStore (ErrParentNotFound p))
          | Err e => writeErr 500 (FStore e)
          | Ok created =>
              recordOrUndo sv clk
                (new_event "domain.create" caller (Name created) "ok" (Some (mustJSON (domain_json created))))
                (DeleteDomain (Name created)) ;;
              call (refreshAfterWrite sv (clk 5)) ;;
              mret (mkHttp 201 (ShowDomain created))
          end
      end
  end.

Definition domainPathName (r : HttpRequest) : HM string :=
  let name := PathValue r "name" in
  match ValidateDomainName name with
  | Some e => writeErr 400 (FStore e)
  | None => mret name
  end.

Definition deleteDomain (sv : Server) (clk : nat → Z) (r : HttpRequest) : HM HttpReply :=
  name ← domainPathName r;
  authorizeDomainWrite sv (clk 0) r "domain.delete" name (ParentOf name) ;;
  got ← call (on_store (GetDomain name));
  match got with
  | Err ErrNotFound => writeErr 404 (FStore ErrNotFound)
  | Err e => writeErr 500 (FStore e)
  | Ok before =>
      res ← call (on_store (DeleteDomain name));
      match res with
      | Err ErrNotFound => writeErr 404 (FStore ErrNotFound)
      | Err ErrHasChildren => writeErr 409 (FStore ErrHasChildren)
      | Err ErrHasGroups => writeErr 409 (FStore ErrHasGroups)
      | Err e => writeErr 500 (FStore e)
      | Ok _ =>
          recordOrUndo sv clk
            (new_event "domain.delete" (r_caller r) name "ok" (Some (mustJSON (domain_json before))))
            (CreateDomain (clk 3) before ;; mret tt) ;;
          call (refreshAfterWrite sv (clk 5)) ;;
          mret (mkHttp 204 Nothing)
      end
  end.

Definition addDomainAdmin (sv : Server) (clk : nat → Z) (r : HttpRequest) : HM HttpReply :=
  name ← domainPathName r;
  principal ← decodeJSONBody dec_DomainAdminRequest "" r;
  match FromString principal with
  | None => writeErr 400 (FAbout "principal" principal)
  | Some _ =>
      authorizeDomainWrite sv (clk 0) r "domain.admin.add" name name ;;
      res ← call (on_store (AddDomainAdmin name principal));
      match res with
      | Err ErrNotFound => writeErr 404 (FStore ErrNotFound)
      | Err e => writeErr 500 (FStore e)
      | Ok inserted =>
          recordOrUndo sv clk
            (new_event "domain.admin.add" (r_caller r) name "ok" (Some (mustJSON (Some (principal_json principal)))))
            (if (inserted : bool) then RemoveDomainAdmin name principal else mret tt) ;;
          getDomain sv r
      end
  end.

Definition removeDomainAdmin (sv : Server) (clk : nat → Z) (r : HttpRequest) : HM HttpReply :=
  name ← domainPathName r;
  let principal := TrimSpace (Query r "principal") in
  if decide (principal = "") then writeErr 400 (FText "principal query parameter is required")
  else
    authorizeDomainWrite sv (clk 0) r "domain.admin.remove" name name ;;
    res ← call (on_store (RemoveDomainAdmin name principal));
    match res with
    | Err ErrNotFound => writeErr 404 (FAbout "not an admin" principal)
    | Err e => writeErr 500 (FStore e)
    | Ok _ =>
        recordOrUndo sv clk
          (new_event "domain.admin.remove" (r_caller r) name "ok" (Some (mustJSON (Some (principal_json principal)))))
          (AddDomainAdmin name principal ;; mret tt) ;;
        getDomain sv r
    end.

End domain_api.
