(* ===== verification/GroupApi.v ===== *)
(** * GroupApi

    The handlers of groups and their members (internal/server/api/groups.go,
    and the check of scim.go that keeps provisioned groups to their
    identity provider). *)
From S2P Require Import Prelude Crypto Json JsonParse JsonRaw Decode AuditKeyring Store Domains AuditChain Groups.
From S2P Require Import Policies Scim GoValue GoTime Cedar Directory Request Engine Bundle Wire Http Reload DomainApi.

Definition MaxMembershipLifetime : Z := (366 * 24 * Hour)%Z.

(** ** JSON *)

Record GroupRequest := mkGroupRequest {
  grq_name : string;
  grq_description : string;
}.

Definition dec_GroupRequest : decoder GroupRequest := dec_struct
  [("name", dec_part grq_name (λ x g, mkGroupRequest x (grq_description g)) dec_string);
   ("description", dec_part grq_description (λ x g, mkGroupRequest (grq_name g) x) dec_string)].

(** [GroupMemberRequest] has the fields of [GroupMember]. *)
Definition dec_GroupMemberRequest : decoder GroupMember := dec_struct
  [("principal", dec_part Principal (λ x m, mkGroupMember x (ExpiresAt m)) dec_string);
   ("expires_at", dec_part ExpiresAt (λ x m, mkGroupMember (Principal m) x) dec_time)].

(** A field with a time, left out when the time is zero. *)
Definition time_field (key : string) (t : Z) : option (list (string * json)) :=
  if IsZero t then Some [] else at_ ← json_of_time t; Some [(key, at_)].

Definition member_json (m : GroupMember) : option json :=
  exp ← time_field "expires_at" (ExpiresAt m);
  Some (JObj (("principal", JStr (Principal m)) :: exp)).

(** The payloads of the group events, keys in order. *)
Definition deleted_json (members : list GroupMember) : option json :=
  ms ← mapM member_json members;
  Some (JObj [("members", match ms with [] => JNull | _ => JArr ms end)]).

Definition put_json (principal : string) (expires : Z) (prior : option GroupMember) : option json :=
  exp ← time_field "expires_at" expires;
  old ← match prior with
        | None => Some []
        | Some p => time_field "prior_expires_at" (ExpiresAt p)
        end;
  Some (JObj (exp ++ [("principal", JStr principal)] ++ old ++
              omit_empty (bool_decide (prior = None)) ("replaced", JBool true))).

Definition removed_json (principal : string) (expires : Z) : option json :=
  exp ← time_field "expires_at" expires;
  Some (JObj (exp ++ [("principal", JStr principal)])).

Definition groupEvent (r : HttpRequest) (kind id : string) (payload : option (option json)) : AuditEvent :=
  new_event kind (r_caller r) id "ok" (mustJSON <$> payload).

Section group_api.
Context {spf : Spiffe} {cdr : Cedar}.

Definition groupPath (r : HttpRequest) : HM (string * string) :=
  domain ← domainPathName r;
  let group := PathValue r "group" in
  match ValidateGroupName group with
  | Some e => writeErr 400 (FStore e)
  | None => mret (domain, group)
  end.

Definition refuseSCIMManaged (domain name : string) : HM () :=
  res ← call (on_store (SCIMManaged domain name));
  match res with
  | Err e => writeErr 500 (FStore e)
  | Ok (Some idp) => writeErr 409 (FAbout "provisioned over SCIM by" idp)
  | Ok None => mret tt
  end.

Definition createGroup (sv : Server) (clk : nat → Z) (r : HttpRequest) : HM HttpReply :=
  domain ← domainPathName r;
  req ← decodeJSONBody dec_GroupRequest (mkGroupRequest "" "") r;
  match ValidateGroupName (grq_name req) with
  | Some e => writeErr 400 (FStore e)
  | None =>
      let id := domain +:+ ":" +:+ grq_name req in
      authorizeDomainWrite sv (clk 0) r "group.create" id domain ;;
      res ← call (on_store (CreateGroup (clk 1) (mkGroup domain (grq_name req) (grq_description req) [] zero_time)));
      match res with
      | Err ErrNotFound => writeErr 404 (FAbout "domain does not exist" domain)
      | Err ErrAlreadyExists => writeErr 409 (FStore ErrAlreadyExists)
      | Err (ErrSCIMManaged p) => writeErr 409 (FStore (ErrSCIMManaged p))
      | Err e => writeErr 500 (FStore e)
      | Ok g =>
          recordOrUndo sv clk (groupEvent r "group.create" id None) (DeleteEmptyGroup domain (grq_name req)) ;;
          call (refreshAfterWrite sv (clk 5)) ;;
          mret (mkHttp 201 (ShowGroup g))
      end
  end.

Definition deleteGroup (sv : Server) (clk : nat → Z) (r : HttpRequest) : HM HttpReply :=
  '(domain, group) ← groupPath r;
  let id := domain +:+ ":" +:+ group in
  authorizeDomainWrite sv (clk 0) r "group.delete" id domain ;;
  refuseSCIMManaged domain group ;;
  res ← call (on_store (DeleteGroup domain group));
  match res with
  | Err ErrNotFound => writeErr 404 (FStore ErrNotFound)
  | Err (ErrSCIMManaged p) => writeErr 409 (FStore (ErrSCIMManaged p))
  | Err e => writeErr 500 (FStore e)
  | Ok before =>
      recordOrUndo sv clk (groupEvent r "group.delete" id (Some (deleted_json (gMembers before)))) (RestoreGroup before) ;;
      call (refreshAfterWrite sv (clk 5)) ;;
      mret (mkHttp 204 Nothing)
  end.

Definition without_members (g : Group) : Group := mkGroup (gDomain g) (gName g) (gDescription g) [] (gCreatedAt g).

Definition getGroup (sv : Server) (r : HttpRequest) : HM HttpReply :=
  '(domain, group) ← groupPath r;
  res ← call (on_store (GetGroup domain group));
  match res with
  | Err ErrNotFound => writeErr 404 (FStore ErrNotFound)
  | Err (ErrSCIMManaged p) => writeErr 409 (FStore (ErrSCIMManaged p))
  | Err e => writeErr 500 (FStore e)
  | Ok g => mret (mkHttp 200 (ShowGroup (if hideAdmins sv r then without_members g else g)))
  end.

(** The handler [listGroups]. *)
Definition getGroups (sv : Server) (r : HttpRequest) : HM HttpReply :=
  domain ← domainPathName r;
  res ← call (on_store (ListGroups domain));
  match res with
  | Err e => writeErr 500 (FStore e)
  | Ok items => mret (mkHttp 200 (ShowGroups (if hideAdmins sv r then without_members <$> items else items)))
  end.

(** What is wrong with an expiry at [now]. *)
Definition expiry_refused (now t : Z) : option failure :=
  if IsZero t then None
  else if decide (t <= now)%Z then Some (FText "expires_at must be in the future")
  else if decide (now + MaxMembershipLifetime < t)%Z then Some (FText "expires_at must be within the longest lifetime")
  else None.

Definition putGroupMember (sv : Server) (clk : nat → Z) (r : HttpRequest) : HM HttpReply :=
  '(domain, group) ← groupPath r;
  req ← decodeJSONBody dec_GroupMemberRequest (mkGroupMember "" zero_time) r;
  match FromString (Principal req) with
  | None => writeErr 400 (FAbout "principal" (Principal req))
  | Some _ =>
      match expiry_refused (clk 6) (ExpiresAt req) with
      | Some f => writeErr 400 f
      | None =>
          let id := domain +:+ ":" +:+ group in
          authorizeDomainWrite sv (clk 0) r "group.member.add" id domain ;;
          refuseSCIMManaged domain group ;;
          let written := mkGroupMember (Principal req) (ExpiresAt req) in
          res ← call (on_store (PutGroupMember domain group written));
          match res with
          | Err ErrNotFound => writeErr 404 (FAbout "group does not exist" id)
          | Err (ErrSCIMManaged p) => writeErr 409 (FStore (ErrSCIMManaged p))
          | Err e => writeErr 500 (FStore e)
          | Ok prior =>
              recordOrUndo sv clk
                (groupEvent r "group.member.add" id (Some (put_json (Principal req) (ExpiresAt written) prior)))
                (SwapGroupMember domain group (Principal req) (Some written) prior) ;;
              call (refreshAfterWrite sv (clk 5)) ;;
              getGroup sv r
          end
      end
  end.

Definition removeGroupMember (sv : Server) (clk : nat → Z) (r : HttpRequest) : HM HttpReply :=
  '(domain, group) ← groupPath r;
  let principal := TrimSpace (Query r "principal") in
  if decide (principal = "") then writeErr 400 (FText "principal query parameter is required")
  else
    let id := domain +:+ ":" +:+ group in
    authorizeDomainWrite sv (clk 0) r "group.member.remove" id domain ;;
    refuseSCIMManaged domain group ;;
    res ← call (on_store (RemoveGroupMember domain group principal));
    match res with
    | Err ErrNotFound => writeErr 404 (FAbout "not a member" principal)
    | Err (ErrSCIMManaged p) => writeErr 409 (FStore (ErrSCIMManaged p))
    | Err e => writeErr 500 (FStore e)
    | Ok removed =>
        recordOrUndo sv clk
          (groupEvent r "group.member.remove" id (Some (removed_json principal (ExpiresAt removed))))
          (SwapGroupMember domain group principal None (Some removed)) ;;
        call (refreshAfterWrite sv (clk 5)) ;;
        getGroup sv r
    end.

End group_api.
