(* ===== verification/PolicyApi.v ===== *)
(** * PolicyApi

    The handlers of stored policies (internal/server/api/policies.go): who
    may read and write them, and changes that commit together with their
    audit row. What a change writes is in Policies. *)
From S2P Require Import Prelude Crypto Json JsonParse JsonRaw Decode AuditKeyring Store Domains AuditChain Groups.
From S2P Require Import Policies Scim GoValue GoTime Cedar Directory Request Engine Bundle Wire Http Reload.

Definition MaxPolicyBytes : nat := Z.to_nat 65536.

(** ** Requests and views *)

Record PolicyRequest := mkPolicyRequest {
  prq_id : string;
  prq_text : string;
}.

Definition dec_PolicyRequest : decoder PolicyRequest := dec_struct
  [("id", dec_part prq_id (λ x p, mkPolicyRequest x (prq_text p)) dec_string);
   ("text", dec_part prq_text (λ x p, mkPolicyRequest (prq_id p) x) dec_string)].

Definition storedView (p : Policy) (withText : bool) : PolicyView :=
  mkPolicyView (pID p) "api" (if withText then pText p else "") (pDigest p) (pVersion p) (policy_ETag p)
    (pCreatedBy p) (pCreatedAt p) (pUpdatedBy p) (pUpdatedAt p).

Definition fileView (name text : string) (withText : bool) : PolicyView :=
  mkPolicyView name "file" (if withText then text else "") (PolicyDigest text) 0 "" "" zero_time "" zero_time.

Section policy_api.
Context {spf : Spiffe} {cdr : Cedar}.

(** ** Guards *)

Definition authorizePolicyWrite (sv : Server) (now : Z) (r : HttpRequest) (kind id : string) : HM () :=
  let refuse reason :=
    audit now (new_event kind (r_caller r) id "deny"
                 (Some (mustJSON (Some (JMap (withVia (rq_of r) {[ "reason" := JStr reason ]})))))) ;;
    writeErr 403 (FText reason) in
  if negb (requireAuth sv) then refuse "managing policies over the API needs --require-auth"
  else if decide (r_caller r = "" ∨ r_caller r ∉ rootAdmins sv) then refuse "caller is not a --domain-root-admin"
  else mret tt.

Definition readOnlyFile (id : string) : HM () :=
  e ← peek ap_engine;
  match FilePolicies e !! id with
  | None => mret tt
  | Some _ => writeErr 409 (FAbout "read-only file" id)
  end.

Definition checkPolicyRequest (id text : string) : HM (list string) :=
  match ValidatePolicyID id with
  | Some e => writeErr 400 (FStore e)
  | None =>
      if decide (MaxPolicyBytes < String.length text) then writeErr 400 (FText "policy text is too long")
      else
        e ← peek ap_engine;
        match CheckStored id text e with
        | Err le => writeErr 400 (FLoad le)
        | Ok ids => mret ids
        end
  end.

Definition mayReadPolicyText (sv : Server) (r : HttpRequest) : bool :=
  negb (requireAuth sv) ||
  (bool_decide (r_caller r ≠ "") && (bool_decide (r_caller r ∈ rootAdmins sv) || mayRecordDecisions sv (r_caller r))).

(** ** Reads *)

Definition listPolicies : HM HttpReply :=
  res ← call (on_store ListPolicies);
  match res with
  | Err e => writeErr 500 (FStore e)
  | Ok stored =>
      files ← peek (λ a, FilePolicies (ap_engine a));
      let names := sort_strings (map_to_list files).*1 in
      mret (mkHttp 200 (ShowPolicies
        (((λ name, fileView name (default "" (files !! name)) false) <$> names) ++ ((λ p, storedView p false) <$> stored))))
  end.

Definition getPolicy (sv : Server) (r : HttpRequest) : HM HttpReply :=
  let id := PathValue r "id" in
  if negb (mayReadPolicyText sv r)
  then writeErr 403 (FText "reading policy text needs a --domain-root-admin or --decision-recorder caller")
  else
    files ← peek (λ a, FilePolicies (ap_engine a));
    match files !! id with
    | Some text => mret (mkHttp 200 (ShowPolicy (fileView id text true)))
    | None =>
        match ValidatePolicyID id with
        | Some _ => writeErr 404 (FAbout "policy not found" id)
        | None =>
            res ← call (on_store (GetPolicy id));
            match res with
            | Err ErrNotFound => writeErr 404 (FAbout "policy not found" id)
            | Err e => writeErr 500 (FStore e)
            | Ok p => mret (mkHttp 200 (ShowPolicy (storedView p true)))
            end
        end
    end.

Definition validatePolicy (r : HttpRequest) : HM HttpReply :=
  req ← decodeJSONBody dec_PolicyRequest (mkPolicyRequest "" "") r;
  ids ← checkPolicyRequest (if decide (prq_id req = "") then "draft" else prq_id req) (prq_text req);
  mret (mkHttp 200 (ShowValidation ids)).

(** ** Writes *)

Definition changePolicy (sv : Server) (clk : nat → Z) (id : string) (change : PolicyChange) : HM (option Policy) :=
  res ← call (on_store (ChangePolicy (clk 1) (clk 2) id change));
  match res with
  | Err ErrNotFound => writeErr 404 (FAbout "policy not found" id)
  | Err ErrAlreadyExists => writeErr 409 (FText "policy already exists; update it with PUT and If-Match")
  | Err ErrNotLeader => writeErr 503 (FStore ErrNotLeader)
  | Err e => if decide (e = errPreconditionFailed) then writeErr 412 (FStore e) else writeErr 500 (FStore e)
  | Ok (p, _) => call (refreshAfterWrite sv (clk 5)) ;; mret p
  end.

(** What a write that kept the policy shows. *)
Definition show_written (code : Z) (p : option Policy) : HttpReply :=
  mkHttp code (match p with Some p => ShowPolicy (storedView p true) | None => Nothing end).

Definition createPolicy (sv : Server) (clk : nat → Z) (r : HttpRequest) : HM HttpReply :=
  req ← decodeJSONBody dec_PolicyRequest (mkPolicyRequest "" "") r;
  readOnlyFile (prq_id req) ;;
  match ValidatePolicyID (prq_id req) with
  | Some e => writeErr 400 (FStore e)
  | None =>
      authorizePolicyWrite sv (clk 0) r "policy.create" (prq_id req) ;;
      ids ← checkPolicyRequest (prq_id req) (prq_text req);
      p ← changePolicy sv clk (prq_id req) (create_change (rq_of r) (prq_id req) (prq_text req) ids);
      mret (show_written 201 p)
  end.

Definition updatePolicy (sv : Server) (clk : nat → Z) (r : HttpRequest) : HM HttpReply :=
  let id := PathValue r "id" in
  readOnlyFile id ;;
  req ← decodeJSONBody dec_PolicyRequest (mkPolicyRequest "" "") r;
  if decide (prq_id req ≠ "" ∧ prq_id req ≠ id) then writeErr 400 (FAbout "body id does not match the path id" id)
  else
    match ValidatePolicyID id with
    | Some e => writeErr 400 (FStore e)
    | None =>
        authorizePolicyWrite sv (clk 0) r "policy.update" id ;;
        if decide (r_ifMatch r = "") then writeErr 428 (FText "updating a policy needs If-Match")
        else
          ids ← checkPolicyRequest id (prq_text req);
          p ← changePolicy sv clk id (update_change (rq_of r) id (r_ifMatch r) (prq_text req) ids);
          mret (show_written 200 p)
    end.

Definition deletePolicy (sv : Server) (clk : nat → Z) (r : HttpRequest) : HM HttpReply :=
  let id := PathValue r "id" in
  readOnlyFile id ;;
  match ValidatePolicyID id with
  | Some e => writeErr 400 (FStore e)
  | None =>
      authorizePolicyWrite sv (clk 0) r "policy.delete" id ;;
      if decide (r_ifMatch r = "") then writeErr 428 (FText "deleting a policy needs If-Match")
      else
        changePolicy sv clk id (delete_change (rq_of r) id (r_ifMatch r)) ;;
        mret (mkHttp 204 Nothing)
  end.

End policy_api.
