(* ===== verification/AccessApi.v ===== *)
(** * AccessApi

    The evaluation endpoints (internal/server/api/http.go, requestid.go):
    one request, or a batch with its defaults and its semantic, each
    decision recorded in the audit chain. *)
From S2P Require Import Prelude Crypto Json JsonParse JsonRaw Decode AuditKeyring Store Domains AuditChain Groups.
From S2P Require Import Policies Scim GoValue GoTime Cedar Directory Request Engine Bundle Wire Http Reload.

(** ** Requests *)

(** A [map[string]any] that may be nil. *)
Definition dec_optmap : decoder (option anymap) := λ raw cur,
  match json_parse raw with
  | Some JNull => Some None
  | _ => Some <$> dec_anymap raw (default [] cur)
  end.

Record BatchEvalSubrequest := mkSubrequest {
  sub_subject : option Entity;
  sub_action : option string;
  sub_resource : option Entity;
  sub_context : option anymap;
}.

Record BatchEvalRequest := mkBatchRequest {
  top : BatchEvalSubrequest;
  Evaluations : list BatchEvalSubrequest;
  Options : option string;
}.

Definition subrequest_fields {A} (get : A → BatchEvalSubrequest) (set : BatchEvalSubrequest → A → A)
    : list (string * decoder A) :=
  [("subject", dec_part (sub_subject ∘ get)
      (λ x a, set (mkSubrequest x (sub_action (get a)) (sub_resource (get a)) (sub_context (get a))) a)
      (dec_ptr dec_entity zero_entity));
   ("action", dec_part (sub_action ∘ get)
      (λ x a, set (mkSubrequest (sub_subject (get a)) x (sub_resource (get a)) (sub_context (get a))) a)
      (dec_ptr dec_action ""));
   ("resource", dec_part (sub_resource ∘ get)
      (λ x a, set (mkSubrequest (sub_subject (get a)) (sub_action (get a)) x (sub_context (get a))) a)
      (dec_ptr dec_entity zero_entity));
   ("context", dec_part (sub_context ∘ get)
      (λ x a, set (mkSubrequest (sub_subject (get a)) (sub_action (get a)) (sub_resource (get a)) x) a)
      dec_optmap)].

Definition no_subrequest : BatchEvalSubrequest := mkSubrequest None None None None.

Definition dec_subrequest : decoder BatchEvalSubrequest :=
  dec_struct (subrequest_fields id (λ s _, s)).

(** [BatchEvalOptions] is the text of its one known key. *)
Definition dec_options : decoder string := dec_struct [("evaluations_semantic", dec_string)].

Definition dec_batch_request : decoder BatchEvalRequest := dec_struct
  (subrequest_fields top (λ s b, mkBatchRequest s (Evaluations b) (Options b)) ++
   [("evaluations", dec_part Evaluations (λ x b, mkBatchRequest (top b) x (Options b)) (dec_slice dec_subrequest no_subrequest));
    ("options", dec_part Options (λ x b, mkBatchRequest (top b) (Evaluations b) x) (dec_ptr dec_options ""))]).

Definition SemanticExecuteAll : string := "execute_all".
Definition SemanticDenyOnFirstDeny : string := "deny_on_first_deny".
Definition SemanticPermitOnFirstPermit : string := "permit_on_first_permit".

Definition batchSemantic (opts : option string) : option string :=
  let s := default "" opts in
  if decide (s = "") then Some SemanticExecuteAll
  else if decide (s ∈ [SemanticExecuteAll; SemanticDenyOnFirstDeny; SemanticPermitOnFirstPermit]) then Some s
  else None.

Definition MaxBatchEvaluations : nat := 100.

Definition pick {A} (override def : option A) : option A :=
  match override with Some x => Some x | None => def end.

Definition mergeBatchEval (t s : BatchEvalSubrequest) : result failure EvalRequest :=
  match pick (sub_subject s) (sub_subject t) with
  | None => Err (FText "subject is required")
  | Some subject =>
      match pick (sub_action s) (sub_action t) with
      | None => Err (FText "action is required")
      | Some action =>
          match pick (sub_resource s) (sub_resource t) with
          | None => Err (FText "resource is required")
          | Some resource => Ok (mkEvalRequest subject action resource (default [] (pick (sub_context s) (sub_context t))))
          end
      end
  end.

(** ** Rows *)

Definition withRequestIDPayload (id : string) : list (string * json) :=
  let '(plain, digest) := RequestIDForAudit id in
  omit_empty (bool_decide (plain = "")) ("request_id", JStr plain) ++
  omit_empty (bool_decide (digest = "")) ("request_id_sha256", JStr digest).

(** The row of one decision; [pre] and [post] are the keys before and
    after the others in the order of the payload. *)
Definition evaluate_event (id : string) (pre post : list (string * json)) (req : EvalRequest) (resp : EvalResponse) : AuditEvent :=
  new_event "access.evaluate" "" (entID (reqSubject req)) (if resp_decision resp then "allow" else "deny")
    (Some (mustJSON (rj ← request_json req;
                     Some (JObj (pre ++ [("request", rj)] ++ withRequestIDPayload id ++
                                 [("response", response_json resp)] ++ post))))).

Definition batch_keys (i size : nat) (semantic : string) : list (string * json) :=
  [("batch", JObj [("index", JInt (Z.of_nat i)); ("semantic", JStr semantic); ("size", JInt (Z.of_nat size))])].

Section access_api.
Context {spf : Spiffe} {cdr : Cedar}.

Definition evaluateAccess (clk : nat → Z) (r : HttpRequest) : HM HttpReply :=
  req ← decodeJSONBody dec_request zero_request r;
  e ← peek ap_engine;
  match Evaluate (clk 0) req e with
  | Err x => writeErr 400 (FRequest x)
  | Ok resp =>
      audit (clk 1) (evaluate_event (RequestIDFrom (r_requestIDs r)) [] [] req resp) ;;
      mret (mkHttp 200 (ShowDecision (ForCaller resp)))
  end.

(** The entries of a batch, merged and validated, from the [i]-th on. *)
Fixpoint merge_all (t : BatchEvalSubrequest) (i : nat) (l : list BatchEvalSubrequest) : result failure (list EvalRequest) :=
  match l with
  | [] => Ok []
  | s :: l' =>
      match mergeBatchEval t s with
      | Err f => Err (FAt i f)
      | Ok m =>
          match Validate m with
          | Some x => Err (FAt i (FRequest x))
          | None => rest ← merge_all t (S i) l'; Ok (m :: rest)
          end
      end
  end.

(** Whether a decision ends a batch. *)
Definition stops (semantic : string) (decision : bool) : bool :=
  (bool_decide (semantic = SemanticDenyOnFirstDeny) && negb decision) ||
  (bool_decide (semantic = SemanticPermitOnFirstPermit) && decision).

(** The loop over the entries from the [i]-th on: [clk (2 i)] is the time
    of the evaluation, [clk (2 i + 1)] that of its row. *)
Fixpoint evaluate_all (clk : nat → Z) (id semantic : string) (size i : nat) (l : list EvalRequest) : HM (list EvalResponse) :=
  match l with
  | [] => mret []
  | m :: l' =>
      e ← peek ap_engine;
      match Evaluate (clk (2 * i)) m e with
      | Err x => writeErr 400 (FAt i (FRequest x))
      | Ok resp =>
          audit (clk (2 * i + 1)) (evaluate_event id (batch_keys i size semantic) [] m resp) ;;
          rest ← (if stops semantic (resp_decision resp) then mret [] else evaluate_all clk id semantic size (S i) l');
          mret (ForCaller resp :: rest)
      end
  end.

Definition evaluateAccessBatch (clk : nat → Z) (r : HttpRequest) : HM HttpReply :=
  req ← decodeJSONBody dec_batch_request (mkBatchRequest no_subrequest [] None) r;
  if decide (MaxBatchEvaluations < length (Evaluations req)) then writeErr 400 (FText "batch too large")
  else
    match batchSemantic (Options req) with
    | None => writeErr 400 (FText "options.evaluations_semantic: unsupported value")
    | Some semantic =>
        match merge_all (top req) 0 (Evaluations req) with
        | Err f => writeErr 400 f
        | Ok merged =>
            out ← evaluate_all clk (RequestIDFrom (r_requestIDs r)) semantic (length (Evaluations req)) 0 merged;
            mret (mkHttp 200 (ShowDecisions out))
        end
    end.

End access_api.
