(* ===== verification/Search.v ===== *)
(** * Search

    The search endpoints (internal/server/api/http.go, searchpage.go): the
    space of candidates, the window of it one page covers, and the token
    that carries a search to its next page. *)
From S2P Require Import Prelude Crypto Json JsonParse JsonRaw Decode AuditKeyring Store Domains AuditChain Groups.
From S2P Require Import Policies Scim GoValue GoTime Base64 Cedar Directory Request Engine Bundle Wire Http Reload AccessApi.

Definition MaxSearchCandidates : Z := 100.

Record SearchPageRequest := mkPage {
  pg_token : string;
  pg_limit : option Z;
}.

(** ** Tokens *)

Record pageToken := mkPageToken {
  pt_off : Z;
  pt_fp : string;
}.

Definition token_json (pt : pageToken) : json := JObj [("off", JInt (pt_off pt)); ("fp", JStr (pt_fp pt))].

Definition token_fields : list (string * decoder pageToken) :=
  [("off", dec_part pt_off (λ x t, mkPageToken x (pt_fp t)) dec_int);
   ("fp", dec_part pt_fp (λ x t, mkPageToken (pt_off t) x) dec_string)].

Definition encodePageToken (offset : Z) (fingerprint : string) : string :=
  b64_encode (json_print (token_json (mkPageToken offset fingerprint))).

Definition errPageTokenMismatch : failure := FText "page.token was issued for a different request".

Definition decodePageToken (token fingerprint : string) : result failure Z :=
  match b64_decode token with
  | None => Err (FText "page.token is not a valid token")
  | Some raw =>
      match dec_struct token_fields raw (mkPageToken 0 "") with
      | None => Err (FText "page.token is not a valid token")
      | Some pt =>
          if decide (pt_fp pt = fingerprint) then
            if decide (pt_off pt < 0)%Z then Err (FText "page.token carries a negative offset") else Ok (pt_off pt)
          else Err errPageTokenMismatch
      end
  end.

(** ** Fingerprints *)

Fixpoint map_del (k : string) (m : anymap) : anymap :=
  match m with
  | [] => []
  | (k', v) :: m' => if decide (k' = k) then map_del k m' else (k', v) :: map_del k m'
  end.

Fixpoint map_get (k : string) (m : anymap) : option any :=
  match m with
  | [] => None
  | (k', v) :: m' => if decide (k' = k) then Some v else map_get k m'
  end.

(** The request without [page.token]. *)
Definition without_token (m : anymap) : anymap :=
  match map_get "page" m with
  | Some (AMap page) =>
      match map_del "token" page with
      | [] => map_del "page" m
      | page' => map_put "page" (AMap page') m
      end
  | _ => m
  end.

(** [v] is what [json.Marshal] makes of the request. *)
Definition fingerprintOf (v : option json) : option string :=
  j ← v;
  g ← json_parse (json_print j);
  a ← any_of_json g;
  match a with
  | AMap m =>
      normalised ← json_of_any (AMap (without_token m));
      Some (b64_encode (string_take 16 (sha256 (json_print normalised))))
  | _ => None
  end.

(** ** Windows *)

Definition searchWindow (page : option SearchPageRequest) (total : nat) (fingerprint : string)
    : result failure (nat * nat * string) :=
  limit ← match page ≫= pg_limit with
          | Some l => if decide (l < 0)%Z then Err (FText "page.limit must not be negative")
                      else Ok (Z.to_nat (Z.min l MaxSearchCandidates))
          | None => Ok (Z.to_nat MaxSearchCandidates)
          end;
  off ← (let token := default "" (pg_token <$> page) in
         if decide (token = "") then Ok 0%Z else decodePageToken token fingerprint);
  let start := Z.to_nat (Z.min off (Z.of_nat total)) in
  let stop := (start + limit) `min` total in
  Ok (start, stop, if decide (stop < total) then encodePageToken (Z.of_nat stop) fingerprint else "").

Definition searchSpace {T} (sv : Server) (patternGiven : bool) (candidates : option (list T)) (enumerated : list T)
    (page : option SearchPageRequest) (fingerprint : string) : result failure (list T * string) :=
  space ← match candidates with
          | Some [] => Err (FText "the candidate list is present but empty")
          | Some l =>
              if decide (MaxSearchCandidates < Z.of_nat (length l))%Z then Err (FText "too many candidates") else Ok l
          | None =>
              if negb (entityStoreSearch sv) then Err (FText "candidate list is required")
              else if negb patternGiven then Err (FText "neither a candidate list nor a search pattern was supplied")
              else match enumerated with
                   | [] => Err (FText "the entity store declares no entities of the type")
                   | l => Ok l
                   end
          end;
  '(start, stop, next) ← searchWindow page (length space) fingerprint;
  Ok (take (stop - start) (drop start space), next).

(** ** Requests *)

(** A slice that tells null from empty. *)
Definition dec_optslice {A} (dec : decoder A) (zero : A) : decoder (option (list A)) := λ raw cur,
  match json_parse raw with
  | Some JNull => Some None
  | _ => Some <$> dec_slice dec zero raw (default [] cur)
  end.

Definition dec_page : decoder SearchPageRequest := dec_struct
  [("token", dec_part pg_token (λ x p, mkPage x (pg_limit p)) dec_string);
   ("limit", dec_part pg_limit (λ x p, mkPage (pg_token p) x) (dec_ptr dec_int 0%Z))].

Definition no_page : SearchPageRequest := mkPage "" None.

Definition page_json (p : SearchPageRequest) : json :=
  JObj (omit_empty (bool_decide (pg_token p = "")) ("token", JStr (pg_token p)) ++
        match pg_limit p with Some l => [("limit", JInt l)] | None => [] end).

Definition action_json (a : string) : json := JObj [("name", JStr a)].

(** The fields the three requests end with. *)
Definition tail_json (context : anymap) (page : option SearchPageRequest) : option (list (string * json)) :=
  ctx ← map_field "context" context;
  Some (ctx ++ match page with Some p => [("page", page_json p)] | None => [] end).

(** [SubjectSearchRequest] and [ResourceSearchRequest]: the candidates and
    the pattern of the dimension searched, and the other entity. *)
Record EntitySearchRequest := mkEntitySearch {
  es_candidates : option (list Entity);
  es_pattern : option Entity;
  es_action : string;
  es_other : Entity;
  es_context : anymap;
  es_page : option SearchPageRequest;
}.

Definition no_entity_search : EntitySearchRequest := mkEntitySearch None None "" zero_entity [] None.

(** [many], [one] and [other] are the keys of the candidates, of the
    pattern and of the other entity. *)
Definition entity_search_fields (many one other : string) : list (string * decoder EntitySearchRequest) :=
  [(many, dec_part es_candidates
      (λ x s, mkEntitySearch x (es_pattern s) (es_action s) (es_other s) (es_context s) (es_page s))
      (dec_optslice dec_entity zero_entity));
   (one, dec_part es_pattern
      (λ x s, mkEntitySearch (es_candidates s) x (es_action s) (es_other s) (es_context s) (es_page s))
      (dec_ptr dec_entity zero_entity));
   ("action", dec_part es_action
      (λ x s, mkEntitySearch (es_candidates s) (es_pattern s) x (es_other s) (es_context s) (es_page s)) dec_action);
   (other, dec_part es_other
      (λ x s, mkEntitySearch (es_candidates s) (es_pattern s) (es_action s) x (es_context s) (es_page s)) dec_entity);
   ("context", dec_part es_context
      (λ x s, mkEntitySearch (es_candidates s) (es_pattern s) (es_action s) (es_other s) x (es_page s)) dec_anymap);
   ("page", dec_part es_page
      (λ x s, mkEntitySearch (es_candidates s) (es_pattern s) (es_action s) (es_other s) (es_context s) x)
      (dec_ptr dec_page no_page))].

(** What [json.Marshal] makes of the request. *)
Definition entity_search_json (many one other : string) (s : EntitySearchRequest) : option json :=
  cands ← mapM entity_json (default [] (es_candidates s));
  pat ← match es_pattern s with Some e => j ← entity_json e; Some [(one, j)] | None => Some [] end;
  oth ← entity_json (es_other s);
  tl ← tail_json (es_context s) (es_page s);
  Some (JObj (omit_empty (match cands with [] => true | _ => false end) (many, JArr cands) ++ pat ++
              (if decide (other = "subject") then [(other, oth); ("action", action_json (es_action s))]
               else [("action", action_json (es_action s)); (other, oth)]) ++ tl)).

Record ActionSearchRequest := mkActionSearch {
  as_candidates : option (list string);
  as_subject : Entity;
  as_resource : Entity;
  as_context : anymap;
  as_page : option SearchPageRequest;
}.

Definition no_action_search : ActionSearchRequest := mkActionSearch None zero_entity zero_entity [] None.

Definition action_search_fields : list (string * decoder ActionSearchRequest) :=
  [("actions", dec_part as_candidates
      (λ x s, mkActionSearch x (as_subject s) (as_resource s) (as_context s) (as_page s)) (dec_optslice dec_action ""));
   ("subject", dec_part as_subject
      (λ x s, mkActionSearch (as_candidates s) x (as_resource s) (as_context s) (as_page s)) dec_entity);
   ("resource", dec_part as_resource
      (λ x s, mkActionSearch (as_candidates s) (as_subject s) x (as_context s) (as_page s)) dec_entity);
   ("context", dec_part as_context
      (λ x s, mkActionSearch (as_candidates s) (as_subject s) (as_resource s) x (as_page s)) dec_anymap);
   ("page", dec_part as_page
      (λ x s, mkActionSearch (as_candidates s) (as_subject s) (as_resource s) (as_context s) x) (dec_ptr dec_page no_page))].

Definition action_search_json (s : ActionSearchRequest) : option json :=
  sub ← entity_json (as_subject s);
  res ← entity_json (as_resource s);
  tl ← tail_json (as_context s) (as_page s);
  let cands := action_json <$> default [] (as_candidates s) in
  Some (JObj (omit_empty (match cands with [] => true | _ => false end) ("actions", JArr cands) ++
              [("subject", sub); ("resource", res)] ++ tl)).

(** ** Handlers *)

Definition search_keys (dimension : string) (i : nat) : list (string * json) :=
  [("search", JObj [("dimension", JStr dimension); ("index", JInt (Z.of_nat i))])].

Section search.
Context {spf : Spiffe} {cdr : Cedar}.

Definition evaluateForSearch (now now' : Z) (id dimension : string) (i : nat) (eval : EvalRequest) : HM (option bool) :=
  e ← peek ap_engine;
  match Evaluate now eval e with
  | Err _ => mret None
  | Ok resp =>
      audit now' (evaluate_event id [] (search_keys dimension i) eval resp) ;;
      mret (Some (resp_decision resp))
  end.

(** The loop over a window from its [i]-th candidate on. *)
Fixpoint search_loop {T} (clk : nat → Z) (id dimension : string) (request : T → EvalRequest) (i : nat) (window : list T)
    : HM (list T) :=
  match window with
  | [] => mret []
  | c :: window' =>
      d ← evaluateForSearch (clk (2 * i)) (clk (2 * i + 1)) id dimension i (request c);
      match d with
      | None => writeErr 400 (FAt i (FText "evaluation failed"))
      | Some d =>
          rest ← search_loop clk id dimension request (S i) window';
          mret (if (d : bool) then c :: rest else rest)
      end
  end.

(** The request of a candidate: [dimension] is what is searched. *)
Definition candidate_request (dimension : string) (s : EntitySearchRequest) (c : Entity) : EvalRequest :=
  if decide (dimension = "subject") then mkEvalRequest c (es_action s) (es_other s) (es_context s)
  else mkEvalRequest (es_other s) (es_action s) c (es_context s).

(** [searchSubject] and [searchResource]. *)
Definition search_entities (sv : Server) (clk : nat → Z) (dimension many other : string) (r : HttpRequest) : HM HttpReply :=
  req ← decodeJSONBody (dec_struct (entity_search_fields many dimension other)) no_entity_search r;
  match fingerprintOf (entity_search_json many dimension other req) with
  | None => writeErr 500 (FText "fingerprint search request")
  | Some fp =>
      match es_candidates req, es_pattern req with
      | Some _, Some _ => writeErr 400 (FText "supply either a candidate list or a pattern, not both")
      | _, _ =>
          let patternType := default "" (entType <$> es_pattern req) in
          enumerated ← peek (λ a, EntitiesOfType patternType (ap_engine a));
          match searchSpace sv (bool_decide (patternType ≠ "")) (es_candidates req) enumerated (es_page req) fp with
          | Err f => writeErr 400 f
          | Ok (window, next) =>
              matched ← search_loop clk (RequestIDFrom (r_requestIDs r)) dimension (candidate_request dimension req) 0 window;
              mret (mkHttp 200 (ShowEntities matched next))
          end
      end
  end.

Definition searchSubject (sv : Server) (clk : nat → Z) : HttpRequest → HM HttpReply :=
  search_entities sv clk "subject" "subjects" "resource".

Definition searchResource (sv : Server) (clk : nat → Z) : HttpRequest → HM HttpReply :=
  search_entities sv clk "resource" "resources" "subject".

Definition searchAction (sv : Server) (clk : nat → Z) (r : HttpRequest) : HM HttpReply :=
  req ← decodeJSONBody (dec_struct action_search_fields) no_action_search r;
  match fingerprintOf (action_search_json req) with
  | None => writeErr 500 (FText "fingerprint search request")
  | Some fp =>
      enumerated ← peek (λ a, ActionNames (ap_engine a));
      match searchSpace sv true (as_candidates req) enumerated (as_page req) fp with
      | Err f => writeErr 400 f
      | Ok (window, next) =>
          matched ← search_loop clk (RequestIDFrom (r_requestIDs r)) "action"
                      (λ c, mkEvalRequest (as_subject req) c (as_resource req) (as_context req)) 0 window;
          mret (mkHttp 200 (ShowActions matched next))
      end
  end.

End search.
