(* ===== verification/AuditApi.v ===== *)
(** * AuditApi

    Reads of the audit chain and of the policy bundle over HTTP
    (internal/server/api/http.go, bundle.go). *)
From S2P Require Import Prelude Crypto Json JsonParse JsonRaw Decode AuditKeyring Store Domains AuditChain Groups.
From S2P Require Import Policies Scim GoValue GoTime Base64 Cedar Directory Request Engine Bundle Wire Http Reload.

(** [strconv.ParseInt(s, 10, 64)]: the value, cut off at the ends of the
    range, and whether there was no error. *)
Definition ParseInt (s : string) : Z * bool :=
  let '(neg, digits) := match s with
                        | String "-" t => (true, t)
                        | String "+" t => (false, t)
                        | _ => (false, s)
                        end in
  match (if decide (digits = "") then None else decimal 0 digits) with
  | None => (0%Z, false)
  | Some n =>
      let z := if neg then (- n)%Z else n in
      if decide (in_int64 z) then (z, true) else (if neg then (- two63)%Z else (two63 - 1)%Z, false)
  end.

(** [strings.Contains]. *)
Fixpoint Contains (s sub : string) : bool :=
  HasPrefix s sub || match s with "" => false | String _ s' => Contains s' sub end.

Section audit_api.
Context {spf : Spiffe} {cdr : Cedar} {ecd : Ecdsa}.

Definition listAudit (r : HttpRequest) : HM HttpReply :=
  res ← call (on_store (ListAudit (ParseInt (Query r "since")).1 (ParseInt (Query r "limit")).1));
  match res with
  | Err e => writeErr 500 (FStore e)
  | Ok events => mret (mkHttp 200 (ShowEvents events))
  end.

(** The anchor a request names. *)
Definition read_anchor (r : HttpRequest) : result failure (option AuditAnchor) :=
  let head := Query r "expected_head" in
  let count := Query r "expected_count" in
  if negb (Bool.eqb (bool_decide (head ≠ "")) (bool_decide (count ≠ "")))
  then Err (FText "expected_head and expected_count must be provided together for anchored verification")
  else if decide (head = "") then Ok None
  else match ParseInt count with
       | (_, false) => Err (FText "expected_count must be an integer")
       | (n, true) =>
           if decide (n < 0)%Z then Err (FText "expected_count must be non-negative") else Ok (Some (mkAuditAnchor head n))
       end.

Definition verifyAudit (r : HttpRequest) : HM HttpReply :=
  match read_anchor r with
  | Err f => writeErr 400 f
  | Ok anchor =>
      res ← call (on_store (VerifyAudit anchor));
      match res with
      | Err e => writeErr 500 (FStore e)
      | Ok v => mret (mkHttp 200 (ShowVerification v))
      end
  end.

(** [key] is the bundle signing key, if there is one. *)
Definition getPolicyBundle (sv : Server) (key : option PrivateKey) (now : Z) (r : HttpRequest) : HM HttpReply :=
  if negb (mayRecordDecisions sv (r_caller r))
  then writeErr 403 (FText "reading the policy bundle needs --require-auth and a caller listed in --decision-recorder")
  else
    e ← peek ap_engine;
    match export_bundle e with
    | Err le => writeErr 500 (FLoad le)
    | Ok b =>
        match (match key with Some k => SignBundleAt b k now | None => Some b end) with
        | None => writeErr 500 (FText "sign bundle")
        | Some b =>
            let etag := String quote (b_revision b +:+ String quote "") in
            if decide (r_ifNoneMatch r ≠ "") then
              if Contains (r_ifNoneMatch r) etag then mret (mkHttp 304 Nothing) else mret (mkHttp 200 (ShowBundle b))
            else mret (mkHttp 200 (ShowBundle b))
        end
    end.

End audit_api.
