(* ===== verification/Decisions.v ===== *)
(** * Decisions

    The control plane's side of local decisions
    (internal/server/api/bundle.go): who may fetch the bundle and record
    decisions, what a batch has to look like, and how it is appended to the
    audit chain, each decision and each loss report once. *)
From S2P Require Import Prelude Crypto Json JsonParse JsonRaw Decode AuditKeyring Store Domains AuditChain.
From S2P Require Import AuditVerify AuditOnce Policies Reach Ledger GoValue GoTime Base64 Cedar Directory.
From S2P Require Import Request Engine Bundle Wire Http.

Definition localDecisionKind : string := "access.evaluate.local".
Definition maxDecisionBatch : nat := 1000.

(** ** Batches *)

Record LocalDecision := mkLocalDecision {
  ld_id : string;
  ld_decided_at : Z;
  ld_request_id : string;
  ld_request_id_sha256 : string;
  ld_request : EvalRequest;
  ld_response : EvalResponse;
}.

Record DecisionBatch := mkDecisionBatch {
  BundleRevision : string;
  Decisions : list LocalDecision;
  Dropped : Z;
  DroppedIDs : list string;
  DroppedDigests : list string;
  LossID : string;
}.

Definition zero_decision : LocalDecision := mkLocalDecision "" zero_time "" "" zero_request zero_response.
Definition zero_batch : DecisionBatch := mkDecisionBatch "" [] 0 [] [] "".

Definition decision_fields : list (string * decoder LocalDecision) :=
  [("id", dec_part ld_id
      (λ x d, mkLocalDecision x (ld_decided_at d) (ld_request_id d) (ld_request_id_sha256 d) (ld_request d) (ld_response d)) dec_string);
   ("decided_at", dec_part ld_decided_at
      (λ x d, mkLocalDecision (ld_id d) x (ld_request_id d) (ld_request_id_sha256 d) (ld_request d) (ld_response d)) dec_time);
   ("request_id", dec_part ld_request_id
      (λ x d, mkLocalDecision (ld_id d) (ld_decided_at d) x (ld_request_id_sha256 d) (ld_request d) (ld_response d)) dec_string);
   ("request_id_sha256", dec_part ld_request_id_sha256
      (λ x d, mkLocalDecision (ld_id d) (ld_decided_at d) (ld_request_id d) x (ld_request d) (ld_response d)) dec_string);
   ("request", dec_part ld_request
      (λ x d, mkLocalDecision (ld_id d) (ld_decided_at d) (ld_request_id d) (ld_request_id_sha256 d) x (ld_response d)) dec_request);
   ("response", dec_part ld_response
      (λ x d, mkLocalDecision (ld_id d) (ld_decided_at d) (ld_request_id d) (ld_request_id_sha256 d) (ld_request d) x) dec_response)].

Definition dec_decision : decoder LocalDecision := dec_struct decision_fields.

Definition batch_fields : list (string * decoder DecisionBatch) :=
  [("bundle_revision", dec_part BundleRevision
      (λ x b, mkDecisionBatch x (Decisions b) (Dropped b) (DroppedIDs b) (DroppedDigests b) (LossID b)) dec_string);
   ("decisions", dec_part Decisions
      (λ x b, mkDecisionBatch (BundleRevision b) x (Dropped b) (DroppedIDs b) (DroppedDigests b) (LossID b))
      (dec_slice dec_decision zero_decision));
   ("dropped", dec_part Dropped
      (λ x b, mkDecisionBatch (BundleRevision b) (Decisions b) x (DroppedIDs b) (DroppedDigests b) (LossID b)) dec_int);
   ("dropped_ids", dec_part DroppedIDs
      (λ x b, mkDecisionBatch (BundleRevision b) (Decisions b) (Dropped b) x (DroppedDigests b) (LossID b)) (dec_slice dec_string ""));
   ("dropped_digests", dec_part DroppedDigests
      (λ x b, mkDecisionBatch (BundleRevision b) (Decisions b) (Dropped b) (DroppedIDs b) x (LossID b)) (dec_slice dec_string ""));
   ("loss_id", dec_part LossID
      (λ x b, mkDecisionBatch (BundleRevision b) (Decisions b) (Dropped b) (DroppedIDs b) (DroppedDigests b) x) dec_string)].

Definition dec_batch : decoder DecisionBatch := dec_struct batch_fields.

(** *** Checks *)

Definition is_hex_digit (a : ascii) : bool := byte_in 48 57 a || byte_in 97 102 a || byte_in 65 70 a.

(** [hex.DecodeString] succeeds with 32 bytes. *)
Definition is_hex_digest (s : string) : bool :=
  bool_decide (String.length s = 64) && string_forallb is_hex_digit s.

Fixpoint validLossEntries (ids digests : list string) : bool :=
  match ids, digests with
  | [], _ => true
  | id :: ids', dg :: digests' =>
      negb (bool_decide (id = "" ∨ 128 < String.length id)) && is_hex_digest dg && validLossEntries ids' digests'
  | _ :: _, [] => false
  end.

Definition isHexSHA256 (s : string) : bool :=
  bool_decide (String.length s = 64) && string_forallb (λ a, byte_in 48 57 a || byte_in 97 102 a) s.

Definition valid_loss (b : DecisionBatch) : bool :=
  negb (bool_decide ((Dropped b < 0)%Z ∨ Dropped b ≠ Z.of_nat (length (DroppedIDs b)) ∨
                     maxDecisionBatch < length (DroppedIDs b) ∨
                     length (DroppedDigests b) ≠ length (DroppedIDs b) ∨
                     ((0 < Dropped b)%Z ∧ LossID b = "") ∨ 128 < String.length (LossID b))) &&
  validLossEntries (DroppedIDs b) (DroppedDigests b).

Definition valid_decision (d : LocalDecision) : bool :=
  negb (bool_decide (ld_id d = "" ∨ 128 < String.length (ld_id d)) || IsZero (ld_decided_at d)) &&
  negb ((bool_decide (ld_request_id d ≠ "") && negb (ValidRequestID (ld_request_id d))) ||
        (bool_decide (ld_request_id_sha256 d ≠ "") &&
         (bool_decide (ld_request_id d ≠ "") || negb (isHexSHA256 (ld_request_id_sha256 d))))) &&
  match Validate (ld_request d) with None => true | Some _ => false end.

Definition valid_batch (b : DecisionBatch) : bool :=
  valid_loss b &&
  negb (bool_decide ((0 < Dropped b)%Z ∧ Decisions b ≠ [])) &&
  negb (bool_decide (Dropped b = 0%Z ∧ Decisions b = [])) &&
  negb (bool_decide (maxDecisionBatch < length (Decisions b))) &&
  forallb valid_decision (Decisions b).

(** ** Recording *)

(** A status, with the number of decisions the answer says were recorded. *)
Record reply := mkReply {
  rp_code : Z;
  rp_recorded : option Z;
}.

Definition nul : ascii := "000"%char.

Definition decision_key (agent id : string) : string := agent +:+ String nul ("decision" +:+ String nul id).
Definition loss_key (agent id : string) : string := agent +:+ String nul ("loss" +:+ String nul id).

Definition loss_event (agent : string) (b : DecisionBatch) : AuditEvent :=
  new_event (localDecisionKind +:+ ".dropped") agent "" "error"
    (Some (json_print (JObj [("bundle_revision", JStr (BundleRevision b)); ("dropped", JInt (Dropped b));
                             ("dropped_digests", strings_json (DroppedDigests b));
                             ("dropped_ids", strings_json (DroppedIDs b)); ("loss_id", JStr (LossID b))]))).

(** The payload of a decision, keys in order. *)
Definition decision_payload (rev : string) (d : LocalDecision) : option json :=
  req ← request_json (ld_request d);
  at_ ← json_of_time (ld_decided_at d);
  Some (JObj ([("bundle_revision", JStr rev); ("decided_at", at_); ("decision_id", JStr (ld_id d)); ("request", req)] ++
              omit_empty (bool_decide (ld_request_id d = "")) ("request_id", JStr (ld_request_id d)) ++
              omit_empty (bool_decide (ld_request_id_sha256 d = "")) ("request_id_sha256", JStr (ld_request_id_sha256 d)) ++
              [("response", response_json (ld_response d)); ("source", JStr "local")])).

Definition decision_event (agent rev : string) (d : LocalDecision) : option AuditEvent :=
  p ← decision_payload rev d;
  Some (new_event localDecisionKind agent (entID (reqSubject (ld_request d)))
          (if resp_decision (ld_response d) then "allow" else "deny") (Some (json_print p))).

(** The decisions from the [i]-th on; [now i] is the time of its append. *)
Fixpoint record_all (now : nat → Z) (agent rev : string) (i : nat) (ds : list LocalDecision) : M reply :=
  match ds with
  | [] => mret (mkReply 200 (Some (Z.of_nat i)))
  | d :: ds' =>
      match decision_event agent rev d with
      | None => mret (mkReply 500 None)
      | Some ev =>
          catch (AppendAuditOnce (now i) (decision_key agent (ld_id d)) ev)
            (λ r, match r with
                  | Ok _ => record_all now agent rev (S i) ds'
                  | Err _ => mret (mkReply 500 (Some (Z.of_nat i)))
                  end)
      end
  end.

Definition record_batch (now : nat → Z) (agent : string) (b : DecisionBatch) : M reply :=
  if decide (0 < Dropped b)%Z then
    catch (AppendAuditOnce (now 0) (loss_key agent (LossID b)) (loss_event agent b))
      (λ r, match r with
            | Ok _ => record_all now agent (BundleRevision b) 0 (Decisions b)
            | Err _ => mret (mkReply 500 (Some 0%Z))
            end)
  else record_all now agent (BundleRevision b) 0 (Decisions b).

Definition recordDecisions (s : Server) (now : nat → Z) (broken : bool) (agent body : string) : M reply :=
  if mayRecordDecisions s agent then
    match body_value maxJSONBodyBytes broken body with
    | Err c => mret (mkReply c None)
    | Ok raw =>
        match dec_batch raw zero_batch with
        | None => mret (mkReply 400 None)
        | Some b => if valid_batch b then record_batch now agent b else mret (mkReply 400 None)
        end
    end
  else catch (AppendAudit (now 0) (new_event localDecisionKind agent "" "deny" None)) (λ _, mret (mkReply 403 None)).

(** ** What a batch leaves in the chain *)

(** A row of the chain records the event. *)
Definition in_chain (ev : AuditEvent) (d : DB) : Prop := ∃ ev', records ev ev' ∧ event_row ev' ∈ audit_log d.

Lemma in_chain_prefix ev d d' : audit_log d `prefix_of` audit_log d' → in_chain ev d → in_chain ev d'.
Proof. intros [l Hl] (ev' & Hr & Hin). exists ev'. split; [done|]. rewrite Hl. apply elem_of_app. by left. Qed.

Lemma decision_key_inj agent id id' : decision_key agent id = decision_key agent id' → id = id'.
Proof. unfold decision_key. intros H. by apply string_app_inj_len in H as [_ [= ->]]. Qed.

Lemma loss_key_other agent id id' : decision_key agent id ≠ loss_key agent id'.
Proof. unfold decision_key, loss_key. intros H. by apply string_app_inj_len in H as [_ [=]]. Qed.

Definition decision_keys (agent key : string) : Prop := ∃ id, key = decision_key agent id.

Section recording.
Context (agent : string).
(** The event that belongs to each decision of the agent. *)
Context (own : string → AuditEvent → Prop) (Hfun : ∀ id ev ev', own id ev → own id ev' → ev = ev').

(** Every decision key that is remembered has its event in the chain. *)
Definition once_true (d : DB) : Prop :=
  ∀ id r, audit_once d !! decision_key agent id = Some r → ∃ ev, own id ev ∧ in_chain ev d.

Lemma once_true_kept d d' : kept (decision_keys agent) d d' → once_true d → once_true d'.
Proof.
  intros [Hl Ho] Ht id r Hr. destruct (Ht id r) as (ev & Hown & Hin); [apply Ho; [by exists id|done]|].
  exists ev. split; [done|]. by eapply in_chain_prefix.
Qed.

Lemma append_decision now id ev s q r s' q' :
  audit_ok s → clock_ok now → once_true (db s) → own id ev →
  AppendAuditOnce now (decision_key agent id) ev (s, q) = (r, (s', q')) →
  audit_ok s' ∧ once_true (db s') ∧ audit_log (db s) `prefix_of` audit_log (db s') ∧ (is_ok r = true → in_chain ev (db s')).
Proof using Hfun.
  intros Hok Hnow Ht Hown H.
  pose proof (AppendAuditOnce_keys now (decision_key agent id) ev (db s) s q (λ _ _ _ Hr, Hr)) as Hk. rewrite H in Hk.
  apply AppendAuditOnce_step in H as [Hok' Hst]; [|done|done]. split; [done|].
  assert (remembered (decision_key agent id) (once_digest ev) (db s) ∨ (∃ dg, remembered (decision_key agent id) dg (db s)) →
    in_chain ev (db s)) as Hseen.
  { intros [[t Hr]|(dg & t & Hr)]; destruct (Ht id _ Hr) as (ev2 & Hown2 & Hin); by rewrite (Hfun _ _ _ Hown Hown2). }
  assert (audit_log (db s) `prefix_of` audit_log (db s') ∧
    (∀ x, audit_once (db s') !! decision_key agent id = Some x → in_chain ev (db s')) ∧ (is_ok r = true → in_chain ev (db s')))
    as (Hl & Hself & Hr).
  { destruct Hst as [Hl Ho Hr|Hl Ho Hrem _|seen ev' Ho Hrem _ _ Hl _|ev' _ _ Hrec Hl _].
    - rewrite Hl, Ho, Hr. split_and!; [done| |done]. intros [dg t] Hx.
      apply (in_chain_prefix ev (db s)); [by rewrite Hl|]. apply Hseen. right. by exists dg, t.
    - assert (in_chain ev (db s')) by (apply (in_chain_prefix ev (db s)); [by rewrite Hl|auto]). by rewrite Hl.
    - assert (in_chain ev (db s')) by (apply (in_chain_prefix ev (db s)); [rewrite Hl; by apply prefix_app_r|eauto]).
      rewrite Hl. split_and!; [by apply prefix_app_r|done|done].
    - assert (in_chain ev (db s')) by (exists ev'; split; [done|]; rewrite Hl; apply elem_of_app; right; by apply list_elem_of_singleton).
      rewrite Hl. split_and!; [by apply prefix_app_r|done|done]. }
  split_and!; [|done|done]. intros id' x Hx. destruct (decide (id' = id)) as [->|Hne]; [exists ev; eauto|].
  destruct (Ht id' x) as (ev2 & Hown2 & Hin).
  - apply (Hk _ x); [|done]. intros E. by apply Hne, (decision_key_inj agent).
  - exists ev2. split; [done|]. by eapply in_chain_prefix.
Qed.

(** The decision belongs to the agent. *)
Definition owned (rev : string) (d : LocalDecision) : Prop :=
  ∀ ev, decision_event agent rev d = Some ev → own (ld_id d) ev.

(** The decision's event is in the chain. *)
Definition recorded_in (rev : string) (x : DB) (d : LocalDecision) : Prop :=
  ∃ ev, decision_event agent rev d = Some ev ∧ in_chain ev x.

Lemma record_all_spec now rev ds i s q :
  audit_ok s → (∀ j, clock_ok (now j)) → once_true (db s) → Forall (owned rev) ds →
  ∃ rp s' q' k, record_all now agent rev i ds (s, q) = (Ok rp, (s', q')) ∧ audit_ok s' ∧ once_true (db s') ∧
    audit_log (db s) `prefix_of` audit_log (db s') ∧ k ≤ length ds ∧ Forall (recorded_in rev (db s')) (take k ds) ∧
    (rp = mkReply 200 (Some (Z.of_nat (i + length ds))) ∧ k = length ds ∨ rp = mkReply 500 None ∨ rp = mkReply 500 (Some (Z.of_nat (i + k)))).
Proof using Hfun.
  intros Hok Hnow Ht Hall. revert i s q Hok Ht. induction Hall as [|d ds Hd _ IH]; intros i s q Hok Ht; cbn [record_all].
  { eexists _, s, q, 0. split_and!; try done. left. by rewrite Nat.add_0_r. }
  destruct (decision_event agent rev d) as [ev|] eqn:Eev.
  2:{ eexists _, s, q, 0. split_and!; try done; [simpl; lia|by right; left]. }
  destruct (AppendAuditOnce (now i) (decision_key agent (ld_id d)) ev (s, q)) as [r [s1 q1]] eqn:E.
  erewrite catch_run by done. apply append_decision in E as (Hok1 & Ht1 & Hl1 & Hr1); [|done..|by apply Hd].
  destruct r as [b|e].
  - destruct (IH (S i) s1 q1 Hok1 Ht1) as (rp & s2 & q2 & k & Hrun & Hok2 & Ht2 & Hl2 & Hk & Hrec & Hrp).
    exists rp, s2, q2, (S k). split_and!; [done|done|done|by etrans|simpl; lia| |].
    + simpl. constructor; [|done]. exists ev. split; [done|]. eapply in_chain_prefix; [exact Hl2|]. by apply Hr1.
    + simpl. rewrite !Nat.add_succ_r. destruct Hrp as [[-> ->]|Hrp]; [by left|right; exact Hrp].
  - eexists _, s1, q1, 0. split_and!; try done; [simpl; lia|]. right. right. by rewrite Nat.add_0_r.
Qed.

End recording.

(** ** The handler *)

(** Every call is a sequence of writes to the store. *)
Lemma appends_step now key ev s q r s' q' :
  clock_ok now → other_event ev → AppendAuditOnce now key ev (s, q) = (r, (s', q')) → rtc store_step s s'.
Proof. intros Hn Ho H. apply rtc_once. pose proof (ss_append_once s now key ev q Hn Ho) as Hs. by rewrite H in Hs. Qed.

Lemma record_all_steps now agent rev ds i s q :
  (∀ j, clock_ok (now j)) → rtc store_step s (record_all now agent rev i ds (s, q)).2.1.
Proof.
  intros Hn. revert i s q. induction ds as [|d ds IH]; intros i s q; [done|]. cbn [record_all].
  destruct (decision_event agent rev d) as [ev|] eqn:Eev; [|done].
  destruct (AppendAuditOnce (now i) (decision_key agent (ld_id d)) ev (s, q)) as [r [s1 q1]] eqn:E.
  erewrite catch_run by done. apply appends_step in E; [|done|].
  - destruct r; [etrans; [exact E|apply IH]|done].
  - unfold decision_event in Eev. destruct (decision_payload _ _); [|done]. injection Eev as <-. by intros [[?|[?|?]] _].
Qed.

Lemma recordDecisions_steps srv now broken agent body s q :
  (∀ j, clock_ok (now j)) → rtc store_step s (recordDecisions srv now broken agent body (s, q)).2.1.
Proof.
  intros Hn. unfold recordDecisions. destruct (mayRecordDecisions _ _).
  - destruct (body_value _ _ _) as [raw|]; [|done]. destruct (dec_batch _ _) as [b|]; [|done].
    destruct (valid_batch b); [|done]. unfold record_batch. case_decide; [|by apply record_all_steps].
    destruct (AppendAuditOnce (now 0) (loss_key agent (LossID b)) (loss_event agent b) (s, q)) as [r [s1 q1]] eqn:E. erewrite catch_run by done.
    apply appends_step in E; [|done|by intros [[?|[?|?]] _]]. destruct r; [|done]. etrans; [exact E|]. by apply record_all_steps.
  - destruct (AppendAudit (now 0) (new_event localDecisionKind agent "" "deny" None) (s, q)) as [r [s1 q1]] eqn:E. erewrite catch_run by done. cbn [mret GoM_ret fst snd].
    apply rtc_once, ss_write, ss_policy.
    assert (s1 = (AppendAudit (now 0) (new_event localDecisionKind agent "" "deny" None) (s, q)).2.1) as -> by by rewrite E.
    apply step_append. by intros [[?|[?|?]] _].
Qed.

Section handler.
Context (srv : Server) (agent : string).
Context (own : string → AuditEvent → Prop) (Hfun : ∀ id ev ev', own id ev → own id ev' → ev = ev').

Lemma record_batch_spec now b s q :
  audit_ok s → (∀ j, clock_ok (now j)) → once_true agent own (db s) → Forall (owned agent own (BundleRevision b)) (Decisions b) →
  ∃ rp s' q' k, record_batch now agent b (s, q) = (Ok rp, (s', q')) ∧ audit_ok s' ∧ once_true agent own (db s') ∧
    audit_log (db s) `prefix_of` audit_log (db s') ∧ k ≤ length (Decisions b) ∧
    Forall (recorded_in agent (BundleRevision b) (db s')) (take k (Decisions b)) ∧
    (rp_code rp = 200%Z ∧ k = length (Decisions b) ∨ rp_code rp = 500%Z ∧ default 0%Z (rp_recorded rp) <= Z.of_nat k)%Z.
Proof using Hfun.
  intros Hok Hn Ht Hall. unfold record_batch. case_decide as Hd.
  - destruct (AppendAuditOnce (now 0) (loss_key agent (LossID b)) (loss_event agent b) (s, q)) as [r [s1 q1]] eqn:E. erewrite catch_run by done.
    pose proof (AppendAuditOnce_kept (decision_keys agent) _ _ _ _ _ _ _ _ Hok (Hn 0)
      (λ k '(ex_intro _ id Hid) Hk, loss_key_other agent id _ (eq_trans (eq_sym Hid) Hk)) E) as Hkept.
    apply AppendAuditOnce_step in E as [Hok1 _]; [|done|done]. pose proof (once_true_kept agent own _ _ Hkept Ht) as Ht1.
    destruct r as [x|e].
    + destruct (record_all_spec agent own Hfun now (BundleRevision b) (Decisions b) 0 s1 q1) as (rp & s2 & q2 & k & Hrun & Hok2 & Ht2 & Hl & Hk & Hrec & Hrp);
        [done..|]. exists rp, s2, q2, k. split_and!; try done; [by etrans; [apply Hkept|]|].
      destruct Hrp as [[-> ->]|[->| ->]]; [by left|right; simpl; lia..].
    + eexists _, s1, q1, 0. split_and!; try done; [apply Hkept|lia|by right].
  - destruct (record_all_spec agent own Hfun now (BundleRevision b) (Decisions b) 0 s q) as (rp & s2 & q2 & k & Hrun & Hok2 & Ht2 & Hl & Hk & Hrec & Hrp);
      [done..|]. exists rp, s2, q2, k. split_and!; try done. destruct Hrp as [[-> ->]|[->| ->]]; [by left|right; simpl; lia..].
Qed.

(** A call either appends nothing of a batch and reports nothing recorded,
    or it has recorded at least as much as it says. *)
Lemma recordDecisions_spec now broken body s q :
  audit_ok s → (∀ j, clock_ok (now j)) → once_true agent own (db s) →
  (∀ raw b, body_value maxJSONBodyBytes broken body = Ok raw → dec_batch raw zero_batch = Some b →
     Forall (owned agent own (BundleRevision b)) (Decisions b)) →
  ∃ rp s' q', recordDecisions srv now broken agent body (s, q) = (Ok rp, (s', q')) ∧ audit_ok s' ∧ once_true agent own (db s') ∧
    audit_log (db s) `prefix_of` audit_log (db s') ∧
    (rp_code rp ≠ 200%Z ∧ rp_recorded rp = None ∨
     ∃ raw b k, body_value maxJSONBodyBytes broken body = Ok raw ∧ dec_batch raw zero_batch = Some b ∧ k ≤ length (Decisions b) ∧
       Forall (recorded_in agent (BundleRevision b) (db s')) (take k (Decisions b)) ∧
       (rp_code rp = 200 ∧ k = length (Decisions b) ∨ rp_code rp = 500 ∧ default 0 (rp_recorded rp) <= Z.of_nat k)%Z).
Proof using Hfun.
  intros Hok Hn Ht Hown. unfold recordDecisions. destruct (mayRecordDecisions srv agent).
  - destruct (body_value maxJSONBodyBytes broken body) as [raw|c] eqn:Eb.
    2:{ eexists _, s, q. split_and!; try done. left. split; [|done]. unfold body_value in Eb. simpl.
        intros ->. repeat case_match; discriminate. }
    destruct (dec_batch raw zero_batch) as [b|] eqn:Ed; [|eexists _, s, q; split_and!; try done; by left].
    destruct (valid_batch b); [|eexists _, s, q; split_and!; try done; by left].
    destruct (record_batch_spec now b s q Hok Hn Ht (Hown raw b eq_refl Ed)) as (rp & s' & q' & k & Hrun & Hok' & Ht' & Hl & Hk & Hrec & Hrp).
    exists rp, s', q'. split_and!; try done. right. by exists raw, b, k.
  - destruct (AppendAudit (now 0) (new_event localDecisionKind agent "" "deny" None) (s, q)) as [r [s1 q1]] eqn:E. erewrite catch_run by done.
    pose proof (AppendAudit_kept (decision_keys agent) (now 0) (new_event localDecisionKind agent "" "deny" None) s q Hok) as Hkept.
    rewrite E in Hkept. apply AppendAudit_cases in E as [Hok' _]; [|done].
    eexists _, s1, q1. split_and!; [done|done|by eapply once_true_kept|apply Hkept|by left].
Qed.

End handler.
