(* ===== verification/Routes.v ===== *)
(** * Routes

    The route table ([Server.Handler] of internal/server/api/http.go): each
    modelled route with the gates in front of its handler, and what holds
    of all of them. *)
From S2P Require Import Prelude Crypto Json JsonParse JsonRaw Decode AuditKeyring Store Domains AuditChain Groups.
From S2P Require Import Policies Scim GoValue GoTime Base64 Cedar Directory Request Engine Bundle Wire Refusals Http Auth.
From S2P Require Import Reload DomainApi GroupApi PolicyApi AccessApi Search AuditApi Decisions.

Inductive route :=
| GetLeader
| PostDomains | GetDomains | GetDomainByName | DeleteDomainByName | PostDomainAdmins | DeleteDomainAdmins
| GetGroups | PostGroups | GetGroupByName | DeleteGroupByName | PutGroupMembers | DeleteGroupMembers
| PostEvaluation | PostEvaluations | PostSearchSubject | PostSearchResource | PostSearchAction
| GetAudit | GetAuditVerify | GetPolicyBundle | PostDecisions
| GetPolicies | GetPolicyByID | PostPolicies | PostPoliciesValidate | PutPolicy | DeletePolicyByID.

#[global] Instance route_eq_dec : EqDecision route.
Proof. solve_decision. Defined.

Section routes.
Context {spf : Spiffe} {cdr : Cedar} {ecd : Ecdsa} {tok : Tokens}.

(** What the process was started with. *)
Record Setup := mkSetup {
  su_server : Server;
  su_key : option PrivateKey;
}.

Definition leaderState_handler : HM HttpReply :=
  ok ← peek (λ a, IsLeader (ap_store a)); mret (mkHttp 200 (ShowLeader ok)).

Definition recordDecisions_handler (sv : Server) (clk : nat → Z) (r : HttpRequest) : HM HttpReply :=
  res ← call (on_store (recordDecisions sv clk (r_broken r) (r_caller r) (r_body r)));
  match res with
  | Ok rp => mret (mkHttp (rp_code rp) (ShowRecorded (rp_recorded rp)))
  | Err e => writeErr 500 (FStore e)
  end.

(** The gates and handlers of a route; [clk] gives the times of the gates
    and, from [10] on, those of the handler. *)
Definition handle (su : Setup) (clk : nat → Z) (reason : string → string) (rt : route) : HttpRequest → HM HttpReply :=
  let sv := su_server su in
  let t i := clk (10 + i) in
  let auth := requireSPIFFEAuth sv clk reason in
  let userAuth := requireUserAuth sv clk reason in
  let gated h := leaderOnly (auth h) in
  let userGated h := leaderOnly (userAuth h) in
  let fresh h := fresh (clk 9) h in
  match rt with
  | GetLeader => λ _, leaderState_handler
  | PostDomains => gated (createDomain sv t)
  | GetDomains => listDomains sv
  | GetDomainByName => getDomain sv
  | DeleteDomainByName => gated (deleteDomain sv t)
  | PostDomainAdmins => gated (addDomainAdmin sv t)
  | DeleteDomainAdmins => gated (removeDomainAdmin sv t)
  | GetGroups => getGroups sv
  | PostGroups => gated (createGroup sv t)
  | GetGroupByName => getGroup sv
  | DeleteGroupByName => gated (deleteGroup sv t)
  | PutGroupMembers => gated (putGroupMember sv t)
  | DeleteGroupMembers => gated (removeGroupMember sv t)
  | PostEvaluation => gated (fresh (evaluateAccess t))
  | PostEvaluations => gated (fresh (evaluateAccessBatch t))
  | PostSearchSubject => gated (fresh (searchSubject sv t))
  | PostSearchResource => gated (fresh (searchResource sv t))
  | PostSearchAction => gated (fresh (searchAction sv t))
  | GetAudit => auth listAudit
  | GetAuditVerify => auth verifyAudit
  | GetPolicyBundle => auth (fresh (getPolicyBundle sv (su_key su) (t 0)))
  | PostDecisions => gated (recordDecisions_handler sv t)
  | GetPolicies => userAuth (λ _, listPolicies)
  | GetPolicyByID => userAuth (getPolicy sv)
  | PostPolicies => userGated (createPolicy sv t)
  | PostPoliciesValidate => userAuth validatePolicy
  | PutPolicy => userGated (updatePolicy sv t)
  | DeletePolicyByID => userGated (deletePolicy sv t)
  end.

(** A request as it comes in carries no caller. *)
Definition serve_route (su : Setup) (clk : nat → Z) (reason : string → string) (rt : route) (r : HttpRequest)
    (w : Api * faults) : HttpReply * (Api * faults) :=
  serve (handle su clk reason rt (with_caller "" "" r)) w.

End routes.
