(* ===== verification/Refine.v ===== *)
(** * Refine

    The write API implements Spec. [command_of] reads a request as an
    operation of the specification; [outcome] says how it may end: applied
    and recorded, denied, refused because the specification refuses it or
    the database failed, undone, or in doubt when the database lost the
    acknowledgement of a commit. Every handler is shown to end in one of
    these ways, and to keep the invariant of the store. *)
From S2P Require Import Prelude Crypto Json JsonParse JsonRaw Decode AuditKeyring Store Domains AuditChain AuditVerify.
From S2P Require Import AuditOnce Groups Policies Scim ScimSync Reach Effects Spec GoValue GoTime Base64 Cedar Directory.
From S2P Require Import Request Engine Bundle Wire Refusals Http Auth Reload DomainApi GroupApi PolicyApi AccessApi Search.
From S2P Require Import AuditApi Decisions Routes.

(** ** Ancestors *)

Lemma chain_from_more fuel fuel' n :
  String.length n <= fuel → String.length n <= fuel' → chain_from fuel n = chain_from fuel' n.
Proof.
  revert fuel' n. induction fuel as [|fuel IH]; intros [|fuel'] n H H'; cbn [chain_from]; try done.
  - destruct n; [done|cbn in *; lia].
  - destruct n; [done|cbn in *; lia].
  - case_decide as Hn; [done|]. f_equal. pose proof (ParentOf_shorter n Hn). apply IH; lia.
Qed.

Lemma domain_chain_eq n : domain_chain n = if decide (n = "") then [] else n :: domain_chain (ParentOf n).
Proof.
  unfold domain_chain. destruct n as [|c n]; [done|]. cbn [chain_from String.length]. rewrite !decide_False by done.
  f_equal. pose proof (ParentOf_shorter (String c n) ltac:(done)). cbn in *. apply chain_from_more; lia.
Qed.

(** [n] is [m] or an ancestor of it: its labels are the first ones of [m]. *)
Definition covers (n m : string) : Prop := n ≠ "" ∧ split_byte "." n `prefix_of` split_byte "." m.

Lemma prefix_of_snoc {A} (k l : list A) x : k `prefix_of` l ++ [x] ↔ k = l ++ [x] ∨ k `prefix_of` l.
Proof.
  split; [|intros [-> |?]; [done|by apply prefix_app_r]]. intros [k' Hk].
  destruct k' as [|y k'] using rev_ind; [left; by rewrite app_nil_r in Hk|]. right. rewrite app_assoc in Hk.
  apply app_inj_tail in Hk as [-> _]. by apply prefix_app_r.
Qed.

Lemma prefix_of_label n x : split_byte "." n `prefix_of` [x] → split_byte "." n = [x].
Proof.
  intros [k Hk]. pose proof (split_byte_ne "." n).
  destruct (split_byte "." n) as [|y [|z l]]; [done|by injection Hk as <- _|by injection Hk].
Qed.

Lemma domain_chain_covers n m : n ∈ domain_chain m ↔ covers n m.
Proof.
  revert m. apply (well_founded_induction (Wf_nat.well_founded_ltof _ String.length)). intros m IH. unfold Wf_nat.ltof in IH.
  unfold covers. rewrite domain_chain_eq. destruct (decide (m = "")) as [->|Hm].
  - split; [by intros ?%not_elem_of_nil|]. intros [Hn H%prefix_of_label]. destruct Hn. by apply (split_byte_inj ".").
  - rewrite elem_of_cons, IH by (by apply ParentOf_shorter). unfold covers.
    destruct (ParentOf_cases m) as [[Hs Hp]|(l & _ & _ & Hs)].
    + rewrite Hp, Hs. split.
      * intros [-> |[Hn H%prefix_of_label]]; [by rewrite Hs|]. destruct Hn. by apply (split_byte_inj ".").
      * intros [Hn H%prefix_of_label]. left. apply (split_byte_inj "."). by rewrite Hs.
    + rewrite Hs, prefix_of_snoc, <-Hs. split.
      * intros [-> |[? ?]]; [by split; [|left]|by split; [|right]].
      * intros [Hn [He|?]]; [left; by apply (split_byte_inj ".")|by right].
Qed.

(** ** Commands *)

(** Who may do what, over the abstract state. *)
Definition administers (sv : Server) (caller domain : string) (a : AState) : Prop :=
  requireAuth sv = false ∨
  caller ≠ "" ∧ (caller ∈ rootAdmins sv ∨ ∃ n D, covers n domain ∧ a_domains a !! n = Some D ∧ caller ∈ ad_admins D).

Definition manages_policies (sv : Server) (caller : string) : Prop :=
  requireAuth sv = true ∧ caller ≠ "" ∧ caller ∈ rootAdmins sv.

(** What a request asks for: who may, the operation ([None] when no state
    allows it) and the words of its rows. *)
Record command := mkCommand {
  c_may : AState → Prop;
  c_op : option op;
  c_kind : string;
  c_actor : string;
  c_subject : string;
}.

Definition row_of (c : command) (decision : string) : entry := mkEntry (c_kind c) (c_actor c) (c_subject c) decision.

Definition c_exec (c : command) (a : AState) : option AState := o ← c_op c; exec_op o a.

(** The database failed, or the replica does not lead. *)
Definition failed (rp : HttpReply) : Prop :=
  ∃ e, no_answer e ∧ (rp = mkHttp 500 (Failed (FStore e)) ∨ rp = mkHttp 503 (Failed (FStore e))).

(** The reply of a commit whose acknowledgement was lost. *)
Definition io_reply (rp : HttpReply) : Prop := ∃ what msg, rp = mkHttp 500 (Failed (FStore (ErrIO what msg))).

(** How a command may end. *)
Inductive outcome (c : command) (a : AState) : HttpReply → AState → Prop :=
| o_done rp a' :
    c_may c a → c_exec c a = Some a' → (200 <= status rp < 300)%Z ∨ failed rp → outcome c a rp (noted [row_of c "ok"] a')
| o_denied rp l :
    ¬ c_may c a → status rp = 403%Z → l = [] ∨ l = [row_of c "deny"] → outcome c a rp (noted l a)
| o_refused rp :
    c_may c a → c_exec c a = None → (400 <= status rp < 600)%Z → outcome c a rp a
| o_failed rp :
    failed rp → outcome c a rp a
| o_undone rp :
    c_may c a → rp = mkHttp 500 (Failed (FReverted (c_kind c))) →
    ∀ l, l = [row_of c "reverted"] ∨ l = [row_of c "ok"; row_of c "reverted"] → outcome c a rp (noted l a)
| o_undone_unrecorded rp l :
    c_may c a → rp = mkHttp 500 (Failed (FRevertUnrecorded (c_kind c))) →
    l `sublist_of` [row_of c "ok"; row_of c "reverted"] → outcome c a rp (noted l a)
| o_in_doubt rp l a' :
    c_may c a → c_exec c a = Some a' → io_reply rp ∨ (∃ e, rp = mkHttp 500 (Failed (FRevertFailed (c_kind c) e))) →
    l = [] ∨ l = [row_of c "ok"] → ∀ a'', a'' = a ∨ a'' = a' → outcome c a rp (noted l a'').

(** ** Runs of handlers *)

Section refine.
Context {spf : Spiffe} {cdr : Cedar} {ecd : Ecdsa} {tok : Tokens}.

(** What a handler's run ends with satisfies [Φ]. *)
Definition wp {A} (m : HM A) (w : Api * faults) (Φ : result HttpReply A → Api * faults → Prop) : Prop := Φ (m w).1 (m w).2.

Lemma wp_ret {A} (x : A) w Φ : Φ (Ok x) w → wp (mret x) w Φ.
Proof. done. Qed.

Lemma wp_err {A} code f w (Φ : result HttpReply A → _) : Φ (Err (mkHttp code (Failed f))) w → wp (writeErr code f) w Φ.
Proof. done. Qed.

Lemma wp_bind {A B} (m : HM A) (k : A → HM B) w Φ :
  wp m w (λ r w', match r with Ok x => wp (k x) w' Φ | Err rp => Φ (Err rp) w' end) → wp (m ≫= k) w Φ.
Proof. unfold wp, mbind, HM_bind. destruct (m w) as [[x|rp] w']; done. Qed.

Lemma wp_mono {A} (m : HM A) w (Φ Ψ : result HttpReply A → Api * faults → Prop) :
  wp m w Φ → (∀ r w', Φ r w' → Ψ r w') → wp m w Ψ.
Proof. unfold wp. auto. Qed.

Lemma wp_call {A} (m : GoM Api A) w (Φ : result HttpReply (result error A) → _) :
  (∀ r w', m w = (r, w') → Φ (Ok r) w') → wp (call m) w Φ.
Proof. unfold wp, call. intros H. destruct (m w) as [r w'] eqn:E. by apply H. Qed.

Lemma wp_store {A} (m : M A) a q (Φ : result HttpReply (result error A) → _) :
  (∀ r s q', m (ap_store a, q) = (r, (s, q')) → Φ (Ok r) (set_store s a, q')) → wp (call (on_store m)) (a, q) Φ.
Proof. intros H. apply wp_call. intros r w'. unfold on_store. destruct (m _) as [r' [s q']] eqn:E. intros [= <- <-]. by apply H. Qed.

Lemma wp_serve (h : HM HttpReply) w (Φ : HttpReply → Api * faults → Prop) :
  wp h w (λ r w', Φ (match r with Ok rp | Err rp => rp end) w') → Φ (serve h w).1 (serve h w).2.
Proof. unfold wp, serve. by destruct (h w) as [[rp|rp] w']. Qed.

(** ** The state between requests *)

Definition view (a : Api) : AState := abs (db (ap_store a)).

(** No administrator is the empty name. *)
Definition tidy (a : AState) : Prop := ∀ n D, a_domains a !! n = Some D → "" ∉ ad_admins D.

(** [ap_later]: no other replica writes while the request is served. *)
Record good (a : Api) : Prop := {
  good_store : store_ok (ap_store a);
  good_tidy : tidy (view a);
  good_quiet : ap_later a = [];
}.

Lemma store_ok_dir s : store_ok s → dir_ok (db s).
Proof. intros [_ H]. apply (sa_dir _ _ _ (H "")). Qed.

Lemma store_ok_group s : store_ok s → group_ok (db s).
Proof. intros [_ H]. apply (sa_group _ _ _ (H "")). Qed.

Lemma store_ok_audit s : store_ok s → audit_ok s.
Proof. intros [[? _] _]. done. Qed.

Lemma good_set_store s a : good a → store_ok s → tidy (abs (db s)) → good (set_store s a).
Proof. intros [_ _ Hq] Hs Ht. by split. Qed.

Lemma tidy_noted l a : tidy a → tidy (noted l a).
Proof. done. Qed.

Lemma no_blank a n : good a → (n, "") ∉ domain_admins (db (ap_store a)).
Proof.
  intros [Hs Ht _] Hin. destruct (dok_admin _ (store_ok_dir _ Hs) _ _ Hin) as [r Hr].
  eapply (Ht n). { unfold view. by rewrite abs_domain, Hr. } cbn. by apply admins_of_elem.
Qed.

(** A step of the store as a run. *)
Lemma run_write {A} (m : M A) s q r s' q' :
  m (s, q) = (r, (s', q')) → store_write s (m (s, q)).2.1 → store_ok s → store_ok s'.
Proof. intros -> Hst. by apply store_write_ok. Qed.

(** *** Appends and reloads *)

Lemma wp_append now ev a q (Φ : result HttpReply (result error ()) → Api * faults → Prop) :
  good a → other_event ev →
  (∀ r a' q', good a' → ap_engine a' = ap_engine a →
     match r with
     | Ok _ => view a' = noted [event_entry ev] (view a)
     | Err _ => view a' = view a ∨ view a' = noted [event_entry ev] (view a)
     end → Φ (Ok r) (a', q')) →
  wp (call (appendAudit now ev)) (a, q) Φ.
Proof.
  intros Hg Hev HΦ. apply wp_call. intros r [a' q'] H. unfold appendAudit in H.
  assert (∃ r0, on_store (AppendAudit now ev) (a, q) = (r0, (a', q')) ∧ r = (match r0 with Ok _ => Ok tt | Err e => Err e end)) as (r0 & H0 & ->).
  { apply bind_cases in H as [(x & [a1 q1] & H1 & [= <- <- <-])|(e & [a1 q1] & H1 & [= -> -> ->])]; eauto. }
  unfold on_store in H0. destruct (AppendAudit now ev (ap_store a, q)) as [r1 [s1 q1]] eqn:E. injection H0 as <- <- <-.
  assert (store_ok s1) as Hs1 by (eapply run_write; [exact E|by apply ss_policy, step_append|apply Hg]).
  apply AppendAudit_abs in E; [|by apply store_ok_audit, Hg].
  assert (tidy (abs (db s1))) by (destruct r1; [rewrite E|destruct E as [-> | ->]]; apply tidy_noted || idtac; apply Hg).
  apply HΦ; [by apply good_set_store|done|]. by destruct r1.
Qed.

Lemma wp_audit now ev a q (Φ : result HttpReply () → Api * faults → Prop) :
  good a → other_event ev →
  (∀ a' q' l, good a' → ap_engine a' = ap_engine a → l = [] ∨ l = [event_entry ev] → view a' = noted l (view a) → Φ (Ok tt) (a', q')) →
  wp (audit now ev) (a, q) Φ.
Proof.
  intros Hg Hev HΦ. apply wp_bind, wp_append; [done|done|]. intros r a' q' Hg' He Hr. apply wp_ret. destruct r.
  - eapply HΦ; eauto.
  - destruct Hr as [Hr|Hr]; [eapply (HΦ _ _ [])|eapply HΦ]; eauto. by rewrite noted_nil.
Qed.

Lemma wp_refresh sv now a q (Φ : result HttpReply (result error ()) → Api * faults → Prop) :
  good a → (∀ r a' q', good a' → view a' = view a → Φ (Ok r) (a', q')) → wp (call (refreshAfterWrite sv now)) (a, q) Φ.
Proof.
  intros Hg HΦ. apply wp_call. intros r [a' q'] H. unfold refreshAfterWrite, catch in H.
  destruct (RefreshDirectory sv now (a, q)) as [r1 [a1 q1]] eqn:E. apply RefreshDirectory_run in E as [[_ Hq _ _] _].
  destruct (Hq (good_quiet _ Hg)) as [Hs Hl].
  assert (ap_store a' = ap_store a ∧ ap_later a' = []) as [Hs' Hl'] by (destruct r1; injection H as <- <- <-; done).
  apply HΦ; [split; [rewrite Hs'; apply Hg|unfold view; rewrite Hs'; apply Hg|done]|unfold view; by rewrite Hs'].
Qed.

(** *** Recorded or undone *)

(** [undo] takes back what turned [a0] into [a1], whatever was appended
    since; when it fails it may have done so or not. *)
Definition undoes (undo : M ()) (a0 a1 : AState) : Prop :=
  ∀ l s q r s' q', store_ok s → abs (db s) = noted l a1 → undo (s, q) = (r, (s', q')) →
  store_ok s' ∧
  match r with
  | Ok _ => abs (db s') = noted l a0
  | Err _ => abs (db s') = noted l a1 ∨ abs (db s') = noted l a0
  end.

Lemma wp_recordOrUndo sv clk ev undo c a0 a1 a q (Φ : result HttpReply () → Api * faults → Prop) :
  good a → view a = a1 → tidy a0 → tidy a1 → c_may c a0 → c_exec c a0 = Some a1 →
  event_entry ev = row_of c "ok" → other_event ev → undoes undo a0 a1 →
  (∀ a' q', good a' → view a' = noted [row_of c "ok"] a1 → Φ (Ok tt) (a', q')) →
  (∀ rp a' q', good a' → outcome c a0 rp (view a') → Φ (Err rp) (a', q')) →
  wp (recordOrUndo sv clk ev undo) (a, q) Φ.
Proof.
  intros Hg Hv Ht0 Ht1 Hmay Hex Hev Ho Hu HOk HErr.
  assert (Kind ev = c_kind c) as Hk by (by injection Hev).
  assert (event_entry (reverted ev) = row_of c "reverted") as Hrev by (injection Hev as ? ? ? ?; unfold event_entry, row_of; cbn; congruence).
  apply wp_bind, wp_append; [done|done|]. rewrite Hev, Hv. intros [u|e] a2 q2 Hg2 _ Hr; [by apply wp_ret, HOk|].
  assert (∃ l, (l = [] ∨ l = [row_of c "ok"]) ∧ view a2 = noted l a1) as (l & Hl & Hv2)
    by (destruct Hr; [exists []; rewrite noted_nil|]; eauto).
  clear Hr. apply wp_bind, wp_store. intros r s3 q3 H3.
  apply (Hu l) in H3 as [Hs3 Hr]; [|apply Hg2|exact Hv2]. destruct r as [u|e3].
  - assert (good (set_store s3 a2)) as Hg3 by (apply good_set_store; [done|done|by rewrite Hr]).
    apply wp_bind, wp_append; [done| |]. { unfold other_event. cbn. by intros [_ ?]. }
    rewrite Hrev. change (view (set_store s3 a2)) with (abs (db s3)). rewrite Hr. intros r4 a4 q4 Hg4 _ H4.
    apply wp_bind, wp_refresh; [done|]. intros _ a5 q5 Hg5 Hv5. destruct r4 as [u4|e4]; apply wp_err, HErr; try done; rewrite Hv5, Hk.
    + rewrite H4, noted_noted. eapply o_undone; [done|done|]. destruct Hl as [-> | ->]; auto.
    + assert (∃ l', view a4 = noted l' a0 ∧ l' `sublist_of` [row_of c "ok"; row_of c "reverted"]) as (l' & -> & Hl').
      { destruct H4 as [-> | ->]; [|rewrite noted_noted]; eexists; (split; [done|]); destruct Hl as [-> | ->]; cbn; repeat constructor. }
      by eapply o_undone_unrecorded.
  - assert (∃ a'', (a'' = a0 ∨ a'' = a1) ∧ abs (db s3) = noted l a'') as (a'' & Ha'' & Hr3) by (destruct Hr; eauto).
    assert (good (set_store s3 a2)) as Hg3 by (apply good_set_store; [done|done|]; rewrite Hr3; destruct Ha'' as [-> | ->]; done).
    apply wp_bind, wp_refresh; [done|]. intros _ a5 q5 Hg5 Hv5. apply wp_err, HErr; [done|]. rewrite Hv5, Hk.
    change (view (set_store s3 a2)) with (abs (db s3)). rewrite Hr3. eapply o_in_doubt; eauto.
Qed.

(** *** Authorization *)

Lemma set_store_id a : set_store (ap_store a) a = a.
Proof. by destruct a. Qed.

Lemma AdminsOf_cases names s q r s' q' :
  AdminsOf names (s, q) = (r, (s', q')) →
  s' = s ∧
  match r with
  | Ok m => ∀ n p, n ∈ names → p ∈ default [] (m !! n) ↔ (n, p) ∈ domain_admins (db s)
  | Err e => ∃ what msg, e = ErrIO what msg
  end.
Proof.
  unfold AdminsOf. case_decide as Hn.
  - intros [= <- <- <-]. subst. split; [done|]. by intros n p ?%not_elem_of_nil.
  - intros [-> [-> |[m ->]]]%on_db_cases; (split; [done|]); [|eauto]. intros n p Hin.
    rewrite admins_where_lookup by (by apply bool_decide_eq_true). rewrite list_elem_of_fmap. split.
    + intros ([n' p'] & -> & [Hk Hin']%list_elem_of_filter). cbn in *. subst. by apply elem_of_elements.
    + intros H. exists (n, p). split; [done|]. apply list_elem_of_filter. split; [done|]. by apply elem_of_elements.
Qed.

(** The verdict on the caller is that of the specification. *)
Lemma mayAdminister_cases sv caller domain a q r a' q' :
  good a → mayAdminister sv caller domain (a, q) = (r, (a', q')) →
  a' = a ∧
  match r with
  | Ok b => b = true ↔ administers sv caller domain (view a)
  | Err e => ∃ what msg, e = ErrIO what msg
  end.
Proof.
  intros Hg. unfold mayAdminister, administers. destruct (requireAuth sv); cbn [negb].
  2:{ intros [= <- <- <-]. split; [done|]. split; [by left|done]. }
  case_decide as Hc. { intros [= <- <- <-]. split; [done|]. split; [done|]. by intros [?|[? _]]. }
  case_decide as Hr. { intros [= <- <- <-]. split; [done|]. split; [right; auto|done]. }
  intros [(m & [a1 q1] & H1 & H)|(e & [a1 q1] & H1 & [= -> -> ->])]%bind_cases;
    unfold on_store in H1; destruct (AdminsOf _ _) as [r1 [s1 q1']] eqn:E; injection H1 as -> <- ->;
    apply AdminsOf_cases in E as [-> E]; rewrite set_store_id in *; [|done].
  injection H as <- <- <-. split; [done|]. rewrite existsb_exists. split.
  - intros (n & Hin & Hp%bool_decide_eq_true). apply list_elem_of_In in Hin. right. split; [done|]. right.
    apply E in Hp; [|done]. destruct (dok_admin _ (store_ok_dir _ (good_store _ Hg)) _ _ Hp) as [row Hrow].
    exists n. eexists. split; [by apply domain_chain_covers|]. split; [unfold view; by rewrite abs_domain, Hrow|]. by apply admins_of_elem.
  - intros [?|(_ & [?|(n & D & Hcov & HD & Hp)])]; [done|done|]. apply domain_chain_covers in Hcov.
    exists n. split; [by apply list_elem_of_In|]. apply bool_decide_eq_true. apply E; [done|].
    unfold view in HD. rewrite abs_domain in HD. apply fmap_Some in HD as (row & _ & ->). by apply admins_of_elem.
Qed.

Lemma io_reply_failed rp : io_reply rp → failed rp.
Proof. intros (what & msg & ->). exists (ErrIO what msg). split; [left; eauto|by left]. Qed.

Lemma failed_io what msg : failed (mkHttp 500 (Failed (FStore (ErrIO what msg)))).
Proof. apply io_reply_failed. by exists what, msg. Qed.

(** The handlers' postcondition: the reply and the state are an outcome. *)
Definition ends (c : command) (a0 : AState) (rp : HttpReply) (w : Api * faults) : Prop := good w.1 ∧ outcome c a0 rp (view w.1).

Lemma wp_authorize sv now r kind target domain c a q (Φ : result HttpReply () → Api * faults → Prop) :
  good a → c_may c = administers sv (r_caller r) domain → row_of c "deny" = mkEntry kind (r_caller r) target "deny" →
  (c_may c (view a) → ∀ q', Φ (Ok tt) (a, q')) → (∀ rp w', ends c (view a) rp w' → Φ (Err rp) w') →
  wp (authorizeDomainWrite sv now r kind target domain) (a, q) Φ.
Proof.
  intros Hg Hmay Hrow HOk HErr. apply wp_bind, wp_call. intros res [a' q'] H.
  apply mayAdminister_cases in H as [-> H]; [|done]. rewrite <-Hmay in H. destruct res as [[]|e].
  - apply wp_ret, HOk. by apply H.
  - apply wp_bind, wp_audit; [done| |]. { unfold other_event. cbn. by intros [_ ?]. }
    intros a2 q2 l Hg2 _ Hl Hv. apply wp_err, HErr. split; [done|]. cbn [fst]. rewrite Hv. apply o_denied; [|done|].
    + intros Hm. by apply H in Hm.
    + change (event_entry _) with (mkEntry kind (r_caller r) target "deny") in Hl. by rewrite Hrow.
  - destruct H as (what & msg & ->). apply wp_err, HErr. split; [done|]. apply o_failed, failed_io.
Qed.

(** *** Writes of the store *)

(** A method of the store that implements an operation: it does what the
    specification says when it succeeds, changes nothing when it fails,
    except that a lost commit is in force, and it fails only when the
    specification refuses or the database does not answer. *)
Definition implements {A} (m : M A) (o : op) (P : DB → A → DB → Prop) : Prop :=
  ∀ s q r s' q', store_ok s → m (s, q) = (r, (s', q')) →
  store_ok s' ∧
  match r with
  | Ok x => P (db s) x (db s') ∧ exec_op o (abs (db s)) = Some (abs (db s'))
  | Err e =>
      (abs (db s') = abs (db s) ∧ (no_answer e ∨ exec_op o (abs (db s)) = None)) ∨
      ((∃ what msg, e = ErrIO what msg) ∧ exec_op o (abs (db s)) = Some (abs (db s')))
  end.

Lemma implements_intro {A} (m : M A) o (P Q : DB → A → DB → Prop) R :
  (∀ s q, store_write s (m (s, q)).2.1) → effect m P → refuses m R →
  (∀ s x d', store_ok s → P (db s) x d' → Q (db s) x d' ∧ exec_op o (abs (db s)) = Some (abs d')) →
  (∀ s e, store_ok s → R e (db s) → exec_op o (abs (db s)) = None) → implements m o Q.
Proof.
  intros Hw He Hr HP HR s q r s' q' Hok H. split; [eapply run_write; [exact H|apply Hw|done]|]. pose proof H as H'. apply He in H as [_ H]. destruct r as [x|e].
  - eauto.
  - apply Hr in H'. destruct H as [Hrb|[Hio (x & Hx)]]; [left|right; split; [done|by eapply HP]]. split; [by apply abs_rolled_back|].
    destruct H'; [by left|right; eauto].
Qed.

(** Operations that never make the empty name an administrator. *)
Definition op_tidy (o : op) : Prop :=
  match o with OCreateDomain _ _ _ s => "" ∉ s | OAddAdmin _ p => p ≠ "" | _ => True end.

Lemma tidy_insert m a n D : tidy a → "" ∉ ad_admins D → m = <[n := D]> (a_domains a) → tidy (set_a_domains m a).
Proof. intros Ht HD -> n' D'. cbn. rewrite lookup_insert_Some. intros [[<- <-]|[_ H]]; [done|by eapply Ht]. Qed.

Lemma exec_tidy o a a' : op_tidy o → tidy a → exec_op o a = Some a' → tidy a'.
Proof.
  intros Ho Ht. destruct o; cbn [exec_op op_tidy] in *.
  1: case_decide; [|done]; intros [= <-]; (eapply tidy_insert; [done| |done]); done.
  1: case_decide; [|done]; intros [= <-] n' D'; cbn; rewrite lookup_delete_Some; intros [_ H']; by eapply Ht.
  1, 2: destruct (a_domains a !! name) as [D|] eqn:E; [|done]; cbn; try (case_decide; [|done]); intros [= <-];
    (eapply tidy_insert; [done| |done]); apply Ht in E; cbn; set_solver.
  all: repeat (case_decide || case_match || (destruct (_ !! _); cbn [mbind option_bind])); intros [= <-]; done.
Qed.

(** A store method that failed, as the handlers answer it. *)
Lemma store_refused c o a s' q' e code f :
  good a → store_ok s' → c_may c (view a) → c_op c = Some o → op_tidy o →
  (abs (db s') = view a ∧ (no_answer e ∨ exec_op o (view a) = None)) ∨
  ((∃ what msg, e = ErrIO what msg) ∧ exec_op o (view a) = Some (abs (db s'))) →
  (400 <= code < 600)%Z → (no_answer e → f = FStore e ∧ (code = 500%Z ∨ e = ErrNotLeader ∧ code = 503%Z)) →
  ends c (view a) (mkHttp code (Failed f)) (set_store s' a, q').
Proof.
  intros Hg Hs Hmay Hop Htidy H Hcode Hf.
  assert (c_exec c (view a) = exec_op o (view a)) as Hex by (unfold c_exec; by rewrite Hop).
  destruct H as [[Hv He]|[Hio Hx]].
  - split; [apply good_set_store; [done|done|]; rewrite Hv; apply Hg|]. cbn [fst]. change (view (set_store s' a)) with (abs (db s')). rewrite Hv.
    destruct He as [Hna|Hn]; [|apply o_refused; [done|by rewrite Hex|done]]. apply o_failed. exists e. split; [done|].
    destruct (Hf Hna) as [-> [-> |[_ ->]]]; auto.
  - split; [apply good_set_store; [done|done|]; by eapply exec_tidy; [|apply Hg|]|]. cbn [fst].
    change (view (set_store s' a)) with (abs (db s')). rewrite <-(noted_nil (abs _)). destruct Hio as (what & msg & ->).
    destruct Hf as [-> [-> |[? _]]]; [left; eauto| |done]. eapply o_in_doubt; [done|by rewrite Hex|left; by eexists _, _|by left|by right].
Qed.

Lemma abs_group_None d k : a_groups (abs d) !! k = None ↔ groups d !! k = None.
Proof. rewrite abs_group. apply fmap_None. Qed.

Lemma CreateDomain_implements now D :
  (Parent D = "" ∨ Parent D = ParentOf (Name D)) →
  implements (CreateDomain now D)
    (OCreateDomain (Name D) (Description D) (UnixNano (if IsZero (CreatedAt D) then now else CreatedAt D)) (list_to_set (dedupe (Admins D))))
    (λ _ D' _, D' = normalised now D).
Proof.
  intros Hpar. eapply implements_intro; [by constructor|apply CreateDomain_effect|apply CreateDomain_refuses|..].
  - intros s D' d' Hok (-> & Hv & Hn & Hp & ->). split; [done|]. by rewrite <-exec_create_domain.
  - intros s e Hok H. cbv beta in H. cbn [exec_op]. rewrite decide_False; [done|]. rewrite abs_domain_None, is_Some_abs_domain.
    intros (Hv & Hn & Hp). destruct H as [?|[[? ?]|[[? ?]|[? ?]]]]; [done|by destruct Hpar|congruence|].
    destruct Hp as [?|[? ?]]; congruence.
Qed.

Lemma DeleteDomain_implements n : implements (DeleteDomain n) (ODeleteDomain n) (λ _ _ _, True).
Proof.
  eapply implements_intro; [by constructor|apply DeleteDomain_effect|apply DeleteDomain_refuses|..].
  - intros s _ d' Hok (? & ? & ? & ->). split; [done|]. by apply exec_delete_domain; [apply store_ok_dir|..].
  - intros s e Hok H. cbv beta in H. cbn [exec_op]. rewrite decide_False; [done|]. rewrite is_Some_abs_domain. intros ([? ?] & Hc & Hg).
    destruct H as [?|[(m & r & Hm & Hp)|(g & r & Hr)]]; [congruence|..].
    + destruct (dok_name _ (store_ok_dir _ Hok) _ _ Hm) as [_ Hpar]. eapply (Hc m); [by rewrite abs_domain, Hm|congruence].
    + eapply (Hg (n, g)); [by rewrite abs_group, Hr|done].
Qed.

Lemma AddDomainAdmin_implements n p :
  implements (AddDomainAdmin n p) (OAddAdmin n p) (λ d inserted _, inserted = negb (bool_decide ((n, p) ∈ domain_admins d))).
Proof.
  eapply implements_intro; [by constructor|apply AddDomainAdmin_effect|apply AddDomainAdmin_refuses|..].
  - intros s x d' Hok (? & -> & ->). split; [done|]. by apply exec_add_admin.
  - intros s e Hok H. cbv beta in H. cbn [exec_op]. by rewrite (proj2 (abs_domain_None _ _) H).
Qed.

Lemma RemoveDomainAdmin_implements n p :
  implements (RemoveDomainAdmin n p) (ORemoveAdmin n p) (λ d _ _, (n, p) ∈ domain_admins d).
Proof.
  eapply implements_intro; [by constructor|apply RemoveDomainAdmin_effect|apply RemoveDomainAdmin_refuses|..].
  - intros s x d' Hok (? & ->). split; [done|]. by apply exec_remove_admin; [apply store_ok_dir|].
  - intros s e Hok H. cbv beta in H. cbn [exec_op]. rewrite abs_domain. destruct (domains (db s) !! n); [|done]. cbn.
    by rewrite decide_False by (by rewrite admins_of_elem).
Qed.

Lemma CreateGroup_implements now g :
  implements (CreateGroup now g)
    (OCreateGroup (gDomain g) (gName g) (gDescription g) (UnixNano (if IsZero (gCreatedAt g) then now else gCreatedAt g))) (λ _ _ _, True).
Proof.
  eapply implements_intro; [by constructor|apply CreateGroup_effect|apply CreateGroup_refuses|..].
  - intros s x d' Hok (_ & ? & ? & ? & ->). split; [done|]. by apply exec_create_group.
  - intros s e Hok H. cbv beta in H. cbn [exec_op]. rewrite decide_False; [done|]. rewrite is_Some_abs_domain, abs_group_None.
    intros (? & [? ?] & ?). destruct H as [?|[?|[? ?]]]; congruence.
Qed.

Lemma DeleteGroup_implements n g :
  implements (DeleteGroup n g) (ODeleteGroup n g) (λ d before _, ∃ r, groups d !! (n, g) = Some r ∧
    before = mkGroup n g (gr_description r) (member_rows n g d) (UnixTime (gr_created_at r))).
Proof.
  eapply implements_intro; [by constructor|apply DeleteGroup_effect|apply DeleteGroup_refuses|..].
  - intros s x d' Hok (r & Hr & ? & -> & ->). split; [eauto|]. by apply exec_delete_group; [rewrite Hr|].
  - intros s e Hok H. cbv beta in H. cbn [exec_op]. rewrite decide_False; [done|]. rewrite abs_managed, abs_group, fmap_is_Some.
    intros ([? ?] & ?). destruct H as [?|[?|[]]]; [congruence|tauto].
Qed.

Lemma PutGroupMember_implements n g m :
  implements (PutGroupMember n g m) (OPutMember n g (Principal m) (nanos (ExpiresAt m)))
    (λ d prior _, prior = member_of_row (Principal m) <$> group_members d !! (n, g, Principal m)).
Proof.
  eapply implements_intro; [by constructor|apply PutGroupMember_effect|apply PutGroupMember_refuses|..].
  - intros s x d' Hok (? & ? & -> & ->). split; [done|]. by apply exec_put_member.
  - intros s e Hok H. cbv beta in H. cbn [exec_op]. rewrite abs_group. destruct (groups (db s) !! (n, g)) eqn:E; [|done]. cbn [fmap option_fmap option_map mbind option_bind ag_members].
    destruct H as [?|[?|[]]]; [congruence|]. rewrite decide_False; [done|]. rewrite abs_managed. tauto.
Qed.

Lemma RemoveGroupMember_implements n g p :
  implements (RemoveGroupMember n g p) (ORemoveMember n g p)
    (λ d removed _, ∃ e, group_members d !! (n, g, p) = Some e ∧ removed = member_of_row p e).
Proof.
  eapply implements_intro; [by constructor|apply RemoveGroupMember_effect|apply RemoveGroupMember_refuses|..].
  - intros s x d' Hok (e & He & ? & -> & ->). split; [eauto|].
    apply exec_remove_member; [by apply store_ok_group|by rewrite He|done].
  - intros s e Hok H. cbv beta in H. cbn [exec_op]. rewrite abs_group. destruct (groups (db s) !! (n, g)) eqn:E; [|done]. cbn [fmap option_fmap option_map mbind option_bind ag_members].
    rewrite decide_False; [done|]. rewrite members_of_lookup, abs_managed. intros [[? ?] ?].
    destruct H as [?|[?|?]]; [congruence|tauto|congruence].
Qed.

(** *** Undoing them *)

Lemma effect_undoes (m : M ()) P a0 a1 :
  (∀ s q, store_ok s → store_write s (m (s, q)).2.1) → effect m P →
  (∀ l s x d', store_ok s → abs (db s) = noted l a1 → P (db s) x d' → abs d' = noted l a0) → undoes m a0 a1.
Proof.
  intros Hw He HP l s q r s' q' Hok Ha H. split; [eapply run_write; [exact H|by apply Hw|done]|].
  apply He in H as [_ H]. destruct r as [x|e]; [by eapply HP|].
  destruct H as [Hrb|[_ [x Hx]]]; [left; by rewrite (abs_rolled_back _ _ Hrb)|right; by eapply HP].
Qed.

Lemma implements_undoes {A} (m : M A) o P a0 a1 :
  implements m o P → (∀ l a2, exec_op o (noted l a1) = Some a2 → a2 = noted l a0) → undoes (m ;; mret tt) a0 a1.
Proof.
  intros Hm Hu l s q r s' q' Hok Ha H.
  assert (∃ r0, m (s, q) = (r0, (s', q')) ∧ is_ok r0 = is_ok r) as (r0 & H0 & Hr).
  { apply bind_cases in H as [(x & [s1 q1] & H1 & [= <- <- <-])|(e & [s1 q1] & H1 & [= -> -> ->])]; eauto. }
  apply Hm in H0 as [Hok' H0]; [|done]. split; [done|]. rewrite Ha in H0. destruct r0 as [x|e], r as [u|e']; try done.
  - by apply Hu, H0.
  - destruct H0 as [[-> _]|[_ H0]]; [by left|right; by apply Hu].
Qed.

(** A method that returns nothing, followed by nothing. *)
Lemma undoes_ext (m m' : M ()) a0 a1 : (∀ w, m' w = m w) → undoes m a0 a1 → undoes m' a0 a1.
Proof. intros He Hm l s q r s' q' Hok Ha H. rewrite He in H. by eapply Hm. Qed.

Lemma bind_ret_unit {S} (m : GoM S ()) w : m w = (m ;; mret tt) w.
Proof. unfold mbind, GoM_bind. by destruct (m w) as [[[]|e] w']. Qed.

Lemma undo_by {A} (m : M A) (m' : M ()) o P a0 a1 :
  implements m o P → (∀ w, m' w = (m ;; mret tt) w) → (∀ l a2, exec_op o (noted l a1) = Some a2 → a2 = noted l a0) → undoes m' a0 a1.
Proof. intros Hm He Hu. eapply undoes_ext; [exact He|]. by eapply implements_undoes. Qed.

Lemma nothing_undoes a0 : undoes (mret tt) a0 a0.
Proof. intros l s q r s' q' Hok Ha [= <- <- <-]. done. Qed.

Lemma created_group_undone n g ds t a0 a1 :
  exec_op (OCreateGroup n g ds t) a0 = Some a1 → undoes (DeleteEmptyGroup n g) a0 a1.
Proof.
  intros Hex. eapply effect_undoes; [by constructor|apply DeleteEmptyGroup_effect|]. intros l s x d' Hok Ha HP. by eapply undo_create_group.
Qed.

Lemma deleted_group_undone n g row d a1 :
  group_ok d → groups d !! (n, g) = Some row → exec_op (ODeleteGroup n g) (abs d) = Some a1 →
  undoes (RestoreGroup (mkGroup n g (gr_description row) (member_rows n g d) (UnixTime (gr_created_at row)))) (abs d) a1.
Proof.
  intros Hok Hrow Hex. destruct (gok_name _ Hok _ _ _ Hrow) as [Hv Hcr].
  eapply effect_undoes; [by constructor|apply RestoreGroup_effect|]. intros l s x d' Hs Ha (_ & Hn & ->). cbn [gDomain gName gDescription gMembers gCreatedAt] in *.
  eapply (undo_delete_group n g row d l a1 (db s)); try done; [by apply store_ok_group|].
  unfold UnixNano, UnixTime. rewrite wrap64_id by done. by destruct row.
Qed.

Lemma member_undone n g p expect want d G a1 m :
  a_groups (abs d) !! (n, g) = Some G → a1 = set_a_groups (<[(n, g) := set_members G m]> (a_groups (abs d))) (abs d) →
  delete p m = delete p (ag_members G) → ag_members G !! p = (λ w, nanos (ExpiresAt w)) <$> want →
  undoes (SwapGroupMember n g p expect want) (abs d) a1.
Proof.
  intros HG Ha1 Hm Hw. eapply effect_undoes; [by constructor|apply SwapGroupMember_effect|].
  intros l s x d' Hs Ha (_ & ->). replace (match want with None => _ | Some w => _ end)
    with (match want with Some w => put_member n g p (nanos (ExpiresAt w)) (db s) | None => drop_member n g p (db s) end) by (by destruct want).
  eapply undo_member; eauto.
Qed.

(** ** What requests ask for *)

Definition parsed_body {A} (dec : decoder A) (zero : A) (r : HttpRequest) : option A :=
  match body_value maxJSONBodyBytes (r_broken r) (r_body r) with Ok raw => dec raw zero | Err _ => None end.

Definition guarded {A} (P : Prop) `{!Decision P} (x : option A) : option A := if decide P then x else None.

Definition path_domain (r : HttpRequest) : option string :=
  guarded (ValidateDomainName (PathValue r "name") = None) (Some (PathValue r "name")).

Definition path_group (r : HttpRequest) : option (string * string) :=
  n ← path_domain r; guarded (ValidateGroupName (PathValue r "group") = None) (Some (n, PathValue r "group")).

(** A command on a domain, and one on a group. *)
Definition domain_command (sv : Server) (r : HttpRequest) (kind target domain : string) (o : option op) : command :=
  mkCommand (administers sv (r_caller r) domain) o kind (r_caller r) target.

Definition group_command (sv : Server) (r : HttpRequest) (kind n g : string) (o : op) : command :=
  domain_command sv r kind (n +:+ ":" +:+ g) n (Some o).

Definition create_domain_command (sv : Server) (clk : nat → Z) (r : HttpRequest) : option command :=
  D ← parsed_body dec_domain zero_domain r;
  guarded (ValidateDomainName (Name D) = None ∧ Forall (λ p, FromString p ≠ None) (Admins D))
    (let admins := if decide (Admins D = [] ∧ r_caller r ≠ "") then [r_caller r] else Admins D in
     let t := if IsZero (CreatedAt D) then clk 1 else CreatedAt D in
     Some (domain_command sv r "domain.create" (Name D) (ParentOf (Name D))
       (guarded (Parent D = "" ∨ Parent D = ParentOf (Name D))
          (Some (OCreateDomain (Name D) (Description D) (UnixNano t) (list_to_set admins)))))).

Definition delete_domain_command (sv : Server) (r : HttpRequest) : option command :=
  n ← path_domain r; Some (domain_command sv r "domain.delete" n (ParentOf n) (Some (ODeleteDomain n))).

Definition add_admin_command (sv : Server) (r : HttpRequest) : option command :=
  n ← path_domain r;
  p ← parsed_body dec_DomainAdminRequest "" r;
  guarded (FromString p ≠ None) (Some (domain_command sv r "domain.admin.add" n n (Some (OAddAdmin n p)))).

Definition remove_admin_command (sv : Server) (r : HttpRequest) : option command :=
  n ← path_domain r;
  let p := TrimSpace (Query r "principal") in
  guarded (p ≠ "") (Some (domain_command sv r "domain.admin.remove" n n (Some (ORemoveAdmin n p)))).

Definition create_group_command (sv : Server) (clk : nat → Z) (r : HttpRequest) : option command :=
  n ← path_domain r;
  g ← parsed_body dec_GroupRequest (mkGroupRequest "" "") r;
  guarded (ValidateGroupName (grq_name g) = None)
    (Some (group_command sv r "group.create" n (grq_name g) (OCreateGroup n (grq_name g) (grq_description g) (UnixNano (clk 1))))).

Definition delete_group_command (sv : Server) (r : HttpRequest) : option command :=
  '(n, g) ← path_group r; Some (group_command sv r "group.delete" n g (ODeleteGroup n g)).

Definition put_member_command (sv : Server) (clk : nat → Z) (r : HttpRequest) : option command :=
  '(n, g) ← path_group r;
  m ← parsed_body dec_GroupMemberRequest (mkGroupMember "" zero_time) r;
  guarded (FromString (Principal m) ≠ None ∧ expiry_refused (clk 6) (ExpiresAt m) = None)
    (Some (group_command sv r "group.member.add" n g (OPutMember n g (Principal m) (nanos (ExpiresAt m))))).

Definition remove_member_command (sv : Server) (r : HttpRequest) : option command :=
  '(n, g) ← path_group r;
  let p := TrimSpace (Query r "principal") in
  guarded (p ≠ "") (Some (group_command sv r "group.member.remove" n g (ORemoveMember n g p))).

(** A policy that the engine would load. *)
Definition loads (e : Engine) (id text : string) : Prop :=
  String.length text <= MaxPolicyBytes ∧ is_ok (CheckStored id text e) = true.

#[global] Instance loads_dec e id text : Decision (loads e id text).
Proof. unfold loads. apply _. Defined.

Definition policy_command (sv : Server) (r : HttpRequest) (kind id : string) (o : option op) : command :=
  mkCommand (λ _, manages_policies sv (r_caller r)) o kind (r_caller r) id.

Definition create_policy_command (sv : Server) (e : Engine) (clk : nat → Z) (r : HttpRequest) : option command :=
  p ← parsed_body dec_PolicyRequest (mkPolicyRequest "" "") r;
  guarded (FilePolicies e !! prq_id p = None ∧ ValidatePolicyID (prq_id p) = None)
    (Some (policy_command sv r "policy.create" (prq_id p)
       (guarded (loads e (prq_id p) (prq_text p)) (Some (OCreatePolicy (prq_id p) (prq_text p) (r_caller r) (UnixNano (clk 1))))))).

Definition update_policy_command (sv : Server) (e : Engine) (clk : nat → Z) (r : HttpRequest) : option command :=
  let id := PathValue r "id" in
  p ← parsed_body dec_PolicyRequest (mkPolicyRequest "" "") r;
  guarded (FilePolicies e !! id = None ∧ ValidatePolicyID id = None ∧ (prq_id p = "" ∨ prq_id p = id))
    (Some (policy_command sv r "policy.update" id
       (guarded (r_ifMatch r ≠ "" ∧ loads e id (prq_text p))
          (Some (OUpdatePolicy id (r_ifMatch r) (prq_text p) (r_caller r) (UnixNano (clk 1))))))).

Definition delete_policy_command (sv : Server) (e : Engine) (r : HttpRequest) : option command :=
  let id := PathValue r "id" in
  guarded (FilePolicies e !! id = None ∧ ValidatePolicyID id = None)
    (Some (policy_command sv r "policy.delete" id (guarded (r_ifMatch r ≠ "") (Some (ODeletePolicy id (r_ifMatch r)))))).

(** A request that asks for nothing is turned down without a trace. *)
Definition fulfilled (oc : option command) (a0 : AState) (rp : HttpReply) (w : Api * faults) : Prop :=
  match oc with
  | Some c => ends c a0 rp w
  | None => good w.1 ∧ view w.1 = a0 ∧ (400 <= status rp < 500)%Z
  end.

Definition replied (r : result HttpReply HttpReply) : HttpReply := match r with Ok rp | Err rp => rp end.

Lemma wp_decode {A} (dec : decoder A) zero r w (Φ : result HttpReply A → Api * faults → Prop) :
  (∀ x, parsed_body dec zero r = Some x → Φ (Ok x) w) →
  (parsed_body dec zero r = None → ∀ code f, (400 <= code < 500)%Z → Φ (Err (mkHttp code (Failed f))) w) →
  wp (decodeJSONBody dec zero r) w Φ.
Proof.
  unfold parsed_body, decodeJSONBody. intros HOk HErr. destruct (body_value _ _ _) as [raw|code] eqn:E.
  - destruct (dec raw zero); [by apply wp_ret, HOk|]. apply wp_err, HErr; [done|lia].
  - apply wp_err, HErr; [done|]. unfold body_value in E. destruct (parse_value _ _ _) as [[v rest]|]; repeat case_match; simplify_eq; lia.
Qed.

Lemma wp_path_domain r w (Φ : result HttpReply string → Api * faults → Prop) :
  (∀ n, path_domain r = Some n → ValidateDomainName n = None → n = PathValue r "name" → Φ (Ok n) w) →
  (path_domain r = None → ∀ f, Φ (Err (mkHttp 400 (Failed f))) w) →
  wp (domainPathName r) w Φ.
Proof.
  unfold path_domain, guarded, domainPathName. intros HOk HErr. destruct (ValidateDomainName (PathValue r "name")) as [e|] eqn:E.
  - apply wp_err, HErr. by rewrite decide_False.
  - apply wp_ret, HOk; [by rewrite decide_True|done|done].
Qed.

Lemma wp_path_group r w (Φ : result HttpReply (string * string) → Api * faults → Prop) :
  (∀ n g, path_group r = Some (n, g) → ValidateDomainName n = None → ValidateGroupName g = None →
     n = PathValue r "name" → g = PathValue r "group" → Φ (Ok (n, g)) w) →
  (path_group r = None → ∀ f, Φ (Err (mkHttp 400 (Failed f))) w) →
  wp (groupPath r) w Φ.
Proof.
  unfold path_group. intros HOk HErr. apply wp_bind, wp_path_domain; [|intros E f; apply HErr; by rewrite E].
  intros n E Hn Hpn. rewrite E in HOk, HErr. cbn [mbind option_bind] in *. unfold guarded in *. cbv zeta.
  destruct (ValidateGroupName (PathValue r "group")) as [e|] eqn:Eg.
  - apply wp_err, HErr. by rewrite decide_False.
  - by apply wp_ret, HOk.
Qed.

(** ** Domains *)

Context {spl : SpiffeLaws}.

Lemma FromString_nonblank p : FromString p ≠ None → p ≠ "".
Proof. intros H ->. destruct (FromString "") as [id|] eqn:E; [|done]. by apply FromString_text in E. Qed.

Lemma dedupe_nonblank l : "" ∉ l → (list_to_set (dedupe l) : gset string) = list_to_set l.
Proof.
  intros Hb. apply set_eq. intros x. rewrite !elem_of_list_to_set. destruct (dedupe_spec l) as (_ & _ & ->).
  split; [by intros [? _]|]. intros Hx. split; [done|]. by intros ->.
Qed.

(** What a handler answers after a recorded write: it reloads or reads. *)
Definition answers (h : HM HttpReply) (a1 : AState) : Prop :=
  ∀ l a q, good a → view a = noted l a1 →
  wp h (a, q) (λ x w', good w'.1 ∧ view w'.1 = view a ∧ ((200 <= status (replied x) < 300)%Z ∨ failed (replied x))).

Lemma reload_answers sv now (h : HM HttpReply) a1 : answers h a1 → answers (call (refreshAfterWrite sv now) ;; h) a1.
Proof.
  intros Hh l a q Hg Hv. apply wp_bind, wp_refresh; [done|]. intros _ a2 q2 Hg2 Hv2. rewrite <-Hv2. apply (Hh l); [done|by rewrite Hv2].
Qed.

Lemma ret_answers rp a1 : (200 <= status rp < 300)%Z → answers (mret rp) a1.
Proof. intros Hs l a q Hg _. apply wp_ret. split_and!; [done|done|by left]. Qed.

(** How the handlers answer an error of the store. *)
Definition answered_as (e : error) (h : HM HttpReply) : Prop :=
  ∃ code f, h = writeErr code f ∧ (400 <= code < 600)%Z ∧
    (no_answer e → f = FStore e ∧ (code = 500%Z ∨ e = ErrNotLeader ∧ code = 503%Z)).

Ltac solve_answered :=
  match goal with |- ∀ e, _ => let e := fresh in intros e; destruct e end; eexists _, _; (split; [done|]); (split; [lia|]);
  first [by intros [(? & ? & [=])|[=]]|intros _; split; [done|by left]].

(** A write that is recorded, or undone. *)
Lemma wp_written {A} (m : M A) o P c a q (k : result error A → HM HttpReply) :
  good a → c_may c (view a) → c_op c = Some o → op_tidy o → implements m o P → (∀ e, answered_as e (k (Err e))) →
  (∀ x s1, store_ok s1 → P (db (ap_store a)) x (db s1) → exec_op o (view a) = Some (abs (db s1)) →
     ∃ sv clk ev undo h, k (Ok x) = (recordOrUndo sv clk ev undo ;; h) ∧ event_entry ev = row_of c "ok" ∧ other_event ev ∧
       undoes undo (view a) (abs (db s1)) ∧ answers h (abs (db s1))) →
  wp (call (on_store m) ≫= k) (a, q) (λ x w', ends c (view a) (replied x) w').
Proof.
  intros Hg Hmay Hop Hot Hm Herr HOk. apply wp_bind, wp_store. intros res s1 q1 H1.
  apply Hm in H1 as [Hs1 H1]; [|apply Hg]. destruct res as [x|e].
  - destruct H1 as [HP Hex]. destruct (HOk x s1 Hs1 HP Hex) as (sv & clk & ev & undo & h & -> & Hev & Ho & Hu & Hh).
    assert (tidy (abs (db s1))) as Ht1 by (by eapply exec_tidy; [|apply Hg|]).
    assert (c_exec c (view a) = Some (abs (db s1))) as Hex' by (unfold c_exec; by rewrite Hop).
    apply wp_bind. eapply wp_recordOrUndo; [by apply good_set_store|done|apply Hg|done|done|done|done|done|done| |].
    + intros a' q' Hg' Hv'. eapply wp_mono; [by eapply Hh|]. intros y [a2 q2] (Hg2 & Hv2 & Hrp). cbn [fst] in *.
      split; [done|]. cbn [fst]. rewrite Hv2, Hv'. by eapply o_done.
    + intros rp a' q' Hg' Hout. by split.
  - destruct (Herr e) as (code & f & -> & Hc & Hf). apply wp_err. by eapply store_refused.
Qed.

(** The administrators a request names, or else the caller. *)
Lemma named_admins_nonblank (r : HttpRequest) (l : list string) :
  filter (λ p, FromString p = None) l = [] → "" ∉ (if decide (l = [] ∧ r_caller r ≠ "") then [r_caller r] else l).
Proof.
  intros Hf. case_decide as Hd; [intros Hin; apply list_elem_of_singleton in Hin; by destruct Hd|]. intros Hin.
  assert ("" ∈ filter (λ p, FromString p = None) l) as Hin'; [|by rewrite Hf in Hin'; apply not_elem_of_nil in Hin'].
  apply list_elem_of_filter. split; [|done]. destruct (FromString "") as [id|] eqn:E; [|done]. by apply FromString_text in E.
Qed.

Lemma wrong_parent now D s q :
  Parent D ≠ "" → Parent D ≠ ParentOf (Name D) → ∃ e, CreateDomain now D (s, q) = (Err e, (s, q)) ∧
    (e = ErrNotLeader ∨ ValidateDomainName (Name D) = Some e ∨ e = ErrInvalid "parent" (Parent D)).
Proof.
  intros H1 H2. unfold CreateDomain, leader_only, mbind, GoM_bind, gets. cbn [fst]. destruct (IsLeader s); [|by eexists; split; [|left]].
  destruct (ValidateDomainName _) as [e|]; [by exists e; split; [|right; left]|]. rewrite decide_True by done. eexists. split; [done|]. auto.
Qed.

Lemma createDomain_served sv clk r a q :
  good a → wp (createDomain sv clk r) (a, q) (λ x w', fulfilled (create_domain_command sv clk r) (view a) (replied x) w').
Proof.
  intros Hg. unfold create_domain_command. apply wp_bind, wp_decode; [|by intros -> code f Hc].
  intros D ->. cbn [mbind option_bind]. unfold guarded at 1.
  destruct (ValidateDomainName (Name D)) as [e|] eqn:Ev.
  { apply wp_err. rewrite decide_False by (by intros [? _]). by split_and!. }
  destruct (filter _ (Admins D)) as [|p l] eqn:Ef.
  2:{ apply wp_err. rewrite decide_False; [by split_and!|]. intros [_ Hall]. rewrite Forall_forall in Hall.
      assert (p ∈ filter (λ a, FromString a = None) (Admins D)) as [? ?]%list_elem_of_filter by (rewrite Ef; left). by eapply Hall. }
  assert (@None error = None ∧ Forall (λ p, FromString p ≠ None) (Admins D)) as Hall.
  { split; [done|]. apply Forall_forall. intros p Hp Hn. assert (p ∈ filter (λ a, FromString a = None) (Admins D)) as Hin
      by (by apply list_elem_of_filter). rewrite Ef in Hin. by apply not_elem_of_nil in Hin. }
  rewrite (decide_True _ _ Hall).
  pose proof (named_admins_nonblank r _ Ef) as Hnb. set (ad := if decide (Admins D = [] ∧ _) then _ else _) in *.
  cbn [fulfilled]. set (c := domain_command _ _ _ _ _ _). apply wp_bind. eapply (wp_authorize _ _ _ _ _ _ c); [done|done|done| |by intros rp w' H].
  intros Hmay q'. set (D' := mkDomain (Name D) (Parent D) (Description D) ad (CreatedAt D)).
  replace (if decide (Admins D = [] ∧ r_caller r ≠ "") then _ else D) with D' by (subst D' ad; by destruct D; case_decide).
  destruct (decide (Parent D = "" ∨ Parent D = ParentOf (Name D))) as [Hpar|Hpar].
  - pose proof (CreateDomain_implements (clk 1) D' Hpar) as Hm. cbn [Name Description CreatedAt Admins D'] in Hm.
    rewrite dedupe_nonblank in Hm by done. eapply (wp_written _ _ _ c); [done|done| | |exact Hm|solve_answered|].
    + cbn. unfold guarded. by rewrite decide_True.
    + cbn. by rewrite elem_of_list_to_set.
    + intros x s1 Hs1 -> Hex. eexists sv, clk, _, _, _. split; [done|]. split_and!; [done|by intros [[H|[H|H]] _]| |].
      * eapply undo_by; [apply DeleteDomain_implements|apply bind_ret_unit|]. intros l a2. by eapply undo_create_domain.
      * by apply reload_answers, ret_answers.
  - apply wp_bind, wp_store. intros res s1 q1 H1.
    destruct (wrong_parent (clk 1) D' (ap_store a) q') as (e & He & Hcase); [cbn; tauto|cbn; tauto|]. rewrite He in H1.
    injection H1 as <- <- <-. rewrite set_store_id.
    assert (c_exec c (view a) = None) as Hn by (unfold c_exec; cbn; unfold guarded; by rewrite decide_False).
    assert (e = ErrNotLeader ∨ e = ErrInvalid "parent" (Parent D)) as [-> | ->] by (cbn in Hcase; rewrite Ev in Hcase; naive_solver);
      apply wp_err; (split; [done|]); by apply o_refused.
Qed.

Lemma deleteDomain_served sv clk r a q :
  good a → wp (deleteDomain sv clk r) (a, q) (λ x w', fulfilled (delete_domain_command sv r) (view a) (replied x) w').
Proof.
  intros Hg. unfold delete_domain_command. apply wp_bind, wp_path_domain; [|by intros -> f].
  intros n -> Hv Hpn. cbn [mbind option_bind fulfilled]. set (c := domain_command _ _ _ _ _ _).
  apply wp_bind. eapply (wp_authorize _ _ _ _ _ _ c); [done|done|done| |by intros rp w' H]. intros Hmay q'.
  apply wp_bind, wp_store. intros res s1 q1 H1. apply GetDomain_cases in H1 as [-> H1]. rewrite set_store_id. destruct res as [D|e].
  - destruct H1 as (row & Hrow & HD).
    eapply (wp_written _ _ _ c); [done|done|done|done|apply DeleteDomain_implements|solve_answered|].
    intros x s1 Hs1 _ Hex. eexists sv, clk, _, _, _. split; [done|]. split_and!; [done|by intros [[H|[H|H]] _]| |].
    + assert (Parent D = "" ∨ Parent D = ParentOf (Name D)) as Hpar
        by (rewrite HD; right; by apply (dok_name _ (store_ok_dir _ (good_store _ Hg)) _ _ Hrow)).
      eapply undo_by; [by apply (CreateDomain_implements (clk 3))|done|]. intros l a2 H2.
      pose proof (abs_stored_domain _ _ _ _ (store_ok_dir _ (good_store _ Hg)) (λ m, no_blank a m Hg) Hrow HD) as Habs.
      eapply undo_delete_domain; [exact Habs|exact Hex|]. rewrite <-H2. cbn [ad_description ad_created ad_admins]. rewrite HD. cbn [Name Description CreatedAt Admins stored_domain].
      assert (IsZero (UnixTime (dr_created_at row)) = false) as ->; [|done].
      apply bool_decide_eq_false. pose proof (dok_created _ (store_ok_dir _ (good_store _ Hg)) _ _ Hrow).
      unfold UnixTime, zero_time, in_int64, two63 in *. lia.
    + by apply reload_answers, ret_answers.
  - destruct H1 as [(what & msg & ->)|[-> Hn]]; apply wp_err; (split; [done|]); cbn [fst].
    + apply o_failed, failed_io.
    + apply o_refused; [done| |done]. cbn [c_exec c c_op domain_command mbind option_bind exec_op]. rewrite decide_False; [done|].
      intros [[? H] _]. unfold view in H. rewrite abs_domain, Hn in H. done.
Qed.

Lemma getDomain_answers sv r a1 : is_Some (a_domains a1 !! PathValue r "name") → answers (getDomain sv r) a1.
Proof.
  intros [D HD] l a q Hg Hv. apply wp_bind, wp_store. intros res s1 q1 H1. apply GetDomain_cases in H1 as [-> H1]. rewrite set_store_id.
  destruct res as [D'|e]; [by apply wp_ret; split_and!; [| |left]|].
  assert (a_domains (view a) !! PathValue r "name" = Some D) as HD' by (by rewrite Hv).
  unfold view in HD'. rewrite abs_domain in HD'. destruct H1 as [(what & msg & ->)|[-> Hn]]; [|by rewrite Hn in HD'].
  apply wp_err. split_and!; [done|done|]. right. apply failed_io.
Qed.

Lemma exec_admin_domain o n p a a1 :
  o = OAddAdmin n p ∨ o = ORemoveAdmin n p → exec_op o a = Some a1 → is_Some (a_domains a1 !! n).
Proof.
  intros [-> | ->]; cbn [exec_op]; (destruct (a_domains a !! n) as [D|]; [|done]); cbn; try (case_decide; [|done]); intros [= <-]; cbn;
    rewrite lookup_insert_eq; eauto.
Qed.

Lemma addDomainAdmin_served sv clk r a q :
  good a → wp (addDomainAdmin sv clk r) (a, q) (λ x w', fulfilled (add_admin_command sv r) (view a) (replied x) w').
Proof.
  intros Hg. unfold add_admin_command. apply wp_bind, wp_path_domain; [|by intros -> f]. intros n -> Hv Hpn. cbn [mbind option_bind].
  apply wp_bind, wp_decode; [|by intros -> code f Hc]. intros p ->. cbn [mbind option_bind]. unfold guarded.
  destruct (FromString p) as [sid|] eqn:Ep; [|apply wp_err; rewrite decide_False by tauto; by split_and!].
  rewrite decide_True by done. cbn [fulfilled]. set (c := domain_command _ _ _ _ _ _).
  apply wp_bind. eapply (wp_authorize _ _ _ _ _ _ c); [done|done|done| |by intros rp w' H]. intros Hmay q'.
  eapply (wp_written _ _ _ c); [done|done|done| |apply AddDomainAdmin_implements|solve_answered|].
  { apply FromString_nonblank. by rewrite Ep. }
  intros x s1 Hs1 -> Hex. eexists sv, clk, _, _, _. split; [done|]. split_and!; [done|by intros [[H|[H|H]] _]| |].
  - case_bool_decide as Hin; cbn [negb].
    + assert (abs (db s1) = view a) as ->; [|apply nothing_undoes].
      destruct (dok_admin _ (store_ok_dir _ (good_store _ Hg)) _ _ Hin) as [row Hrow].
      pose proof (exec_add_admin n p (db (ap_store a)) ltac:(by rewrite Hrow)) as He. unfold view in *. rewrite He in Hex.
      apply (inj Some) in Hex. rewrite <-Hex. replace ({[(n, p)]} ∪ domain_admins _) with (domain_admins (db (ap_store a))) by set_solver.
      by destruct (db (ap_store a)).
    + eapply undo_by; [apply RemoveDomainAdmin_implements|apply bind_ret_unit|]. intros l a2. eapply undo_add_admin; [|exact Hex].
      intros D HD. unfold view in HD. rewrite abs_domain in HD. apply fmap_Some in HD as (row & _ & ->). cbn. by rewrite admins_of_elem.
  - apply getDomain_answers. rewrite <-Hpn. eapply exec_admin_domain; [|exact Hex]. by left.
Qed.

Lemma removeDomainAdmin_served sv clk r a q :
  good a → wp (removeDomainAdmin sv clk r) (a, q) (λ x w', fulfilled (remove_admin_command sv r) (view a) (replied x) w').
Proof.
  intros Hg. unfold remove_admin_command. apply wp_bind, wp_path_domain; [|by intros -> f]. intros n -> Hv Hpn. cbn [mbind option_bind].
  cbv zeta. set (p := TrimSpace _). unfold guarded. destruct (decide (p = "")) as [Hp|Hp].
  { apply wp_err. rewrite decide_False by tauto. by split_and!. }
  rewrite decide_True by done. cbn [fulfilled]. set (c := domain_command _ _ _ _ _ _).
  apply wp_bind. eapply (wp_authorize _ _ _ _ _ _ c); [done|done|done| |by intros rp w' H]. intros Hmay q'.
  eapply (wp_written _ _ _ c); [done|done|done|done|apply RemoveDomainAdmin_implements|solve_answered|].
  intros x s1 Hs1 _ Hex. eexists sv, clk, _, _, _. split; [done|]. split_and!; [done|by intros [[H|[H|H]] _]| |].
  - eapply undo_by; [apply AddDomainAdmin_implements|done|]. intros l a2. by eapply undo_remove_admin.
  - apply getDomain_answers. rewrite <-Hpn. eapply exec_admin_domain; [|exact Hex]. by right.
Qed.

(** ** Groups *)

Lemma wp_unmanaged n g c o a q (Φ : result HttpReply () → Api * faults → Prop) :
  good a → c_may c (view a) → c_op c = Some o → ((n, g) ∈ a_managed (view a) → exec_op o (view a) = None) →
  (∀ q', Φ (Ok tt) (a, q')) → (∀ rp w', ends c (view a) rp w' → Φ (Err rp) w') →
  wp (refuseSCIMManaged n g) (a, q) Φ.
Proof.
  intros Hg Hmay Hop Hm HOk HErr. apply wp_bind, wp_store. intros res s1 q1 H1. apply on_db_cases in H1 as [-> H1]. rewrite set_store_id.
  destruct H1 as [-> |[msg ->]]; [|apply wp_err, HErr; split; [done|apply o_failed, failed_io]].
  destruct (managed_by n g _) as [idp|] eqn:E; [|by apply wp_ret]. apply wp_err, HErr. split; [done|].
  apply o_refused; [done| |done]. unfold c_exec. rewrite Hop. apply Hm. unfold view. rewrite abs_managed. by rewrite E.
Qed.

Lemma getGroup_answers sv r n g a1 :
  path_group r = Some (n, g) → ValidateDomainName n = None → ValidateGroupName g = None → is_Some (a_groups a1 !! (n, g)) →
  answers (getGroup sv r) a1.
Proof.
  intros Hp Hn Hgn [G HG] l a q Hg Hv. apply wp_bind, wp_path_group; [|by rewrite Hp]. intros n' g'. rewrite Hp. intros [= <- <-] _ _ _ _.
  apply wp_bind, wp_store. intros res s1 q1 H1. apply GetGroup_cases in H1 as [-> H1].
  2:{ by apply ValidateDomainName_None in Hn as [? _]. }
  2:{ intros ->. by vm_compute in Hgn. }
  rewrite set_store_id. destruct res as [G'|e]; [by apply wp_ret; split_and!; [| |left]|].
  assert (a_groups (view a) !! (n, g) = Some G) as HG' by (by rewrite Hv). unfold view in HG'. rewrite abs_group in HG'.
  destruct H1 as [(what & msg & ->)|[-> Hnone]]; [|by rewrite Hnone in HG'].
  apply wp_err. split_and!; [done|done|]. right. apply failed_io.
Qed.

Lemma createGroup_served sv clk r a q :
  good a → wp (createGroup sv clk r) (a, q) (λ x w', fulfilled (create_group_command sv clk r) (view a) (replied x) w').
Proof.
  intros Hg. unfold create_group_command. apply wp_bind, wp_path_domain; [|by intros -> f]. intros n -> Hv Hpn. cbn [mbind option_bind].
  apply wp_bind, wp_decode; [|by intros -> code f Hc]. intros g ->. cbn [mbind option_bind]. unfold guarded.
  destruct (ValidateGroupName (grq_name g)) as [e|] eqn:Ev; [apply wp_err; rewrite decide_False by done; by split_and!|].
  rewrite decide_True by done. cbn [fulfilled]. set (c := group_command _ _ _ _ _ _).
  apply wp_bind. eapply (wp_authorize _ _ _ _ _ _ c); [done|done|done| |by intros rp w' H]. intros Hmay q'.
  pose proof (CreateGroup_implements (clk 1) (mkGroup n (grq_name g) (grq_description g) [] zero_time)) as Hm.
  cbn [gDomain gName gDescription gCreatedAt] in Hm. rewrite (proj2 (IsZero_spec zero_time)) in Hm by done.
  eapply (wp_written _ _ _ c); [done|done|done|done|exact Hm|solve_answered|].
  intros x s1 Hs1 _ Hex. eexists sv, clk, _, _, _. split; [done|]. split_and!; [done|by intros [[H|[H|H]] _]| |].
  - by eapply created_group_undone.
  - by apply reload_answers, ret_answers.
Qed.

Lemma deleteGroup_served sv clk r a q :
  good a → wp (deleteGroup sv clk r) (a, q) (λ x w', fulfilled (delete_group_command sv r) (view a) (replied x) w').
Proof.
  intros Hg. unfold delete_group_command. apply wp_bind, wp_path_group; [|by intros -> f]. intros n g -> Hvn Hvg _ _. cbn [mbind option_bind].
  cbn [fulfilled]. set (c := group_command _ _ _ _ _ _).
  apply wp_bind. eapply (wp_authorize _ _ _ _ _ _ c); [done|done|done| |by intros rp w' H]. intros Hmay q'.
  apply wp_bind. eapply (wp_unmanaged n g c (ODeleteGroup n g)); [done|done|done| | |by intros rp w' H].
  { intros Hm. cbn [exec_op]. rewrite decide_False; [done|]. by intros [_ ?]. }
  intros q2. eapply (wp_written _ _ _ c); [done|done|done|done|apply DeleteGroup_implements|solve_answered|].
  intros x s1 Hs1 (row & Hrow & ->) Hex. eexists sv, clk, _, _, _. split; [done|]. split_and!; [done|by intros [[H|[H|H]] _]| |].
  - eapply deleted_group_undone; [apply store_ok_group, Hg|done|done].
  - by apply reload_answers, ret_answers.
Qed.

(** A change of one member, as the specification has it. *)
Lemma exec_put_inv n g p e a a1 :
  exec_op (OPutMember n g p e) a = Some a1 →
  ∃ G, a_groups a !! (n, g) = Some G ∧ a1 = set_a_groups (<[(n, g) := set_members G (<[p := e]> (ag_members G))]> (a_groups a)) a.
Proof. cbn [exec_op]. destruct (a_groups a !! (n, g)) as [G|]; [|done]. cbn. case_decide; [|done]. intros [= <-]. eauto. Qed.

Lemma exec_remove_inv n g p a a1 :
  exec_op (ORemoveMember n g p) a = Some a1 →
  ∃ G, a_groups a !! (n, g) = Some G ∧ a1 = set_a_groups (<[(n, g) := set_members G (delete p (ag_members G))]> (a_groups a)) a.
Proof. cbn [exec_op]. destruct (a_groups a !! (n, g)) as [G|]; [|done]. cbn. case_decide; [|done]. intros [= <-]. eauto. Qed.

Lemma abs_group_members d n g G p :
  a_groups (abs d) !! (n, g) = Some G → ag_members G !! p = group_members d !! (n, g, p).
Proof. rewrite abs_group. intros (row & _ & ->)%fmap_Some. cbn. by rewrite members_of_lookup. Qed.

Lemma stored_member d n g p G :
  group_ok d → a_groups (abs d) !! (n, g) = Some G →
  ag_members G !! p = (λ w, nanos (ExpiresAt w)) <$> (member_of_row p <$> group_members d !! (n, g, p)).
Proof.
  intros Hok HG. rewrite (abs_group_members _ _ _ _ _ HG). destruct (group_members d !! (n, g, p)) as [e|] eqn:E; [|done].
  cbn [fmap option_fmap option_map]. rewrite nanos_of_row; [done|]. by eapply gok_member.
Qed.

Lemma managed_exec_None n g o a :
  (∃ p e, o = OPutMember n g p e) ∨ (∃ p, o = ORemoveMember n g p) → (n, g) ∈ a_managed a → exec_op o a = None.
Proof.
  intros Ho Hm. destruct Ho as [(p & e & ->)|(p & ->)]; cbn [exec_op]; (destruct (a_groups a !! (n, g)); [|done]); cbn [mbind option_bind];
    rewrite decide_False; naive_solver.
Qed.

Lemma putGroupMember_served sv clk r a q :
  good a → wp (putGroupMember sv clk r) (a, q) (λ x w', fulfilled (put_member_command sv clk r) (view a) (replied x) w').
Proof.
  intros Hg. unfold put_member_command. apply wp_bind, wp_path_group; [|by intros -> f]. intros n g Hpath Hvn Hvg _ _.
  rewrite Hpath. cbn [mbind option_bind].
  apply wp_bind, wp_decode; [|by intros -> code f Hc]. intros m ->. cbn [mbind option_bind]. unfold guarded.
  destruct (FromString (Principal m)) as [sid|] eqn:Ep; [|apply wp_err; rewrite decide_False by naive_solver; by split_and!].
  destruct (expiry_refused _ _) as [f|] eqn:Ex; [apply wp_err; rewrite decide_False by naive_solver; by split_and!|].
  rewrite decide_True by done. cbn [fulfilled]. set (c := group_command _ _ _ _ _ _).
  apply wp_bind. eapply (wp_authorize _ _ _ _ _ _ c); [done|done|done| |by intros rp w' H]. intros Hmay q'.
  apply wp_bind. eapply (wp_unmanaged n g c); [done|done|done|apply managed_exec_None; by left; eexists _, _| |by intros rp w' H].
  intros q2. eapply (wp_written _ _ _ c); [done|done|done|done|exact (PutGroupMember_implements n g (mkGroupMember (Principal m) (ExpiresAt m)))|solve_answered|].
  intros x s1 Hs1 -> Hex. eexists sv, clk, _, _, _. split; [done|]. apply exec_put_inv in Hex as (G & HG & Ha1).
  split_and!; [done|by intros [[H|[H|H]] _]| |].
  - eapply member_undone; [exact HG|exact Ha1|by rewrite delete_insert_eq|]. apply stored_member; [apply store_ok_group, Hg|done].
  - apply reload_answers. eapply getGroup_answers; [done|done|done|]. rewrite Ha1. cbn. rewrite lookup_insert_eq. eauto.
Qed.

Lemma removeGroupMember_served sv clk r a q :
  good a → wp (removeGroupMember sv clk r) (a, q) (λ x w', fulfilled (remove_member_command sv r) (view a) (replied x) w').
Proof.
  intros Hg. unfold remove_member_command. apply wp_bind, wp_path_group; [|by intros -> f]. intros n g Hpath Hvn Hvg _ _.
  rewrite Hpath. cbn [mbind option_bind]. cbv zeta. set (p := TrimSpace _). unfold guarded. destruct (decide (p = "")) as [Hp|Hp].
  { apply wp_err. rewrite decide_False by tauto. by split_and!. }
  rewrite decide_True by done. cbn [fulfilled]. set (c := group_command _ _ _ _ _ _).
  apply wp_bind. eapply (wp_authorize _ _ _ _ _ _ c); [done|done|done| |by intros rp w' H]. intros Hmay q'.
  apply wp_bind. eapply (wp_unmanaged n g c); [done|done|done|apply managed_exec_None; right; eauto| |by intros rp w' H].
  intros q2. eapply (wp_written _ _ _ c); [done|done|done|done|apply RemoveGroupMember_implements|solve_answered|].
  intros x s1 Hs1 (e & He & ->) Hex. eexists sv, clk, _, _, _. split; [done|]. apply exec_remove_inv in Hex as (G & HG & Ha1).
  split_and!; [done|by intros [[H|[H|H]] _]| |].
  - eapply member_undone; [exact HG|exact Ha1|by rewrite delete_delete_eq|].
    rewrite (stored_member _ _ _ _ _ (store_ok_group _ (good_store _ Hg)) HG), He. done.
  - apply reload_answers. eapply getGroup_answers; [done|done|done|]. rewrite Ha1. cbn. rewrite lookup_insert_eq. eauto.
Qed.

(** ** Policies *)

Lemma wp_peek {A} (f : Api → A) a q (Φ : result HttpReply A → Api * faults → Prop) : Φ (Ok (f a)) (a, q) → wp (peek f) (a, q) Φ.
Proof. done. Qed.

Lemma wp_authorize_policy sv now r kind id o a q (Φ : result HttpReply () → Api * faults → Prop) :
  good a → (manages_policies sv (r_caller r) → Φ (Ok tt) (a, q)) →
  (∀ rp w', ends (policy_command sv r kind id o) (view a) rp w' → Φ (Err rp) w') →
  wp (authorizePolicyWrite sv now r kind id) (a, q) Φ.
Proof.
  intros Hg HOk HErr. unfold authorizePolicyWrite. cbv zeta.
  assert (∀ reason, ¬ manages_policies sv (r_caller r) →
    wp (audit now (new_event kind (r_caller r) id "deny"
          (Some (mustJSON (Some (JMap (withVia (rq_of r) {[ "reason" := JStr reason ]})))))) ;; writeErr 403 (FText reason)) (a, q) Φ) as Hdeny.
  { intros reason Hno. apply wp_bind, wp_audit; [done|by intros [_ ?]|]. intros a2 q2 l Hg2 _ Hl Hv. apply wp_err, HErr.
    split; [done|]. cbn [fst]. rewrite Hv. by apply o_denied. }
  destruct (requireAuth sv) eqn:Er; cbn [negb]; [|apply Hdeny; intros [? _]; congruence].
  case_decide as Hc; [apply Hdeny; intros (_ & ? & ?); naive_solver|]. apply wp_ret, HOk. split; [done|].
  split; [|destruct (decide (r_caller r ∈ rootAdmins sv)); [done|]]; naive_solver.
Qed.

Lemma wp_check id text a q (Φ : result HttpReply (list string) → Api * faults → Prop) :
  ValidatePolicyID id = None → (loads (ap_engine a) id text → ∀ ids, Φ (Ok ids) (a, q)) →
  (¬ loads (ap_engine a) id text → ∀ f, Φ (Err (mkHttp 400 (Failed f))) (a, q)) →
  wp (checkPolicyRequest id text) (a, q) Φ.
Proof.
  intros Hv HOk HErr. unfold checkPolicyRequest, loads in *. rewrite Hv. case_decide as Hl.
  { apply wp_err, HErr. intros [? _]. lia. }
  apply wp_bind, wp_peek. destruct (CheckStored id text (ap_engine a)) as [ids|le] eqn:E.
  - apply wp_ret, HOk. split; [lia|done].
  - apply wp_err, HErr. by intros [_ ?].
Qed.

(** The change a handler asks for, as an operation. *)
Record change_means (now : Z) (id : string) (change : PolicyChange) (o : op) (row : entry) : Prop := {
  cm_kind : ∀ cur next ev, change cur = Ok (next, ev) → Kind ev ≠ "" ∧ (next = None → is_Some cur);
  cm_exec : ∀ d : DB,
    match change (scanPolicy id <$> Store.policies d !! id) with
    | Ok (next, ev) => event_entry ev = row ∧ exec_op o (abs d) = Some (set_a_policies (changed_policies id now next (Store.policies d)) (abs d))
    | Err e => exec_op o (abs d) = None
    end;
  cm_errors : ∀ cur e, change cur = Err e → e = ErrNotFound ∨ e = ErrAlreadyExists ∨ e = errPreconditionFailed;
  cm_step : ∀ now' s q, policy_step s (ChangePolicy now now' id change (s, q)).2.1;
}.

Lemma create_means now r id text ids :
  change_means now id (create_change (rq_of r) id text ids) (OCreatePolicy id text (r_caller r) (UnixNano now))
    (mkEntry "policy.create" (r_caller r) id "ok").
Proof.
  split.
  - by intros [c|] next ev [= <- <-].
  - intros d. cbn [exec_op]. change (a_policies (abs d)) with (Store.policies d). unfold changed_policies.
    destruct (Store.policies d !! id) as [row|]; cbn; done.
  - intros [c|] e; [|done]. intros [= <-]. auto.
  - intros. apply step_create.
Qed.

Lemma update_means now r id etag text ids :
  change_means now id (update_change (rq_of r) id etag text ids) (OUpdatePolicy id etag text (r_caller r) (UnixNano now))
    (mkEntry "policy.update" (r_caller r) id "ok").
Proof.
  split.
  - intros [c|] next ev; cbn; [|done]. by destruct (ifMatch _ _); intros [= <- <-].
  - intros d. cbn [exec_op]. change (a_policies (abs d)) with (Store.policies d). unfold changed_policies.
    destruct (Store.policies d !! id) as [row|]; cbn; [|done]. by destruct (ifMatch _ _).
  - intros [c|] e; cbn; [destruct (ifMatch _ _); [done|]|]; intros [= <-]; auto.
  - intros. apply step_update.
Qed.

Lemma delete_means now r id etag :
  change_means now id (delete_change (rq_of r) id etag) (ODeletePolicy id etag) (mkEntry "policy.delete" (r_caller r) id "ok").
Proof.
  split.
  - intros [c|] next ev; cbn; [|done]. destruct (ifMatch _ _); [|done]. intros [= <- <-]. eauto.
  - intros d. cbn [exec_op]. change (a_policies (abs d)) with (Store.policies d). unfold changed_policies.
    destruct (Store.policies d !! id) as [row|]; cbn; [|done]. by destruct (ifMatch _ _).
  - intros [c|] e; cbn; [destruct (ifMatch _ _); [done|]|]; intros [= <-]; auto.
  - intros. apply step_delete.
Qed.

Lemma wp_changePolicy sv clk id change o c a q (k : option Policy → HM HttpReply) :
  good a → c_may c (view a) → c_op c = Some o → change_means (clk 1) id change o (row_of c "ok") → op_tidy o →
  (∀ p, ∃ rp, k p = mret rp ∧ (200 <= status rp < 300)%Z) →
  wp (changePolicy sv clk id change ≫= k) (a, q) (λ x w', ends c (view a) (replied x) w').
Proof.
  intros Hg Hmay Hop Hch Hot Hk. apply wp_bind, wp_bind, wp_store. intros res s1 q1 H1.
  assert (store_ok s1) as Hs1 by (eapply run_write; [exact H1|apply ss_policy, (cm_step _ _ _ _ _ Hch)|apply Hg]).
  apply ChangePolicy_abs in H1; [|apply (cm_kind _ _ _ _ _ Hch)|apply store_ok_audit, Hg].
  assert (policy_changed (clk 1) id change (db (ap_store a)) (db s1) →
    ∃ a1, exec_op o (view a) = Some a1 ∧ abs (db s1) = noted [row_of c "ok"] a1) as Hpc.
  { intros (next & ev & Hev & Habs). pose proof (cm_exec _ _ _ _ _ Hch (db (ap_store a))) as Hex. rewrite Hev in Hex.
    destruct Hex as [<- Hex]. eauto. }
  assert (∀ a1, exec_op o (view a) = Some a1 → abs (db s1) = noted [row_of c "ok"] a1 → good (set_store s1 a)) as Hg1.
  { intros a1 Hex Habs. apply good_set_store; [done|done|]. rewrite Habs. apply tidy_noted. by eapply exec_tidy; [|apply Hg|]. }
  destruct res as [[p ev]|e].
  - apply Hpc in H1 as (a1 & Hex & Habs). apply wp_bind, wp_refresh; [by eapply Hg1|]. intros _ a2 q2 Hg2 Hv2. apply wp_ret.
    destruct (Hk p) as (rp & -> & Hrp). apply wp_ret. split; [done|]. cbn [fst replied]. rewrite Hv2.
    change (view (set_store s1 a)) with (abs (db s1)). rewrite Habs. eapply o_done; [done| |by left]. unfold c_exec. by rewrite Hop.
  - assert (∀ code f, (400 <= code < 600)%Z → (no_answer e → f = FStore e ∧ (code = 500%Z ∨ e = ErrNotLeader ∧ code = 503%Z)) →
      ends c (view a) (mkHttp code (Failed f)) (set_store s1 a, q1)) as Hend.
    { intros code f Hcode Hf. destruct H1 as [[Hsame He]|[(what & msg & ->) H1]].
      - eapply (store_refused c o); try done. left. split; [done|]. destruct He as [?|He]; [by left|right].
        pose proof (cm_exec _ _ _ _ _ Hch (db (ap_store a))) as Hex. by rewrite He in Hex.
      - apply Hpc in H1 as (a1 & Hex & Habs). split; [by eapply Hg1|]. cbn [fst]. change (view (set_store s1 a)) with (abs (db s1)).
        rewrite Habs. destruct Hf as [-> [-> |[? _]]]; [left; eauto| |done].
        eapply o_in_doubt; [done|unfold c_exec; by rewrite Hop|left; by eexists _, _|by right|by right]. }
    destruct e; try case_decide as Hpre; apply wp_err, Hend; try lia;
      first [by intros [(? & ? & [=])|[=]]|intros _; split; [done|by left]|intros _; split; [done|by right]].
Qed.

Lemma createPolicy_served sv clk r a q :
  good a → wp (createPolicy sv clk r) (a, q) (λ x w', fulfilled (create_policy_command sv (ap_engine a) clk r) (view a) (replied x) w').
Proof.
  intros Hg. unfold create_policy_command. apply wp_bind, wp_decode; [|by intros -> code f Hc]. intros p ->. cbn [mbind option_bind].
  unfold guarded at 1. apply wp_bind. apply wp_bind, wp_peek. destruct (FilePolicies (ap_engine a) !! prq_id p) eqn:Ef.
  { apply wp_err. rewrite decide_False by naive_solver. by split_and!. }
  apply wp_ret. destruct (ValidatePolicyID (prq_id p)) as [e|] eqn:Ev; [apply wp_err; rewrite decide_False by naive_solver; by split_and!|].
  rewrite decide_True by done. cbn [fulfilled]. set (c := policy_command _ _ _ _ _).
  apply wp_bind. eapply wp_authorize_policy; [done| |by intros rp w' H]. intros Hmay.
  apply wp_bind, wp_check; [done| |].
  - intros Hl ids. eapply (wp_changePolicy _ _ _ _ _ c); [done|done|cbn; unfold guarded; by rewrite decide_True|apply create_means|done|].
    intros x. by exists (show_written 201 x).
  - intros Hl f. split; [done|]. apply o_refused; [done| |done]. unfold c_exec. cbn. unfold guarded. by rewrite decide_False.
Qed.

Lemma updatePolicy_served sv clk r a q :
  good a → wp (updatePolicy sv clk r) (a, q) (λ x w', fulfilled (update_policy_command sv (ap_engine a) clk r) (view a) (replied x) w').
Proof.
  intros Hg. unfold update_policy_command, updatePolicy. cbv zeta. set (id := PathValue r "id").
  apply wp_bind. apply wp_bind, wp_peek. destruct (FilePolicies (ap_engine a) !! id) eqn:Ef.
  { apply wp_err. destruct (parsed_body _ _ _) as [p|]; cbn [mbind option_bind]; unfold guarded; rewrite ?decide_False by naive_solver; by split_and!. }
  apply wp_ret, wp_bind, wp_decode; [|by intros -> code f Hc]. intros p ->. cbn [mbind option_bind]. unfold guarded at 1.
  case_decide as Hid. { apply wp_err. rewrite decide_False by naive_solver. by split_and!. }
  destruct (ValidatePolicyID id) as [e|] eqn:Ev; [apply wp_err; rewrite decide_False by naive_solver; by split_and!|].
  assert (@None string = None ∧ @None error = None ∧ (prq_id p = "" ∨ prq_id p = id)) as Hall.
  { split_and!; [done|done|]. destruct (decide (prq_id p = "")); [by left|right]. destruct (decide (prq_id p = id)); tauto. }
  rewrite (decide_True _ _ Hall).
  cbn [fulfilled]. set (c := policy_command _ _ _ _ _). apply wp_bind. eapply wp_authorize_policy; [done| |by intros rp w' H]. intros Hmay.
  case_decide as Hm.
  { apply wp_err. split; [done|]. apply o_refused; [done| |done]. unfold c_exec. cbn. unfold guarded. by rewrite decide_False by naive_solver. }
  apply wp_bind, wp_check; [done| |].
  - intros Hl ids. eapply (wp_changePolicy _ _ _ _ _ c); [done|done|cbn; unfold guarded; by rewrite decide_True|apply update_means|done|].
    intros x. by exists (show_written 200 x).
  - intros Hl f. split; [done|]. apply o_refused; [done| |done]. unfold c_exec. cbn. unfold guarded. by rewrite decide_False by naive_solver.
Qed.

Lemma deletePolicy_served sv clk r a q :
  good a → wp (deletePolicy sv clk r) (a, q) (λ x w', fulfilled (delete_policy_command sv (ap_engine a) r) (view a) (replied x) w').
Proof.
  intros Hg. unfold delete_policy_command, deletePolicy. cbv zeta. set (id := PathValue r "id"). unfold guarded at 1.
  apply wp_bind. apply wp_bind, wp_peek. destruct (FilePolicies (ap_engine a) !! id) eqn:Ef.
  { apply wp_err. rewrite decide_False by naive_solver. by split_and!. }
  apply wp_ret. destruct (ValidatePolicyID id) as [e|] eqn:Ev; [apply wp_err; rewrite decide_False by naive_solver; by split_and!|].
  assert (@None string = None ∧ @None error = None) as Hall by done. rewrite (decide_True _ _ Hall).
  cbn [fulfilled]. set (c := policy_command _ _ _ _ _). apply wp_bind. eapply wp_authorize_policy; [done| |by intros rp w' H]. intros Hmay.
  case_decide as Hm.
  { apply wp_err. split; [done|]. apply o_refused; [done| |done]. unfold c_exec. cbn. unfold guarded. by rewrite decide_False by naive_solver. }
  eapply (wp_changePolicy _ _ _ _ _ c); [done|done|cbn; unfold guarded; by rewrite decide_True|apply delete_means|done|].
  intros x. by eexists.
Qed.

End refine.
