(* ===== verification/Service.v ===== *)
(** * Service

    The whole API over Spec: every route with its gates, and any sequence
    of requests. A write route does what Refine says for the caller the
    gates let through; every other route leaves the directory and the
    policies alone and only adds reports to the trail. *)
From S2P Require Import Prelude Crypto Json JsonParse JsonRaw Decode AuditKeyring Store Domains AuditChain AuditVerify.
From S2P Require Import AuditOnce Groups Policies Scim ScimSync Reach Effects Spec GoValue GoTime Base64 Cedar Directory.
From S2P Require Import Request Engine Bundle Wire Refusals Http Auth Reload DomainApi GroupApi PolicyApi AccessApi Search.
From S2P Require Import AuditApi Decisions Routes Refine.

(** A row that reports an evaluation. *)
Definition report (e : entry) : Prop := ∃ rest, en_kind e = "access.evaluate" +:+ rest.

(** Rows of kinds other than those of policy changes. *)
Lemma report_other ev rest : Kind ev = "access.evaluate" +:+ rest → other_event ev.
Proof. intros H [[Hk|[Hk|Hk]] _]; rewrite H in Hk; discriminate Hk. Qed.

(** ** Stores that only take reports *)

Definition reported (a a' : AState) : Prop := ∃ l, Forall report l ∧ a' = noted l a.

#[global] Instance reported_refl : Reflexive reported.
Proof. intros a. exists []. by rewrite noted_nil. Qed.

#[global] Instance reported_trans : Transitive reported.
Proof. intros a b c (l & Hl & ->) (k & Hk & ->). exists (l ++ k). rewrite noted_noted. split; [by apply Forall_app|done]. Qed.

Definition store_reports {A} (m : M A) : Prop :=
  ∀ s q r s' q', store_ok s → m (s, q) = (r, (s', q')) → store_ok s' ∧ reported (abs (db s)) (abs (db s')).

Lemma reports_ret {A} (x : A) : store_reports (mret x).
Proof. intros s q r s' q' Hok [= <- <- <-]. done. Qed.

Lemma reports_throw {A} e : store_reports (throw e : M A).
Proof. intros s q r s' q' Hok [= <- <- <-]. done. Qed.

Lemma reports_catch {A B} (m : M A) (h : result error A → M B) :
  store_reports m → (∀ r, store_reports (h r)) → store_reports (catch m h).
Proof.
  intros Hm Hh s q r s' q' Hok. unfold catch. destruct (m (s, q)) as [r1 [s1 q1]] eqn:E. intros H.
  apply Hm in E as [Hok1 E]; [|done]. apply Hh in H as [? ?]; [|done]. split; [done|by etrans].
Qed.

Lemma reports_bind {A B} (m : M A) (k : A → M B) : store_reports m → (∀ x, store_reports (k x)) → store_reports (m ≫= k).
Proof.
  intros Hm Hk s q r s' q' Hok [(x & [s1 q1] & H1 & H)|(e & [s1 q1] & H1 & [= -> -> ->])]%bind_cases.
  - apply Hm in H1 as [Hok1 H1]; [|done]. apply Hk in H as [? ?]; [|done]. split; [done|by etrans].
  - by eapply Hm.
Qed.

(** Reads. *)
Lemma reports_on_db {A} what (f : DB → A) : store_reports (on_db what f).
Proof. intros s q r s' q' Hok [-> _]%on_db_cases. done. Qed.

Lemma reports_append now ev rest : Kind ev = "access.evaluate" +:+ rest → store_reports (AppendAudit now ev).
Proof.
  intros Hk s q r s' q' Hok H. split.
  { eapply run_write; [exact H|by eapply ss_policy, step_append, report_other|done]. }
  apply AppendAudit_abs in H; [|by apply store_ok_audit].
  assert (abs (db s') = abs (db s) ∨ abs (db s') = noted [event_entry ev] (abs (db s))) as [-> | ->] by (destruct r; tauto); [done|].
  exists [event_entry ev]. split; [|done]. repeat constructor. by exists rest.
Qed.

Lemma reports_append_once now key ev rest :
  clock_ok now → Kind ev = "access.evaluate" +:+ rest → store_reports (AppendAuditOnce now key ev).
Proof.
  intros Hc Hk s q r s' q' Hok H.
  pose proof (append_once_store now key ev s q Hc (report_other _ _ Hk) Hok) as Hok'.
  pose proof (AppendAuditOnce_same directory_tables (λ _ _, eq_refl) (λ _ _, eq_refl) frame_appendAuditTx (db s) now key ev s q eq_refl) as Hd.
  pose proof (AppendAuditOnce_same Store.policies (λ _ _, eq_refl) (λ _ _, eq_refl) frame_appendAuditTx_policies (db s) now key ev s q eq_refl) as Hp.
  rewrite H in Hok', Hd, Hp. cbn [fst snd] in *. split; [done|].
  apply AppendAuditOnce_step in H as [_ H]; [|by apply store_ok_audit|done].
  assert (∀ rows, audit_log (db s') = audit_log (db s) ++ rows → Forall report (entry_of <$> rows) → reported (abs (db s)) (abs (db s'))) as Hrows.
  { intros rows Hl Hr. exists (entry_of <$> rows). split; [done|]. by apply abs_extended. }
  destruct H as [Hl _ _|Hl _ _ _|seen ev' _ _ _ Hr Hl _|ev' _ _ Hr Hl _].
  - apply (Hrows []); [by rewrite app_nil_r|constructor].
  - apply (Hrows []); [by rewrite app_nil_r|constructor].
  - apply (Hrows _ Hl). repeat constructor. exists (rest +:+ ".conflict"). cbn. rewrite (rec_kind _ _ Hr). cbn. by rewrite Hk.
  - apply (Hrows _ Hl). repeat constructor. exists rest. cbn. by rewrite (rec_kind _ _ Hr).
Qed.

(** ** Handlers that only report *)

Section service.
Context {spf : Spiffe} {cdr : Cedar} {ecd : Ecdsa} {tok : Tokens}.

Definition reports {A} (m : HM A) : Prop :=
  ∀ a q, good a → wp m (a, q) (λ _ w', good w'.1 ∧ reported (view a) (view w'.1)).

Lemma good_reported a s : good a → store_ok s → reported (view a) (abs (db s)) → good (set_store s a).
Proof. intros Hg Hs (l & _ & Hl). apply good_set_store; [done|done|]. rewrite Hl. apply tidy_noted, Hg. Qed.

Lemma hm_ret {A} (x : A) : reports (mret x).
Proof. intros a q Hg. by apply wp_ret. Qed.

Lemma hm_err {A} code f : reports (writeErr code f : HM A).
Proof. intros a q Hg. by apply wp_err. Qed.

Lemma hm_peek {A} (f : Api → A) : reports (peek f).
Proof. intros a q Hg. by apply wp_peek. Qed.

Lemma hm_bind {A B} (m : HM A) (k : A → HM B) : reports m → (∀ x, reports (k x)) → reports (m ≫= k).
Proof.
  intros Hm Hk a q Hg. apply wp_bind. eapply wp_mono; [by apply Hm|]. intros [x|rp] [a' q'] [Hg' Hr]; [|done]. cbn [fst] in *.
  eapply wp_mono; [by apply Hk|]. intros r w' [Hg'' Hr']. split; [done|by etrans].
Qed.

Lemma hm_store {A} (m : M A) : store_reports m → reports (call (on_store m)).
Proof.
  intros Hm a q Hg. apply wp_store. intros r s q' H. apply Hm in H as [Hs Hr]; [|apply Hg]. split; [by apply good_reported|done].
Qed.

Lemma hm_audit now ev rest : Kind ev = "access.evaluate" +:+ rest → reports (audit now ev).
Proof.
  intros Hk a q Hg. apply wp_audit; [done|by eapply report_other|]. intros a' q' l Hg' _ Hl Hv. split; [done|]. cbn [fst]. rewrite Hv.
  exists l. split; [|done]. destruct Hl as [-> | ->]; repeat constructor. by exists rest.
Qed.

Lemma hm_decode {A} (dec : decoder A) zero r : reports (decodeJSONBody dec zero r).
Proof. intros a q Hg. by apply wp_decode; intros. Qed.

(** Walks through a handler. *)
Ltac reporting :=
  repeat first
    [ apply hm_ret | apply hm_err | apply hm_peek | apply hm_decode | by eapply (hm_audit _ _ "")
    | apply hm_bind; [|intros ?] | case_match ].

Lemma evaluateAccess_reports clk r : reports (evaluateAccess clk r).
Proof. unfold evaluateAccess. reporting. Qed.

Lemma evaluate_all_reports clk id semantic size i l : reports (evaluate_all clk id semantic size i l).
Proof. revert i. induction l as [|m l IH]; intros i; cbn [evaluate_all]; reporting; apply IH. Qed.

Lemma evaluateAccessBatch_reports clk r : reports (evaluateAccessBatch clk r).
Proof. unfold evaluateAccessBatch. reporting. apply evaluate_all_reports. Qed.

Lemma search_loop_reports {T} clk id dimension (request : T → EvalRequest) i window :
  reports (search_loop clk id dimension request i window).
Proof.
  revert i. induction window as [|c window IH]; intros i; cbn [search_loop]; unfold evaluateForSearch; reporting; apply IH.
Qed.

Lemma search_entities_reports sv clk dimension many other r : reports (search_entities sv clk dimension many other r).
Proof. unfold search_entities. reporting; apply search_loop_reports. Qed.

Lemma searchAction_reports sv clk r : reports (searchAction sv clk r).
Proof. unfold searchAction. reporting; apply search_loop_reports. Qed.

Lemma GetDomain_store_reports n : store_reports (GetDomain n).
Proof. intros s q r s' q' Hok [-> _]%GetDomain_cases. done. Qed.

Lemma getDomain_reports sv r : reports (getDomain sv r).
Proof. unfold getDomain. apply hm_bind; [apply hm_store, GetDomain_store_reports|intros]. reporting. Qed.

Lemma listDomains_reports sv r : reports (listDomains sv r).
Proof.
  unfold listDomains. apply hm_bind; [|intros; reporting]. apply hm_store. unfold ListDomains, adminsByDomain.
  repeat first [apply reports_on_db|apply reports_ret|apply reports_bind; [|intros ?]].
Qed.

Lemma path_domain_reports r : reports (domainPathName r).
Proof. unfold domainPathName. reporting. Qed.

Lemma listGroups_store_reports n g : store_reports (listGroups n g).
Proof. unfold listGroups, groupMembers. repeat first [apply reports_on_db|apply reports_ret|apply reports_bind; [|intros ?]]. Qed.

Lemma getGroup_reports sv r : reports (getGroup sv r).
Proof.
  unfold getGroup, groupPath. apply hm_bind; [apply hm_bind; [apply path_domain_reports|intros; reporting]|]. intros [n g].
  apply hm_bind; [|intros; reporting]. apply hm_store. unfold GetGroup. apply reports_bind; [apply listGroups_store_reports|].
  intros [|g0 gs]; [apply reports_throw|apply reports_ret].
Qed.

Lemma getGroups_reports sv r : reports (getGroups sv r).
Proof.
  unfold getGroups. apply hm_bind; [apply path_domain_reports|]. intros n.
  apply hm_bind; [apply hm_store, listGroups_store_reports|intros; reporting].
Qed.

Lemma listPolicies_reports : reports listPolicies.
Proof. unfold listPolicies. apply hm_bind; [apply hm_store, reports_on_db|intros]. reporting. Qed.

Lemma getPolicy_reports sv r : reports (getPolicy sv r).
Proof.
  unfold getPolicy. reporting. apply hm_store. unfold GetPolicy. apply reports_bind; [apply reports_on_db|].
  intros [row|]; [apply reports_ret|apply reports_throw].
Qed.

Lemma validatePolicy_reports r : reports (validatePolicy r).
Proof. unfold validatePolicy, checkPolicyRequest. reporting. Qed.

Lemma verifyAudit_reports r : reports (verifyAudit r).
Proof.
  unfold verifyAudit. case_match; [|apply hm_err]. apply hm_bind; [|intros; reporting]. apply hm_store. unfold VerifyAudit, auditKeyedFromSeq.
  apply reports_bind; [intros s q r' s' q' Hok [= <- <- <-]; done|]. intros kr. apply reports_bind.
  - destruct kr; [apply reports_on_db|apply reports_ret].
  - intros epoch. apply reports_bind; [apply reports_on_db|]. intros rows. apply reports_ret.
Qed.

Lemma listAudit_reports r : reports (listAudit r).
Proof. unfold listAudit. apply hm_bind; [apply hm_store, reports_on_db|intros; reporting]. Qed.

Lemma getPolicyBundle_reports sv key now r : reports (getPolicyBundle sv key now r).
Proof. unfold getPolicyBundle. reporting. Qed.

Lemma record_all_reports now agent rev i ds : (∀ j, clock_ok (now j)) → store_reports (record_all now agent rev i ds).
Proof.
  intros Hc. revert i. induction ds as [|d ds IH]; intros i; cbn [record_all]; [apply reports_ret|].
  destruct (decision_event agent rev d) as [ev|] eqn:E; [|apply reports_ret].
  apply reports_catch; [|intros [?|?]; [apply IH|apply reports_ret]]. eapply (reports_append_once _ _ _ ".local"); [done|].
  unfold decision_event in E. destruct (decision_payload rev d); [|done]. by injection E as <-.
Qed.

Lemma recordDecisions_reports sv clk r : (∀ j, clock_ok (clk j)) → reports (recordDecisions_handler sv clk r).
Proof.
  intros Hc. unfold recordDecisions_handler. apply hm_bind; [|intros; reporting]. apply hm_store. unfold recordDecisions, record_batch.
  destruct (mayRecordDecisions _ _).
  - destruct (body_value _ _ _); [|apply reports_ret]. destruct (dec_batch _ _) as [b|]; [|apply reports_ret].
    destruct (valid_batch b); [|apply reports_ret]. case_decide; [|by apply record_all_reports].
    apply reports_catch; [by eapply (reports_append_once _ _ _ ".local.dropped")|].
    intros [?|?]; [by apply record_all_reports|apply reports_ret].
  - apply reports_catch; [by eapply (reports_append _ _ ".local")|]. intros. apply reports_ret.
Qed.

(** ** The gates *)

(** Who a request comes from, and through which user interface proxy. *)
Definition caller_of (sv : Server) (clk : nat → Z) (delegable : bool) (r : HttpRequest) : option (string * string) :=
  if negb (requireAuth sv) then Some ("", "")
  else
    match spiffeIDFromTLS (r_tls r) with
    | Err _ => None
    | Ok id =>
        match r_userTokens r with
        | None => Some (id, "")
        | Some [token] =>
            if decide (delegable = true ∧ id ∈ Proxies (uiProxy sv) ∧ token ≠ "") then
              match verifyUserToken (uiProxy sv) (clk 2) (clk 3) token with Ok user => Some (user, id) | Err _ => None end
            else None
        | Some _ => None
        end
    end.

(** A request turned down by the gates leaves at most a row on the proxy
    that sent it. *)
Definition turned_away (rp : HttpReply) (a a' : AState) : Prop :=
  (400 <= status rp < 600)%Z ∧
  (a' = a ∨ ∃ proxy, a' = noted [mkEntry "ui_proxy.delegate" proxy "" "deny"] a).

Lemma good_set_refusals l a : good a → good (set_refusals l a).
Proof. by intros []. Qed.

Lemma wp_refuse {A} clk r proxy code kind f reason a q (Φ : result HttpReply A → Api * faults → Prop) :
  good a → (400 <= code < 600)%Z →
  (∀ rp a' q', good a' → turned_away rp (view a) (view a') → Φ (Err rp) (a', q')) →
  wp (refuse clk r proxy code kind f reason) (a, q) Φ.
Proof.
  intros Hg Hcode HΦ. unfold refuse. cbv zeta. set (key := proxy +:+ _). apply wp_bind. unfold wp at 1, ask_limiter. cbn [fst snd].
  destruct (allow key (clk 0) (ap_refusals a)) as [[ok n] l] eqn:E. cbn [fst snd]. apply (good_set_refusals l) in Hg as Hg1.
  apply wp_bind. destruct ok; [|by apply wp_ret, wp_err, HΦ; [|split; [|left]]].
  apply wp_bind, wp_append; [done|by intros [_ ?]|]. intros res a2 q2 Hg2 _ Hv.
  assert (∀ b, good b → view b = view a2 → ∀ q', Φ (Err (mkHttp code (Failed f))) (b, q')) as Hend.
  { intros b Hb Hvb q'. apply HΦ; [done|]. split; [done|]. rewrite Hvb.
    assert (view a2 = view a ∨ view a2 = noted [mkEntry "ui_proxy.delegate" proxy "" "deny"] (view a)) as [-> | ->] by (destruct res; tauto);
      [by left|right; eauto]. }
  destruct res as [u|e]; [by apply wp_ret, wp_err, Hend|]. unfold wp at 1, keep_unrecorded. cbn [fst snd].
  apply wp_err, Hend; [by apply good_set_refusals|done].
Qed.

Lemma wp_authenticate sv clk reason delegable (h : HttpRequest → HM HttpReply) r a q (Φ : result HttpReply HttpReply → Api * faults → Prop) :
  good a →
  match caller_of sv clk delegable r with
  | Some (caller, via) => wp (h (with_caller caller via r)) (a, q) Φ
  | None => ∀ rp a' q', good a' → turned_away rp (view a) (view a') → Φ (Err rp) (a', q')
  end → wp (authenticate sv clk reason delegable h (with_caller "" "" r)) (a, q) Φ.
Proof.
  intros Hg. unfold caller_of, authenticate. destruct (requireAuth sv); cbn [negb]; [|done]. cbn [r_tls with_caller r_userTokens].
  destruct (spiffeIDFromTLS (r_tls r)) as [id|f]; [|intros HΦ; apply wp_err, HΦ; [done|split; [done|by left]]].
  destruct (r_userTokens r) as [tokens|]; [|done]. intros HΦ. apply wp_bind. unfold delegate.
  destruct (decide (id ∉ _)) as [Hp|Hp].
  { apply wp_refuse; [done|lia|]. destruct tokens as [|token [|? ?]]; try done. by rewrite decide_False in HΦ by naive_solver. }
  destruct delegable; cbn [negb].
  2:{ apply wp_refuse; [done|lia|]. by destruct tokens as [|token [|? ?]]. }
  destruct tokens as [|token [|? ?]]; [by apply wp_refuse; [|lia|]| |by apply wp_refuse; [|lia|]].
  destruct (decide (token = "")) as [Ht|Ht]; [apply wp_refuse; [done|lia|]; by rewrite decide_False in HΦ by naive_solver|].
  rewrite decide_True in HΦ by (split_and!; [done|by apply dec_stable|done]).
  destruct (verifyUserToken _ _ _ _) as [user|kind] eqn:Eu; [|by apply wp_refuse; [|lia|]].
  apply wp_ret. rewrite decide_False; [done|]. intros ->. unfold verifyUserToken in Eu. repeat case_match; simplify_eq; done.
Qed.

Lemma wp_leaderOnly (h : HttpRequest → HM HttpReply) r a q (Φ : result HttpReply HttpReply → Api * faults → Prop) :
  (IsLeader (ap_store a) = true → wp (h r) (a, q) Φ) →
  (IsLeader (ap_store a) = false → Φ (Err (mkHttp 503 (Failed (FStore ErrNotLeader)))) (a, q)) → wp (leaderOnly h r) (a, q) Φ.
Proof. intros Hl Hn. apply wp_bind, wp_peek. destruct (IsLeader (ap_store a)); [by apply Hl|by apply wp_err, Hn]. Qed.

(** ** What a request does to the specification *)

(** The routes a user interface proxy may call for a user. *)
Definition delegable (rt : route) : bool :=
  match rt with
  | GetPolicies | GetPolicyByID | PostPolicies | PostPoliciesValidate | PutPolicy | DeletePolicyByID => true
  | _ => false
  end.

(** What a write route is asked for; [None] for the other routes. *)
Definition command_of (sv : Server) (e : Engine) (t : nat → Z) (rt : route) (r : HttpRequest) : option (option command) :=
  match rt with
  | PostDomains => Some (create_domain_command sv t r)
  | DeleteDomainByName => Some (delete_domain_command sv r)
  | PostDomainAdmins => Some (add_admin_command sv r)
  | DeleteDomainAdmins => Some (remove_admin_command sv r)
  | PostGroups => Some (create_group_command sv t r)
  | DeleteGroupByName => Some (delete_group_command sv r)
  | PutGroupMembers => Some (put_member_command sv t r)
  | DeleteGroupMembers => Some (remove_member_command sv r)
  | PostPolicies => Some (create_policy_command sv e t r)
  | PutPolicy => Some (update_policy_command sv e t r)
  | DeletePolicyByID => Some (delete_policy_command sv e r)
  | _ => None
  end.

(** One request: [e] is the engine of the replica that serves it, and
    [leads] whether that replica is the leader. *)
Inductive spec_step (su : Setup) (leads : bool) (e : Engine) (clk : nat → Z) (rt : route) (r : HttpRequest) (a : AState) :
    HttpReply → AState → Prop :=
| st_turned_away rp a' :
    leads = false ∨ caller_of (su_server su) clk (delegable rt) r = None → turned_away rp a a' →
    spec_step su leads e clk rt r a rp a'
| st_written caller via oc rp a' :
    leads = true → caller_of (su_server su) clk (delegable rt) r = Some (caller, via) →
    command_of (su_server su) e (λ i, clk (10 + i)) rt (with_caller caller via r) = Some oc →
    match oc with Some c => outcome c a rp a' | None => a' = a ∧ (400 <= status rp < 500)%Z end →
    spec_step su leads e clk rt r a rp a'
| st_reported rp a' :
    command_of (su_server su) e (λ i, clk (10 + i)) rt r = None → reported a a' → spec_step su leads e clk rt r a rp a'.

Context {spl : SpiffeLaws}.

Definition steps (su : Setup) (clk : nat → Z) (rt : route) (r : HttpRequest) (a : Api) (x : result HttpReply HttpReply) (w : Api * faults) : Prop :=
  good w.1 ∧ spec_step su (IsLeader (ap_store a)) (ap_engine a) clk rt r (view a) (replied x) (view w.1).

(** The gates in front of a write, and those in front of a report. *)
Lemma gated_write su clk reason rt (h : HttpRequest → HM HttpReply) (cmd : HttpRequest → option command) r a q :
  good a → (∀ r', command_of (su_server su) (ap_engine a) (λ i, clk (10 + i)) rt r' = Some (cmd r')) →
  (∀ r' q', wp (h r') (a, q') (λ x w', fulfilled (cmd r') (view a) (replied x) w')) →
  wp (leaderOnly (authenticate (su_server su) clk reason (delegable rt) h) (with_caller "" "" r)) (a, q) (steps su clk rt r a).
Proof.
  intros Hg Hcmd Hh. apply wp_leaderOnly; intros Hl.
  - apply wp_authenticate; [done|]. destruct (caller_of _ _ _ _) as [[caller via]|] eqn:Ec.
    + eapply wp_mono; [apply Hh|]. intros x w' H. unfold fulfilled in H. destruct (cmd (with_caller caller via r)) as [c|] eqn:Ecmd.
      * destruct H as [Hg' Ho]. split; [done|]. eapply st_written; [done|done|apply Hcmd|]. by rewrite Ecmd.
      * destruct H as (Hg' & Hv & Hs). split; [done|]. eapply st_written; [done|done|apply Hcmd|]. by rewrite Ecmd.
    + intros rp a' q' Hg' Ht. split; [done|]. apply st_turned_away; [by right|done].
  - split; [done|]. apply st_turned_away; [by left|]. split; [done|by left].
Qed.

Lemma auth_report su clk reason rt (h : HttpRequest → HM HttpReply) r a q :
  good a → (∀ r', command_of (su_server su) (ap_engine a) (λ i, clk (10 + i)) rt r' = None) → (∀ r', reports (h r')) →
  wp (authenticate (su_server su) clk reason (delegable rt) h (with_caller "" "" r)) (a, q) (steps su clk rt r a).
Proof.
  intros Hg Hcmd Hh. apply wp_authenticate; [done|]. destruct (caller_of _ _ _ _) as [[caller via]|] eqn:Ec.
  - eapply wp_mono; [by apply Hh|]. intros x w' [Hg' Hr]. split; [done|]. by apply st_reported.
  - intros rp a' q' Hg' Ht. split; [done|]. apply st_turned_away; [by right|done].
Qed.

Lemma gated_report su clk reason rt (h : HttpRequest → HM HttpReply) r a q :
  good a → (∀ r', command_of (su_server su) (ap_engine a) (λ i, clk (10 + i)) rt r' = None) → (∀ r', reports (h r')) →
  wp (leaderOnly (authenticate (su_server su) clk reason (delegable rt) h) (with_caller "" "" r)) (a, q) (steps su clk rt r a).
Proof.
  intros Hg Hcmd Hh. apply wp_leaderOnly; intros Hl; [by apply auth_report|].
  split; [done|]. apply st_turned_away; [by left|]. split; [done|by left].
Qed.

Lemma open_report su clk rt (h : HM HttpReply) r a q :
  good a → (∀ r', command_of (su_server su) (ap_engine a) (λ i, clk (10 + i)) rt r' = None) → reports h →
  wp h (a, q) (steps su clk rt r a).
Proof. intros Hg Hcmd Hh. eapply wp_mono; [by apply Hh|]. intros x w' [Hg' Hr]. split; [done|]. by apply st_reported. Qed.

Lemma fresh_reports now (h : HttpRequest → HM HttpReply) r : (∀ r', reports (h r')) → reports (fresh now h r).
Proof. intros Hh. apply hm_bind; [apply hm_peek|]. intros []; [apply hm_err|apply Hh]. Qed.

(** Every route is a step of the specification. *)
Lemma route_steps su clk reason rt r a q :
  good a → (∀ j, clock_ok (clk j)) →
  wp (handle su clk reason rt (with_caller "" "" r)) (a, q) (steps su clk rt r a).
Proof.
  intros Hg Hc. destruct rt; unfold handle, requireSPIFFEAuth, requireUserAuth; cbv zeta.
  - apply open_report; [done|done|]. apply hm_bind; [apply hm_peek|intros; apply hm_ret].
  - eapply gated_write; [done|done|]. intros. by apply createDomain_served.
  - apply open_report; [done|done|apply listDomains_reports].
  - apply open_report; [done|done|apply getDomain_reports].
  - eapply gated_write; [done|done|]. intros. by apply deleteDomain_served.
  - eapply gated_write; [done|done|]. intros. by apply addDomainAdmin_served.
  - eapply gated_write; [done|done|]. intros. by apply removeDomainAdmin_served.
  - apply open_report; [done|done|apply getGroups_reports].
  - eapply gated_write; [done|done|]. intros. by apply createGroup_served.
  - apply open_report; [done|done|apply getGroup_reports].
  - eapply gated_write; [done|done|]. intros. by apply deleteGroup_served.
  - eapply gated_write; [done|done|]. intros. by apply putGroupMember_served.
  - eapply gated_write; [done|done|]. intros. by apply removeGroupMember_served.
  - apply gated_report; [done|done|]. intros. apply fresh_reports. intros. apply evaluateAccess_reports.
  - apply gated_report; [done|done|]. intros. apply fresh_reports. intros. apply evaluateAccessBatch_reports.
  - apply gated_report; [done|done|]. intros. apply fresh_reports. intros. apply search_entities_reports.
  - apply gated_report; [done|done|]. intros. apply fresh_reports. intros. apply search_entities_reports.
  - apply gated_report; [done|done|]. intros. apply fresh_reports. intros. apply searchAction_reports.
  - apply auth_report; [done|done|apply listAudit_reports].
  - apply auth_report; [done|done|apply verifyAudit_reports].
  - apply auth_report; [done|done|]. intros. apply fresh_reports. intros. apply getPolicyBundle_reports.
  - apply gated_report; [done|done|]. intros. apply recordDecisions_reports. intros. apply Hc.
  - apply auth_report; [done|done|]. intros. apply listPolicies_reports.
  - apply auth_report; [done|done|apply getPolicy_reports].
  - eapply gated_write; [done|done|]. intros. by apply createPolicy_served.
  - apply auth_report; [done|done|apply validatePolicy_reports].
  - eapply gated_write; [done|done|]. intros. by apply updatePolicy_served.
  - eapply gated_write; [done|done|]. intros. by apply deletePolicy_served.
Qed.

(** ** Histories *)

(** A request with the times it is served at and the faults it meets. *)
Record Call := mkCall {
  cl_clock : nat → Z;
  cl_reason : string → string;
  cl_route : route;
  cl_request : HttpRequest;
  cl_faults : faults;
}.

Definition serve_call (su : Setup) (c : Call) (a : Api) : HttpReply * Api :=
  let '(rp, (a', _)) := serve_route su (cl_clock c) (cl_reason c) (cl_route c) (cl_request c) (a, cl_faults c) in (rp, a').

Fixpoint serve_all (su : Setup) (cs : list Call) (a : Api) : list HttpReply * Api :=
  match cs with
  | [] => ([], a)
  | c :: cs' => let '(rp, a1) := serve_call su c a in let '(rps, a2) := serve_all su cs' a1 in (rp :: rps, a2)
  end.

(** The specification serves the same requests with the same replies. *)
Inductive spec_run (su : Setup) : AState → list Call → list HttpReply → AState → Prop :=
| sr_nil a : spec_run su a [] [] a
| sr_cons leads e c cs rp rps a a1 a2 :
    spec_step su leads e (cl_clock c) (cl_route c) (cl_request c) a rp a1 →
    spec_run su a1 cs rps a2 → spec_run su a (c :: cs) (rp :: rps) a2.

Lemma serve_call_steps su c a rp a' :
  good a → (∀ j, clock_ok (cl_clock c j)) → serve_call su c a = (rp, a') →
  good a' ∧ spec_step su (IsLeader (ap_store a)) (ap_engine a) (cl_clock c) (cl_route c) (cl_request c) (view a) rp (view a').
Proof.
  intros Hg Hc H. pose proof (route_steps su (cl_clock c) (cl_reason c) (cl_route c) (cl_request c) a (cl_faults c) Hg Hc) as Hst.
  unfold serve_call, serve_route, serve in H. unfold wp in Hst.
  destruct (handle _ _ _ _ _ _) as [[x|x] [a1 q1]]; injection H as <- <-; exact Hst.
Qed.


End service.

(** ** Witnesses *)

#[local] Existing Instance Toy.spiffe.
#[local] Existing Instance Toy.cedar.

#[local] Instance no_ecdsa : Ecdsa := {|
  PrivateKey := (); PublicKey := (); is_p256 _ := true; SignASN1 _ _ := None; VerifyASN1 _ _ _ := false;
|}.

(** An identity source that knows no token. *)
#[local] Instance no_tokens : Tokens := {| ParseSigned _ := false; ParseJWTSVIDClaims _ _ := Err JwtOther |}.

Definition root_id : string := "spiffe://td/root".
Definition ann_id : string := "spiffe://td/ann".

Definition demo_setup : Setup := mkSetup (mkServer true [] [root_id] "td" false (mkUIProxyConfig [] "" 0)) None.

Definition demo_api : Api := mkApi (UseAuditKeyring None (new_store driverSQLite)) [] new_engine 0 0 false (newRefusalLimiter 0).

(** A request with the certificate of [caller]. *)
Definition asks (caller : string) (path query : gmap string string) (body : json) : HttpRequest :=
  mkHttpRequest (Some [[[Some (mkURI "spiffe" caller)]]]) None "" path query "" "" [] false (json_print body) "" "".

Definition at_noon (rt : route) (r : HttpRequest) (q : faults) : Call := mkCall (λ _, 1000%Z) (λ _, "") rt r q.

(** The root creates a domain for ann, who creates a group in it; the root
    may not be impersonated; and a failing audit log takes a group back. *)
Definition demo_calls : list Call :=
  [at_noon PostDomains (asks root_id ∅ ∅ (JObj [("name", JStr "org"); ("admins", JArr [JStr ann_id])])) [];
   at_noon PostGroups (asks ann_id {[ "name" := "org" ]} ∅ (JObj [("name", JStr "ops")])) [];
   at_noon DeleteDomainByName (asks ann_id {[ "name" := "org" ]} ∅ JNull) [];
   at_noon PostGroups (asks ann_id {[ "name" := "org" ]} ∅ (JObj [("name", JStr "dev")]))
     [None; None; None; None; None; None; Some (Fail "disk full")];
   at_noon GetGroups (asks ann_id {[ "name" := "org" ]} ∅ JNull) []].

Lemma demo_good : good demo_api.
Proof.
  split; [by apply new_store_ok| |done]. intros n D. unfold view. rewrite abs_domain. cbn. by rewrite lookup_empty.
Qed.

