(* ===== verification/Fleet.v ===== *)
(** * Fleet

    A node agent and the control plane together: the agent's batches reach
    [recordDecisions] or are lost, answers come back or are lost, crashes
    strike the agent, faults the store, and others write to the store at
    the same time. *)
From S2P Require Import Prelude Crypto Json JsonParse JsonRaw Decode AuditKeyring Store Domains AuditChain.
From S2P Require Import AuditVerify AuditOnce Policies Reach Ledger GoValue GoTime Base64 Cedar Directory.
From S2P Require Import Request Engine Bundle Wire Spool LocalPDP Node Http Decisions.

(** ** A batch as the control plane reads it *)

Definition loss_fields (sh : shipment) : list (string * json) :=
  if decide (sh_droppedIDs sh = []) then []
  else [("dropped", JInt (Z.of_nat (length (sh_droppedIDs sh)))); ("dropped_digests", strings_json (sh_droppedDigests sh));
        ("dropped_ids", strings_json (sh_droppedIDs sh)); ("loss_id", JStr (sh_lossID sh))].

Definition batch_json (sh : shipment) (vs : list json) : json :=
  JObj ([("bundle_revision", JStr (sh_revision sh)); ("decisions", JArr vs)] ++ loss_fields sh).

(** The value is the decision's, and can be embedded. *)
Definition value_of (q : queued) (v : json) : Prop :=
  q_raw q = json_print v ∧ json_wf v ∧ (json_depth v + 2 <= maxNestingDepth)%N.

Lemma body_print sh text :
  Forall queued_ok (sh_batch sh) → body sh = Some text →
  ∃ vs, Forall2 value_of (sh_batch sh) vs ∧ text = json_print (batch_json sh vs).
Proof.
  intros Hok. unfold body. destruct (mapM _ _) as [raws|] eqn:Er; [|done]. cbn [mbind option_bind]. intros [= <-].
  apply mapM_Some in Er.
  assert (∃ vs, Forall2 value_of (sh_batch sh) vs ∧ raws = map json_print vs) as (vs & Hvs & ->).
  { induction Er as [|q raw l raws Hq _ IH]; [exists []; by split|]. apply Forall_cons in Hok as [[_ _ (v & Hv & Hwf & Hd)] Hok].
    destruct (IH Hok) as (vs & Hvs & ->). exists (v :: vs). split; [by constructor|].
    rewrite Hv, marshal_raw_print in Hq by (done || lia). by injection Hq as <-. }
  exists vs. split; [done|]. unfold batch_json, loss_fields, obj_text. cbn [json_print].
  by destruct (decide (sh_droppedIDs sh = [])).
Qed.

Lemma batch_json_ok sh l vs :
  Forall2 value_of l vs → json_wf (batch_json sh vs) ∧ (json_depth (batch_json sh vs) <= maxNestingDepth)%N ∧
  Forall json_wf vs ∧ (json_depth (JArr vs) + 1 <= maxNestingDepth)%N.
Proof.
  intros H. assert (Forall json_wf vs ∧ Forall (λ v, json_depth v <= maxNestingDepth - 2)%N vs) as [Hwf Hd].
  { induction H as [|q v l vs (_ & Hwf & Hd) _ [IH1 IH2]]; [by split|]. split; constructor; try done. lia. }
  assert (json_depth (JArr vs) <= maxNestingDepth - 1)%N as Hd'
    by (etrans; [by apply (json_depth_arr _ (maxNestingDepth - 2))|unfold maxNestingDepth; lia]).
  assert (Forall (λ kv, json_wf kv.2 ∧ (json_depth kv.2 <= 1)%N) (loss_fields sh)) as Hl.
  { unfold loss_fields. case_decide; [done|].
    assert (∀ (n : string) l, json_wf (n, strings_json l).2 ∧ (json_depth (n, strings_json l).2 <= 1)%N) as Hs
      by (intros n l0; split; [apply strings_json_wf|apply strings_json_depth]).
    apply Forall_cons. split; [split; [apply num_ok_pretty|done]|]. apply Forall_cons. split; [apply Hs|].
    apply Forall_cons. split; [apply Hs|]. by apply Forall_singleton. }
  split_and!; [| |done|unfold maxNestingDepth in *; lia].
  - apply wf_obj. constructor; [done|]. constructor; [by apply wf_arr|]. eapply Forall_impl; [exact Hl|]. by intros ? [? _].
  - etrans; [apply (json_depth_obj _ (maxNestingDepth - 1))|unfold maxNestingDepth; lia].
    constructor; [simpl; lia|]. constructor; [done|]. eapply Forall_impl; [exact Hl|]. intros ? [_ ?]. unfold maxNestingDepth. simpl. lia.
Qed.

(** What the control plane decodes of a batch: its revision, and each
    decision as the decoder of decisions reads the text the agent kept. *)
Lemma batch_decoded sh vs b :
  Forall2 value_of (sh_batch sh) vs → dec_batch (json_print (batch_json sh vs)) zero_batch = Some b →
  BundleRevision b = to_valid_utf8 (sh_revision sh) ∧
  mapM (λ q, dec_decision (q_raw q) zero_decision) (sh_batch sh) = Some (Decisions b).
Proof.
  intros Hvs. destruct (batch_json_ok sh _ _ Hvs) as (Hwf & Hd & Hwfs & Hds).
  unfold dec_batch, batch_json. rewrite dec_struct_print by done. rewrite map_app, foldl_app.
  cbn [map fst snd foldl].
  set (cur := mkDecisionBatch (to_valid_utf8 (sh_revision sh)) [] 0 [] [] "").
  assert (dec_field batch_fields (Some zero_batch) (to_valid_utf8 "bundle_revision", json_print (JStr (sh_revision sh))) = Some cur) as ->.
  { transitivity (x ← dec_string (json_print (JStr (sh_revision sh))) ""; Some (mkDecisionBatch x [] 0 [] [] "")); [reflexivity|].
    by rewrite dec_string_print. }
  assert (mapM (λ v, dec_decision (json_print v) zero_decision) vs = mapM (λ q, dec_decision (q_raw q) zero_decision) (sh_batch sh)) as Em.
  { clear -Hvs. induction Hvs as [|q v l vs (Hq & _) _ IH]; [done|]. simpl. by rewrite Hq, IH. }
  assert (dec_field batch_fields (Some cur) (to_valid_utf8 "decisions", json_print (JArr vs)) =
    ds ← mapM (λ q, dec_decision (q_raw q) zero_decision) (sh_batch sh);
    Some (mkDecisionBatch (BundleRevision cur) ds 0 [] [] "")) as ->.
  { rewrite <-Em, <-(dec_slice_print dec_decision zero_decision vs) by (done || lia). done. }
  destruct (mapM _ (sh_batch sh)) as [ds|]; cbn [mbind option_bind]; [|by rewrite foldl_dec_None]. intros H.
  enough ((BundleRevision b, Decisions b) = (BundleRevision cur, ds)) as [= -> ->] by done.
  apply (dec_printed_other (λ b, (BundleRevision b, Decisions b))) in H; [done|]. unfold loss_fields, batch_fields.
  repeat (apply Forall_cons; split); [intros Hin; exfalso; revert Hin; case_decide; apply (bool_decide_unpack _); vm_compute; reflexivity..
    |intros _; by apply keeps_part|intros _; by apply keeps_part|intros _; by apply keeps_part|intros _; by apply keeps_part|done].
Qed.

(** ** A decision as the control plane reads it *)

Lemma response_decoded r cur x :
  dec_response (json_print (response_json r)) cur = Some x → resp_decision x = resp_decision r.
Proof.
  pose proof (response_json_wf r) as Hwf. pose proof (response_json_depth r) as Hd.
  unfold dec_response, response_json in *. rewrite dec_struct_print by (done || unfold maxNestingDepth; lia).
  rewrite map_app, foldl_app. cbn [map fst snd foldl].
  assert (dec_field response_fields (Some cur) (to_valid_utf8 "decision", json_print (JBool (resp_decision r))) =
    Some (mkEvalResponse (resp_decision r) (resp_context cur) (resp_reasons cur))) as -> by by destruct (resp_decision r).
  intros H. apply (dec_printed_other resp_decision) in H; [done|]. unfold response_fields.
  assert (∀ b l, "decision" ∉ (λ k, fold_name (to_valid_utf8 k)) <$> (omit_empty b ("reasons", strings_json l)).*1) as Ho
    by (intros [] l; apply (bool_decide_unpack _); vm_compute; reflexivity).
  repeat (apply Forall_cons; split); [|intros _; by apply keeps_part|intros _; by apply keeps_part|done].
  intros Hin. exfalso. rewrite !fmap_app in Hin. apply elem_of_app in Hin as [Hin|Hin].
  - revert Hin. destruct (resp_context r); apply (bool_decide_unpack _); vm_compute; reflexivity.
  - by apply Ho in Hin.
Qed.

Lemma decision_decoded d j ld :
  decision_json d = Some j → shallow (dRequest d) → dec_decision (json_print j) zero_decision = Some ld →
  ld_id ld = to_valid_utf8 (dID d) ∧ resp_decision (ld_response ld) = resp_decision (dResponse d).
Proof.
  intros Hj Hs. destruct (decision_json_ok d j Hj Hs) as [Hwf Hd]. unfold decision_json in Hj.
  destruct (json_of_time _) as [at_|]; [|done]. cbn [mbind option_bind] in Hj.
  destruct (request_json _) as [req|]; [|done]. injection Hj as <-.
  pose (front := omit_empty (bool_decide (dRequestID d = "")) ("request_id", JStr (dRequestID d)) ++
    omit_empty (bool_decide (dRequestIDSHA256 d = "")) ("request_id_sha256", JStr (dRequestIDSHA256 d)) ++ [("request", req)]).
  pose (resp := ("response", response_json (dResponse d))).
  pose (l := ("id", JStr (dID d)) :: (("decided_at", at_) :: front) ++ [resp]).
  match goal with |- dec_decision (json_print (JObj ?k)) _ = _ → _ => assert (k = l) as Hl end.
  { subst l front. by destruct (bool_decide _), (bool_decide _). }
  rewrite Hl in *. clear Hl.
  unfold dec_decision. rewrite dec_struct_print by (done || lia).
  set (text := λ kv : string * json, (to_valid_utf8 kv.1, json_print kv.2)). intros H. split.
  - unfold l in H. change (map text (?a :: ?k)) with (text a :: map text k) in H. cbn [foldl] in H.
    assert (dec_field decision_fields (Some zero_decision) (text ("id", JStr (dID d))) =
      Some (mkLocalDecision (to_valid_utf8 (dID d)) zero_time "" "" zero_request zero_response)) as E.
    { transitivity (x ← dec_string (json_print (JStr (dID d))) ""; Some (mkLocalDecision x zero_time "" "" zero_request zero_response));
        [reflexivity|]. by rewrite dec_string_print. }
    rewrite E in H. apply (dec_printed_other ld_id) in H; [done|]. unfold decision_fields.
    repeat (apply Forall_cons; split); [|intros _; by apply keeps_part..|done].
    intros Hin. exfalso. revert Hin. unfold front. destruct (bool_decide _), (bool_decide _); apply (bool_decide_unpack _); vm_compute; reflexivity.
  - assert (l = (("id", JStr (dID d)) :: ("decided_at", at_) :: front) ++ [resp]) as -> by done.
    rewrite map_app, foldl_app in H. destruct (foldl _ (Some zero_decision) _) as [c|]; [|by rewrite foldl_dec_None in H].
    change (foldl _ _ (map text [resp])) with (dec_field decision_fields (Some c) (text resp)) in H.
    assert (dec_field decision_fields (Some c) (text resp) =
      x ← dec_response (json_print (response_json (dResponse d))) (ld_response c);
      Some (mkLocalDecision (ld_id c) (ld_decided_at c) (ld_request_id c) (ld_request_id_sha256 c) (ld_request c) x)) as E by reflexivity.
    rewrite E in H. destruct (dec_response _ _) as [x|] eqn:Ex; [|done]. injection H as <-. by apply response_decoded in Ex.
Qed.

(** ** The system *)

(** A handler that recorded [rp] as the agent reads it; an answer that was
    cut short is not [readable]. *)
Definition answer_of (readable : bool) (rp : reply) : answer :=
  Answer (rp_code rp) readable (if readable then default 0%Z (rp_recorded rp) else 0%Z).

Section fleet.
Context {spf : Spiffe} {cdr : Cedar} {ecd : Ecdsa} (srv : Server) (agent : string).

Record System := mkSystem {
  sys_node : Node;
  sys_store : Store;
}.

(** The chain has the decision, as the control plane decoded it. *)
Definition chained (q : queued) (d : DB) : Prop :=
  ∃ ld, dec_decision (q_raw q) zero_decision = Some ld ∧ recorded_in agent (q_revision q) d ld.

Inductive system_step (y : System) : System → Prop :=
(* The node by itself: no answer acknowledges anything. *)
| sys_alone n' :
    node_step (sys_node y) n' → acked n' = acked (sys_node y) → system_step y (mkSystem n' (sys_store y))
(* Others write to the store; the keys of the agent's decisions are its own. *)
| sys_others s' : store_write (sys_store y) s' → system_step y (mkSystem (sys_node y) s')
| sys_others_once now key ev q :
    clock_ok now → other_event ev → ¬ decision_keys agent key →
    system_step y (mkSystem (sys_node y) (AppendAuditOnce now key ev (sys_store y, q)).2.1)
(* The control plane handles the shipment on its way, and the answer is lost. *)
| sys_deliver sh text now broken q :
    nd_ship (sys_node y) = Some sh → body sh = Some text → (∀ i, clock_ok (now i)) →
    system_step y (mkSystem (sys_node y) (recordDecisions srv now broken agent text (sys_store y, q)).2.1)
(* Or the answer comes back. *)
| sys_answer sh text now broken q rp s' q' now' rnd readable :
    nd_ship (sys_node y) = Some sh → body sh = Some text → (∀ i, clock_ok (now i)) →
    recordDecisions srv now broken agent text (sys_store y, q) = (Ok rp, (s', q')) →
    system_step y (mkSystem
      (mkNode (set_queue (outcome_queue (settle now' rnd sh (answer_of readable rp) (nd_queue (sys_node y)))) (nd_pdp (sys_node y)))
         (nd_disk (sys_node y)) None (made (sys_node y)) (answered (sys_node y))
         (acked (sys_node y) ++ acked_by sh (answer_of readable rp))
         (lost (sys_node y) ++ drop (length (droppedIDs (nd_queue (sys_node y))))
            (droppedIDs (outcome_queue (settle now' rnd sh (answer_of readable rp) (nd_queue (sys_node y))))))) s').

(** *** The invariant *)

(** The events of the decisions the agent has made. *)
Definition own (l : list queued) (id : string) (ev : AuditEvent) : Prop :=
  ∃ q ld, q ∈ l ∧ q_id q = id ∧ dec_decision (q_raw q) zero_decision = Some ld ∧
    decision_event agent (q_revision q) ld = Some ev.

Lemma NoDup_ids l q q' : NoDup (q_id <$> l) → q ∈ l → q' ∈ l → q_id q = q_id q' → q = q'.
Proof.
  intros Hnd Hq Hq' E. induction l as [|x l IH]; [by apply not_elem_of_nil in Hq|].
  apply NoDup_cons in Hnd as [Hx Hnd]. apply elem_of_cons in Hq as [->|Hq], Hq' as [->|Hq']; [done|..|by apply IH];
    exfalso; apply Hx; [rewrite E|rewrite <-E]; by apply list_elem_of_fmap_2.
Qed.

Lemma own_fun l id ev ev' : NoDup (q_id <$> l) → own l id ev → own l id ev' → ev = ev'.
Proof.
  intros Hnd (q & ld & Hq & Hid & Hd & He) (q' & ld' & Hq' & Hid' & Hd' & He').
  rewrite (NoDup_ids l q q') in Hd, He by congruence. congruence.
Qed.

Lemma once_true_mono l l' d : l ⊆ l' → once_true agent (own l) d → once_true agent (own l') d.
Proof.
  intros Hs Ht id r Hr. destruct (Ht id r Hr) as (ev & (q & ld & Hq & H) & Hin). exists ev. split; [|done].
  exists q, ld. split; [by apply Hs|done].
Qed.

(** A shipment carries the revision of each of its decisions. *)
Definition ship_revision (n : Node) : Prop :=
  ∀ sh, nd_ship n = Some sh → Forall (λ q, q_revision q = sh_revision sh) (sh_batch sh).

Record system_ok (y : System) : Prop := {
  so_node : node_ok (sys_node y);
  so_store : store_ok (sys_store y);
  so_ids : ∀ q ld, q ∈ made (sys_node y) → dec_decision (q_raw q) zero_decision = Some ld → ld_id ld = q_id q;
  so_ship : ship_revision (sys_node y);
  so_once : once_true agent (own (made (sys_node y))) (db (sys_store y));
  so_acked : Forall (λ q, chained q (db (sys_store y))) (acked (sys_node y));
}.

Lemma chained_prefix q d d' : audit_log d `prefix_of` audit_log d' → chained q d → chained q d'.
Proof. intros Hp (ld & Hd & ev & He & Hin). exists ld. split; [done|]. exists ev. split; [done|]. by eapply in_chain_prefix. Qed.

(** What others do to the store. *)
Lemma system_ok_store y s' :
  system_ok y → store_ok s' → kept (decision_keys agent) (db (sys_store y)) (db s') → system_ok (mkSystem (sys_node y) s').
Proof.
  intros [Hn Hs Hids Hship Honce Hack] Hs' Hk. split; try done; cbn [sys_node sys_store].
  - by eapply once_true_kept.
  - eapply Forall_impl; [exact Hack|]. intros q. apply chained_prefix, Hk.
Qed.

Lemma node_made n n' :
  node_step n n' →
  made n' = made n ∨ ∃ now now' rnd req requestID resp q, make_decision now now' rnd req requestID (nd_pdp n) = Ok (resp, q) ∧
    shallow req ∧ made n' = made n ++ [q].
Proof. intros []; try by left. right. eauto 20. Qed.

Lemma made_decoded now now' rnd req requestID p resp q ld :
  make_decision now now' rnd req requestID p = Ok (resp, q) → shallow req → dec_decision (q_raw q) zero_decision = Some ld →
  ld_id ld = q_id q ∧ resp_decision (ld_response ld) = resp_decision resp.
Proof.
  unfold make_decision. destruct (EvaluateRevision _ _ _) as [[resp' rev]|]; [|done].
  destruct (RequestIDForAudit requestID) as [plain digest]. destruct (decision_json _) as [j|] eqn:Ej; [|done].
  intros [= <- <-] Hs Hd. destruct (decision_decoded _ _ _ Ej Hs Hd) as [-> ->]. split; [|done].
  apply ascii_valid, hex_encode_ascii.
Qed.

Lemma batch_len_revision limit rev n size l :
  Forall (λ q, q_revision q = rev) (take (batch_len limit rev n size l) l).
Proof.
  revert n size. induction l as [|q l IH]; intros n size; [by constructor|]. cbn [batch_len]. case_decide as H; [|constructor].
  constructor; [apply H|apply IH].
Qed.

Lemma plan_revision q sh : plan q = Some sh → Forall (λ x, q_revision x = sh_revision sh) (sh_batch sh).
Proof.
  unfold plan. case_decide; [done|]. intros [= <-]. cbn [sh_batch sh_revision]. case_decide; [apply batch_len_revision|constructor].
Qed.

Lemma node_ship_revision n n' : node_step n n' → ship_revision n → ship_revision n'.
Proof. intros [] Hr sh'; try apply Hr; try done. intros [= <-]. by eapply plan_revision. Qed.

Lemma system_ok_alone y n' :
  system_ok y → node_step (sys_node y) n' → acked n' = acked (sys_node y) → system_ok (mkSystem n' (sys_store y)).
Proof.
  intros [Hn Hs Hids Hship Honce Hack] Hst Ha. destruct (node_made _ _ Hst) as [Hm|(now & now' & rnd & req & rid & resp & q & Hmk & Hsh & Hm)].
  - split; cbn [sys_node sys_store]; rewrite ?Hm, ?Ha; try done; [by eapply node_step_ok|by eapply node_ship_revision].
  - split; cbn [sys_node sys_store]; rewrite ?Hm, ?Ha; try done; [by eapply node_step_ok| |by eapply node_ship_revision|].
    + intros x ld [Hx|Hx]%elem_of_app; [by apply Hids|]. apply list_elem_of_singleton in Hx as ->.
      intros Hd. by destruct (made_decoded _ _ _ _ _ _ _ _ _ Hmk Hsh Hd).
    + eapply once_true_mono; [|exact Honce]. intros x Hx. apply elem_of_app. by left.
Qed.

(** What the control plane reads of a shipment are decisions the agent has
    made, in order. *)
Lemma shipment_decoded y sh text broken raw b :
  system_ok y → nd_ship (sys_node y) = Some sh → body sh = Some text →
  body_value maxJSONBodyBytes broken text = Ok raw → dec_batch raw zero_batch = Some b →
  Forall2 (λ q ld, q ∈ made (sys_node y) ∧ dec_decision (q_raw q) zero_decision = Some ld ∧ q_revision q = BundleRevision b)
    (sh_batch sh) (Decisions b).
Proof.
  intros [Hn _ _ Hrev _ _] Hsh Hbody Hval Hdec.
  destruct (no_ship _ Hn sh Hsh) as (Hb & _ & _). specialize (Hrev sh Hsh).
  assert (sh_batch sh ⊆ made (sys_node y)) as Hmade.
  { intros q Hq. rewrite Hb in Hq. apply (no_pending _ Hn). rewrite <-(take_drop (length (sh_batch sh))). apply elem_of_app. by left. }
  assert (Forall queued_ok (sh_batch sh)) as Hok by (by eapply Forall_subseteq, (no_made _ Hn)).
  destruct (body_print sh text Hok Hbody) as (vs & Hvs & ->). destruct (batch_json_ok sh _ _ Hvs) as (Hwf & Hd & _).
  unfold batch_json in Hval. rewrite body_value_print in Hval by done. case_decide; [|done]. injection Hval as <-.
  destruct (batch_decoded sh vs b Hvs Hdec) as [Hr Hds]. apply mapM_Some in Hds.
  rewrite Hr. clear -Hds Hok Hrev Hmade. revert Hmade.
  induction Hds as [|q ld l ds Hq _ IH]; intros Hmade; constructor.
  - apply Forall_cons in Hok as [Hq' _], Hrev as [Hr _]. split_and!; [apply Hmade; by left|done|].
    rewrite <-Hr. symmetry. apply Hq'.
  - apply Forall_cons in Hok as [_ Hok], Hrev as [_ Hrev]. apply IH; [done..|]. intros x Hx. apply Hmade. by right.
Qed.

Lemma system_ok_deliver y sh text now broken q :
  system_ok y → nd_ship (sys_node y) = Some sh → body sh = Some text → (∀ i, clock_ok (now i)) →
  ∃ rp s' q', recordDecisions srv now broken agent text (sys_store y, q) = (Ok rp, (s', q')) ∧
    system_ok (mkSystem (sys_node y) s') ∧ ∀ readable, Forall (λ x, chained x (db s')) (acked_by sh (answer_of readable rp)).
Proof.
  intros Hy Hsh Hbody Hclk. pose proof Hy as [Hn Hs Hids Hship Honce Hack].
  destruct (recordDecisions_spec srv agent (own (made (sys_node y))) (λ _ _ _, own_fun _ _ _ _ (no_ids _ Hn)) now broken text
    (sys_store y) q) as (rp & s' & q' & Hrun & Hok' & Ht' & Hl & Hrp); [apply Hs|done|done| |].
  { intros raw b Hv Hd. pose proof (shipment_decoded y sh text broken raw b Hy Hsh Hbody Hv Hd) as H2.
    induction H2 as [|x ld l ds (Hx & Hxd & Hr) _ IH]; constructor; [|done]. intros ev Hev. exists x, ld.
    split_and!; [done|symmetry; by apply Hids|done|by rewrite Hr]. }
  exists rp, s', q'. split; [done|]. split.
  - split; try done; cbn [sys_node sys_store].
    + pose proof (recordDecisions_steps srv now broken agent text (sys_store y) q Hclk) as Hst. rewrite Hrun in Hst.
      cbn [fst snd] in Hst. clear -Hst Hs. induction Hst as [|? ? ? H _ IH]; [done|]. apply IH. by eapply store_step_ok.
    + eapply Forall_impl; [exact Hack|]. intros x. by apply chained_prefix.
  - intros readable. unfold answer_of. cbn [acked_by].
    destruct Hrp as [[Hc Hr]|(raw & b & k & Hv & Hd & Hk & Hrec & Hrp)].
    { rewrite decide_False by done. rewrite Hr. by destruct readable. }
    pose proof (shipment_decoded y sh text broken raw b Hy Hsh Hbody Hv Hd) as H2.
    assert (∀ j, j ≤ k → Forall (λ x, chained x (db s')) (take j (sh_batch sh))) as Htake.
    { intros j Hj. clear -H2 Hrec Hj. revert k j Hrec Hj. induction H2 as [|x ld l ds (_ & Hxd & Hr) _ IH]; intros k j Hrec Hj;
        [by rewrite take_nil|]. destruct j as [|j]; [constructor|]. destruct k as [|k]; [lia|]. simpl in Hrec |- *.
      apply Forall_cons in Hrec as [Hx Hrec]. constructor; [|by apply (IH k); [|lia]]. exists ld. by rewrite Hr. }
    pose proof (Forall2_length _ _ _ H2) as Hlen. destruct Hrp as [[Hc Hkl]|[Hc Hrl]].
    + rewrite decide_True by done. rewrite <-(take_ge (sh_batch sh) k) by lia. by apply Htake.
    + rewrite decide_False by (rewrite Hc; done). destruct readable; [|done]. cbn [andb]. case_bool_decide; [|constructor].
      apply Htake. lia.
Qed.

Lemma system_step_ok y y' : system_ok y → system_step y y' → system_ok y'.
Proof.
  intros Hy Hst. destruct Hst as [n' Hn Ha|s' Hw|now key ev q Hc Ho Hk|sh text now broken q Hsh Hb Hc
    |sh text now broken q rp s' q' now' rnd readable Hsh Hb Hc Hrun].
  - by apply system_ok_alone.
  - apply system_ok_store; [done|by eapply store_write_ok, so_store|]. apply store_write_kept; [apply Hy|done].
  - pose proof (so_store _ Hy) as Hs. apply system_ok_store; [done|by apply append_once_store|].
    destruct (AppendAuditOnce now key ev (sys_store y, q)) as [r [s' q']] eqn:E.
    eapply AppendAuditOnce_kept; [apply Hs|done| |exact E]. intros k Hkk ->. done.
  - destruct (system_ok_deliver y sh text now broken q Hy Hsh Hb Hc) as (rp & s' & q' & -> & Hok & _). done.
  - destruct (system_ok_deliver y sh text now broken q Hy Hsh Hb Hc) as (rp2 & s2 & q2 & Hrun2 & Hok & Hack).
    rewrite Hrun in Hrun2. injection Hrun2 as <- <- <-. destruct Hok as [Hn Hs Hids Hship Honce Hacked].
    split; try done; cbn [sys_node sys_store made acked nd_ship].
    + eapply node_step_ok; [exact Hn|]. by eapply step_settle.
    + apply Forall_app. split; [done|apply Hack].
Qed.

(** A fresh agent against a store that knows none of its decisions. *)
Definition system_start (c : Config) (s : Store) : System := mkSystem (node_start c) s.

Lemma system_start_ok c s :
  store_ok s → (∀ id, audit_once (db s) !! decision_key agent id = None) → system_ok (system_start c s).
Proof.
  intros Hs Hk. split; try done; cbn [system_start sys_node sys_store]; [apply node_start_ok|..].
  - by intros q ld Hq%elem_of_nil.
  - intros id r. by rewrite Hk.
Qed.

Lemma system_reach_ok c s y :
  store_ok s → (∀ id, audit_once (db s) !! decision_key agent id = None) → rtc system_step (system_start c s) y → system_ok y.
Proof.
  intros Hs Hk Hst. pose proof (system_start_ok c s Hs Hk) as Hy. revert Hy.
  induction Hst as [|x y z Hxy _ IH]; [done|]. intros Hx. apply IH. by eapply system_step_ok.
Qed.


(** The row of a decision says what the agent answered: it is of the
    kind kept for local decisions, names the agent as its actor, and is an
    allow exactly when the answer was. *)
Theorem row_says_answer now now' rnd req requestID p resp q d :
  make_decision now now' rnd req requestID p = Ok (resp, q) → shallow req → chained q d →
  ∃ r, r ∈ audit_log d ∧ ar_kind r = localDecisionKind ∧ ar_actor r = agent ∧
    ar_decision r = (if resp_decision resp then "allow" else "deny").
Proof.
  intros Hm Hs (ld & Hd & ev & He & ev' & Hrec & Hin). destruct (made_decoded _ _ _ _ _ _ _ _ _ Hm Hs Hd) as [_ Hr].
  unfold decision_event in He. destruct (decision_payload _ _); [|done]. injection He as <-. destruct Hrec as [Hk Ha _ Hdc _].
  exists (event_row ev'). split; [done|]. cbn [event_row ar_kind ar_actor ar_decision]. rewrite Hk, Ha, Hdc. cbn. by rewrite Hr.
Qed.

End fleet.

(** *** Witnesses *)

#[local] Existing Instance Toy.cedar.
#[local] Existing Instance Toy.spiffe.
#[local] Existing Instance toy_ecdsa.

Definition demo_agent : string := "spiffe://td/agents/n1".
Definition demo_server : Server := mkServer true ["spiffe://td/agents/"] [] "td" false (mkUIProxyConfig [] "" 0).

Definition demo_ship : shipment :=
  match plan (nd_queue demo_answered) with Some sh => sh | None => mkShipment "" [] [] [] "" end.
Definition demo_text : string := match body demo_ship with Some t => t | None => "" end.
#[local] Notation demo_run := (recordDecisions demo_server (λ _, 102%Z) false demo_agent demo_text (start_store, [])).

Definition demo_shipping : Node :=
  mkNode (nd_pdp demo_answered) (nd_disk demo_answered) (Some demo_ship) [demo_made.2] [demo_made.2] [] [].

Lemma demo_run_ok : demo_run.1 = Ok (mkReply 200 (Some 1%Z)).
Proof. vm_compute. reflexivity. Qed.

Lemma acked_grows (n n' : Node) : node_step n n' → acked n `prefix_of` acked n'.
Proof. intros []; try done. by apply prefix_app_r. Qed.

Lemma alone_reached n n' s :
  rtc node_step n n' → acked n' = acked n → rtc (system_step demo_server demo_agent) (mkSystem n s) (mkSystem n' s).
Proof.
  intros H. induction H as [|x y z Hxy Hyz IH]; [done|]. intros E.
  assert (∀ u v, rtc node_step u v → acked u `prefix_of` acked v) as Hp.
  { clear. intros u v Huv. induction Huv as [|a b c Hab _ IH]; [done|]. etrans; [by apply acked_grows|done]. }
  assert (acked y = acked x) as Ey.
  { pose proof (acked_grows _ _ Hxy) as H1. pose proof (Hp _ _ Hyz) as H2. rewrite E in H2. by apply (anti_symm prefix). }
  apply (rtc_l _ _ (mkSystem y s)); [by apply (sys_alone _ _ (mkSystem x s))|]. apply IH. congruence.
Qed.

(** The batch is delivered, and the answer comes back. *)
Definition demo_end : System :=
  mkSystem (mkNode (set_queue (outcome_queue (settle 103 "" demo_ship (answer_of true (mkReply 200 (Some 1%Z))) (nd_queue demo_shipping))) (nd_pdp demo_shipping))
              (nd_disk demo_shipping) None (made demo_shipping) (answered demo_shipping)
              (acked demo_shipping ++ acked_by demo_ship (answer_of true (mkReply 200 (Some 1%Z))))
              (lost demo_shipping ++ drop (length (droppedIDs (nd_queue demo_shipping)))
                 (droppedIDs (outcome_queue (settle 103 "" demo_ship (answer_of true (mkReply 200 (Some 1%Z))) (nd_queue demo_shipping))))))
    demo_run.2.1.

Lemma demo_end_reached : rtc (system_step demo_server demo_agent) (system_start demo_config start_store) demo_end.
Proof.
  etrans; [apply (alone_reached _ demo_shipping)|].
  - eapply rtc_r; [exact demo_answered_reached|]. apply (step_plan demo_answered); [done|]. unfold demo_ship.
    assert (bool_decide (is_Some (plan (nd_queue demo_answered))) = true) as [sh ->]%bool_decide_eq_true_1 by (vm_compute; reflexivity).
    done.
  - done.
  - apply rtc_once. apply (sys_answer _ _ (mkSystem demo_shipping start_store) demo_ship demo_text (λ _, 102%Z) false [] _ _ demo_run.2.2).
    + done.
    + unfold demo_text.
      assert (bool_decide (is_Some (body demo_ship)) = true) as [t ->]%bool_decide_eq_true_1 by (vm_compute; reflexivity). done.
    + intros _. split; split; vm_compute; congruence.
    + cbn [sys_store]. exact (pair_eq demo_run _ demo_run_ok).
Qed.


Lemma demo_chained : chained demo_agent demo_made.2 (db (sys_store demo_end)).
Proof.
  assert (system_ok demo_agent demo_end) as [_ _ _ _ _ Hack].
  { apply (system_reach_ok demo_server demo_agent demo_config start_store); [|done|exact demo_end_reached].
    apply new_store_ok. intros k. discriminate. }
  assert (acked (sys_node demo_end) = [demo_made.2]) as Ha by (vm_compute; reflexivity). rewrite Ha in Hack.
  exact (Forall_inv Hack).
Qed.

Lemma row_says_answer_witness :
  ∃ r, r ∈ audit_log (db (sys_store demo_end)) ∧ ar_kind r = localDecisionKind ∧ ar_actor r = demo_agent ∧ ar_decision r = "deny".
Proof.
  assert (is_ok (make_decision 101 101 "0123456789abcdef" read_request "" (nd_pdp demo_reserved)) = true) as Hok by (vm_compute; reflexivity).
  assert (resp_decision demo_made.1 = false) as Hd by (vm_compute; reflexivity).
  destruct (row_says_answer demo_agent 101 101 "0123456789abcdef" read_request "" (nd_pdp demo_reserved) demo_made.1 demo_made.2
    (db (sys_store demo_end))) as (r & Hr).
  - rewrite <-surjective_pairing. apply get_ok_eq, Hok.
  - apply (bool_decide_unpack _). vm_compute. reflexivity.
  - exact demo_chained.
  - exists r. rewrite Hd in Hr. exact Hr.
Defined.
