(* ===== verification/Pem.v ===== *)
(** * Pem

    PEM text as Go's [encoding/pem] writes it, and the certificates and
    private keys of [crypto/x509] inside it. [EncodeToMemory] is written
    out; reading a block back ([pem.Decode]) and the ASN.1 of certificates
    and keys are interfaces, with what their documentation promises as
    laws. [Blocks] is a decoder of the text [EncodeToMemory] writes, which
    shows that the laws of [PemLaws] can hold. *)
From S2P Require Import Prelude Base64.

(** ** Standard base64, in lines *)

Fixpoint string_map (f : ascii → ascii) (s : string) : string :=
  match s with
  | "" => ""
  | String a s' => String (f a) (string_map f s')
  end.

(** The last two digits of the standard alphabet, where the URL alphabet
    has a dash and an underscore. *)
Definition std_digit (a : ascii) : ascii :=
  if decide (a = "-"%char) then "+"%char else if decide (a = "_"%char) then "/"%char else a.

Definition url_digit (a : ascii) : ascii :=
  if decide (a = "+"%char) then "-"%char else if decide (a = "/"%char) then "_"%char else a.

(** [base64.StdEncoding]: the text is padded to whole groups of four. *)
Definition std_encode (s : string) : string :=
  let e := b64_encode s in
  string_map std_digit e +:+
  match String.length e mod 4 with 2 => "==" | 3 => "=" | _ => "" end.

Definition nl : ascii := "010"%char.

(** The line breaker: a line is [pemLineLength] = 64 bytes, [room] of which
    are still free in the current one. *)
Fixpoint break_lines (room : nat) (s : string) : string :=
  match s with
  | "" => if decide (room = 64) then "" else String nl ""
  | String a s' =>
      match room with
      | S (S r) => String a (break_lines (S r) s')
      | _ => String a (String nl (break_lines 64 s'))
      end
  end.

(** ** Blocks *)

(** [pem.Block] without headers, which the code never sets or reads. *)
Record Block := mkBlock { bl_Type : string; bl_Bytes : string }.

Definition pem_begin (type : string) : string := "-----BEGIN " +:+ type +:+ "-----" +:+ String nl "".
Definition pem_end (type : string) : string := "-----END " +:+ type +:+ "-----" +:+ String nl "".

(** [pem.EncodeToMemory]. *)
Definition EncodeToMemory (b : Block) : string :=
  pem_begin (bl_Type b) +:+ break_lines 64 (std_encode (bl_Bytes b)) +:+ pem_end (bl_Type b).

(** [pem.Decode]: the next block and the rest of the input, or nothing. *)
Class Pem := pem_decode : string → option (Block * string).

(** A type whose BEGIN line reads back: no dash and no line end in it. *)
Definition pem_type (t : string) : bool :=
  string_forallb (λ a, bool_decide (a ≠ "-"%char) && bool_decide (a ≠ nl)) t.

Class PemLaws `{Pem} := {
  decode_encode b rest : pem_type (bl_Type b) = true → pem_decode (EncodeToMemory b +:+ rest) = Some (b, rest);
  decode_empty : pem_decode "" = None;
  decode_rest s b rest : pem_decode s = Some (b, rest) → String.length rest < String.length s
}.

(** ** Certificates and keys *)

(** An [ecdsa.PublicKey]: the size of its curve and its SEC 1 point. *)
Record EcdsaPublicKey := mkEcdsa { ec_bits : Z; ec_point : string }.

#[global] Instance EcdsaPublicKey_eq_dec : EqDecision EcdsaPublicKey.
Proof. solve_decision. Defined.

(** The fields of [x509.Certificate] the code reads. [PublicKey] is [None]
    when the key is not an ECDSA key. *)
Record Certificate := mkCertificate {
  Raw : string;
  Subject : string;
  IsCA : bool;
  NotAfter : Z;
  PublicKey : option EcdsaPublicKey
}.

#[global] Instance Certificate_eq_dec : EqDecision Certificate.
Proof. solve_decision. Defined.

(** [crypto/x509] and [crypto/ecdsa]. [Public] is the ECDSA public key of a
    private key that is a [crypto.Signer]; [SelfSigned key serial now] is
    the certificate [x509.CreateCertificate] makes of the template of
    [generateCA]. *)
Class X509 := {
  PrivateKey : Type;
  ParseCertificate : string → option Certificate;
  ParsePKCS8PrivateKey : string → option PrivateKey;
  IsSigner : PrivateKey → bool;
  Public : PrivateKey → option EcdsaPublicKey;
  MarshalPKCS8PrivateKey : PrivateKey → string;
  SelfSigned : PrivateKey → Z → Z → string
}.

(** A certificate's [Raw] is the DER text it was parsed from, a key reads
    back from its PKCS #8 form, an ECDSA key signs, and a self-signed
    certificate carries the public key of the key that signed it. *)
Class X509Laws `{X509} := {
  parse_raw der c : ParseCertificate der = Some c → Raw c = der;
  parse_key k : ParsePKCS8PrivateKey (MarshalPKCS8PrivateKey k) = Some k;
  ecdsa_signs k : is_Some (Public k) → IsSigner k = true;
  self_signed k serial now : ∃ c, ParseCertificate (SelfSigned k serial now) = Some c ∧ PublicKey c = Public k ∧ IsCA c = true
}.

(** [c.Equal(d)]. *)
Definition cert_equal (c d : Certificate) : bool := bool_decide (Raw c = Raw d).

(** [pem.EncodeToMemory(&pem.Block{Type: "CERTIFICATE", Bytes: c.Raw})]. *)
Definition cert_pem (c : Certificate) : string := EncodeToMemory (mkBlock "CERTIFICATE" (Raw c)).

(** The text of several certificates, one block after the other. *)
Fixpoint certs_pem (cs : list Certificate) : string :=
  match cs with
  | [] => ""
  | c :: cs' => cert_pem c +:+ certs_pem cs'
  end.

Lemma certs_pem_app cs ds : certs_pem (cs ++ ds) = certs_pem cs +:+ certs_pem ds.
Proof. induction cs as [|c cs IH]; [done|]. simpl. by rewrite IH, string_app_assoc. Qed.

(** ** A decoder of what [EncodeToMemory] writes *)
Module Blocks.

(** The text before and after the first [p] in [s]. *)
Fixpoint cut (p s : string) : option (string * string) :=
  match cut_prefix p s with
  | Some r => Some ("", r)
  | None =>
      match s with
      | "" => None
      | String a s' => (λ '(u, v), (String a u, v)) <$> cut p s'
      end
  end.

Definition std_decode (s : string) : option string :=
  b64_decode (string_map url_digit (string_filter (λ a, negb (is_newline a) && bool_decide (a ≠ "="%char)) s)).

#[local] Instance blocks : Pem := λ s,
  r ← cut_prefix "-----BEGIN " s;
  '(type, r) ← cut ("-----" +:+ String nl "") r;
  '(body, rest) ← cut (pem_end type) r;
  data ← std_decode body;
  Some (mkBlock type data, rest).

Lemma cut_first c p u v :
  string_forallb (λ a, bool_decide (a ≠ c)) u = true → cut (String c p) (u +:+ String c p +:+ v) = Some (u, v).
Proof.
  induction u as [|a u IH]; cbn [string_forallb]; intros Hu.
  - change ("" +:+ String c p +:+ v) with (String c p +:+ v). destruct (String c p +:+ v) eqn:E; [done|].
    rewrite <-E. assert (cut_prefix (String c p) (String c p +:+ v) = Some v) as Hp by by apply cut_prefix_Some.
    rewrite E in *. cbn [cut]. by rewrite Hp.
  - apply andb_true_iff in Hu as [Ha%bool_decide_eq_true Hu]. rewrite string_app_cons. cbn [cut].
    assert (cut_prefix (String c p) (String a (u +:+ String c p +:+ v)) = None) as ->.
    { cbn [cut_prefix]. by rewrite decide_False by congruence. }
    by rewrite IH.
Qed.

Lemma cut_rest p s u v : cut p s = Some (u, v) → String.length v ≤ String.length s.
Proof.
  revert u. induction s as [|a s IH]; intros u; cbn [cut].
  - destruct (cut_prefix p "") eqn:E; [|done]. intros [= <- <-]. apply cut_prefix_Some in E.
    destruct p; [|done]. by destruct s.
  - destruct (cut_prefix p (String a s)) eqn:E.
    + intros [= <- <-]. apply cut_prefix_Some in E. rewrite E, string_length_app. lia.
    + destruct (cut p s) as [[u' v']|] eqn:E'; [|done]. intros [= <- <-]. specialize (IH _ eq_refl). simpl. lia.
Qed.

(** The digits of the URL alphabet. *)
Definition b64_digit (a : ascii) : bool := bool_decide (is_Some (b64_value a)).

Lemma b64_digit_char n : n < 64 → b64_digit (b64_char n) = true.
Proof. intros Hn. apply bool_decide_eq_true. rewrite b64_value_char by done. by eexists. Qed.

Lemma b64_encode_digits s : string_forallb b64_digit (b64_encode s) = true.
Proof.
  remember (String.length s) as n eqn:Hn. assert (String.length s ≤ n) as Hle by lia. clear Hn.
  revert s Hle. induction n as [n IH] using (well_founded_induction lt_wf); intros s Hle.
  destruct s as [|a [|b [|c s]]]; [done|..]; cbn [b64_encode].
  all: pose proof (nat_ascii_bounded a) as Ha; try pose proof (nat_ascii_bounded b) as Hb; try pose proof (nat_ascii_bounded c) as Hc.
  all: set (x := nat_of_ascii a) in *; try set (y := nat_of_ascii b) in *; try set (z := nat_of_ascii c) in *.
  all: cbn [string_forallb]; rewrite ?b64_digit_char by solve_small; cbn [andb]; try done.
  apply (IH (String.length s)); [simpl in Hle; lia|done].
Qed.

Definition text_byte (a : ascii) : bool := negb (is_newline a) && bool_decide (a ≠ "="%char).

Lemma digit_facts a :
  b64_digit a = true →
  text_byte (std_digit a) = true ∧ url_digit (std_digit a) = a ∧ std_digit a ≠ "-"%char.
Proof.
  destruct a as [[] [] [] [] [] [] [] []]; vm_compute; intros [=]; repeat split; congruence.
Qed.

Lemma string_filter_app p s t : string_filter p (s +:+ t) = string_filter p s +:+ string_filter p t.
Proof. induction s as [|a s IH]; [done|]. rewrite string_app_cons. cbn [string_filter]. rewrite IH. by destruct (p a). Qed.

Lemma string_filter_break p room s : p nl = false → string_filter p (break_lines room s) = string_filter p s.
Proof.
  intros Hnl. revert room. induction s as [|a s IH]; intros room.
  - cbn [break_lines]. case_decide; cbn [string_filter]; by rewrite ?Hnl.
  - cbn [break_lines]. destruct room as [|[|room]]; cbn [string_filter]; rewrite ?Hnl, IH; by destruct (p a).
Qed.

Lemma digits_text e :
  string_forallb b64_digit e = true →
  string_filter text_byte (string_map std_digit e) = string_map std_digit e ∧
  string_map url_digit (string_map std_digit e) = e ∧
  string_forallb (λ a, bool_decide (a ≠ "-"%char)) (string_map std_digit e) = true.
Proof.
  induction e as [|a e IH]; [done|]. cbn [string_forallb string_map string_filter].
  intros [Ha He]%andb_true_iff. destruct (digit_facts _ Ha) as (-> & -> & Hd). destruct (IH He) as (-> & -> & ->).
  by rewrite bool_decide_eq_true_2.
Qed.

Lemma std_decode_encode s : std_decode (break_lines 64 (std_encode s)) = Some s.
Proof.
  unfold std_decode, std_encode. fold text_byte. change (λ a, negb (is_newline a) && bool_decide (a ≠ "="%char)) with text_byte.
  destruct (digits_text _ (b64_encode_digits s)) as (Hf & Hu & _).
  rewrite string_filter_break, string_filter_app, Hf by done.
  assert (string_filter text_byte match String.length (b64_encode s) mod 4 with 2 => "==" | 3 => "=" | _ => "" end = "") as ->.
  { by destruct (_ mod 4) as [|[|[|[|]]]]. }
  rewrite string_app_nil_r, Hu. apply b64_decode_encode.
Qed.

Lemma forallb_break p room s : p nl = true → string_forallb p s = true → string_forallb p (break_lines room s) = true.
Proof.
  intros Hnl. revert room. induction s as [|a s IH]; intros room; cbn [break_lines string_forallb].
  - intros _. case_decide; cbn [string_forallb]; by rewrite ?Hnl.
  - intros [Ha Hs]%andb_true_iff. destruct room as [|[|room]]; cbn [string_forallb]; by rewrite ?Ha, ?Hnl, IH.
Qed.

Lemma std_encode_no_dash s : string_forallb (λ a, bool_decide (a ≠ "-"%char)) (std_encode s) = true.
Proof.
  unfold std_encode. destruct (digits_text _ (b64_encode_digits s)) as (_ & _ & H).
  rewrite string_forallb_app, H. by destruct (_ mod 4) as [|[|[|[|]]]].
Qed.

Lemma blocks_laws : @PemLaws blocks.
Proof.
  split.
  - intros [t d] rest Ht. cbn [bl_Type] in Ht. unfold EncodeToMemory, pem_begin, pem_decode, blocks. cbn [bl_Type bl_Bytes].
    rewrite !string_app_assoc.
    assert (∀ s, cut_prefix "-----BEGIN " ("-----BEGIN " +:+ s) = Some s) as -> by (intros s; by apply cut_prefix_Some).
    cbn [mbind option_bind].
    rewrite <-(string_app_assoc "-----" (String nl "")).
    change ("-----" +:+ String nl "") with (String "-" ("----" +:+ String nl "")).
    rewrite (cut_first "-"%char) by (eapply string_forallb_impl, Ht; intros a [? _]%andb_true_iff; done).
    cbn [mbind option_bind].
    change (pem_end t) with (String "-" ("----END " +:+ t +:+ "-----" +:+ String nl "")). rewrite (cut_first "-"%char).
    2: { apply forallb_break; [done|apply std_encode_no_dash]. }
    cbn [mbind option_bind]. by rewrite std_decode_encode.
  - done.
  - intros s b rest. unfold pem_decode, blocks.
    destruct (cut_prefix "-----BEGIN " s) as [r|] eqn:E; [|done]. cbn [mbind option_bind].
    destruct (cut ("-----" +:+ String nl "") r) as [[t r2]|] eqn:E2; [|done]. cbn [mbind option_bind].
    destruct (cut (pem_end t) r2) as [[body rest2]|] eqn:E3; [|done]. cbn [mbind option_bind].
    destruct (std_decode body); [|done]. cbn [mbind option_bind]. intros [= <- <-].
    apply cut_prefix_Some in E as ->. apply cut_rest in E2. apply cut_rest in E3.
    rewrite string_length_app. simpl. lia.
Qed.

End Blocks.

(** ** Certificates that name their key *)
Module NamedKeys.

(** A private key is a name, its certificate a text that names it. *)
#[local] Instance named : X509 := {|
  PrivateKey := string;
  ParseCertificate der :=
    (λ k, mkCertificate der ("CN=" +:+ k) true (4000000000 * Second) (Some (mkEcdsa 256 k))) <$> cut_prefix "CA " der;
  ParsePKCS8PrivateKey s := Some s;
  IsSigner _ := true;
  Public k := Some (mkEcdsa 256 k);
  MarshalPKCS8PrivateKey k := k;
  SelfSigned k _ _ := "CA " +:+ k
|}.

Lemma named_laws : @X509Laws named.
Proof.
  split; [|done|done|].
  - intros der c. unfold ParseCertificate, named. destruct (cut_prefix "CA " der); [|done]. by intros [= <-].
  - intros k serial now. unfold ParseCertificate, SelfSigned, named. assert (cut_prefix "CA " ("CA " +:+ k) = Some k) as -> by by apply cut_prefix_Some. cbn. eauto.
Qed.

End NamedKeys.
