(* ===== verification/Rotation.v ===== *)
(** * Rotation

    The built-in certificate authority on disk
    (src/internal/server/identity/rotation.go and the disk authority of
    authority.go): the directory of CAs, the commands prepare, activate and
    retire that rotate them, and the running server that reloads the
    directory. Every call on the file system may fail or be the one at which
    the process dies, so the theorems cover a crash at any point. *)
From S2P Require Import Prelude Crypto Base64 Json JsonParse GoValue GoTime Pem.

(** ** The directory *)

Record File := mkFile { f_data : string; f_mtime : Z }.

(** The files of the CA directory, by name. *)
Notation Dir := (gmap string File).

(** What happens to one call on the file system: it runs, it fails after
    [n] bytes, or the process dies in it after [n] bytes. [NoStat] fails
    only an [os.Stat], any other call runs. *)
Inductive fate := Fine | Fault (n : nat) | Crash (n : nat) | NoStat.

#[global] Instance fate_eq_dec : EqDecision fate.
Proof. solve_decision. Defined.

(** The errors of this file: one that [errors.Is(err, os.ErrNotExist)]
    holds of, another failure of the file system, or a refusal. *)
Inductive ca_error := ErrNotExist | ErrIO | ErrMsg (msg : string).

Inductive outcome (A : Type) := Done (r : result ca_error A) | Crashed.
Arguments Done {_} _.
Arguments Crashed {_}.

Definition Fs (A : Type) : Type := Dir * list fate → outcome A * (Dir * list fate).

#[global] Instance fs_ret : MRet Fs := λ A a w, (Done (Ok a), w).
#[global] Instance fs_bind : MBind Fs := λ A B f m w,
  match m w with
  | (Done (Ok a), w') => f a w'
  | (Done (Err e), w') => (Done (Err e), w')
  | (Crashed, w') => (Crashed, w')
  end.

Definition fs_fail {A} (e : ca_error) : Fs A := λ w, (Done (Err e), w).

(** The result with its error, for code that looks at it. *)
Definition attempt {A} (m : Fs A) : Fs (result ca_error A) := λ w,
  match m w with
  | (Done r, w') => (Done (Ok r), w')
  | (Crashed, w') => (Crashed, w')
  end.

Definition fs_lift {A} (r : result ca_error A) : Fs A := λ w, (Done r, w).

(** A call that changes the directory as [act] when it runs, and leaves
    [half n] of it when it is cut short. *)
Definition sys {A} (half : nat → Dir → Dir) (act : Dir → result ca_error A * Dir) : Fs A := λ '(d, q),
  let run := λ q', let '(r, d') := act d in (Done r, (d', q')) in
  match q with
  | Fault n :: q' => (Done (Err ErrIO), (half n d, q'))
  | Crash n :: q' => (Crashed, (half n d, q'))
  | _ :: q' => run q'
  | [] => run []
  end.

Definition whole_call (n : nat) (d : Dir) : Dir := d.

Definition present (name : string) (d : Dir) : result ca_error File :=
  match d !! name with Some f => Ok f | None => Err ErrNotExist end.

Definition ReadFile (name : string) : Fs string :=
  sys whole_call (λ d, (f ← present name d; Ok (f_data f), d)).

(** [os.Stat]: only [NoStat] and a crash keep it from answering. *)
Definition Stat (name : string) : Fs Z := λ '(d, q),
  match q with
  | NoStat :: q' => (Done (Err ErrIO), (d, q'))
  | Crash _ :: q' => (Crashed, (d, q'))
  | q => (Done (f ← present name d; Ok (f_mtime f)), (d, tail q))
  end.

Definition Rename (from to : string) : Fs () :=
  sys whole_call (λ d,
    match d !! from with
    | Some f => (Ok tt, <[to := f]> (delete from d))
    | None => (Err ErrNotExist, d)
    end).

Definition Remove (name : string) : Fs () :=
  sys whole_call (λ d,
    match d !! name with
    | Some _ => (Ok tt, delete name d)
    | None => (Err ErrNotExist, d)
    end).

(** [writeFileSync]: the data goes to a temporary file, which is synced,
    closed and renamed over [path]. *)
Definition writeFileSync (now : Z) (path data : string) : Fs () :=
  let tmp := path +:+ ".tmp" in
  sys whole_call (λ d, (Ok tt, <[tmp := mkFile "" now]> d)) ≫= λ _,
  sys (λ n d, <[tmp := mkFile (string_take n data) now]> d) (λ d, (Ok tt, <[tmp := mkFile data now]> d)) ≫= λ _,
  sys whole_call (λ d, (Ok tt, d)) ≫= λ _,
  sys whole_call (λ d, (Ok tt, d)) ≫= λ _,
  Rename tmp path.

Definition caKeyFile : string := "ca.key".
Definition caCertFile : string := "ca.crt".
Definition caNextKeyFile : string := "ca.next.key".
Definition caNextCrtFile : string := "ca.next.crt".
Definition caPrevCrtFile : string := "ca.prev.crt".
Definition caPrevSince : string := "ca.prev.since".

(** [RetireAfter]: [maxJWTTTL], 24 hours. *)
Definition RetireAfter : Z := 24 * Hour.

(** [time.Format(time.RFC3339)]: whole seconds. *)
Definition trunc_second (t : Z) : Z := (t / Second * Second)%Z.
Definition rfc3339 (t : Z) : string := format_time (trunc_second t).

Record CAInfo := mkCAInfo { ci_KeyID : string; ci_NotAfter : Z }.

Definition keyIDOf (c : Certificate) : option string :=
  match PublicKey c with
  | Some pub => if decide (ec_bits pub = 256%Z) then Some (b64_encode (string_take 8 (sha256 (ec_point pub)))) else None
  | None => None
  end.

Definition caInfo (c : Certificate) : CAInfo := mkCAInfo (default "" (keyIDOf c)) (NotAfter c).

Section Authority.
Context `{Pem} `{X509}.

(** ** Reading the directory *)

Record caState := mkCaState {
  st_cert : Certificate;
  st_key : PrivateKey;
  trusted : list Certificate;
  bundlePEM : string
}.

Definition newCAState (active : Certificate) (key : PrivateKey) (extra : list Certificate) : caState :=
  mkCaState active key (active :: extra) (certs_pem (active :: extra)).

Definition key_of (raw : string) : result ca_error PrivateKey :=
  match pem_decode raw with
  | None => Err (ErrMsg "invalid CA key PEM")
  | Some (b, _) =>
      match ParsePKCS8PrivateKey (bl_Bytes b) with
      | None => Err (ErrMsg "parse ca key")
      | Some k => if IsSigner k then Ok k else Err (ErrMsg "ca key is not a crypto.Signer")
      end
  end.

Definition cert_of (raw : string) : result ca_error Certificate :=
  match pem_decode raw with
  | None => Err (ErrMsg "invalid CA cert PEM")
  | Some (b, _) =>
      match ParseCertificate (bl_Bytes b) with
      | None => Err (ErrMsg "parse ca cert")
      | Some c => Ok c
      end
  end.

Definition readKey (name : string) : Fs PrivateKey := raw ← ReadFile name; fs_lift (key_of raw).
Definition readCert (name : string) : Fs Certificate := raw ← ReadFile name; fs_lift (cert_of raw).

Definition keyMatches (key : PrivateKey) (cert : Certificate) : bool :=
  match Public key, PublicKey cert with
  | Some a, Some b => bool_decide (a = b)
  | _, _ => false
  end.

Definition mismatch : ca_error := ErrMsg "ca.key does not match ca.crt".

(** The loop over the next and previous certificates: a missing one is
    skipped. *)
Fixpoint read_extra (names : list string) : Fs (list Certificate) :=
  match names with
  | [] => mret []
  | name :: names' =>
      attempt (readCert name) ≫= λ r,
      match r with
      | Err ErrNotExist => read_extra names'
      | Err e => fs_fail e
      | Ok c => cs ← read_extra names'; mret (c :: cs)
      end
  end.

Definition readDiskState : Fs caState :=
  key ← readKey caKeyFile;
  cert ← readCert caCertFile;
  (if keyMatches key cert then mret (cert, [caNextCrtFile; caPrevCrtFile])
   else
     attempt (readCert caNextCrtFile) ≫= λ r,
     match r with
     | Ok next => if keyMatches key next then mret (next, [caPrevCrtFile]) else fs_fail mismatch
     | Err _ => fs_fail mismatch
     end) ≫= λ '(active, names),
  extra ← read_extra names;
  mret (newCAState active key extra).

(** ** The commands *)

Definition repairActivation : Fs () :=
  key ← readKey caKeyFile;
  cert ← readCert caCertFile;
  if keyMatches key cert then mret tt
  else
    attempt (readCert caNextCrtFile) ≫= λ r,
    match r with
    | Ok next => if keyMatches key next then Rename caNextCrtFile caCertFile else fs_fail mismatch
    | Err _ => fs_fail mismatch
    end.

(** [generateCA]: [key] and [serial] are what the random source gives. *)
Definition generateCA (key : PrivateKey) (serial now : Z) (keyPath crtPath : string) : Fs Certificate :=
  let der := SelfSigned key serial now in
  match ParseCertificate der with
  | None => fs_fail (ErrMsg "parse")
  | Some cert =>
      writeFileSync now keyPath (EncodeToMemory (mkBlock "PRIVATE KEY" (MarshalPKCS8PrivateKey key))) ≫= λ _,
      writeFileSync now crtPath (EncodeToMemory (mkBlock "CERTIFICATE" der)) ≫= λ _,
      mret cert
  end.

Definition PrepareCA (key : PrivateKey) (serial now : Z) : Fs CAInfo :=
  repairActivation ≫= λ _,
  attempt (Stat caNextKeyFile) ≫= λ r,
  match r with
  | Ok _ => fs_fail (ErrMsg "a next CA is already prepared; activate it first")
  | Err _ =>
      readDiskState ≫= λ _,
      cert ← generateCA key serial now caNextKeyFile caNextCrtFile;
      mret (caInfo cert)
  end.

(** Keeping the old certificate, unless an interrupted activation already
    did. *)
Definition keep_previous (now : Z) (active : Certificate) : Fs () :=
  attempt (readCert caPrevCrtFile) ≫= λ r,
  match r with
  | Ok prev =>
      if cert_equal prev active then mret tt
      else fs_fail (ErrMsg "a previous CA is still trusted; retire it first")
  | Err ErrNotExist =>
      writeFileSync now caPrevSince (rfc3339 now) ≫= λ _,
      writeFileSync now caPrevCrtFile (cert_pem active)
  | Err e => fs_fail e
  end.

Definition ActivateCA (now : Z) : Fs CAInfo :=
  repairActivation ≫= λ _,
  attempt (Stat caNextKeyFile) ≫= λ r,
  match r with
  | Err _ => fs_fail (ErrMsg "no next CA is prepared; run prepare first")
  | Ok _ =>
      nextKey ← readKey caNextKeyFile;
      next ← readCert caNextCrtFile;
      if keyMatches nextKey next then
        active ← readCert caCertFile;
        keep_previous now active ≫= λ _,
        Rename caNextKeyFile caKeyFile ≫= λ _,
        Rename caNextCrtFile caCertFile ≫= λ _,
        mret (caInfo next)
      else fs_fail (ErrMsg "ca.next.key does not match ca.next.crt; prepare again")
  end.

Definition prevSince : Fs Z :=
  attempt (ReadFile caPrevSince) ≫= λ r,
  match r with
  | Ok raw =>
      match parse_time (TrimSpace raw) with
      | Some t => mret t
      | None => fs_fail (ErrMsg "ca.prev.since is unreadable; fix or remove it")
      end
  | Err ErrNotExist => Stat caPrevCrtFile
  | Err e => fs_fail e
  end.

Definition RetireCA (force : bool) (now : Z) : Fs () :=
  repairActivation ≫= λ _,
  attempt (Stat caPrevCrtFile) ≫= λ r,
  match r with
  | Err _ => fs_fail (ErrMsg "no previous CA to retire")
  | Ok _ =>
      since ← prevSince;
      if bool_decide (0 < wrap64 (RetireAfter - TimeSub now since))%Z && negb force then
        fs_fail (ErrMsg "the previous CA was replaced too recently")
      else
        Remove caPrevCrtFile ≫= λ _,
        attempt (Remove caPrevSince) ≫= λ _,
        mret tt
  end.

Record CAStatus := mkCAStatus {
  cs_Active : CAInfo;
  cs_Next : option CAInfo;
  cs_Prev : option CAInfo;
  cs_PrevSince : Z
}.

Definition ReadCAStatus : Fs CAStatus :=
  st ← readDiskState;
  rn ← attempt (readCert caNextCrtFile);
  let next := match rn with Ok c => Some (caInfo c) | Err _ => None end in
  rp ← attempt (readCert caPrevCrtFile);
  match rp with
  | Ok c =>
      rs ← attempt prevSince;
      mret (mkCAStatus (caInfo (st_cert st)) next (Some (caInfo c)) (match rs with Ok t => t | Err _ => zero_time end))
  | Err _ => mret (mkCAStatus (caInfo (st_cert st)) next None zero_time)
  end.

(** ** The running server *)

Record localAuthority := mkLocalAuthority { la_state : caState; la_seq : Z }.

(** [loadOrCreateDisk], once the directory exists and the trust domain is
    well formed. *)
Definition loadOrCreateDisk (key : PrivateKey) (serial now : Z) : Fs localAuthority :=
  attempt (Stat caKeyFile) ≫= λ r,
  (match r with
   | Ok _ => mret tt
   | Err _ => generateCA key serial now caKeyFile caCertFile ≫= λ _, mret tt
   end) ≫= λ _,
  st ← readDiskState;
  mret (mkLocalAuthority st 1).

(** [ReloadCA]: whether the trust material changed, and the authority. *)
Definition ReloadCA (a : localAuthority) : Fs (bool * localAuthority) :=
  st ← readDiskState;
  if bool_decide (bundlePEM (la_state a) = bundlePEM st) && cert_equal (st_cert (la_state a)) (st_cert st)
  then mret (false, a)
  else mret (true, mkLocalAuthority st (wrap64 (la_seq a + 1))).

(** ** What the directory holds *)

Definition disk_key (name : string) (d : Dir) : result ca_error PrivateKey := f ← present name d; key_of (f_data f).
Definition disk_cert (name : string) (d : Dir) : result ca_error Certificate := f ← present name d; cert_of (f_data f).

(** The prepared CA: none, its key alone when prepare was interrupted, or
    both files. *)
Inductive nextCA := NoNext | KeyOnly (k : PrivateKey) | Ready (k : PrivateKey) (c : Certificate).

(** The active CA, or an activation between the move of the key and the
    move of the certificate. *)
Inductive phase :=
| Steady (k : PrivateKey) (a : Certificate) (nx : nextCA)
| Moving (k : PrivateKey) (a n : Certificate).

(** The rotation as the operator sees it: where it stands, the previous CA
    and the text of [ca.prev.since]. *)
Record rotation := mkRot { r_phase : phase; r_prev : option Certificate; r_since : option string }.

Definition holds_next (d : Dir) (a : Certificate) (nx : nextCA) : Prop :=
  match nx with
  | NoNext => d !! caNextKeyFile = None ∧ d !! caNextCrtFile = None
  | KeyOnly k => disk_key caNextKeyFile d = Ok k ∧ d !! caNextCrtFile = None ∧ keyMatches k a = false
  | Ready k n => disk_key caNextKeyFile d = Ok k ∧ disk_cert caNextCrtFile d = Ok n ∧ keyMatches k n = true ∧ keyMatches k a = false
  end.

Definition holds_prev (d : Dir) (pv : option Certificate) : Prop :=
  match pv with
  | None => d !! caPrevCrtFile = None
  | Some p => disk_cert caPrevCrtFile d = Ok p
  end.

Definition represents (d : Dir) (r : rotation) : Prop :=
  holds_prev d (r_prev r) ∧ (f_data <$> d !! caPrevSince) = r_since r ∧
  match r_phase r with
  | Steady k a nx =>
      disk_key caKeyFile d = Ok k ∧ disk_cert caCertFile d = Ok a ∧ keyMatches k a = true ∧ holds_next d a nx
  | Moving k a n =>
      disk_key caKeyFile d = Ok k ∧ disk_cert caCertFile d = Ok a ∧ keyMatches k a = false ∧
      d !! caNextKeyFile = None ∧ disk_cert caNextCrtFile d = Ok n ∧ keyMatches k n = true ∧ r_prev r = Some a
  end.

(** The CA that signs, its key, and the CAs that are trusted beside it. *)
Definition signer (r : rotation) : Certificate :=
  match r_phase r with Steady _ a _ => a | Moving _ _ n => n end.

Definition signing_key (r : rotation) : PrivateKey :=
  match r_phase r with Steady k _ _ => k | Moving k _ _ => k end.

Definition prepared (r : rotation) : nextCA :=
  match r_phase r with Steady _ _ nx => nx | Moving _ _ _ => NoNext end.

Definition beside (r : rotation) : list Certificate :=
  match r_phase r with
  | Steady _ _ (Ready _ n) => n :: option_list (r_prev r)
  | _ => option_list (r_prev r)
  end.

(** ** The commands as an abstract machine *)

Inductive command :=
| Prepare (key : PrivateKey) (serial now : Z)
| Activate (now : Z)
| Retire (force : bool) (now : Z).

Definition run_command (c : command) : Fs () :=
  match c with
  | Prepare key serial now => _ ← PrepareCA key serial now; mret tt
  | Activate now => _ ← ActivateCA now; mret tt
  | Retire force now => RetireCA force now
  end.

(** What the retire guard lets through: the recorded time, when there is
    one, lies [RetireAfter] in the past. *)
Definition may_retire (force : bool) (now : Z) (since : option string) : Prop :=
  force = true ∨ since = None ∨
  ∃ raw t, since = Some raw ∧ parse_time (TrimSpace raw) = Some t ∧ ¬ (0 < wrap64 (RetireAfter - TimeSub now t))%Z.

Inductive rot_step : command → rotation → rotation → Prop :=
| step_finish c k a n pv s :
    rot_step c (mkRot (Moving k a n) pv s) (mkRot (Steady k n NoNext) pv s)
| step_key key serial now k a pv s :
    rot_step (Prepare key serial now) (mkRot (Steady k a NoNext) pv s) (mkRot (Steady k a (KeyOnly key)) pv s)
| step_cert key serial now k a n pv s :
    ParseCertificate (SelfSigned key serial now) = Some n →
    rot_step (Prepare key serial now) (mkRot (Steady k a (KeyOnly key)) pv s) (mkRot (Steady k a (Ready key n)) pv s)
| step_since now k a k' n s :
    rot_step (Activate now) (mkRot (Steady k a (Ready k' n)) None s) (mkRot (Steady k a (Ready k' n)) None (Some (rfc3339 now)))
| step_prev now k a k' n s :
    rot_step (Activate now) (mkRot (Steady k a (Ready k' n)) None s) (mkRot (Steady k a (Ready k' n)) (Some a) s)
| step_move now k a k' n s :
    rot_step (Activate now) (mkRot (Steady k a (Ready k' n)) (Some a) s) (mkRot (Moving k' a n) (Some a) s)
| step_retire force now k a nx p s :
    may_retire force now s →
    rot_step (Retire force now) (mkRot (Steady k a nx) (Some p) s) (mkRot (Steady k a nx) None s)
| step_forget force now k a nx s :
    rot_step (Retire force now) (mkRot (Steady k a nx) None s) (mkRot (Steady k a nx) None None).

(** ** A logic of crashes *)

(** Every run of [m] from [d], in which no [os.Stat] fails, ends in [Q] when
    it returns and in [I] when the process dies in it. *)
Definition fs_wp {A} (I : Dir → Prop) (m : Fs A) (Q : result ca_error A → Dir → Prop) (d : Dir) : Prop :=
  ∀ q, NoStat ∉ q →
  match m (d, q) with
  | (Done r, (d', q')) => (NoStat ∉ q') ∧ Q r d'
  | (Crashed, (d', _)) => I d'
  end.

Section Rules.
Context (I : Dir → Prop).

Lemma fs_wp_ret {A} (a : A) Q d : Q (Ok a) d → fs_wp I (mret a) Q d.
Proof. by intros HQ q Hq. Qed.

Lemma wp_fail {A} e (Q : result ca_error A → _) d : Q (Err e) d → fs_wp I (fs_fail e) Q d.
Proof. by intros HQ q Hq. Qed.

Lemma wp_lift {A} r (Q : result ca_error A → _) d : Q r d → fs_wp I (fs_lift r) Q d.
Proof. by intros HQ q Hq. Qed.

Lemma fs_wp_mono {A} (m : Fs A) (Q Q' : result ca_error A → Dir → Prop) d :
  fs_wp I m Q d → (∀ r d', Q r d' → Q' r d') → fs_wp I m Q' d.
Proof. intros Hm HQ q Hq. specialize (Hm q Hq). destruct (m (d, q)) as [[r|] [d' q']]; [|done]. destruct Hm. auto. Qed.

Lemma fs_wp_bind {A B} (m : Fs A) (f : A → Fs B) Q d :
  fs_wp I m (λ r d', match r with Ok a => fs_wp I (f a) Q d' | Err e => Q (Err e) d' end) d → fs_wp I (m ≫= f) Q d.
Proof.
  intros Hm q Hq. specialize (Hm q Hq). unfold mbind, fs_bind.
  destruct (m (d, q)) as [[[a|e]|] [d' q']]; [|done..]. destruct Hm as [Hq' Hm]. by apply Hm.
Qed.

Lemma wp_attempt {A} (m : Fs A) Q d : fs_wp I m (λ r d', Q (Ok r) d') d → fs_wp I (attempt m) Q d.
Proof. intros Hm q Hq. specialize (Hm q Hq). unfold attempt. by destruct (m (d, q)) as [[r|] [d' q']]. Qed.

Lemma wp_sys {A} half (act : Dir → result ca_error A * Dir) (Q : result ca_error A → Dir → Prop) d :
  (∀ n, I (half n d)) → (∀ n, Q (Err ErrIO) (half n d)) → (∀ r d', act d = (r, d') → Q r d') → fs_wp I (sys half act) Q d.
Proof.
  intros HI HE HQ q Hq. unfold sys. destruct (act d) as [r d'] eqn:E.
  destruct q as [|[|n|n|] q]; [split; eauto; set_solver|..].
  - split; [set_solver|eauto].
  - split; [set_solver|apply HE].
  - apply HI.
  - by destruct Hq; left.
Qed.

Lemma wp_stat name (Q : result ca_error Z → Dir → Prop) d :
  I d → Q (f ← present name d; Ok (f_mtime f)) d → fs_wp I (Stat name) Q d.
Proof.
  intros HI HQ q Hq. unfold Stat. destruct q as [|[|n|n|] q]; simpl; try done.
  - split; [set_solver|done].
  - split; [set_solver|done].
  - by destruct Hq; left.
Qed.

Lemma wp_read name (Q : result ca_error string → Dir → Prop) d :
  I d → Q (Err ErrIO) d → Q (f ← present name d; Ok (f_data f)) d → fs_wp I (ReadFile name) Q d.
Proof. intros HI HE HQ. apply wp_sys; [done..|]. by intros r d' [= <- <-]. Qed.

Lemma wp_readKey name (Q : result ca_error PrivateKey → Dir → Prop) d :
  I d → Q (Err ErrIO) d → Q (disk_key name d) d → fs_wp I (readKey name) Q d.
Proof.
  intros HI HE HQ. apply fs_wp_bind, wp_read; [done..|]. unfold disk_key in HQ.
  destruct (present name d) as [f|e]; cbn [mbind result_bind] in *; [by apply wp_lift|done].
Qed.

Lemma wp_readCert name (Q : result ca_error Certificate → Dir → Prop) d :
  I d → Q (Err ErrIO) d → Q (disk_cert name d) d → fs_wp I (readCert name) Q d.
Proof.
  intros HI HE HQ. apply fs_wp_bind, wp_read; [done..|]. unfold disk_cert in HQ.
  destruct (present name d) as [f|e]; cbn [mbind result_bind] in *; [by apply wp_lift|done].
Qed.

(** Code that only reads: it leaves the directory and says what it read. *)
Lemma wp_readDiskState (Q : result ca_error caState → Dir → Prop) d : I d → (∀ r, Q r d) → fs_wp I readDiskState Q d.
Proof.
  intros HI HQ. apply fs_wp_bind, wp_readKey; [done..|]. destruct (disk_key caKeyFile d) as [key|e]; [|done].
  apply fs_wp_bind, wp_readCert; [done..|]. destruct (disk_cert caCertFile d) as [cert|e]; [|done].
  assert (∀ names (Q' : result ca_error (list Certificate) → Dir → Prop), (∀ r, Q' r d) → fs_wp I (read_extra names) Q' d) as Hextra.
  { induction names as [|name names IH]; intros Q' HQ'; [by apply fs_wp_ret|]. cbn [read_extra].
    apply fs_wp_bind, wp_attempt, wp_readCert; [done|by apply wp_fail|].
    destruct (disk_cert name d) as [c|[]]; try by apply wp_fail.
    - apply fs_wp_bind, IH. intros [cs|e]; [by apply fs_wp_ret|done].
    - by apply IH. }
  apply fs_wp_bind. apply (fs_wp_mono _ (λ _ d', d' = d)).
  - destruct (keyMatches key cert); [by apply fs_wp_ret|].
    apply fs_wp_bind, wp_attempt, wp_readCert; [done|by apply wp_fail|].
    destruct (disk_cert caNextCrtFile d) as [next|e]; [|by apply wp_fail].
    destruct (keyMatches key next); [by apply fs_wp_ret|by apply wp_fail].
  - intros [[active names]|e] d' ->; [|done]. apply fs_wp_bind, Hextra. intros [cs|e]; [by apply fs_wp_ret|done].
Qed.

End Rules.

(** The files the rotation is made of; a temporary file is none of them. *)
Definition core_names : list string :=
  [caKeyFile; caCertFile; caNextKeyFile; caNextCrtFile; caPrevCrtFile; caPrevSince].

Definition same_core (d d' : Dir) : Prop := ∀ name, name ∈ core_names → d !! name = d' !! name.

#[global] Instance same_core_equivalence : Equivalence same_core.
Proof.
  split.
  - by intros d name.
  - intros d d' Hd name Hn. symmetry. by apply Hd.
  - intros d1 d2 d3 H1 H2 name Hn. by rewrite H1, H2.
Qed.

#[global] Instance represents_proper : Proper (same_core ==> eq ==> iff) represents.
Proof.
  intros d d' Hd r _ <-. unfold represents, holds_prev, holds_next, disk_key, disk_cert, present.
  repeat match goal with |- context [d !! ?n] => rewrite (Hd n) by (apply (bool_decide_unpack _); done) end.
  done.
Qed.

Lemma same_core_insert d name f : name ∉ core_names → same_core d (<[name := f]> d).
Proof. intros Hn m Hm. rewrite lookup_insert_ne; [done|]. by intros ->. Qed.

Lemma same_core_other d d' path f name :
  same_core (<[path := f]> d) d' → bool_decide (name ∈ core_names) = true → name ≠ path → d' !! name = d !! name.
Proof. intros Hd Hn%bool_decide_eq_true Hp. by rewrite <-(Hd name Hn), lookup_insert_ne. Qed.

(** A write takes effect with its last step, or only touches the temporary
    file. *)
Lemma wp_write I now path data (Q : result ca_error () → Dir → Prop) d :
  path +:+ ".tmp" ∉ core_names →
  (∀ d', same_core d d' → I d') → (∀ e d', same_core d d' → Q (Err e) d') →
  (∀ d', same_core (<[path := mkFile data now]> d) d' → Q (Ok tt) d') →
  fs_wp I (writeFileSync now path data) Q d.
Proof.
  intros Ht HI HE HQ. set (tmp := path +:+ ".tmp") in *.
  assert (∀ d1 f, same_core d d1 → same_core d (<[tmp := f]> d1)) as Htmp by (intros d1 f ->; by apply same_core_insert).
  apply fs_wp_bind, wp_sys; [intros; apply HI; reflexivity|intros; apply HE; reflexivity|]. intros r d1 [= <- <-].
  apply fs_wp_bind, wp_sys; [intros; apply HI; do 2 apply Htmp; reflexivity|intros; apply HE; do 2 apply Htmp; reflexivity|]. intros r d1 [= <- <-].
  assert (same_core d (<[tmp := mkFile data now]> (<[tmp := mkFile "" now]> d))) as Hd by (do 2 apply Htmp; reflexivity).
  do 2 (apply fs_wp_bind, wp_sys; [intros; apply HI; done|intros; apply HE; done|]; intros ? ? [= <- <-]).
  apply wp_sys; [intros; apply HI; done|intros; apply HE; done|]. fold tmp. rewrite lookup_insert_eq. intros r d1 [= <- <-]. apply HQ.
  intros name Hn. destruct (decide (name = path)) as [->|Hp]; [by rewrite !lookup_insert_eq|].
  rewrite !lookup_insert_ne, lookup_delete_ne, !lookup_insert_ne by (try congruence; intros ->; done). done.
Qed.

(** ** The commands follow the machine *)

Context `{!PemLaws} `{!X509Laws}.

Definition reaches (c : command) (r : rotation) (d : Dir) : Prop := ∃ r', rtc (rot_step c) r r' ∧ represents d r'.

Lemma reaches_here c r d : represents d r → reaches c r d.
Proof. intros Hr. exists r. split; [apply rtc_refl|done]. Qed.

Lemma reaches_step c r r' d : rot_step c r r' → reaches c r' d → reaches c r d.
Proof. intros Hs (r2 & Hr & Hd). exists r2. split; [by eapply rtc_l|done]. Qed.

Lemma reaches_core c r d d' : same_core d d' → represents d r → reaches c r d'.
Proof. intros Hd Hr. apply reaches_here. by rewrite <-Hd. Qed.

Lemma disk_key_insert_ne name n f d : name ≠ n → disk_key name (<[n := f]> d) = disk_key name d.
Proof. intros Hn. unfold disk_key, present. by rewrite lookup_insert_ne. Qed.

Lemma disk_cert_insert_ne name n f d : name ≠ n → disk_cert name (<[n := f]> d) = disk_cert name d.
Proof. intros Hn. unfold disk_cert, present. by rewrite lookup_insert_ne. Qed.

Lemma disk_key_delete_ne name n d : name ≠ n → disk_key name (delete n d) = disk_key name d.
Proof. intros Hn. unfold disk_key, present. by rewrite lookup_delete_ne. Qed.

Lemma disk_cert_delete_ne name n d : name ≠ n → disk_cert name (delete n d) = disk_cert name d.
Proof. intros Hn. unfold disk_cert, present. by rewrite lookup_delete_ne. Qed.

Lemma disk_key_insert_eq name f d k : key_of (f_data f) = Ok k → disk_key name (<[name := f]> d) = Ok k.
Proof. intros Hk. unfold disk_key, present. by rewrite lookup_insert_eq. Qed.

Lemma disk_cert_insert_eq name f d c : cert_of (f_data f) = Ok c → disk_cert name (<[name := f]> d) = Ok c.
Proof. intros Hc. unfold disk_cert, present. by rewrite lookup_insert_eq. Qed.

(** What a changed directory holds. *)
Ltac dir_facts :=
  unfold represents, holds_prev, holds_next in *; cbn [r_phase r_prev r_since] in *; destruct_and?;
  repeat match goal with
  | |- _ ∧ _ => split
  | |- context [<[?a := _]> _ !! ?a] => rewrite lookup_insert_eq
  | |- context [<[_ := _]> _ !! _] => rewrite lookup_insert_ne by done
  | |- context [delete ?a _ !! ?a] => rewrite lookup_delete_eq
  | |- context [delete _ _ !! _] => rewrite lookup_delete_ne by done
  | |- context [disk_key _ (<[_ := _]> _)] => rewrite disk_key_insert_ne by done
  | |- context [disk_cert _ (<[_ := _]> _)] => rewrite disk_cert_insert_ne by done
  | |- context [disk_key _ (delete _ _)] => rewrite disk_key_delete_ne by done
  | |- context [disk_cert _ (delete _ _)] => rewrite disk_cert_delete_ne by done
  end; try done.

Lemma cert_of_written c : ParseCertificate (Raw c) = Some c → cert_of (cert_pem c) = Ok c.
Proof.
  intros Hc. unfold cert_of, cert_pem. rewrite <-(string_app_nil_r (EncodeToMemory _)), decode_encode by done. simpl. by rewrite Hc.
Qed.

Lemma key_of_written k :
  is_Some (Public k) → key_of (EncodeToMemory (mkBlock "PRIVATE KEY" (MarshalPKCS8PrivateKey k))) = Ok k.
Proof.
  intros Hk. unfold key_of. rewrite <-(string_app_nil_r (EncodeToMemory _)), decode_encode by done. simpl. by rewrite parse_key, ecdsa_signs.
Qed.

(** A certificate read from a file parses again from its own text. *)
Lemma read_cert_parses name d c : disk_cert name d = Ok c → ParseCertificate (Raw c) = Some c.
Proof.
  unfold disk_cert, cert_of. destruct (present name d) as [f|]; [|done]. cbn [mbind result_bind].
  destruct (pem_decode _) as [[b rest]|]; [|done]. destruct (ParseCertificate (bl_Bytes b)) as [c'|] eqn:E; [|done].
  intros [= ->]. by rewrite (parse_raw _ _ E).
Qed.

Lemma absent_cert name d : disk_cert name d = Err ErrNotExist → d !! name = None.
Proof.
  unfold disk_cert, present, cert_of. destruct (d !! name); [|done]. cbn [mbind result_bind].
  destruct (pem_decode _) as [[b rest]|]; [|done]. by destruct (ParseCertificate (bl_Bytes b)).
Qed.

Lemma cert_present name d c : disk_cert name d = Ok c → ∃ f, d !! name = Some f.
Proof. unfold disk_cert, present. destruct (d !! name); [eauto|done]. Qed.

Lemma key_present name d k : disk_key name d = Ok k → ∃ f, d !! name = Some f.
Proof. unfold disk_key, present. destruct (d !! name); [eauto|done]. Qed.

(** After the repair every command starts from a steady directory. *)
Lemma wp_repair c r d (Q : result ca_error () → Dir → Prop) :
  represents d r →
  (∀ e d', reaches c r d' → Q (Err e) d') →
  (∀ d', let r' := mkRot (Steady (signing_key r) (signer r) (prepared r)) (r_prev r) (r_since r) in
     represents d' r' → rtc (rot_step c) r r' → Q (Ok tt) d') →
  fs_wp (reaches c r) repairActivation Q d.
Proof.
  intros Hr HE HQ. pose proof (reaches_here c r d Hr) as Hd. destruct r as [ph pv s]. destruct Hr as (Hpv & Hs & Hph).
  cbn [r_phase r_prev r_since] in *. destruct ph as [k a nx|k a n].
  - destruct Hph as (Hk & Ha & Hm & Hnx). apply fs_wp_bind, wp_readKey; [done|by apply HE|]. rewrite Hk.
    apply fs_wp_bind, wp_readCert; [done|by apply HE|]. rewrite Ha, Hm. apply fs_wp_ret. eapply HQ; [|apply rtc_refl]. done.
  - destruct Hph as (Hk & Ha & Hm & Hnk & Hn & Hkn & ->). apply fs_wp_bind, wp_readKey; [done|by apply HE|]. rewrite Hk.
    apply fs_wp_bind, wp_readCert; [done|by apply HE|]. rewrite Ha, Hm.
    apply fs_wp_bind, wp_attempt, wp_readCert; [done|by apply wp_fail, HE|]. rewrite Hn, Hkn.
    apply wp_sys; [intros; done|intros; by apply HE|]. destruct (cert_present _ _ _ Hn) as [f Hf]. rewrite Hf.
    intros r d' [= <- <-]. apply HQ; [|by apply rtc_once, step_finish].
    unfold disk_cert, present in Hn. rewrite Hf in Hn. dir_facts. by apply disk_cert_insert_eq.
Qed.

Lemma wp_generate key serial now k a pv s r d (Q : result ca_error Certificate → Dir → Prop) :
  let c := Prepare key serial now in
  represents d (mkRot (Steady k a NoNext) pv s) → rtc (rot_step c) r (mkRot (Steady k a NoNext) pv s) →
  is_Some (Public key) → keyMatches key a = false →
  (∀ e d', reaches c r d' → Q (Err e) d') →
  (∀ n d', ParseCertificate (SelfSigned key serial now) = Some n →
     represents d' (mkRot (Steady k a (Ready key n)) pv s) → Q (Ok n) d') →
  fs_wp (reaches c r) (generateCA key serial now caNextKeyFile caNextCrtFile) Q d.
Proof.
  intros c Hd Hr Hk Hka HE HQ. unfold generateCA.
  destruct (self_signed key serial now) as (n & Hn & Hpub & _). rewrite Hn.
  set (r0 := mkRot (Steady k a NoNext) pv s) in *. set (r1 := mkRot (Steady k a (KeyOnly key)) pv s).
  set (r2 := mkRot (Steady k a (Ready key n)) pv s).
  assert (∀ d', reaches c r0 d' → reaches c r d') as Hfrom.
  { intros d' (r' & Hr' & Hd'). exists r'. split; [by etrans|done]. }
  assert (rot_step c r0 r1) as H01 by constructor. assert (rot_step c r1 r2) as H12 by by constructor.
  assert (∀ d', represents d' r1 → reaches c r d') as Hto1.
  { intros d' Hd'. by apply Hfrom, (reaches_step _ _ r1), reaches_here. }
  apply fs_wp_bind, wp_write; [by apply (bool_decide_unpack _)| | |].
  { intros d' Hd'. apply Hfrom. by eapply reaches_core. }
  { intros e d' Hd'. apply HE, Hfrom. by eapply reaches_core. }
  intros d1 Hd1.
  assert (represents d1 r1) as Hr1.
  { rewrite <-Hd1. unfold r0, r1 in *. dir_facts. by apply disk_key_insert_eq, key_of_written. }
  apply fs_wp_bind, wp_write; [by apply (bool_decide_unpack _)| | |].
  { intros d' Hd'. apply Hto1. by rewrite <-Hd'. }
  { intros e d' Hd'. apply HE, Hto1. by rewrite <-Hd'. }
  intros d2 Hd2. apply fs_wp_ret, HQ; [done|]. rewrite <-Hd2.
  assert (Raw n = SelfSigned key serial now) as Hraw by by apply parse_raw.
  assert (keyMatches key n = true) as Hkn.
  { unfold keyMatches. rewrite Hpub. destruct Hk as [p ->]. by apply bool_decide_eq_true. }
  unfold r1 in Hr1. dir_facts. apply disk_cert_insert_eq. cbn [f_data]. rewrite <-Hraw. apply cert_of_written. by rewrite Hraw.
Qed.

Lemma wp_prepare key serial now r d (Q : result ca_error CAInfo → Dir → Prop) :
  let c := Prepare key serial now in
  represents d r → is_Some (Public key) → keyMatches key (signer r) = false →
  (∀ e d', reaches c r d' → Q (Err e) d') →
  (∀ n d', let r' := mkRot (Steady (signing_key r) (signer r) (Ready key n)) (r_prev r) (r_since r) in
     ParseCertificate (SelfSigned key serial now) = Some n → represents d' r' → rtc (rot_step c) r r' → Q (Ok (caInfo n)) d') →
  fs_wp (reaches c r) (PrepareCA key serial now) Q d.
Proof.
  intros c Hd Hk Hka HE HQ. apply fs_wp_bind, wp_repair; [done|done|]. intros d1 r1 Hd1 Hr1.
  assert (reaches c r d1) as Hr by by exists r1.
  apply fs_wp_bind, wp_attempt, wp_stat; [done|]. destruct (present caNextKeyFile d1) as [f|e] eqn:Ef; [by apply wp_fail, HE|].
  cbn [mbind result_bind]. apply fs_wp_bind, wp_readDiskState; [done|]. intros [st|e']; [|by apply HE].
  assert (prepared r = NoNext) as Hnx.
  { clear -Hd1 Ef. unfold r1 in Hd1. destruct (prepared r); [done|..]; destruct Hd1 as (_ & _ & _ & _ & _ & Hk & _); unfold disk_key in Hk; by rewrite Ef in Hk. }
  unfold r1 in *. rewrite Hnx in *. apply fs_wp_bind. eapply wp_generate; [done..| |].
  - intros e' d' Hd'. by apply HE.
  - intros n d' Hn Hd'. apply fs_wp_ret, (HQ n d'); [done..|].
    etrans; [exact Hr1|]. eapply rtc_l; [apply step_key|]. by apply rtc_once, step_cert.
Qed.

Lemma reaches_from c r r1 d : rtc (rot_step c) r r1 → reaches c r1 d → reaches c r d.
Proof. intros Hr (r2 & Hr2 & Hd). exists r2. split; [by etrans|done]. Qed.

Lemma reaches_near c r r1 d d' : rtc (rot_step c) r r1 → represents d r1 → same_core d d' → reaches c r d'.
Proof. intros Hr Hd Hd'. eapply reaches_from; [done|]. by eapply reaches_core. Qed.

Lemma wp_keep_previous now k a k' n pv s r d (Q : result ca_error () → Dir → Prop) :
  let c := Activate now in
  let r1 := mkRot (Steady k a (Ready k' n)) pv s in
  represents d r1 → rtc (rot_step c) r r1 →
  (∀ e d', reaches c r d' → Q (Err e) d') →
  (∀ d' s', let r2 := mkRot (Steady k a (Ready k' n)) (Some a) s' in
     represents d' r2 → rtc (rot_step c) r r2 → (pv = None → s' = Some (rfc3339 now)) → Q (Ok tt) d') →
  fs_wp (reaches c r) (keep_previous now a) Q d.
Proof.
  intros c r1 Hd Hr HE HQ. assert (reaches c r d) as Hhere by by exists r1.
  assert (ParseCertificate (Raw a) = Some a) as Hparse by (destruct Hd as (_ & _ & _ & Ha & _); by eapply read_cert_parses).
  apply fs_wp_bind, wp_attempt, wp_readCert; [done|by apply wp_fail, HE|].
  destruct pv as [p|].
  - assert (disk_cert caPrevCrtFile d = Ok p) as -> by by destruct Hd. unfold cert_equal. case_bool_decide as Heq; [|by apply wp_fail, HE].
    apply fs_wp_ret. assert (p = a) as ->.
    { destruct Hd as (Hp & _). cbn in Hp. apply read_cert_parses in Hp. rewrite Heq, Hparse in Hp. by injection Hp. }
    by apply (HQ d s).
  - assert (disk_cert caPrevCrtFile d = Err ErrNotExist) as ->.
    { destruct Hd as (Hp & _). cbn in Hp. unfold disk_cert, present. by rewrite Hp. }
    set (r2 := mkRot (Steady k a (Ready k' n)) None (Some (rfc3339 now))).
    assert (rtc (rot_step c) r r2) as Hr2 by (eapply rtc_r; [exact Hr|constructor]).
    apply fs_wp_bind, wp_write; [by apply (bool_decide_unpack _)| | |].
    { intros d' Hd'. exact (reaches_near _ _ _ _ _ Hr Hd Hd'). }
    { intros e d' Hd'. apply HE, (reaches_near _ _ _ _ _ Hr Hd Hd'). }
    intros d1 Hd1. assert (represents d1 r2) as Hrep1 by (rewrite <-Hd1; unfold r1, r2 in *; dir_facts).
    apply wp_write; [by apply (bool_decide_unpack _)| | |].
    { intros d' Hd'. exact (reaches_near _ _ _ _ _ Hr2 Hrep1 Hd'). }
    { intros e d' Hd'. apply HE, (reaches_near _ _ _ _ _ Hr2 Hrep1 Hd'). }
    intros d2 Hd2. apply (HQ d2 (Some (rfc3339 now))); [|eapply rtc_r; [exact Hr2|constructor]|done].
    rewrite <-Hd2. unfold r2 in *. dir_facts. by apply disk_cert_insert_eq, cert_of_written.
Qed.

Lemma wp_activate now r d (Q : result ca_error CAInfo → Dir → Prop) :
  let c := Activate now in
  represents d r → (∀ e d', reaches c r d' → Q (Err e) d') →
  (∀ d' k' n s', let r' := mkRot (Steady k' n NoNext) (Some (signer r)) s' in
     represents d' r' → rtc (rot_step c) r r' → prepared r = Ready k' n → n ≠ signer r → (r_prev r = None → s' = Some (rfc3339 now)) → Q (Ok (caInfo n)) d') →
  fs_wp (reaches c r) (ActivateCA now) Q d.
Proof.
  intros c Hd HE HQ. apply fs_wp_bind, wp_repair; [done|done|]. intros d1 r1 Hd1 Hr1.
  set (k := signing_key r) in *. set (a := signer r) in *.
  assert (reaches c r d1) as Hr by by exists r1.
  apply fs_wp_bind, wp_attempt, wp_stat; [done|]. destruct (present caNextKeyFile d1) as [f|e] eqn:Ef; [|by apply wp_fail, HE].
  cbn [mbind result_bind]. apply fs_wp_bind, wp_readKey; [done|by apply HE|].
  destruct (prepared r) as [|k'|k' n].
  - destruct Hd1 as (_ & _ & _ & _ & _ & Hk & _). unfold present in Ef. by rewrite Hk in Ef.
  - assert (disk_key caNextKeyFile d1 = Ok k' ∧ d1 !! caNextCrtFile = None) as [-> Hn] by (clear -Hd1; unfold r1 in *; dir_facts).
    apply fs_wp_bind, wp_readCert; [done|by apply HE|]. unfold disk_cert, present. rewrite Hn. by apply HE.
  - assert (disk_key caNextKeyFile d1 = Ok k' ∧ disk_cert caNextCrtFile d1 = Ok n ∧ keyMatches k' n = true ∧
      disk_cert caCertFile d1 = Ok a ∧ keyMatches k' a = false) as (-> & Hn & Hm & Ha & Hka) by (clear -Hd1; unfold r1 in *; dir_facts).
    assert (n ≠ a) as Hna by (intros ->; congruence).
    apply fs_wp_bind, wp_readCert; [done|by apply HE|]. rewrite Hn, Hm.
    apply fs_wp_bind, wp_readCert; [done|by apply HE|]. rewrite Ha.
    apply fs_wp_bind, (wp_keep_previous _ _ _ _ _ _ _ _ _ _ Hd1 Hr1); [done|]. clear Hn Hm Ha. intros d2 s' r2 Hd2 Hr2 Hs'.
    assert (∃ fk, d2 !! caNextKeyFile = Some fk ∧ key_of (f_data fk) = Ok k') as (fk & Hfk & Hk).
    { destruct Hd2 as (_ & _ & _ & _ & _ & Hk & _). destruct (key_present _ _ _ Hk) as [fk Hfk]. exists fk. split; [done|].
      unfold disk_key, present in Hk. by rewrite Hfk in Hk. }
    assert (reaches c r d2) as Hto2 by by exists r2.
    apply fs_wp_bind, wp_sys; [done|intros; by apply HE|]. rewrite Hfk. intros ? d3 [= <- <-].
    set (r3 := mkRot (Moving k' a n) (Some a) s'). set (d3 := <[caKeyFile := fk]> (delete caNextKeyFile d2)).
    assert (rtc (rot_step c) r r3) as Hr3 by (eapply rtc_r; [exact Hr2|constructor]).
    assert (represents d3 r3) as Hd3 by (unfold d3, r2, r3 in *; dir_facts; by apply disk_key_insert_eq).
    assert (∃ fc, d3 !! caNextCrtFile = Some fc ∧ cert_of (f_data fc) = Ok n) as (fc & Hfc & Hc).
    { destruct Hd3 as (_ & _ & _ & _ & _ & _ & Hn & _). destruct (cert_present _ _ _ Hn) as [fc Hfc]. exists fc. split; [done|].
      unfold disk_cert, present in Hn. by rewrite Hfc in Hn. }
    assert (reaches c r d3) as Hto3 by by exists r3.
    apply fs_wp_bind, wp_sys; [done|intros; by apply HE|]. rewrite Hfc. intros ? d4 [= <- <-].
    apply fs_wp_ret, (HQ _ k' n s'); [|eapply rtc_r; [exact Hr3|constructor]|done..].
    clear -Hd3 Hc. clearbody d3. unfold r3 in *. dir_facts. by apply disk_cert_insert_eq.
Qed.

Lemma wp_prevSince I d (Q : result ca_error Z → Dir → Prop) :
  I d → (∀ e, Q (Err e) d) →
  (∀ t, (f_data <$> d !! caPrevSince) = None ∨ (∃ raw, f_data <$> d !! caPrevSince = Some raw ∧ parse_time (TrimSpace raw) = Some t) → Q (Ok t) d) →
  fs_wp I prevSince Q d.
Proof.
  intros HI HE HQ. apply fs_wp_bind, wp_attempt, wp_read; [done|by apply wp_fail, HE|]. unfold present at 1.
  destruct (d !! caPrevSince) as [f|] eqn:Ef; cbn [mbind result_bind].
  - destruct (parse_time (TrimSpace (f_data f))) as [t|] eqn:Et; [|by apply wp_fail, HE]. apply fs_wp_ret, HQ. right. by exists (f_data f).
  - apply wp_stat; [done|]. destruct (present caPrevCrtFile d); [|by apply HE]. apply HQ. by left.
Qed.

Lemma wp_retire force now r d (Q : result ca_error () → Dir → Prop) :
  let c := Retire force now in
  represents d r → (∀ e d', reaches c r d' → Q (Err e) d') →
  (∀ d' r', represents d' r' → rtc (rot_step c) r r' → r_prev r' = None → Q (Ok tt) d') →
  fs_wp (reaches c r) (RetireCA force now) Q d.
Proof.
  intros c Hd HE HQ. apply fs_wp_bind, wp_repair; [done|done|]. intros d1 r1 Hd1 Hr1.
  set (k := signing_key r) in *. set (a := signer r) in *. set (nx := prepared r) in *.
  assert (reaches c r d1) as Hr by by exists r1.
  apply fs_wp_bind, wp_attempt, wp_stat; [done|]. destruct (present caPrevCrtFile d1) as [f|e] eqn:Ef; [|by apply wp_fail, HE].
  cbn [mbind result_bind]. unfold present in Ef. destruct (d1 !! caPrevCrtFile) eqn:Ef'; [|done]. clear Ef.
  apply fs_wp_bind, wp_prevSince; [done|intros; by apply HE|]. intros t Ht.
  destruct (bool_decide _ && negb force) eqn:Eg; [by apply wp_fail, HE|].
  destruct (r_prev r) as [p|] eqn:Ep; [|destruct Hd1 as (Hp & _); cbn in Hp; by rewrite Ef' in Hp].
  assert ((f_data <$> d1 !! caPrevSince) = r_since r) as Hs by by destruct Hd1 as (_ & ? & _).
  set (r2 := mkRot (Steady k a nx) None (r_since r)).
  assert (rot_step c r1 r2) as H12.
  { unfold r1. constructor. rewrite Hs in Ht. destruct force; [by left|right]. cbn in Eg. rewrite andb_true_r in Eg.
    apply bool_decide_eq_false in Eg. destruct Ht as [Ht|(raw & Hraw & Ht)]; [by left|right; eauto]. }
  apply fs_wp_bind, wp_sys; [done|intros; by apply HE|]. rewrite Ef'. intros ? d2 [= <- <-].
  assert (rtc (rot_step c) r r2) as Hr2 by (eapply rtc_r; [exact Hr1|exact H12]).
  set (d2 := delete caPrevCrtFile d1).
  assert (represents d2 r2) as Hd2 by (clear -Hd1; unfold d2, r1, r2, nx in *; destruct (prepared r); dir_facts).
  assert (reaches c r d2) as Hto2 by by exists r2.
  apply fs_wp_bind, wp_attempt, wp_sys; [done|intros; apply fs_wp_ret; by apply (HQ d2 r2)|]. intros r' d3 E3.
  apply fs_wp_ret. destruct (d2 !! caPrevSince) eqn:Es; injection E3 as <- <-; [|by apply (HQ d2 r2)].
  apply (HQ _ (mkRot (Steady k a nx) None None)); [|eapply rtc_r; [exact Hr2|constructor]|done].
  clear -Hd2. clearbody d2. unfold r2, nx in *. destruct (prepared r); dir_facts.
Qed.

End Authority.
