(* ===== verification/RotationSafe.v ===== *)
(** * RotationSafe

    What the rotation of the built-in CA guarantees: a crash at any point of
    any command leaves a directory that loads, no CA signs before it was
    trusted, none is dropped but by retire, and the retire guard holds after
    an activation that ran to its end. And what it does not: an activation
    that is resumed keeps the time of the first attempt, and an interrupted
    prepare blocks the rotation. *)
From S2P Require Import Prelude Crypto Base64 Json JsonParse GoValue GoTime Pem Rotation.

Section Safety.
Context `{PemLaws} `{X509Laws}.

(** What a server that starts now, or is told to reload, reads. *)
Definition loads (d : Dir) (st : caState) : Prop := readDiskState (d, []) = (Done (Ok st), (d, [])).

Lemma loads_inj d st st' : loads d st → loads d st' → st = st'.
Proof. unfold loads. intros ->. by intros [= ->]. Qed.

Definition sound (d : Dir) : Prop := ∃ r, represents d r.

Definition all_trusted (r : rotation) : list Certificate := signer r :: beside r.

(** ** Runs in which no call fails *)

Lemma readKey_fine name d : readKey name (d, []) = (Done (disk_key name d), (d, [])).
Proof.
  unfold readKey, disk_key, mbind, fs_bind, ReadFile, sys. by destruct (present name d).
Qed.

Lemma readCert_fine name d : readCert name (d, []) = (Done (disk_cert name d), (d, [])).
Proof.
  unfold readCert, disk_cert, mbind, fs_bind, ReadFile, sys. by destruct (present name d).
Qed.

Lemma stat_fine name d : Stat name (d, []) = (Done (f ← present name d; Ok (f_mtime f)), (d, [])).
Proof. done. Qed.

Lemma bind_done {A B} (m : Fs A) (f : A → Fs B) w a w' : m w = (Done (Ok a), w') → (m ≫= f) w = f a w'.
Proof. intros Hm. unfold mbind, fs_bind. by rewrite Hm. Qed.

Lemma attempt_done {A} (m : Fs A) w r w' : m w = (Done r, w') → attempt m w = (Done (Ok r), w').
Proof. intros Hm. unfold attempt. by rewrite Hm. Qed.

Lemma read_extra_fine d next prev :
  (match next with None => d !! caNextCrtFile = None | Some n => disk_cert caNextCrtFile d = Ok n end) → holds_prev d prev →
  read_extra [caNextCrtFile; caPrevCrtFile] (d, []) = (Done (Ok (option_list next ++ option_list prev)), (d, [])) ∧
  read_extra [caPrevCrtFile] (d, []) = (Done (Ok (option_list prev)), (d, [])).
Proof.
  intros Hn Hp. assert (read_extra [caPrevCrtFile] (d, []) = (Done (Ok (option_list prev)), (d, []))) as Hprev.
  { cbn [read_extra]. rewrite (bind_done _ _ _ _ _ (attempt_done _ _ _ _ (readCert_fine caPrevCrtFile d))).
    destruct prev; cbn in Hp; [by rewrite Hp|]. unfold disk_cert, present. by rewrite Hp. }
  split; [|done]. change (read_extra [caNextCrtFile; caPrevCrtFile]) with
    (attempt (readCert caNextCrtFile) ≫= λ r, match r with
      | Err ErrNotExist => read_extra [caPrevCrtFile] | Err e => fs_fail e | Ok c => cs ← read_extra [caPrevCrtFile]; mret (c :: cs) end).
  rewrite (bind_done _ _ _ _ _ (attempt_done _ _ _ _ (readCert_fine caNextCrtFile d))).
  destruct next as [n|].
  - rewrite Hn. by rewrite (bind_done _ _ _ _ _ Hprev).
  - unfold disk_cert, present. by rewrite Hn.
Qed.

(** A directory that represents a rotation loads, as that rotation says. *)
Lemma represents_loads d r : represents d r → loads d (newCAState (signer r) (signing_key r) (beside r)).
Proof.
  intros (Hpv & Hs & Hph). destruct r as [ph pv s]. cbn [r_phase r_prev r_since] in *. unfold loads, readDiskState.
  destruct ph as [k a nx|k a n].
  - destruct Hph as (Hk & Ha & Hm & Hnx).
    rewrite (bind_done _ _ _ k (d, [])) by by rewrite readKey_fine, Hk.
    rewrite (bind_done _ _ _ a (d, [])) by by rewrite readCert_fine, Ha.
    rewrite Hm, (bind_done _ _ _ (a, [caNextCrtFile; caPrevCrtFile]) (d, [])) by done.
    rewrite (bind_done _ _ _ (beside (mkRot (Steady k a nx) pv s)) (d, [])); [done|].
    destruct nx as [|k'|k' n]; [apply (read_extra_fine d None pv)|apply (read_extra_fine d None pv)|apply (read_extra_fine d (Some n) pv)]; try done; apply Hnx.
  - destruct Hph as (Hk & Ha & Hm & Hnk & Hn & Hkn & Hp).
    rewrite (bind_done _ _ _ k (d, [])) by by rewrite readKey_fine, Hk.
    rewrite (bind_done _ _ _ a (d, [])) by by rewrite readCert_fine, Ha.
    rewrite Hm, (bind_done _ _ _ (n, [caPrevCrtFile]) (d, [])).
    2: { rewrite (bind_done _ _ _ _ _ (attempt_done _ _ _ _ (readCert_fine caNextCrtFile d))). by rewrite Hn, Hkn. }
    rewrite (bind_done _ _ _ (option_list pv) (d, [])); [done|].
    by apply (read_extra_fine d (Some n) pv).
Qed.

(** ** The machine is safe *)

Lemma rot_step_kept c r r' x :
  rot_step c r r' → x ∈ all_trusted r →
  x ∈ all_trusted r' ∨ (r_prev r = Some x ∧ ∃ force now, c = Retire force now ∧ may_retire force now (r_since r)).
Proof.
  intros Hs Hx. destruct Hs; unfold all_trusted, signer, beside in *; cbn [r_phase r_prev r_since option_list] in *; try set_solver.
  destruct (decide (x = p)) as [->|Hp]; [by right; eauto|]. left. destruct nx; set_solver.
Qed.

Lemma steps_kept c r r' x :
  rtc (rot_step c) r r' → x ∈ all_trusted r →
  x ∈ all_trusted r' ∨ (r_prev r = Some x ∧ ∃ force now, c = Retire force now ∧ may_retire force now (r_since r)).
Proof.
  induction 1 as [r|r r1 r' Hs _ IH]; [tauto|]. intros Hx.
  destruct (rot_step_kept _ _ _ _ Hs Hx) as [Hx1|]; [|tauto]. destruct (IH Hx1) as [|(Hp & force & now & -> & Hm)]; [tauto|].
  right. inversion Hs; subst; cbn [r_prev r_since] in *; by eauto 6.
Qed.

(** Only prepare adds a CA, and it does not make it sign. *)
Lemma rot_step_shrinks c r r' :
  (∀ key serial now, c ≠ Prepare key serial now) → rot_step c r r' → ∀ x, x ∈ all_trusted r' → x ∈ all_trusted r.
Proof.
  intros Hc Hs x. destruct Hs; unfold all_trusted, signer, beside; cbn [r_phase r_prev option_list]; try (destruct nx); try set_solver; by destruct (Hc key serial now).
Qed.

Lemma steps_shrink c r r' x :
  (∀ key serial now, c ≠ Prepare key serial now) → rtc (rot_step c) r r' → x ∈ all_trusted r' → x ∈ all_trusted r.
Proof. intros Hc. induction 1 as [|r r1 r' Hs _ IH]; [done|]. intros Hx. eapply rot_step_shrinks; eauto. Qed.

Lemma steps_signer c r r' : rtc (rot_step c) r r' → signer r' ∈ all_trusted r.
Proof.
  intros Hr. destruct c as [key serial now|now|force now].
  - assert (signer r' = signer r) as ->; [|left]. induction Hr as [|r r1 r' Hs _ IH]; [done|]. rewrite IH. by inversion Hs.
  - by eapply steps_shrink; [|done|left].
  - by eapply steps_shrink; [|done|left].
Qed.

(** ** Every command follows the machine *)

(** The key that prepare draws is an ECDSA key, and not the one in use. *)
Definition usable (c : command) (d : Dir) : Prop :=
  match c with
  | Prepare key _ _ => is_Some (Public key) ∧ ∀ st, loads d st → keyMatches key (st_cert st) = false
  | _ => True
  end.

Lemma run_command_reaches c d q r o d' q' :
  represents d r → usable c d → NoStat ∉ q → run_command c (d, q) = (o, (d', q')) → reaches c r d'.
Proof.
  intros Hd Hu Hq Hrun.
  assert (fs_wp (reaches c r) (run_command c) (λ _, reaches c r) d) as Hwp.
  { destruct c as [key serial now|now|force now]; cbn [run_command].
    - destruct Hu as [Hk Hfresh]. apply fs_wp_bind, wp_prepare; [done|done| |done|].
      + apply (Hfresh _ (represents_loads _ _ Hd)).
      + intros n d1 r1 _ Hd1 Hr1. apply fs_wp_ret. by exists r1.
    - apply fs_wp_bind, wp_activate; [done|done|]. intros d1 k n s r1 Hd1 Hr1 _ _ _. apply fs_wp_ret. by exists r1.
    - apply wp_retire; [done|done|]. intros d1 r1 Hd1 Hr1 _. by exists r1. }
  specialize (Hwp q Hq). rewrite Hrun in Hwp. by destruct o; [destruct Hwp|].
Qed.


(** C3. The directory loads before and after a command, even one that died in
    the middle; the CA that signs after it was trusted before it and holds
    the key; and a CA that was trusted still is, unless it is the previous
    one and the retire guard let it go. *)
Theorem rotation_crash_safe c d q :
  sound d → usable c d → NoStat ∉ q →
  let d' := (run_command c (d, q)).2.1 in
  sound d' ∧ ∃ st st', loads d st ∧ loads d' st' ∧
    st_cert st' ∈ trusted st ∧ keyMatches (st_key st') (st_cert st') = true ∧
    ∀ x, x ∈ trusted st → x ∈ trusted st' ∨
      (disk_cert caPrevCrtFile d = Ok x ∧ ∃ force now, c = Retire force now ∧ may_retire force now (f_data <$> d !! caPrevSince)).
Proof.
  intros [r Hd] Hu Hq d'. destruct (run_command c (d, q)) as [o [d1 q1]] eqn:Hrun. cbn in d'.
  destruct (run_command_reaches _ _ _ _ _ _ _ Hd Hu Hq Hrun) as (r' & Hr & Hd'). split; [by exists r'|].
  exists (newCAState (signer r) (signing_key r) (beside r)), (newCAState (signer r') (signing_key r') (beside r')).
  split_and!; [by apply represents_loads|by apply represents_loads|by apply steps_signer in Hr| |].
  - destruct Hd' as (_ & _ & Hph). unfold signer, signing_key. by destruct (r_phase r'); destruct_and!.
  - intros x Hx. destruct (steps_kept _ _ _ _ Hr Hx) as [|(Hp & Hret)]; [by left|right].
    destruct Hd as (Hpv & -> & _). by rewrite Hp in Hpv.
Qed.

(** ** The retire guard *)

Definition run_history (cs : list (command * list fate)) (d : Dir) : Dir :=
  foldl (λ d '(c, q), (run_command c (d, q)).2.1) d cs.

(** Commands of which [P] holds, each with a usable key, in which no
    [os.Stat] fails. *)
Fixpoint history_of (P : command → Prop) (cs : list (command * list fate)) (d : Dir) : Prop :=
  match cs with
  | [] => True
  | (c, q) :: cs' => P c ∧ usable c d ∧ (NoStat ∉ q) ∧ history_of P cs' (run_command c (d, q)).2.1
  end.

(** No retire is forced, and none comes within [RetireAfter] of the second
    of [t]. *)
Definition early (t : Z) (c : command) : Prop :=
  match c with
  | Retire force now => force = false ∧ (trunc_second t <= now < trunc_second t + RetireAfter)%Z
  | _ => True
  end.

Lemma early_kept t since now :
  json_year (trunc_second t) → since = Some (rfc3339 t) → early t (Retire false now) → ¬ may_retire false now since.
Proof.
  intros Hy -> [_ Hnow] [|[|(raw & t' & [= <-] & Ht & Hw)]]; [done..|]. apply Hw. unfold rfc3339 in Ht.
  rewrite TrimSpace_time, parse_format_time in Ht by done. injection Ht as <-.
  unfold TimeSub, RetireAfter, Hour, two63 in *. rewrite wrap64_id; [|unfold in_int64, two63; lia]. lia.
Qed.

(** After a completed activation only the previous CA's time can end it. *)
Lemma steps_after_activation t a c r r' :
  json_year (trunc_second t) → early t c →
  (∃ k n nx, r = mkRot (Steady k n nx) (Some a) (Some (rfc3339 t)) ∧ n ≠ a) → rtc (rot_step c) r r' →
  (∃ k n nx, r' = mkRot (Steady k n nx) (Some a) (Some (rfc3339 t)) ∧ n ≠ a).
Proof.
  intros Hy Hc Hr Hs. induction Hs as [|r r1 r' Hs _ IH]; [done|]. apply IH. destruct Hr as (k & n & nx & -> & Hn).
  inversion Hs; subst; try by eauto 7. destruct force; [by destruct Hc|]. by destruct (early_kept t (Some (rfc3339 t)) now).
Qed.


(** ** A rotation in which nothing fails *)

Lemma write_fine now path data d :
  path +:+ ".tmp" ∉ core_names →
  ∃ d', writeFileSync now path data (d, []) = (Done (Ok tt), (d', [])) ∧ same_core (<[path := mkFile data now]> d) d'.
Proof.
  intros Ht. set (tmp := path +:+ ".tmp") in *.
  exists (<[path := mkFile data now]> (delete tmp (<[tmp := mkFile data now]> (<[tmp := mkFile "" now]> d)))).
  split.
  - unfold writeFileSync. fold tmp. do 4 (erewrite bind_done by reflexivity). unfold Rename, sys. by rewrite lookup_insert_eq.
  - intros name Hn. destruct (decide (name = path)) as [->|Hp]; [by rewrite !lookup_insert_eq|].
    rewrite !lookup_insert_ne, lookup_delete_ne, !lookup_insert_ne by (try congruence; intros ->; done). done.
Qed.

Lemma repair_fine d k a nx pv s :
  represents d (mkRot (Steady k a nx) pv s) → repairActivation (d, []) = (Done (Ok tt), (d, [])).
Proof.
  intros (_ & _ & Hk & Ha & Hm & _). unfold repairActivation.
  rewrite (bind_done _ _ _ k (d, [])) by by rewrite readKey_fine, Hk.
  rewrite (bind_done _ _ _ a (d, [])) by by rewrite readCert_fine, Ha. by rewrite Hm.
Qed.

Lemma prepare_fine d k a pv s key serial now :
  represents d (mkRot (Steady k a NoNext) pv s) → is_Some (Public key) → keyMatches key a = false →
  ∃ n d', ParseCertificate (SelfSigned key serial now) = Some n ∧
    PrepareCA key serial now (d, []) = (Done (Ok (caInfo n)), (d', [])) ∧ represents d' (mkRot (Steady k a (Ready key n)) pv s).
Proof.
  intros Hd Hk Hka. destruct (self_signed key serial now) as (n & Hn & _ & _). exists n.
  assert (∃ d', PrepareCA key serial now (d, []) = (Done (Ok (caInfo n)), (d', []))) as [d' Hrun].
  { destruct (write_fine now caNextKeyFile (EncodeToMemory (mkBlock "PRIVATE KEY" (MarshalPKCS8PrivateKey key))) d) as (d1 & Hw1 & _).
    { by apply (bool_decide_unpack _). }
    destruct (write_fine now caNextCrtFile (EncodeToMemory (mkBlock "CERTIFICATE" (SelfSigned key serial now))) d1) as (d2 & Hw2 & _).
    { by apply (bool_decide_unpack _). }
    exists d2. unfold PrepareCA. rewrite (bind_done _ _ _ _ _ (repair_fine _ _ _ _ _ _ Hd)).
    rewrite (bind_done _ _ _ _ _ (attempt_done _ _ _ _ (stat_fine caNextKeyFile d))).
    destruct Hd as (Hpv & Hs & Hk' & Ha & Hm & Hnk & Hnc). unfold present. rewrite Hnk. cbn [mbind result_bind].
    rewrite (bind_done _ _ _ _ _ (represents_loads d (mkRot (Steady k a NoNext) pv s) ltac:(done))).
    rewrite (bind_done _ _ _ n (d2, [])); [done|]. unfold generateCA. rewrite Hn.
    by rewrite (bind_done _ _ _ _ _ Hw1), (bind_done _ _ _ _ _ Hw2). }
  exists d'. split_and!; [done..|].
  assert (fs_wp (reaches (Prepare key serial now) (mkRot (Steady k a NoNext) pv s)) (PrepareCA key serial now)
    (λ res d', is_ok res = true → represents d' (mkRot (Steady k a (Ready key n)) pv s)) d) as Hwp.
  { apply wp_prepare; [done..|by intros|]. intros n' d1 r1 Hn' Hd1 _ _. rewrite Hn in Hn'. by injection Hn' as <-. }
  specialize (Hwp [] ltac:(set_solver)). rewrite Hrun in Hwp. by apply Hwp.
Qed.

Lemma rename_fine from to d f :
  d !! from = Some f → Rename from to (d, []) = (Done (Ok tt), (<[to := f]> (delete from d), [])).
Proof. intros Hf. unfold Rename, sys. by rewrite Hf. Qed.

Lemma activate_fine d k a k' n s now :
  represents d (mkRot (Steady k a (Ready k' n)) None s) →
  ∃ d', ActivateCA now (d, []) = (Done (Ok (caInfo n)), (d', [])) ∧
    represents d' (mkRot (Steady k' n NoNext) (Some a) (Some (rfc3339 now))).
Proof.
  intros Hd. set (r := mkRot (Steady k a (Ready k' n)) None s) in *.
  assert (∃ d', ActivateCA now (d, []) = (Done (Ok (caInfo n)), (d', []))) as [d' Hrun].
  { destruct (write_fine now caPrevSince (rfc3339 now) d) as (d1 & Hw1 & Hd1); [by apply (bool_decide_unpack _)|].
    destruct (write_fine now caPrevCrtFile (cert_pem a) d1) as (d2 & Hw2 & Hd2); [by apply (bool_decide_unpack _)|].
    pose proof (repair_fine _ _ _ _ _ _ Hd) as Hrep. destruct Hd as (Hpv & Hs & Hk & Ha & Hm & Hk' & Hn & Hkn & Hka).
    destruct (key_present _ _ _ Hk') as [fk Hfk]. destruct (cert_present _ _ _ Hn) as [fc Hfc].
    assert (d2 !! caNextKeyFile = Some fk) as Hfk2.
    { by rewrite (same_core_other _ _ _ _ _ Hd2), (same_core_other _ _ _ _ _ Hd1). }
    assert (d2 !! caNextCrtFile = Some fc) as Hfc2.
    { by rewrite (same_core_other _ _ _ _ _ Hd2), (same_core_other _ _ _ _ _ Hd1). }
    eexists. unfold ActivateCA. rewrite (bind_done _ _ _ _ _ Hrep).
    rewrite (bind_done _ _ _ _ _ (attempt_done _ _ _ _ (stat_fine caNextKeyFile d))). unfold present at 1. rewrite Hfk. cbn [mbind result_bind].
    rewrite (bind_done _ _ _ k' (d, [])) by by rewrite readKey_fine, Hk'.
    rewrite (bind_done _ _ _ n (d, [])) by by rewrite readCert_fine, Hn. rewrite Hkn.
    rewrite (bind_done _ _ _ a (d, [])) by by rewrite readCert_fine, Ha.
    rewrite (bind_done _ _ _ tt (d2, [])).
    2: { unfold keep_previous. rewrite (bind_done _ _ _ _ _ (attempt_done _ _ _ _ (readCert_fine caPrevCrtFile d))).
         cbn in Hpv. unfold disk_cert, present. rewrite Hpv. cbn [mbind result_bind]. by rewrite (bind_done _ _ _ _ _ Hw1). }
    rewrite (bind_done _ _ _ _ _ (rename_fine _ caKeyFile _ _ Hfk2)).
    erewrite bind_done; [reflexivity|]. apply (rename_fine _ _ _ fc). by rewrite lookup_insert_ne, lookup_delete_ne. }
  exists d'. split; [done|].
  assert (fs_wp (reaches (Activate now) r) (ActivateCA now) (λ res d', is_ok res = true →
    represents d' (mkRot (Steady k' n NoNext) (Some a) (Some (rfc3339 now)))) d) as Hwp.
  { apply wp_activate; [done|by intros|]. intros d1 k2 n2 s2 r2 Hd2 _ [= <- <-] _ Hs2 _. by rewrite <-Hs2. }
  specialize (Hwp [] ltac:(set_solver)). rewrite Hrun in Hwp. by apply Hwp.
Qed.

Lemma retire_steady force now r r' :
  rtc (rot_step (Retire force now)) r r' → (∃ k a nx, r_phase r = Steady k a nx) → r_phase r' = r_phase r.
Proof.
  induction 1 as [|r r1 r' Hs _ IH]; [done|]. intros (k & a & nx & E). rewrite IH; inversion Hs; subst; cbn in *; by eauto.
Qed.

Lemma retire_fine d k a nx p t now :
  represents d (mkRot (Steady k a nx) (Some p) (Some (rfc3339 t))) → json_year (trunc_second t) →
  (trunc_second t + RetireAfter <= now < trunc_second t + two63)%Z →
  ∃ d' s, RetireCA false now (d, []) = (Done (Ok tt), (d', [])) ∧ represents d' (mkRot (Steady k a nx) None s).
Proof.
  intros Hd Hy Hnow. set (r := mkRot _ _ _) in *.
  assert (∃ d', RetireCA false now (d, []) = (Done (Ok tt), (d', []))) as [d' Hrun].
  { pose proof (repair_fine _ _ _ _ _ _ Hd) as Hrep. destruct Hd as (Hpv & Hs & _). change (disk_cert caPrevCrtFile d = Ok p) in Hpv. change ((f_data <$> d !! caPrevSince) = Some (rfc3339 t)) in Hs.
    destruct (cert_present _ _ _ Hpv) as [f Hf]. destruct (d !! caPrevSince) as [fs|] eqn:Efs; [|done]. injection Hs as Hs.
    eexists. unfold RetireCA. rewrite (bind_done _ _ _ _ _ Hrep).
    rewrite (bind_done _ _ _ _ _ (attempt_done _ _ _ _ (stat_fine caPrevCrtFile d))). unfold present at 1. rewrite Hf. cbn [mbind result_bind].
    rewrite (bind_done _ _ _ (trunc_second t) (d, [])).
    2: { unfold prevSince. erewrite bind_done; [|apply attempt_done; unfold ReadFile, sys, present; by rewrite Efs].
         cbn [mbind result_bind]. rewrite Hs. unfold rfc3339. by rewrite TrimSpace_time, parse_format_time. }
    rewrite bool_decide_eq_false_2; [cbn [andb]|].
    2: { unfold TimeSub, RetireAfter, Hour, two63 in *. rewrite wrap64_id; [|unfold in_int64, two63; lia]. lia. }
    erewrite bind_done; [|unfold Remove, sys; by rewrite Hf].
    erewrite bind_done; [reflexivity|]. apply attempt_done. unfold Remove, sys. by rewrite lookup_delete_ne, Efs. }
  assert (fs_wp (reaches (Retire false now) r) (RetireCA false now) (λ res d', is_ok res = true →
    ∃ s, represents d' (mkRot (Steady k a nx) None s)) d) as Hwp.
  { apply wp_retire; [done|by intros|]. intros d1 r1 Hd1 Hr1 Hp _.
    pose proof (retire_steady _ _ _ _ Hr1 ltac:(by eauto)) as Hph. destruct r1 as [ph pv s]. cbn in Hp, Hph. subst. by exists s. }
  specialize (Hwp [] ltac:(set_solver)). rewrite Hrun in Hwp. destruct Hwp as [_ Hwp]. destruct (Hwp eq_refl) as [s Hs].
  by exists d', s.
Qed.

(** C30. A rotation in which nothing fails completes: prepare, activate and,
    [RetireAfter] later, retire succeed on a directory with one CA, and the
    directory then trusts the new CA alone and signs with its key. *)
Theorem rotation_completes d k a s key serial t0 t now :
  represents d (mkRot (Steady k a NoNext) None s) → is_Some (Public key) → keyMatches key a = false →
  json_year (trunc_second t) → (trunc_second t + RetireAfter <= now < trunc_second t + two63)%Z →
  ∃ n d1 d2 d3,
    ParseCertificate (SelfSigned key serial t0) = Some n ∧
    PrepareCA key serial t0 (d, []) = (Done (Ok (caInfo n)), (d1, [])) ∧ loads d1 (newCAState a k [n]) ∧
    ActivateCA t (d1, []) = (Done (Ok (caInfo n)), (d2, [])) ∧ loads d2 (newCAState n key [a]) ∧
    RetireCA false now (d2, []) = (Done (Ok tt), (d3, [])) ∧ loads d3 (newCAState n key []).
Proof.
  intros Hd Hk Hka Hy Hnow. destruct (prepare_fine d k a None s key serial t0 Hd Hk Hka) as (n & d1 & Hn & Hp & Hd1).
  destruct (activate_fine _ _ _ _ _ _ t Hd1) as (d2 & Ha & Hd2).
  destruct (retire_fine _ _ _ _ _ _ _ Hd2 Hy Hnow) as (d3 & s3 & Hr & Hd3).
  exists n, d1, d2, d3. split_and!; try done.
  - apply (represents_loads _ _ Hd1).
  - apply (represents_loads _ _ Hd2).
  - apply (represents_loads _ _ Hd3).
Qed.

(** ** What an interruption can leave behind *)

(** C39. A prepare that died between its two files leaves a directory in which
    prepare says a CA is already prepared and activate finds no
    certificate: neither ever succeeds again, whatever the file system
    does, and neither changes the directory. *)
Theorem interrupted_prepare_blocks c d q k a k' pv s :
  represents d (mkRot (Steady k a (KeyOnly k')) pv s) → (∀ force now, c ≠ Retire force now) → NoStat ∉ q →
  let '(o, (d', _)) := run_command c (d, q) in o ≠ Done (Ok tt) ∧ d' = d.
Proof.
  intros Hd Hc Hq.
  assert (fs_wp (eq d) (run_command c) (λ res d', is_ok res = false ∧ d' = d) d) as Hwp.
  { assert (∀ Q : result ca_error () → Dir → Prop, (∀ e, Q (Err e) d) → Q (Ok tt) d → fs_wp (eq d) repairActivation Q d) as Hrepair.
    { intros Q HE HQ. destruct Hd as (_ & _ & Hk & Ha & Hm & _). apply fs_wp_bind, wp_readKey; [done|done|]. rewrite Hk.
      apply fs_wp_bind, wp_readCert; [done|done|]. rewrite Ha, Hm. by apply fs_wp_ret. }
    destruct Hd as (_ & _ & _ & _ & _ & Hk' & Hn & _). destruct (key_present _ _ _ Hk') as [f Hf].
    destruct c as [key serial now|now|force now]; [| |by destruct (Hc force now)]; cbn [run_command].
    - apply fs_wp_bind, fs_wp_bind, Hrepair; [done|]. apply fs_wp_bind, wp_attempt, wp_stat; [done|]. unfold present. rewrite Hf. by apply wp_fail.
    - apply fs_wp_bind, fs_wp_bind, Hrepair; [done|]. apply fs_wp_bind, wp_attempt, wp_stat; [done|]. unfold present. rewrite Hf.
      apply fs_wp_bind, wp_readKey; [done|done|]. rewrite Hk'. apply fs_wp_bind, wp_readCert; [done|done|].
      unfold disk_cert, present. by rewrite Hn. }
  specialize (Hwp q Hq). destruct (run_command c (d, q)) as [[r|] [d' q']]; [|by subst].
  destruct Hwp as (_ & Hr & ->). by destruct r.
Qed.

End Safety.

(** ** Examples *)

#[local] Existing Instance Blocks.blocks.
#[local] Existing Instance Blocks.blocks_laws.
#[local] Existing Instance NamedKeys.named.
#[local] Existing Instance NamedKeys.named_laws.

(** A directory that was created in 2026 and then prepared. *)
Definition demo_now : Z := 1790000000 * Second.

Definition demo_start : Dir := (loadOrCreateDisk "first" 1 demo_now (∅, [])).2.1.
Definition demo_ready : Dir := (PrepareCA "second" 2 (demo_now + Hour) (demo_start, [])).2.1.

Definition demo_cert (k : string) : Certificate := mkCertificate ("CA " +:+ k) ("CN=" +:+ k) true (4000000000 * Second) (Some (mkEcdsa 256 k)).

Lemma demo_ready_represents :
  represents demo_ready (mkRot (Steady "first" (demo_cert "first") (Ready "second" (demo_cert "second"))) None None).
Proof. vm_compute. by repeat split. Qed.

Lemma demo_start_represents :
  represents demo_start (mkRot (Steady "first" (demo_cert "first") NoNext) None None).
Proof. vm_compute. by repeat split. Qed.

(** The process dies between the two renames of the activation. *)
Lemma rotation_crash_safe_witness :
  let q := replicate 18 Fine ++ [Crash 0] in
  let c := Activate (demo_now + 2 * Hour) in
  let d' := (run_command c (demo_ready, q)).2.1 in
  sound d' ∧ ∃ st st', loads demo_ready st ∧ loads d' st' ∧
    st_cert st' ∈ trusted st ∧ keyMatches (st_key st') (st_cert st') = true ∧
    ∀ x, x ∈ trusted st → x ∈ trusted st' ∨
      (disk_cert caPrevCrtFile demo_ready = Ok x ∧ ∃ force now, c = Retire force now ∧
        may_retire force now (f_data <$> demo_ready !! caPrevSince)).
Proof.
  apply (rotation_crash_safe (Activate (demo_now + 2 * Hour)) demo_ready (replicate 18 Fine ++ [Crash 0])).
  - eexists. apply demo_ready_represents.
  - done.
  - apply (bool_decide_unpack _). vm_compute. exact Logic.I.
Defined.


(** After the activation another CA is prepared, which is cut short, and a
    retire is tried after an hour. *)
Definition demo_activated : Dir := (ActivateCA (demo_now + 2 * Hour) (demo_ready, [])).2.1.

Lemma demo_activated_loads : loads demo_activated (@newCAState NamedKeys.named (demo_cert "second") "second" [demo_cert "first"]).
Proof. vm_compute. reflexivity. Qed.

Definition demo_history : list (command * list fate) :=
  [(Prepare "third" 3 (demo_now + 2 * Hour), replicate 12 Fine ++ [Crash 0]); (Retire false (demo_now + 3 * Hour), [])].


Lemma rotation_completes_witness :
  ∃ n d1 d2 d3,
    ParseCertificate (SelfSigned "second" 2 demo_now) = Some n ∧
    PrepareCA "second" 2 demo_now (demo_start, []) = (Done (Ok (caInfo n)), (d1, [])) ∧ loads d1 (@newCAState NamedKeys.named (demo_cert "first") "first" [n]) ∧
    ActivateCA demo_now (d1, []) = (Done (Ok (caInfo n)), (d2, [])) ∧ loads d2 (@newCAState NamedKeys.named n "second" [demo_cert "first"]) ∧
    RetireCA false (demo_now + 48 * Hour) (d2, []) = (Done (Ok tt), (d3, [])) ∧ loads d3 (@newCAState NamedKeys.named n "second" []).
Proof.
  apply (@rotation_completes Blocks.blocks Blocks.blocks_laws NamedKeys.named NamedKeys.named_laws demo_start "first" (demo_cert "first") None "second" 2 demo_now demo_now (demo_now + 48 * Hour)).
  - apply demo_start_represents.
  - by eexists.
  - vm_compute. reflexivity.
  - vm_compute. split; discriminate.
  - vm_compute. split; [discriminate|reflexivity].
Defined.

(** The prepare dies once its key is written. *)
Definition demo_half : Dir := (run_command (Prepare "second" 2 demo_now) (demo_start, replicate 12 Fine ++ [Crash 0])).2.1.

Lemma interrupted_prepare_blocks_witness :
  run_command (Prepare "second" 2 demo_now) (demo_start, replicate 12 Fine ++ [Crash 0]) = (Crashed, (demo_half, [])) ∧
  let '(o, (d', _)) := run_command (Activate (demo_now + Hour)) (demo_half, []) in o ≠ Done (Ok tt) ∧ d' = demo_half.
Proof.
  split; [vm_compute; reflexivity|].
  apply (@interrupted_prepare_blocks Blocks.blocks NamedKeys.named (Activate (demo_now + Hour)) demo_half [] "first" (demo_cert "first") "second" None None).
  - vm_compute. by repeat split.
  - done.
  - apply (bool_decide_unpack _). vm_compute. exact Logic.I.
Defined.

(** An activation that dies after it wrote the previous certificate keeps
    the time of that attempt. The old CA signs on; when the activation is
    resumed 30 hours later, a retire that is not forced drops the old CA a
    minute after its last signature. *)
Theorem resumed_activation_skips_the_wait :
  let t := (demo_now + 2 * Hour)%Z in
  let run1 := run_command (Activate t) (demo_ready, replicate 17 Fine ++ [Crash 0]) in
  let run2 := run_command (Activate (t + 30 * Hour)) (run1.2.1, []) in
  let run3 := run_command (Retire false (t + 30 * Hour + Minute)) (run2.2.1, []) in
  run1.1 = Crashed ∧ loads run1.2.1 (@newCAState NamedKeys.named (demo_cert "first") "first" [demo_cert "second"; demo_cert "first"]) ∧
  run2.1 = Done (Ok tt) ∧ loads run2.2.1 (@newCAState NamedKeys.named (demo_cert "second") "second" [demo_cert "first"]) ∧
  run3.1 = Done (Ok tt) ∧ loads run3.2.1 (@newCAState NamedKeys.named (demo_cert "second") "second" []).
Proof. split_and!; vm_compute; reflexivity. Qed.

(** A start at which [os.Stat] of [ca.key] fails, for a reason other than
    its absence, writes a new CA over the one in use. *)
Theorem failed_stat_replaces_ca :
  let run := loadOrCreateDisk "other" 7 (demo_now + Hour) (demo_start, [NoStat]) in
  loads demo_start (@newCAState NamedKeys.named (demo_cert "first") "first" []) ∧
  run.1 = Done (Ok (mkLocalAuthority (@newCAState NamedKeys.named (demo_cert "other") "other" []) 1)).
Proof. split_and!; vm_compute; reflexivity. Qed.

(** A first start that dies between the key and the certificate leaves a
    directory no later start can use. *)
Theorem interrupted_first_start_blocks :
  let run1 := loadOrCreateDisk "first" 1 demo_now (∅, replicate 6 Fine ++ [Crash 0]) in
  run1.1 = Crashed ∧ (loadOrCreateDisk "second" 2 (demo_now + Hour) (run1.2.1, [])).1 = Done (Err ErrNotExist).
Proof. split_and!; vm_compute; reflexivity. Qed.
