(* ===== verification/CaStore.v ===== *)
(** * CaStore

    The trust material kept in the database
    (src/internal/server/storage/upstream_ca.go): the CAs an external issuer
    published, each row authenticated under the audit keyring, and the
    number of the trust bundle. And the adapter through which the identity
    package reads and writes them (identityStore in
    src/internal/cli/server.go). *)
From S2P Require Import Prelude Crypto AuditKeyring Store.

(** [UpstreamCA] of the storage package; the identity package has the same
    record. [KeptUntil] is the zero time while the issuer publishes the
    CA. *)
Record UpstreamCA := mkUpstreamCA {
  DER : string;
  KeptAt : Z;
  KeptUntil : Z;
  SavedAt : Z
}.

#[global] Instance UpstreamCA_eq_dec : EqDecision UpstreamCA.
Proof. solve_decision. Defined.

Definition Fingerprint (c : UpstreamCA) : string := sha256_hex (DER c).

(** ** The authentication of a row *)

(** [strconv.Itoa(len(f))], a colon, and the field. *)
Definition mac_field (f : string) : string := pretty (Z.of_nat (String.length f)) +:+ ":" +:+ f.

Fixpoint mac_fields (fs : list string) : string :=
  match fs with
  | [] => ""
  | f :: fs' => mac_field f +:+ mac_fields fs'
  end.

Definition mac_message (trustDomain backend der : string) (keptAt until savedAt : Z) : string :=
  "omega-upstream-ca-v1" +:+ mac_fields [trustDomain; backend; der; pretty keptAt; pretty until; pretty savedAt].

Definition upstreamCAMAC (secret trustDomain backend der : string) (keptAt until savedAt : Z) : string :=
  hex_encode (hmac_sha256 secret (mac_message trustDomain backend der keptAt until savedAt)).

(** ** Reading and replacing the set *)

(** The rows of one trust domain and backend, ordered by fingerprint. *)
Definition ca_rows (trustDomain backend : string) (d : DB) : list (string * upstream_ca_row) :=
  omap (λ fp, (fp,.) <$> upstream_cas d !! (trustDomain, backend, fp))
    (sort_strings (omap (λ '(k, _), if decide (k.1 = (trustDomain, backend)) then Some k.2 else None) (map_to_list (upstream_cas d)))).

(** One row, when its MAC verifies under a key of the keyring. *)
Definition verified_row (kr : AuditKeyring) (trustDomain backend : string) (r : upstream_ca_row) : option UpstreamCA :=
  secret ← lookup_key kr (uc_key_id r);
  if decide (uc_mac r = upstreamCAMAC secret trustDomain backend (uc_der r) (uc_kept_at r) (uc_kept_until r) (uc_saved_at r))
  then Some (mkUpstreamCA (uc_der r)
    (if decide (uc_kept_at r = 0%Z) then zero_time else UnixTime (uc_kept_at r))
    (if decide (uc_kept_until r = 0%Z) then zero_time else UnixTime (uc_kept_until r))
    (UnixTime (uc_saved_at r)))
  else None.

Definition UpstreamCAs (trustDomain backend : string) : M (list UpstreamCA) :=
  okr ← gets auditKeyring;
  match okr with
  | None => mret []
  | Some kr =>
      rows ← on_db "query upstream cas" (ca_rows trustDomain backend);
      mret (omap (λ r, verified_row kr trustDomain backend r.2) rows)
  end.

(** The row one CA is stored as. *)
Definition ca_row (trustDomain backend keyID secret : string) (savedAt : Z) (c : UpstreamCA) : upstream_ca_row :=
  let '(keptAt, until) := if IsZero (KeptUntil c) then (0, 0)%Z else (UnixNano (KeptAt c), UnixNano (KeptUntil c)) in
  mkUpstreamCARow (DER c) keptAt until savedAt keyID (upstreamCAMAC secret trustDomain backend (DER c) keptAt until savedAt).

Definition insert_ca (trustDomain backend keyID secret : string) (savedAt : Z) (c : UpstreamCA) : Tx () :=
  if decide (DER c = "") then throw (ErrMsg "upstream ca has no certificate")
  else
    let key := (trustDomain, backend, Fingerprint c) in
    insert_row "insert upstream ca" (λ d, bool_decide (is_Some (upstream_cas d !! key))) (ErrIO "insert upstream ca" "UNIQUE constraint failed")
      (λ d, set_upstream_cas (<[key := ca_row trustDomain backend keyID secret savedAt c]> (upstream_cas d)) d).

Definition clear_cas (trustDomain backend : string) (d : DB) : DB :=
  set_upstream_cas (filter (λ '(k, _), k.1 ≠ (trustDomain, backend)) (upstream_cas d)) d.

Definition ReplaceUpstreamCAs (trustDomain backend : string) (cas : list UpstreamCA) (now : Z) : M () :=
  leader_only (
    okr ← gets auditKeyring;
    match okr with
    | None => throw ErrNoUpstreamCAKey
    | Some kr =>
        let '(keyID, secret) := active kr in
        let savedAt := UnixNano now in
        with_tx "begin" "" (
          exec "clear upstream cas" (clear_cas trustDomain backend) ;;
          for_each cas (insert_ca trustDomain backend keyID secret savedAt) ;;
          mret (Commit tt))
    end).

(** ** The number of the bundle *)

Definition LoadBundleSequence (trustDomain : string) : M (Z * string) :=
  row ← on_db "query bundle sequence" (λ d, bundle_sequence d !! trustDomain);
  match row with
  | None => mret (0%Z, "")
  | Some r => mret (bs_seq r, bs_digest r)
  end.

(** The upsert, which only moves the number forward. *)
Definition save_sequence (trustDomain : string) (seq : Z) (digest : string) (now : Z) (d : DB) : DB :=
  let new := mkBundleSequenceRow seq digest (UnixNano now) in
  match bundle_sequence d !! trustDomain with
  | None => set_bundle_sequence (<[trustDomain := new]> (bundle_sequence d)) d
  | Some r => if decide (bs_seq r < seq)%Z then set_bundle_sequence (<[trustDomain := new]> (bundle_sequence d)) d else d
  end.

Definition SaveBundleSequence (trustDomain : string) (seq : Z) (digest : string) (now : Z) : M () :=
  leader_only (statement "save bundle sequence" (λ d, (tt, save_sequence trustDomain seq digest now d))).

(** ** The identity package's view *)

Definition LoadUpstreamCAs (trustDomain backend : string) : M (list UpstreamCA) :=
  rows ← UpstreamCAs trustDomain backend;
  mret ((λ r, mkUpstreamCA (DER r) (KeptAt r) (KeptUntil r) (SavedAt r)) <$> rows).

Definition SaveUpstreamCAs (trustDomain backend : string) (cas : list UpstreamCA) (now : Z) : M () :=
  ReplaceUpstreamCAs trustDomain backend ((λ c, mkUpstreamCA (DER c) (KeptAt c) (KeptUntil c) zero_time) <$> cas) now.

(** ** The MAC covers every field *)

Lemma mac_field_inj f f' t t' : mac_field f +:+ t = mac_field f' +:+ t' → f = f' ∧ t = t'.
Proof.
  unfold mac_field. rewrite !string_app_assoc, !string_app_cons. intros H.
  apply cut_first_inj in H as [Hl H]; [|by apply pretty_Z_no_byte..].
  apply (inj pretty), Nat2Z.inj in Hl. by apply string_app_inj_len.
Qed.

Lemma mac_fields_inj fs fs' : length fs = length fs' → mac_fields fs = mac_fields fs' → fs = fs'.
Proof.
  revert fs'. induction fs as [|f fs IH]; intros [|f' fs']; [done..|]. intros [= Hl] H.
  apply mac_field_inj in H as [-> H]. by rewrite (IH fs').
Qed.

(** What is authenticated names the trust domain, the backend, the
    certificate and the times: no two rows share it. *)
Lemma mac_message_inj td be der ka ku sa td' be' der' ka' ku' sa' :
  mac_message td be der ka ku sa = mac_message td' be' der' ka' ku' sa' →
  td = td' ∧ be = be' ∧ der = der' ∧ ka = ka' ∧ ku = ku' ∧ sa = sa'.
Proof.
  unfold mac_message. intros H. apply string_app_inj_len in H as [_ H]; [|done].
  apply mac_fields_inj in H; [|done]. injection H as -> -> -> Hka Hku Hsa.
  by apply (inj pretty) in Hka as ->; apply (inj pretty) in Hku as ->; apply (inj pretty) in Hsa as ->.
Qed.

(** ** Rows from the database *)

Lemma ca_rows_elem td be d fp r : (fp, r) ∈ ca_rows td be d ↔ upstream_cas d !! (td, be, fp) = Some r.
Proof.
  unfold ca_rows. rewrite list_elem_of_omap. split.
  - intros (fp' & _ & Hr). destruct (upstream_cas d !! (td, be, fp')) eqn:E; [|done]. by injection Hr as -> ->.
  - intros Hr. exists fp. rewrite Hr. split; [|done]. rewrite sort_strings_Permutation.
    apply list_elem_of_omap. exists ((td, be, fp), r). split; [by apply elem_of_map_to_list|]. by rewrite decide_True.
Qed.

Lemma UpstreamCAs_elem td be s q cas s' q' c :
  UpstreamCAs td be (s, q) = (Ok cas, (s', q')) → c ∈ cas →
  ∃ kr fp r, auditKeyring s = Some kr ∧ upstream_cas (db s) !! (td, be, fp) = Some r ∧ verified_row kr td be r = Some c.
Proof.
  unfold UpstreamCAs. intros Hrun Hc. apply bind_Ok in Hrun as (okr & w & [-> ->]%gets_Ok & Hrun). cbn [fst] in Hrun.
  destruct (auditKeyring s) as [kr|]; [|apply ret_Ok in Hrun as [<- _]; by apply not_elem_of_nil in Hc].
  apply bind_Ok in Hrun as (rows & w & [-> _]%query_Ok & [<- _]%ret_Ok).
  apply list_elem_of_omap in Hc as ([fp r] & Hin%ca_rows_elem & Hv). by exists kr, fp, r.
Qed.

(** A row that Omega authenticated, as it was authenticated. *)
Record saved_row := mkSavedRow { sr_td : string; sr_backend : string; sr_der : string; sr_kept_at : Z; sr_until : Z; sr_saved_at : Z }.

Definition saved_message (r : saved_row) : string :=
  mac_message (sr_td r) (sr_backend r) (sr_der r) (sr_kept_at r) (sr_until r) (sr_saved_at r).

(** Nobody makes a MAC under a key of the keyring but by having Omega
    authenticate the message: where the MAC of a row verifies, the bytes it
    was verified over are those of a row in [saved]. *)
Definition unforged (kr : AuditKeyring) (saved : list saved_row) (d : DB) : Prop :=
  ∀ td be fp r secret,
    let m := mac_message td be (uc_der r) (uc_kept_at r) (uc_kept_until r) (uc_saved_at r) in
    upstream_cas d !! (td, be, fp) = Some r → keys kr !! uc_key_id r = Some secret →
    uc_mac r = hex_encode (hmac_sha256 secret m) → ∃ sr, sr ∈ saved ∧ m = saved_message sr.

(** C22. Whoever writes the database but holds no key of the keyring cannot add
    a trust anchor, extend one, or move one to another trust domain or
    issuer: a CA read back was saved by Omega, for that trust domain and
    backend, with those times. *)
Theorem restored_ca_was_saved td be s q cas s' q' kr saved c :
  auditKeyring s = Some kr → unforged kr saved (db s) →
  UpstreamCAs td be (s, q) = (Ok cas, (s', q')) → c ∈ cas →
  ∃ sr, sr ∈ saved ∧ sr_td sr = td ∧ sr_backend sr = be ∧ sr_der sr = DER c ∧ SavedAt c = UnixTime (sr_saved_at sr) ∧
    KeptAt c = (if decide (sr_kept_at sr = 0) then zero_time else UnixTime (sr_kept_at sr))%Z ∧
    KeptUntil c = (if decide (sr_until sr = 0) then zero_time else UnixTime (sr_until sr))%Z.
Proof.
  intros Hkr Hun Hrun Hc. destruct (UpstreamCAs_elem _ _ _ _ _ _ _ _ Hrun Hc) as (kr' & fp & r & Hkr' & Hr & Hv).
  rewrite Hkr in Hkr'. injection Hkr' as <-. unfold verified_row, lookup_key in Hv.
  destruct (keys kr !! uc_key_id r) as [secret|] eqn:Hk; [|done]. cbn [mbind option_bind] in Hv.
  case_decide as Hmac; [|done]. injection Hv as <-.
  destruct (Hun _ _ _ _ _ Hr Hk Hmac) as (sr & Hsr & Hm). exists sr. split; [done|].
  apply mac_message_inj in Hm as (-> & -> & -> & -> & -> & ->). done.
Qed.

(** ** Reading back what was replaced *)

(** The times that a row holds: none while the issuer publishes the CA,
    else two instants of the [int64] range other than the epoch. *)
Definition storable (c : UpstreamCA) : Prop :=
  DER c ≠ "" ∧
  ((KeptUntil c = zero_time ∧ KeptAt c = zero_time) ∨
   (in_int64 (KeptUntil c) ∧ KeptUntil c ≠ 0%Z ∧ in_int64 (KeptAt c) ∧ KeptAt c ≠ 0%Z)).

Definition stamped (now : Z) (c : UpstreamCA) : UpstreamCA := mkUpstreamCA (DER c) (KeptAt c) (KeptUntil c) now.

Lemma verified_saved kr td be now c :
  keyring_ok kr → storable c → in_int64 now →
  verified_row kr td be (ca_row td be (active kr).1 (active kr).2 (UnixNano now) c) = Some (stamped now c).
Proof.
  intros Hkr [Hder Ht] Hnow. destruct (ok_active _ Hkr) as [k Hk]. unfold verified_row, ca_row, active, lookup_key. cbn [fst snd].
  rewrite Hk. cbn [default].
  assert (UnixNano now = now) as -> by by apply wrap64_id.
  destruct Ht as [[Hu Ha]|(Hu & Hu0 & Ha & Ha0)].
  - rewrite Hu. assert (IsZero zero_time = true) as -> by by apply IsZero_spec. cbn [uc_key_id uc_mac uc_der uc_kept_at uc_kept_until uc_saved_at].
    rewrite Hk. cbn [mbind option_bind]. rewrite decide_True by done. unfold stamped. by rewrite Hu, Ha.
  - assert (IsZero (KeptUntil c) = false) as ->.
    { apply not_true_iff_false. rewrite IsZero_spec. intros E. rewrite E in Hu. unfold in_int64, zero_time, two63 in Hu. lia. }
    cbn [uc_key_id uc_mac uc_der uc_kept_at uc_kept_until uc_saved_at]. rewrite Hk. cbn [mbind option_bind]. rewrite decide_True by done.
    unfold UnixNano. rewrite !wrap64_id by done. rewrite !decide_False by done. done.
Qed.

Lemma ca_rows_NoDup td be d : NoDup (ca_rows td be d).*1.
Proof.
  unfold ca_rows. set (l := sort_strings _). assert (NoDup l) as Hl.
  { unfold l. rewrite sort_strings_Permutation. pose proof (NoDup_fst_map_to_list (upstream_cas d)) as Hnd.
    induction (map_to_list (upstream_cas d)) as [|[[[td' be'] fp] r] t IH]; cbn; [constructor|].
    apply NoDup_cons in Hnd as [Hni Hnd]. case_decide as E; [|by apply IH]. constructor; [|by apply IH].
    intros ([[[td2 be2] fp2] r2] & Hin & E2)%list_elem_of_omap. cbn in *. case_decide; [|done]. simplify_eq. destruct Hni.
    by apply (list_elem_of_fmap_2 fst) in Hin. }
  induction Hl as [|fp t Hni _ IH]; cbn; [constructor|]. destruct (upstream_cas d !! (td, be, fp)); cbn; [|done]. constructor; [|done].
  intros ([fp2 r2] & -> & (fp3 & Hin & E)%list_elem_of_omap)%list_elem_of_fmap. destruct (upstream_cas d !! (td, be, fp3)); [|done].
  by injection E as -> _.
Qed.

(** What the inserts of [ReplaceUpstreamCAs] leave. *)
Definition inserted (td be keyID secret : string) (savedAt : Z) (cas : list UpstreamCA) (d : DB) : DB :=
  set_upstream_cas (foldl (λ m c, <[(td, be, Fingerprint c) := ca_row td be keyID secret savedAt c]> m) (upstream_cas d) cas) d.

Lemma insert_all_run td be keyID secret savedAt cas d :
  Forall (λ c, DER c ≠ "") cas → NoDup (Fingerprint <$> cas) →
  (∀ c, c ∈ cas → upstream_cas d !! (td, be, Fingerprint c) = None) →
  for_each cas (insert_ca td be keyID secret savedAt) (d, []) = (Ok tt, (inserted td be keyID secret savedAt cas d, [])).
Proof.
  revert d. induction cas as [|c cas IH]; intros d Hd Hnd Hn; cbn [for_each]; [by destruct d|].
  apply Forall_cons in Hd as [Hc Hd]. apply NoDup_cons in Hnd as [Hni Hnd].
  erewrite bind_run; [|unfold insert_ca; rewrite decide_False by done; apply insert_row_run, bool_decide_eq_false; rewrite Hn by left; by intros []].
  rewrite IH; [done|done|done|]. intros c' Hc'. cbn. rewrite lookup_insert_ne; [apply Hn; by right|].
  intros [= E]. destruct Hni. rewrite E. by apply list_elem_of_fmap_2.
Qed.

Lemma inserted_lookup td be keyID secret savedAt cas d k r :
  NoDup (Fingerprint <$> cas) →
  upstream_cas (inserted td be keyID secret savedAt cas d) !! k = Some r ↔
    (∃ c, c ∈ cas ∧ k = (td, be, Fingerprint c) ∧ r = ca_row td be keyID secret savedAt c) ∨
    ((∀ c, c ∈ cas → k ≠ (td, be, Fingerprint c)) ∧ upstream_cas d !! k = Some r).
Proof.
  cbn. generalize (upstream_cas d) as m. induction cas as [|c cas IH]; intros m; cbn [foldl fmap list_fmap].
  - intros _. set_solver.
  - intros [Hni Hnd]%NoDup_cons. rewrite IH by done. rewrite lookup_insert_Some.
    assert (∀ c', c' ∈ cas → Fingerprint c ≠ Fingerprint c') as Hne.
    { intros c' Hc' E. destruct Hni. rewrite E. by apply list_elem_of_fmap_2. }
    setoid_rewrite elem_of_cons. split.
    + intros [(c' & Hc' & ? & ?)|(Hno & [[<- <-]|[Hk Hr]])]; [left; eauto|left; eauto|right]. split; [|done]. intros c' [->|?]; [done|auto].
    + intros [(c' & [->|Hc'] & -> & ->)|(Hno & Hr)]; [right|left; eauto|right].
      * split; [|by left]. intros c' Hc' [= E]. by apply (Hne c').
      * split; [auto|]. right. split; [|done]. intros E. by apply (Hno c); [left|].
Qed.

(** C29. A round trip through the database: what a leader with an audit keyring
    stores for a trust domain and issuer is what is read back for them, with
    the time of the write, and the rows of every other trust domain and
    issuer stay as they were. *)
Theorem replace_read td be cas now s kr :
  IsLeader s = true → auditKeyring s = Some kr → keyring_ok kr → in_int64 now →
  Forall storable cas → NoDup (Fingerprint <$> cas) →
  ∃ s' out, ReplaceUpstreamCAs td be cas now (s, []) = (Ok tt, (s', [])) ∧
    UpstreamCAs td be (s', []) = (Ok out, (s', [])) ∧ out ≡ₚ (stamped now <$> cas) ∧
    ∀ td' be' fp, (td', be') ≠ (td, be) → upstream_cas (db s') !! (td', be', fp) = upstream_cas (db s) !! (td', be', fp).
Proof.
  intros HL Hkr Hok Hnow Hst Hnd. set (row := ca_row td be (active kr).1 (active kr).2 (UnixNano now)).
  set (d' := inserted td be (active kr).1 (active kr).2 (UnixNano now) cas (clear_cas td be (db s))).
  assert (∀ fp, upstream_cas (clear_cas td be (db s)) !! (td, be, fp) = None) as Hclear.
  { intros fp. apply map_lookup_filter_None. right. intros r _. naive_solver. }
  exists (set_db d' s), (omap (λ r, verified_row kr td be r.2) (ca_rows td be d')). split_and!.
  - unfold ReplaceUpstreamCAs. rewrite leader_only_leader by done. erewrite bind_run by reflexivity. cbn [fst]. rewrite Hkr.
    destruct (active kr) as [keyID secret] eqn:Ea. apply with_tx_run_Commit. run_step.
    erewrite bind_run; [reflexivity|]. apply insert_all_run; [|done|by intros]. eapply Forall_impl; [exact Hst|]. by intros c [? _].
  - unfold UpstreamCAs. erewrite bind_run by reflexivity. cbn [fst auditKeyring set_db]. by rewrite Hkr.
  - assert (ca_rows td be d' ≡ₚ ((λ c, (Fingerprint c, row c)) <$> cas)) as ->.
    { apply NoDup_Permutation.
      - eapply NoDup_fmap_1, ca_rows_NoDup.
      - apply (NoDup_fmap_1 fst). by rewrite <-list_fmap_compose.
      - intros [fp r]. rewrite ca_rows_elem. unfold d'. rewrite inserted_lookup by done. rewrite Hclear, list_elem_of_fmap. naive_solver. }
    apply reflexive_eq. clear Hnd d'. induction Hst as [|c cas Hc _ IH]; [done|]. cbn. unfold row at 1.
    rewrite verified_saved by done. by f_equal.
  - intros td' be' fp Hne. apply option_eq. intros r. unfold d'. cbn [db set_db]. rewrite inserted_lookup by done.
    cbn [upstream_cas clear_cas set_upstream_cas]. rewrite map_lookup_filter_Some. naive_solver.
Qed.

(** ** Examples *)

Definition demo_keyring : AuditKeyring := mkAuditKeyring "" "k1" {["k1" := "0123456789abcdef"]}.

Lemma demo_ca_keyring_ok : keyring_ok demo_keyring.
Proof.
  split.
  - by eexists.
  - intros id k. cbn. rewrite lookup_singleton_Some. intros [<- <-]. cbn. unfold minAuditKeyBytes. lia.
  - intros id k. cbn. rewrite lookup_singleton_Some. by intros [<- <-].
Qed.

Definition demo_cas : list UpstreamCA :=
  [mkUpstreamCA "der-a" zero_time zero_time zero_time; mkUpstreamCA "der-b" (1700000000 * Second) (1700086400 * Second) zero_time].

Definition keyed_store : Store := set_auditKeyring (Some demo_keyring) (new_store driverSQLite).
Definition demo_saved_at : Z := 1700000100 * Second.
Definition stored_cas : Store := (ReplaceUpstreamCAs "example.org" "vault-pki" demo_cas demo_saved_at (keyed_store, [])).2.1.

Lemma replace_read_witness :
  ∃ s' out, ReplaceUpstreamCAs "example.org" "vault-pki" demo_cas demo_saved_at (keyed_store, []) = (Ok tt, (s', [])) ∧
    UpstreamCAs "example.org" "vault-pki" (s', []) = (Ok out, (s', [])) ∧ out ≡ₚ (stamped demo_saved_at <$> demo_cas) ∧
    ∀ td' be' fp, (td', be') ≠ ("example.org", "vault-pki") →
      upstream_cas (db s') !! (td', be', fp) = upstream_cas (db keyed_store) !! (td', be', fp).
Proof.
  apply (replace_read "example.org" "vault-pki" demo_cas demo_saved_at keyed_store demo_keyring).
  - reflexivity.
  - reflexivity.
  - apply demo_ca_keyring_ok.
  - vm_compute. split; [discriminate|reflexivity].
  - constructor; [|constructor; [|constructor]].
    + split; [done|]. by left.
    + split; [done|]. right. unfold in_int64. split_and!; vm_compute; done.
  - apply (bool_decide_unpack _). vm_compute. exact I.
Defined.

(** The rows of the example, as they were authenticated. *)
Definition demo_saved : list saved_row :=
  [mkSavedRow "example.org" "vault-pki" "der-a" 0 0 demo_saved_at;
   mkSavedRow "example.org" "vault-pki" "der-b" (1700000000 * Second) (1700086400 * Second) demo_saved_at].

Lemma demo_unforged : unforged demo_keyring demo_saved (db stored_cas).
Proof.
  intros td be fp r secret m Hr _ _. apply elem_of_map_to_list in Hr.
  assert (map_to_list (upstream_cas (db stored_cas)) ≡ₚ
    (λ c, (("example.org", "vault-pki", Fingerprint c), ca_row "example.org" "vault-pki" "k1" "0123456789abcdef" demo_saved_at c)) <$> demo_cas) as Hl.
  { vm_compute. first [reflexivity|apply perm_swap]. }
  rewrite Hl in Hr. apply list_elem_of_fmap in Hr as (c & [= -> -> _ ->] & [->|[->|[]%not_elem_of_nil]%elem_of_cons]%elem_of_cons).
  - exists (mkSavedRow "example.org" "vault-pki" "der-a" 0 0 demo_saved_at). split; [left|reflexivity].
  - exists (mkSavedRow "example.org" "vault-pki" "der-b" (1700000000 * Second) (1700086400 * Second) demo_saved_at). split; [right; left|reflexivity].
Qed.

Definition demo_kept : UpstreamCA := mkUpstreamCA "der-b" (1700000000 * Second) (1700086400 * Second) demo_saved_at.

Lemma demo_read :
  UpstreamCAs "example.org" "vault-pki" (stored_cas, []) =
    (Ok [mkUpstreamCA "der-a" zero_time zero_time demo_saved_at; demo_kept], (stored_cas, [])).
Proof.
  assert ((UpstreamCAs "example.org" "vault-pki" (stored_cas, [])).1 =
    Ok [mkUpstreamCA "der-a" zero_time zero_time demo_saved_at; demo_kept]) as <- by (vm_compute; reflexivity).
  unfold UpstreamCAs. by destruct (auditKeyring stored_cas).
Qed.

Lemma restored_ca_was_saved_witness :
  ∃ cas c, UpstreamCAs "example.org" "vault-pki" (stored_cas, []) = (Ok cas, (stored_cas, [])) ∧ c ∈ cas ∧
  ∃ sr, sr ∈ demo_saved ∧ sr_td sr = "example.org" ∧ sr_backend sr = "vault-pki" ∧ sr_der sr = DER c ∧ SavedAt c = UnixTime (sr_saved_at sr) ∧
    KeptAt c = (if decide (sr_kept_at sr = 0) then zero_time else UnixTime (sr_kept_at sr))%Z ∧
    KeptUntil c = (if decide (sr_until sr = 0) then zero_time else UnixTime (sr_until sr))%Z.
Proof.
  exists [mkUpstreamCA "der-a" zero_time zero_time demo_saved_at; demo_kept], demo_kept.
  split; [exact demo_read|]. split; [right; left|].
  refine (restored_ca_was_saved "example.org" "vault-pki" stored_cas [] _ stored_cas [] demo_keyring demo_saved demo_kept _ demo_unforged demo_read _).
  - vm_compute. reflexivity.
  - right. left.
Defined.
