(* ===== verification/CaOverlap.v ===== *)
(** * CaOverlap

    The CAs of an external issuer (src/internal/server/identity/ca_overlap.go):
    the bundle the server serves is the issuer's current one plus the CAs the
    issuer dropped within the grace period, less those the operator
    distrusts. The state that survives a restart is read from and written to
    the database through CaStore.

    Every operation runs its state change under one lock ([update_locked],
    [serve_locked] and so on), so the changes happen one after the other in
    some order; reading the database comes before it and writing it after
    it. Theorems about the locked parts hold for any rows a read may have
    returned, however old. The counters are [int64]s that count changes; the
    model does not wrap them. *)
From S2P Require Import Prelude Crypto Base64 AuditKeyring Store CaStore Pem.

(** [KeptCAEvent]. *)
Record KeptCAEvent := mkKeptCAEvent {
  ev_Action : string;
  ev_Reason : string;
  ev_Subject : string;
  ev_Fingerprint : string;
  ev_Until : Z
}.

Record retiredCA := mkRetiredCA { rc_cert : Certificate; rc_keptAt : Z; rc_until : Z }.

(** [caOverlap]. A fingerprint is the 32 bytes of the SHA-256 of the DER
    certificate. [o_store] names the trust domain and the backend once a
    store is attached. *)
Record caOverlap := mkOverlap {
  grace : Z;
  loaded : bool;
  fetched : list Certificate;
  current : gmap string Certificate;
  retired : gmap string retiredCA;
  distrusted : gset string;
  restoreCap : gmap string Z;
  served : option string;
  o_seq : Z;
  pending : list KeptCAEvent;
  o_store : option (string * string);
  baselined : bool;
  version : Z;
  saved : Z
}.

Definition set_fetched cs cur o := mkOverlap (grace o) true cs cur (retired o) (distrusted o) (restoreCap o) (served o) (o_seq o) (pending o) (o_store o) (baselined o) (version o) (saved o).
Definition set_retired v o := mkOverlap (grace o) (loaded o) (fetched o) (current o) v (distrusted o) (restoreCap o) (served o) (o_seq o) (pending o) (o_store o) (baselined o) (version o) (saved o).
Definition set_distrusted v o := mkOverlap (grace o) (loaded o) (fetched o) (current o) (retired o) v (restoreCap o) (served o) (o_seq o) (pending o) (o_store o) (baselined o) (version o) (saved o).
Definition set_restoreCap v o := mkOverlap (grace o) (loaded o) (fetched o) (current o) (retired o) (distrusted o) v (served o) (o_seq o) (pending o) (o_store o) (baselined o) (version o) (saved o).
Definition set_served v n o := mkOverlap (grace o) (loaded o) (fetched o) (current o) (retired o) (distrusted o) (restoreCap o) v n (pending o) (o_store o) (baselined o) (version o) (saved o).
Definition set_pending v o := mkOverlap (grace o) (loaded o) (fetched o) (current o) (retired o) (distrusted o) (restoreCap o) (served o) (o_seq o) v (o_store o) (baselined o) (version o) (saved o).
Definition set_o_store v o := mkOverlap (grace o) (loaded o) (fetched o) (current o) (retired o) (distrusted o) (restoreCap o) (served o) (o_seq o) (pending o) v (baselined o) (version o) (saved o).
Definition set_baselined o := mkOverlap (grace o) (loaded o) (fetched o) (current o) (retired o) (distrusted o) (restoreCap o) (served o) (o_seq o) (pending o) (o_store o) true (version o) (saved o).
Definition set_version v o := mkOverlap (grace o) (loaded o) (fetched o) (current o) (retired o) (distrusted o) (restoreCap o) (served o) (o_seq o) (pending o) (o_store o) (baselined o) v (saved o).
Definition set_saved v o := mkOverlap (grace o) (loaded o) (fetched o) (current o) (retired o) (distrusted o) (restoreCap o) (served o) (o_seq o) (pending o) (o_store o) (baselined o) (version o) v.

Definition newCAOverlap (g : Z) : caOverlap := mkOverlap g false [] ∅ ∅ ∅ ∅ None 1 [] None false 0 0.

(** [upstreamGrace]: a negative grace is none. *)
Definition upstreamGrace (d : Z) : Z := if decide (d < 0)%Z then 0%Z else d.

Definition fp_of (c : Certificate) : string := sha256 (Raw c).

Definition changed (o : caOverlap) : caOverlap := set_version (version o + 1) o.

Definition report (action reason : string) (c : Certificate) (fp : string) (until : Z) (o : caOverlap) : caOverlap :=
  set_pending (pending o ++ [mkKeptCAEvent action reason (Subject c) (hex_encode fp) until]) o.

(** [drop]; it is called for kept CAs only. *)
Definition drop_ca (fp reason : string) (o : caOverlap) : caOverlap :=
  match retired o !! fp with
  | Some r => report "dropped" reason (rc_cert r) fp (rc_until r) (changed (set_retired (delete fp (retired o)) o))
  | None => o
  end.

Section Overlap.
Context `{Pem} `{X509}.

(** ** Parsing the issuer's bundle *)

(** The blocks [pem.Decode] finds one after the other; it always consumes
    some of its input. *)
Fixpoint pem_blocks (fuel : nat) (raw : string) : list Block :=
  match fuel with
  | 0 => []
  | S n =>
      match pem_decode raw with
      | None => []
      | Some (b, rest) => b :: pem_blocks n rest
      end
  end.

Inductive pem_error := NoParseable | NoCertificates.

Definition parsePEMCerts (raw : string) : result pem_error (list Certificate) :=
  let blocks := filter (λ b, bl_Type b = "CERTIFICATE") (pem_blocks (S (String.length raw)) raw) in
  match omap (λ b, ParseCertificate (bl_Bytes b)) blocks with
  | [] => Err (if decide (blocks = []) then NoCertificates else NoParseable)
  | cs => Ok cs
  end.

(** ** The locked state changes *)

(** The state to store: the issuer's CAs and the kept ones. *)
Definition snapshotLocked (o : caOverlap) : list UpstreamCA :=
  ((λ '(_, c), mkUpstreamCA (Raw c) zero_time zero_time zero_time) <$> map_to_list (current o)) ++
  ((λ '(_, r), mkUpstreamCA (Raw (rc_cert r)) (rc_keptAt r) (rc_until r) zero_time) <$> map_to_list (retired o)).

(** One stored row in [mergeStoredLocked]. *)
Definition merge_row (first : bool) (next : gmap string Certificate) (now : Z)
    (acc : gmap string Certificate * caOverlap) (r : UpstreamCA) : gmap string Certificate * caOverlap :=
  let '(prev, o) := acc in
  match ParseCertificate (DER r) with
  | None => acc
  | Some c =>
      let fp := fp_of c in
      if negb (IsCA c) then acc
      else if IsZero (KeptUntil r) then
        if first && negb (IsZero (SavedAt r)) && bool_decide (now < SavedAt r + grace o)%Z
        then (<[fp := c]> prev, set_restoreCap (<[fp := (SavedAt r + grace o)%Z]> (restoreCap o)) o)
        else acc
      else
        let until := if decide (KeptAt r + grace o < KeptUntil r)%Z then (KeptAt r + grace o)%Z else KeptUntil r in
        let until := if decide (NotAfter c < until)%Z then NotAfter c else until in
        if bool_decide (is_Some (next !! fp)) || bool_decide (fp ∈ distrusted o) then acc
        else if decide (now < until)%Z then
          match retired o !! fp with
          | Some have =>
              if bool_decide (rc_until have = until) && bool_decide (rc_keptAt have = KeptAt r) then acc
              else (prev, changed (set_retired (<[fp := mkRetiredCA c (KeptAt r) until]> (retired o)) o))
          | None =>
              (prev, report "kept" "restored" c fp until
                (changed (set_retired (<[fp := mkRetiredCA c (KeptAt r) until]> (retired o)) o)))
          end
        else if first then (prev, changed (report "dropped" "grace-ended" c fp until o))
        else acc
  end.

Definition mergeStoredLocked (stored : list UpstreamCA) (next : gmap string Certificate) (now : Z) (o : caOverlap) :
    gmap string Certificate * caOverlap :=
  foldl (merge_row (negb (baselined o)) next now) (current o, set_baselined o) stored.

(** One CA of [prev] in [retireLocked]. *)
Definition retire_one (next : gmap string Certificate) (now : Z) (o : caOverlap) (e : string * Certificate) : caOverlap :=
  let '(fp, c) := e in
  if bool_decide (is_Some (next !! fp)) || bool_decide (NotAfter c <= now)%Z || bool_decide (fp ∈ distrusted o) then o
  else if decide (is_Some (retired o !! fp)) then o
  else
    let until := (now + grace o)%Z in
    let until := match restoreCap o !! fp with
                 | Some limit => if decide (limit < until)%Z then limit else until
                 | None => until
                 end in
    let until := if decide (NotAfter c < until)%Z then NotAfter c else until in
    report "kept" "" c fp until (changed (set_retired (<[fp := mkRetiredCA c now until]> (retired o)) o)).

(** Go ranges over the map in an unspecified order; the model takes the
    map's own. The order shows only in the order of the events. *)
Definition retireLocked (prev next : gmap string Certificate) (now : Z) (o : caOverlap) : caOverlap :=
  if decide (grace o <= 0)%Z then o else foldl (retire_one next now) o (map_to_list prev).

(** The kept CAs in the order of their fingerprints. *)
Definition kept_certs (o : caOverlap) : list Certificate :=
  omap (λ fp, rc_cert <$> retired o !! fp) (sort_strings (map_to_list (retired o)).*1).

Definition bundle_of (o : caOverlap) : string := certs_pem (fetched o ++ kept_certs o).

Definition drop_ended (now : Z) (o : caOverlap) (e : string * retiredCA) : caOverlap :=
  let '(fp, r) := e in if decide (now < rc_until r)%Z then o else drop_ca fp "grace-ended" o.

Definition serveLocked (now : Z) (o : caOverlap) : string * caOverlap :=
  let o1 := foldl (drop_ended now) o (map_to_list (retired o)) in
  let out := bundle_of o1 in
  (out, set_served (Some out)
    (match served o1 with
     | Some old => if decide (old = out) then o_seq o1 else (o_seq o1 + 1)%Z
     | None => o_seq o1
     end) o1).

Definition sameKeys (a b : gmap string Certificate) : bool := bool_decide (dom a = dom b).

Definition drop_republished (next : gmap string Certificate) (o : caOverlap) (fp : string) : caOverlap :=
  if decide (is_Some (next !! fp)) then drop_ca fp "republished" o else o.

(** [update] from the point where it holds the lock. *)
Definition update_locked (stored : option (list UpstreamCA)) (certs : list Certificate) (now : Z) (o : caOverlap) : string * caOverlap :=
  let next := foldl (λ m c, <[fp_of c := c]> m) ∅ certs in
  let '(prev, o1) := match stored with Some rows => mergeStoredLocked rows next now o | None => (current o, o) end in
  let o2 := set_restoreCap ∅ (retireLocked prev next now o1) in
  let o3 := foldl (drop_republished next) o2 (map_to_list (retired o2)).*1 in
  let o4 := if sameKeys (current o3) next then o3 else changed o3 in
  serveLocked now (set_fetched certs next o4).

(** [distrust] from the point where it holds the lock: how many it dropped. *)
Definition distrust_one (acc : nat * caOverlap) (fp : string) : nat * caOverlap :=
  let '(n, o) := acc in
  let o1 := set_distrusted ({[fp]} ∪ distrusted o) o in
  if decide (is_Some (retired o1 !! fp)) then (S n, drop_ca fp "distrusted" o1) else (n, o1).

Definition distrust_locked (fps : list string) (now : Z) (o : caOverlap) : nat * caOverlap :=
  let '(n, o1) := foldl distrust_one (0, set_distrusted ∅ o) fps in
  (n, if bool_decide (0 < n) && loaded o1 then (serveLocked now o1).2 else o1).

Definition serve_locked (now : Z) (o : caOverlap) : option string * caOverlap :=
  if loaded o then let '(b, o1) := serveLocked now o in (Some b, o1) else (None, o).

(** [attachStore] from the point where it holds the lock. *)
Definition attach_locked (trustDomain backend : string) (stored : list UpstreamCA) (now : Z) (o : caOverlap) : caOverlap :=
  let o1 := set_o_store (Some (trustDomain, backend)) o in
  let '(prev, o2) := mergeStoredLocked stored (current o1) now o1 in
  let o3 := changed (retireLocked prev (current o2) now o2) in
  if loaded o3 then (serveLocked now o3).2 else o3.

(** ** The whole operations *)

(** What the database holds is [Store] with the faults of its statements;
    [told] is what the hook was given so far. *)
Record world := mkWorld { w_overlap : caOverlap; w_told : list KeptCAEvent; w_store : Store * faults }.

(** [save], when no other save is in flight. *)
Definition save (trustDomain backend : string) (snapshot : list UpstreamCA) (v : Z) (now : Z) (w : world) : world :=
  let o := w_overlap w in
  if decide (v <= saved o)%Z then w
  else
    match SaveUpstreamCAs trustDomain backend snapshot now (w_store w) with
    | (Ok _, s) => mkWorld (set_saved v o) (w_told w) s
    | (Err _, s) => mkWorld o (w_told w) s
    end.

(** [unlock]: the queued events go to the hook, and the state is saved when
    it changed. *)
Definition unlock (now : Z) (w : world) : world :=
  let o := w_overlap w in
  let w1 := mkWorld (set_pending [] o) (w_told w ++ pending o) (w_store w) in
  match o_store o with
  | Some (td, backend) =>
      if decide (version o = saved o) then w1
      else save td backend (snapshotLocked o) (version o) now w1
  | None => w1
  end.

Definition loadStored (w : world) : option (list UpstreamCA) * world :=
  match o_store (w_overlap w) with
  | None => (None, w)
  | Some (td, backend) =>
      match LoadUpstreamCAs td backend (w_store w) with
      | (Ok rows, s) => (Some rows, mkWorld (w_overlap w) (w_told w) s)
      | (Err _, s) => (None, mkWorld (w_overlap w) (w_told w) s)
      end
  end.

Definition on_overlap {A} (f : caOverlap → A * caOverlap) (w : world) : A * world :=
  let '(a, o) := f (w_overlap w) in (a, mkWorld o (w_told w) (w_store w)).

Definition update (body : string) (now : Z) (w : world) : result pem_error string * world :=
  match parsePEMCerts body with
  | Err e => (Err e, w)
  | Ok certs =>
      let '(stored, w1) := loadStored w in
      let '(out, w2) := on_overlap (update_locked stored certs now) w1 in
      (Ok out, unlock now w2)
  end.

Definition serve (now : Z) (w : world) : option string * world :=
  let '(out, w1) := on_overlap (serve_locked now) w in (out, unlock now w1).

Definition distrust (fps : list string) (now : Z) (w : world) : nat * world :=
  let '(n, w1) := on_overlap (distrust_locked fps now) w in (n, unlock now w1).

Definition attachStore (trustDomain backend : string) (now : Z) (w : world) : result error () * world :=
  match LoadUpstreamCAs trustDomain backend (w_store w) with
  | (Err e, s) => (Err e, mkWorld (w_overlap w) (w_told w) s)
  | (Ok rows, s) =>
      let o := attach_locked trustDomain backend rows now (w_overlap w) in
      (Ok tt, unlock now (mkWorld o (w_told w) s))
  end.

Definition sequence (w : world) : Z := o_seq (w_overlap w).

End Overlap.
