(* ===== verification/CaKept.v ===== *)
(** * CaKept

    What the overlap of an external issuer's CAs guarantees: a CA it keeps
    is never served past its grace or its own expiry nor once it is
    distrusted, a CA the issuer dropped is served until then, the sequence
    number names the bundle, and every change to the kept set is told to the
    hook. *)
From S2P Require Import Prelude Crypto Base64 AuditKeyring Store CaStore Pem CaOverlap.

Lemma foldl_inv {A B} (P : A → Prop) (f : A → B → A) l a :
  P a → (∀ a x, x ∈ l → P a → P (f a x)) → P (foldl f a l).
Proof.
  revert a. induction l as [|x l IH]; intros a Ha Hf; [done|]. apply IH; [apply Hf; [left|done]|].
  intros a' y Hy. apply Hf. by right.
Qed.

Section Kept.
Context `{PemLaws} `{X509Laws}.

(** ** Parsing *)

(** Every block shortens the input, so the length of the input is enough
    fuel: more finds no further block. *)
Lemma pem_blocks_enough n m raw :
  String.length raw < n → String.length raw < m → pem_blocks n raw = pem_blocks m raw.
Proof.
  revert m raw. induction n as [|n IH]; intros [|m] raw Hn Hm; try lia. cbn [pem_blocks].
  destruct (pem_decode raw) as [[b rest]|] eqn:E; [|done]. apply decode_rest in E. f_equal. apply IH; lia.
Qed.

Lemma pem_blocks_certs cs n :
  length cs < n → pem_blocks n (certs_pem cs) = (λ c, mkBlock "CERTIFICATE" (Raw c)) <$> cs.
Proof.
  revert n. induction cs as [|c cs IH]; intros [|n] Hn; cbn in Hn; try lia; cbn [pem_blocks certs_pem].
  - by rewrite decode_empty.
  - unfold cert_pem. rewrite decode_encode by done. cbn [fmap list_fmap]. f_equal. apply IH. lia.
Qed.

Lemma certs_pem_length cs : length cs <= String.length (certs_pem cs).
Proof.
  induction cs as [|c cs IH]; [done|]. cbn [certs_pem length]. rewrite string_length_app.
  assert (0 < String.length (cert_pem c)) by (unfold cert_pem, EncodeToMemory, pem_begin; rewrite !string_length_app; cbn; lia). lia.
Qed.

(** A bundle reads back as the certificates it was made of. *)
Lemma parse_certs_pem cs :
  cs ≠ [] → Forall (λ c, ParseCertificate (Raw c) = Some c) cs → parsePEMCerts (certs_pem cs) = Ok cs.
Proof.
  intros Hne Hcs. unfold parsePEMCerts. rewrite pem_blocks_certs by (pose proof (certs_pem_length cs); lia).
  assert (omap (λ b, ParseCertificate (bl_Bytes b))
    (filter (λ b, bl_Type b = "CERTIFICATE") ((λ c, mkBlock "CERTIFICATE" (Raw c)) <$> cs)) = cs) as ->; [|by destruct cs].
  clear Hne. induction Hcs as [|c cs Hc _ IH]; [done|]. rewrite fmap_cons, filter_cons_True by done. cbn. rewrite Hc. by f_equal.
Qed.

(** ** What each step leaves alone *)

(** The fields a change to the kept set does not touch. *)
Record same_base (o o' : caOverlap) : Prop := {
  sb_grace : grace o' = grace o;
  sb_loaded : loaded o' = loaded o;
  sb_fetched : fetched o' = fetched o;
  sb_current : current o' = current o;
  sb_distrusted : distrusted o' = distrusted o;
  sb_served : served o' = served o;
  sb_seq : o_seq o' = o_seq o;
  sb_store : o_store o' = o_store o;
  sb_saved : saved o' = saved o
}.

#[local] Instance same_base_preorder : PreOrder same_base.
Proof.
  split.
  - by intros o.
  - intros o1 o2 o3 [] []. split; congruence.
Qed.

Lemma report_base action reason c fp until o : same_base o (report action reason c fp until o).
Proof. done. Qed.

Lemma drop_base fp reason o : same_base o (drop_ca fp reason o).
Proof. unfold drop_ca. by destruct (retired o !! fp). Qed.

Lemma foldl_base {B} (f : caOverlap → B → caOverlap) l o : (∀ o x, same_base o (f o x)) → same_base o (foldl f o l).
Proof. intros Hf. apply (foldl_inv (same_base o)); [reflexivity|]. intros o' x _ Ho'. etrans; [exact Ho'|apply Hf]. Qed.

Lemma drop_ended_base now o l : same_base o (foldl (drop_ended now) o l).
Proof. apply foldl_base. intros o' [fp r]. unfold drop_ended. case_decide; [reflexivity|apply drop_base]. Qed.

Lemma drop_republished_base next o l : same_base o (foldl (drop_republished next) o l).
Proof. apply foldl_base. intros o' fp. unfold drop_republished. case_decide; [apply drop_base|reflexivity]. Qed.

Lemma retire_base prev next now o : same_base o (retireLocked prev next now o).
Proof.
  unfold retireLocked. case_decide; [reflexivity|]. apply foldl_base. intros o' [fp c]. unfold retire_one.
  destruct (_ || _); [reflexivity|]. by case_decide.
Qed.

Lemma merge_row_base first next now prev o r : same_base o (merge_row first next now (prev, o) r).2.
Proof. unfold merge_row. repeat case_match; done. Qed.

Lemma merge_base stored next now o : same_base o (mergeStoredLocked stored next now o).2.
Proof.
  unfold mergeStoredLocked. apply (foldl_inv (λ acc, same_base o acc.2)); [done|].
  intros [prev o'] r _ Ho'. etrans; [exact Ho'|apply merge_row_base].
Qed.

Lemma drop_cap fp reason o : restoreCap (drop_ca fp reason o) = restoreCap o.
Proof. unfold drop_ca. by destruct (retired o !! fp). Qed.

Lemma drop_ended_cap now o l : restoreCap (foldl (drop_ended now) o l) = restoreCap o.
Proof.
  apply (foldl_inv (λ o', restoreCap o' = restoreCap o)); [done|]. intros o' [fp r] _ Ho'. unfold drop_ended.
  case_decide; [done|]. by rewrite drop_cap.
Qed.

Lemma drop_republished_cap next o l : restoreCap (foldl (drop_republished next) o l) = restoreCap o.
Proof.
  apply (foldl_inv (λ o', restoreCap o' = restoreCap o)); [done|]. intros o' fp _ Ho'. unfold drop_republished.
  case_decide; [|done]. by rewrite drop_cap.
Qed.

Lemma distrust_fold_cap fps n o : let o' := (foldl distrust_one (n, o) fps).2 in
  restoreCap o' = restoreCap o ∧ o_store o' = o_store o ∧ grace o' = grace o.
Proof.
  apply (foldl_inv (λ acc : nat * caOverlap, restoreCap acc.2 = restoreCap o ∧ o_store acc.2 = o_store o ∧ grace acc.2 = grace o)); [done|].
  intros [m o1] fp _ (Hc & Hs & Hg). unfold distrust_one. case_decide; [|done]. cbn [snd]. rewrite drop_cap.
  destruct (drop_base fp "distrusted" (set_distrusted ({[fp]} ∪ distrusted o1) o1)). cbn in *. split_and!; congruence.
Qed.

(** The merge of [update], which happens when the rows could be read. *)
Lemma merged_base stored next now o :
  same_base o (match stored with Some rows => mergeStoredLocked rows next now o | None => (current o, o) end).2.
Proof. destruct stored; [apply merge_base|reflexivity]. Qed.

(** ** The kept set *)

Lemma drop_retired fp reason o : retired (drop_ca fp reason o) = delete fp (retired o).
Proof. unfold drop_ca. destruct (retired o !! fp) eqn:E; [done|]. by rewrite delete_id. Qed.

(** Serving drops the CAs whose time is up, and nothing else. *)
Lemma drop_ended_lookup now l o fp r :
  (∀ fp r r', (fp, r) ∈ l → retired o !! fp = Some r' → r' = r) →
  retired (foldl (drop_ended now) o l) !! fp = Some r ↔ retired o !! fp = Some r ∧ ((fp, r) ∈ l → (now < rc_until r)%Z).
Proof.
  revert o. induction l as [|[fp1 r1] l IH]; intros o Hl; cbn [foldl].
  - split; [intros ?; split; [done|by intros ?%not_elem_of_nil]|by intros []].
  - assert (∀ fp2 r2 r', (fp2, r2) ∈ l → retired (drop_ended now o (fp1, r1)) !! fp2 = Some r' → r' = r2) as Hl'.
    { intros fp2 r2 r' Hin. unfold drop_ended. case_decide; [intros E; eapply Hl; [by right|done]|].
      rewrite drop_retired, lookup_delete_Some. intros [_ E]. eapply Hl; [by right|done]. }
    rewrite IH by done. unfold drop_ended. case_decide as Hnow.
    + split; (intros [Hr Hin]; split; [done|]); [|intros ?; apply Hin; by right].
      intros [[= -> ->]|?]%elem_of_cons; auto.
    + rewrite drop_retired, lookup_delete_Some. split.
      * intros [[Hne Hr] Hin]. split; [done|]. intros [[= -> ->]|?]%elem_of_cons; [done|auto].
      * intros [Hr Hin]. split; [split; [|done]|intros ?; apply Hin; by right].
        intros <-. assert (r = r1) as -> by (eapply Hl; [left|done]). destruct Hnow. apply Hin. left.
Qed.

Lemma serve_retired now o fp r :
  retired (serveLocked now o).2 !! fp = Some r ↔ retired o !! fp = Some r ∧ (now < rc_until r)%Z.
Proof.
  unfold serveLocked. cbn [snd set_served retired]. rewrite drop_ended_lookup.
  - split; intros [Hr Hn]; (split; [done|]); [|done]. apply Hn. by apply elem_of_map_to_list.
  - intros fp' r1 r2 Hin Hr. apply elem_of_map_to_list in Hin. congruence.
Qed.

Lemma republished_lookup next l o fp r :
  retired (foldl (drop_republished next) o l) !! fp = Some r ↔ retired o !! fp = Some r ∧ (fp ∈ l → next !! fp = None).
Proof.
  revert o. induction l as [|fp1 l IH]; intros o; cbn [foldl].
  - split; [intros ?; split; [done|by intros ?%not_elem_of_nil]|by intros []].
  - rewrite IH. unfold drop_republished. case_decide as Hn.
    + rewrite drop_retired, lookup_delete_Some. rewrite elem_of_cons. destruct Hn as [c Hn]. naive_solver congruence.
    + rewrite elem_of_cons. assert (next !! fp1 = None) by by apply eq_None_not_Some. naive_solver.
Qed.

Lemma kept_certs_elem o c : c ∈ kept_certs o ↔ ∃ fp r, retired o !! fp = Some r ∧ rc_cert r = c.
Proof.
  unfold kept_certs. rewrite list_elem_of_omap. split.
  - intros (fp & _ & Hc). destruct (retired o !! fp) as [r|] eqn:E; [|done]. injection Hc as <-. eauto.
  - intros (fp & r & Hr & <-). exists fp. split; [|by rewrite Hr].
    rewrite sort_strings_Permutation. apply list_elem_of_fmap. exists (fp, r). split; [done|]. by apply elem_of_map_to_list.
Qed.

(** ** The invariant *)

(** A kept CA is filed under its fingerprint, ends with its grace or its
    own expiry, and is not distrusted. *)
Definition kept_ok (o : caOverlap) : Prop :=
  ∀ fp r, retired o !! fp = Some r →
    fp_of (rc_cert r) = fp ∧ (rc_until r <= NotAfter (rc_cert r))%Z ∧ (rc_until r <= rc_keptAt r + grace o)%Z ∧ fp ∉ distrusted o.

Definition indexed (m : gmap string Certificate) : Prop := ∀ fp c, m !! fp = Some c → fp_of c = fp.

(** The issuer's CAs are those it published last, and none of them is kept
    beside. *)
Record overlap_ok (o : caOverlap) : Prop := {
  ok_kept : kept_ok o;
  ok_indexed : indexed (current o);
  ok_current fp : is_Some (current o !! fp) ↔ ∃ c, c ∈ fetched o ∧ fp_of c = fp;
  ok_apart fp : is_Some (current o !! fp) → retired o !! fp = None;
  ok_member fp c : current o !! fp = Some c → c ∈ fetched o
}.

Lemma kept_ok_shrink o o' :
  kept_ok o → grace o' = grace o → distrusted o' ⊆ distrusted o →
  (∀ fp r, retired o' !! fp = Some r → retired o !! fp = Some r) → kept_ok o'.
Proof. intros Ho Hg Hd Hr fp r E. rewrite Hg. destruct (Ho fp r (Hr _ _ E)) as (? & ? & ? & ?). split_and!; [done..|set_solver]. Qed.

Lemma kept_ok_insert o o' fp r :
  kept_ok o → same_base o o' → retired o' = <[fp := r]> (retired o) →
  fp_of (rc_cert r) = fp → (rc_until r <= NotAfter (rc_cert r))%Z → (rc_until r <= rc_keptAt r + grace o)%Z → fp ∉ distrusted o →
  kept_ok o'.
Proof.
  intros Ho [] Hr ? ? ? ? fp' r'. rewrite Hr, sb_grace0, sb_distrusted0.
  destruct (decide (fp = fp')) as [<-|Hne]; [rewrite lookup_insert_eq; by intros [= <-]|]. rewrite lookup_insert_ne by done. apply Ho.
Qed.

Lemma merge_row_ok first next now prev o r :
  kept_ok o → indexed prev →
  kept_ok (merge_row first next now (prev, o) r).2 ∧ indexed (merge_row first next now (prev, o) r).1.
Proof.
  intros Ho Hp. unfold merge_row. destruct (ParseCertificate (DER r)) as [c|]; [|done].
  destruct (negb (IsCA c)); [done|]. destruct (IsZero (KeptUntil r)).
  { destruct (_ && _); [|done]. split; [done|]. intros fp c'. cbn [fst].
    destruct (decide (fp_of c = fp)) as [<-|?]; [rewrite lookup_insert_eq; by intros [= <-]|rewrite lookup_insert_ne by done; apply Hp]. }
  cbv zeta. set (cut := if decide (KeptAt r + grace o < KeptUntil r)%Z then _ else _).
  set (until := if decide (NotAfter c < cut)%Z then _ else _).
  assert (until <= NotAfter c ∧ until <= KeptAt r + grace o)%Z as [Hu1 Hu2].
  { unfold until, cut. repeat case_decide; lia. }
  destruct (_ || _) eqn:Ex; [done|]. apply orb_false_iff in Ex as [_ Hd%bool_decide_eq_false].
  destruct (decide (now < until)%Z); [|by destruct first].
  destruct (retired o !! fp_of c) as [have|]; [destruct (_ && _); [done|]|].
  all: split; [|done]; by eapply (kept_ok_insert o); [| |reflexivity|..].
Qed.

Lemma merge_ok stored next now o :
  kept_ok o → indexed (current o) →
  kept_ok (mergeStoredLocked stored next now o).2 ∧ indexed (mergeStoredLocked stored next now o).1.
Proof.
  intros Ho Hc. unfold mergeStoredLocked. apply (foldl_inv (λ acc, kept_ok acc.2 ∧ indexed acc.1)); [done|].
  intros [prev o'] r _ [Ho' Hp]. by apply merge_row_ok.
Qed.

(** Neither files a CA the issuer publishes. *)
Lemma merge_apart stored next now o :
  (∀ fp, is_Some (next !! fp) → retired o !! fp = None) →
  ∀ fp, is_Some (next !! fp) → retired (mergeStoredLocked stored next now o).2 !! fp = None.
Proof.
  intros Ho. unfold mergeStoredLocked.
  apply (foldl_inv (λ acc : _ * caOverlap, ∀ fp, is_Some (next !! fp) → retired acc.2 !! fp = None)); [done|].
  intros [prev o'] r _ Ho' fp Hfp. cbn [snd] in Ho'. specialize (Ho' fp Hfp). unfold merge_row.
  destruct (ParseCertificate (DER r)) as [c|]; [|done]. destruct (negb (IsCA c)); [done|].
  destruct (IsZero (KeptUntil r)); [by destruct (_ && _)|]. cbv zeta.
  destruct (_ || _) eqn:Ex; [done|]. apply orb_false_iff in Ex as [Hn%bool_decide_eq_false _].
  assert (fp_of c ≠ fp) by congruence.
  case_decide; [|by destruct first || by destruct (negb _)].
  destruct (retired o' !! fp_of c); [destruct (_ && _); [done|]|]; cbn; by rewrite lookup_insert_ne.
Qed.

Lemma retire_apart prev next now o :
  (∀ fp, is_Some (next !! fp) → retired o !! fp = None) →
  ∀ fp, is_Some (next !! fp) → retired (retireLocked prev next now o) !! fp = None.
Proof.
  intros Ho. unfold retireLocked. case_decide; [done|].
  apply (foldl_inv (λ o : caOverlap, ∀ fp, is_Some (next !! fp) → retired o !! fp = None)); [done|].
  intros o' [fp' c] _ Ho' fp Hfp. unfold retire_one.
  destruct (_ || _) eqn:Ex; [by apply Ho'|]. destruct (decide (is_Some (retired o' !! fp'))); [by apply Ho'|].
  apply orb_false_iff in Ex as [[Hn%bool_decide_eq_false _]%orb_false_iff _].
  cbn. rewrite lookup_insert_ne; [by apply Ho'|congruence].
Qed.

Lemma retire_ok prev next now o : kept_ok o → indexed prev → kept_ok (retireLocked prev next now o).
Proof.
  intros Ho Hp. unfold retireLocked. case_decide; [done|]. apply foldl_inv; [done|].
  intros o' [fp c] Hin Ho'. apply elem_of_map_to_list in Hin. unfold retire_one.
  destruct (_ || _) eqn:Ex; [done|]. apply orb_false_iff in Ex as [_ Hd%bool_decide_eq_false].
  case_decide; [done|]. eapply (kept_ok_insert o'); [done|done|reflexivity|by apply Hp|..|done]; cbn [rc_until rc_cert rc_keptAt].
  all: destruct (restoreCap o' !! fp); repeat case_decide; lia.
Qed.

Lemma serve_base now o : let o' := (serveLocked now o).2 in
  grace o' = grace o ∧ loaded o' = loaded o ∧ fetched o' = fetched o ∧ current o' = current o ∧ distrusted o' = distrusted o ∧ o_store o' = o_store o.
Proof. unfold serveLocked. cbn. pose proof (drop_ended_base now o (map_to_list (retired o))) as []. done. Qed.

Lemma serve_ok now o : overlap_ok o → overlap_ok (serveLocked now o).2.
Proof.
  intros [Hk Hi Hc Ha Hmem]. destruct (serve_base now o) as (Hg & _ & Hf & Hcur & Hd & _). split.
  - eapply kept_ok_shrink; [exact Hk|done|by rewrite Hd|]. intros fp r [Hr _]%serve_retired. done.
  - by rewrite Hcur.
  - by rewrite Hcur, Hf.
  - intros fp. rewrite Hcur. intros Hs%Ha. destruct (retired (serveLocked now o).2 !! fp) eqn:E; [|done].
    apply serve_retired in E as [E _]. congruence.
  - intros fp c. rewrite Hcur, Hf. apply Hmem.
Qed.

(** The issuer's bundle as a map. *)
Lemma index_spec certs (m : gmap string Certificate) fp :
  is_Some (foldl (λ m c, <[fp_of c := c]> m) m certs !! fp) ↔ is_Some (m !! fp) ∨ ∃ c, c ∈ certs ∧ fp_of c = fp.
Proof.
  revert m. induction certs as [|c certs IH]; intros m; cbn [foldl]; [set_solver|].
  rewrite IH, lookup_insert_is_Some. destruct (decide (fp_of c = fp)); set_solver.
Qed.

Lemma index_indexed certs m : indexed m → indexed (foldl (λ m c, <[fp_of c := c]> m) m certs).
Proof.
  intros Hm. apply foldl_inv; [done|]. intros m' c _ Hm' fp c'.
  destruct (decide (fp_of c = fp)) as [<-|?]; [rewrite lookup_insert_eq; by intros [= <-]|rewrite lookup_insert_ne by done; apply Hm'].
Qed.

Lemma index_member certs fp c : (foldl (λ m c, <[fp_of c := c]> m) ∅ certs : gmap string Certificate) !! fp = Some c → c ∈ certs.
Proof.
  revert fp c. apply (foldl_inv (λ m : gmap string Certificate, ∀ fp c, m !! fp = Some c → c ∈ certs)).
  - intros fp c. by rewrite lookup_empty.
  - intros m x Hx Hm fp c. rewrite lookup_insert_Some. naive_solver.
Qed.

Lemma update_ok stored certs now o : overlap_ok o → overlap_ok (update_locked stored certs now o).2.
Proof.
  intros [Hk Hi Hc Ha Hmem]. unfold update_locked. set (next := foldl _ ∅ certs).
  destruct (match stored with Some rows => mergeStoredLocked rows next now o | None => (current o, o) end) as [prev o1] eqn:E1.
  assert (kept_ok o1 ∧ indexed prev) as [Hk1 Hp].
  { destruct stored as [rows|]; [|by injection E1 as <- <-]. pose proof (merge_ok rows next now o Hk Hi) as Hm. by rewrite E1 in Hm. }
  set (o2 := set_restoreCap ∅ (retireLocked prev next now o1)). set (o3 := foldl (drop_republished next) o2 _).
  set (o4 := if sameKeys (current o3) next then o3 else changed o3).
  assert (kept_ok o2) as Hk2 by by apply (retire_ok prev next now o1).
  assert (kept_ok o3) as Hk3.
  { pose proof (drop_republished_base next o2 (map_to_list (retired o2)).*1) as Hb. fold o3 in Hb.
    eapply kept_ok_shrink; [exact Hk2|by apply sb_grace|by rewrite (sb_distrusted _ _ Hb)|]. by intros fp r [Hr _]%republished_lookup. }
  apply serve_ok. split; cbn [current fetched retired set_fetched].
  - unfold o4. by destruct (sameKeys _ _).
  - apply index_indexed. intros ? ?. by rewrite lookup_empty.
  - intros fp. unfold next. rewrite index_spec, lookup_empty. split; [intros [[? [=]]|?]; done|by right].
  - intros fp [c Hn]. assert (retired o4 = retired o3) as -> by (unfold o4; by destruct (sameKeys _ _)).
    destruct (retired o3 !! fp) as [r|] eqn:E; [|done]. apply republished_lookup in E as [E Hin].
    rewrite Hin in Hn; [done|]. apply list_elem_of_fmap. exists (fp, r). split; [done|]. by apply elem_of_map_to_list.
  - apply index_member.
Qed.

Lemma distrust_one_ok n o fp :
  overlap_ok o → overlap_ok (distrust_one (n, o) fp).2 ∧
    current (distrust_one (n, o) fp).2 = current o ∧ fetched (distrust_one (n, o) fp).2 = fetched o ∧
    grace (distrust_one (n, o) fp).2 = grace o ∧
    distrusted (distrust_one (n, o) fp).2 = {[fp]} ∪ distrusted o ∧ retired (distrust_one (n, o) fp).2 = delete fp (retired o).
Proof.
  intros [Hk Hi Hc Ha Hmem].
  assert (∃ o', (distrust_one (n, o) fp).2 = o' ∧ current o' = current o ∧ fetched o' = fetched o ∧ grace o' = grace o ∧
    distrusted o' = {[fp]} ∪ distrusted o ∧ retired o' = delete fp (retired o)) as (o' & -> & Hcur & Hf & Hg & Hd & Hr).
  { unfold distrust_one. case_decide as Hs; eexists; (split; [reflexivity|]).
    - cbn [snd]. destruct (drop_base fp "distrusted" (set_distrusted ({[fp]} ∪ distrusted o) o)). by rewrite drop_retired.
    - cbn. rewrite delete_id; [done|]. by apply eq_None_not_Some. }
  split_and!; try done. split.
  - intros fp' r. rewrite Hr, lookup_delete_Some, Hg, Hd. intros [Hne E]. destruct (Hk _ _ E) as (? & ? & ? & ?). split_and!; [done..|set_solver].
  - by rewrite Hcur.
  - by rewrite Hcur, Hf.
  - intros fp'. rewrite Hcur, Hr. intros ?%Ha. by apply lookup_delete_None; right.
  - intros fp' c. rewrite Hcur, Hf. apply Hmem.
Qed.

Lemma distrust_fold fps n o :
  overlap_ok o → let o' := (foldl distrust_one (n, o) fps).2 in
  overlap_ok o' ∧ distrusted o' = list_to_set fps ∪ distrusted o ∧ current o' = current o ∧ fetched o' = fetched o ∧
  ∀ fp, retired o' !! fp = if decide (fp ∈ fps) then None else retired o !! fp.
Proof.
  revert n o. induction fps as [|fp fps IH]; intros n o Ho; cbn [foldl list_to_set].
  - split_and!; [done|set_solver|done|done|]. intros fp. by rewrite decide_False by apply not_elem_of_nil.
  - destruct (distrust_one (n, o) fp) as [n1 o1] eqn:E1. pose proof (distrust_one_ok n o fp Ho) as H1'. rewrite E1 in H1'. cbn [snd] in H1'.
    destruct H1' as (Ho1 & Hc1 & Hf1 & _ & Hd1 & Hr1). destruct (IH n1 o1 Ho1) as (Ho' & Hd & Hc & Hf & Hr).
    split_and!; [done|rewrite Hd, Hd1; set_solver|congruence|congruence|]. intros fp'. rewrite Hr, Hr1.
    destruct (decide (fp' ∈ fps)); [by rewrite decide_True by by right|].
    destruct (decide (fp = fp')) as [<-|Hne]; [by rewrite lookup_delete_eq, decide_True by left|].
    rewrite lookup_delete_ne by done. rewrite decide_False; [done|]. intros [?|?]%elem_of_cons; congruence.
Qed.

Lemma distrust_ok fps now o :
  overlap_ok o → let o' := (distrust_locked fps now o).2 in
  overlap_ok o' ∧ distrusted o' = list_to_set fps ∧ fetched o' = fetched o ∧
  ∀ fp r, retired o' !! fp = Some r → retired o !! fp = Some r.
Proof.
  intros Ho. unfold distrust_locked.
  assert (overlap_ok (set_distrusted ∅ o)) as Ho0.
  { destruct Ho as [Hk Hi Hc Ha Hmem]. split; [|done..]. eapply kept_ok_shrink; [exact Hk|done|apply empty_subseteq|done]. }
  pose proof (distrust_fold fps 0 _ Ho0) as Hf. destruct (foldl distrust_one _ fps) as [n o1]. cbn [snd] in *.
  destruct Hf as (Ho1 & Hd & _ & Hf & Hr). cbn [distrusted fetched retired set_distrusted] in *. rewrite (right_id_L ∅ (∪)) in Hd.
  assert (∀ fp r, retired o1 !! fp = Some r → retired o !! fp = Some r) as Hr'.
  { intros fp r. rewrite Hr. by case_decide. }
  destruct (_ && _); [|done]. destruct (serve_base now o1) as (_ & _ & Hf' & _ & Hd' & _).
  split_and!; [by apply serve_ok|congruence..|]. intros fp r [E _]%serve_retired. by apply Hr'.
Qed.

Lemma attach_ok td backend stored now o : overlap_ok o → overlap_ok (attach_locked td backend stored now o).
Proof.
  intros [Hk Hi Hc Ha Hmem]. unfold attach_locked. set (o1 := set_o_store (Some (td, backend)) o).
  destruct (mergeStoredLocked stored (current o1) now o1) as [prev o2] eqn:E2.
  pose proof (merge_ok stored (current o1) now o1 Hk Hi) as Hm. pose proof (merge_base stored (current o1) now o1) as Hb2.
  pose proof (merge_apart stored (current o1) now o1 Ha) as Hap. rewrite E2 in Hm, Hb2, Hap. destruct Hm as [Hk2 Hp].
  set (o3 := changed (retireLocked prev (current o2) now o2)).
  assert (overlap_ok o3) as Ho3.
  { pose proof (retire_base prev (current o2) now o2) as Hb3. cbn [snd] in *.
    assert (current o3 = current o) as Hcur by (etrans; [exact (sb_current _ _ Hb3)|exact (sb_current _ _ Hb2)]).
    assert (fetched o3 = fetched o) as Hfet by (etrans; [exact (sb_fetched _ _ Hb3)|exact (sb_fetched _ _ Hb2)]).
    split.
    - by apply (retire_ok prev (current o2) now o2).
    - by rewrite Hcur.
    - by rewrite Hcur, Hfet.
    - intros fp. rewrite Hcur. intros Hs. apply (retire_apart prev (current o2) now o2); rewrite (sb_current _ _ Hb2); [|done].
      intros fp' Hs'. by apply Hap.
    - intros fp c. rewrite Hcur, Hfet. apply Hmem. }
  destruct (loaded o3); [by apply serve_ok|done].
Qed.

Lemma attach_base td backend stored now o : let o' := attach_locked td backend stored now o in
  fetched o' = fetched o ∧ distrusted o' = distrusted o ∧ grace o' = grace o.
Proof.
  unfold attach_locked. set (o1 := set_o_store (Some (td, backend)) o).
  pose proof (merge_base stored (current o1) now o1) as Hb2.
  destruct (mergeStoredLocked stored (current o1) now o1) as [prev o2]. cbn [snd] in Hb2.
  set (o3 := changed (retireLocked prev (current o2) now o2)).
  assert (fetched o3 = fetched o ∧ distrusted o3 = distrusted o ∧ grace o3 = grace o) as Ho3.
  { pose proof (retire_base prev (current o2) now o2) as []. destruct Hb2. unfold o3, o1 in *. cbn in *. split_and!; congruence. }
  destruct (loaded o3); [|done]. destruct (serve_base now o3) as (Hg & _ & Hf & _ & Hd & _). destruct_and!. split_and!; congruence.
Qed.

Lemma kept_certs_NoDup o : kept_ok o → NoDup (fp_of <$> kept_certs o).
Proof.
  intros Hk. unfold kept_certs. assert (NoDup (sort_strings (map_to_list (retired o)).*1)) as Hnd.
  { rewrite sort_strings_Permutation. apply NoDup_fst_map_to_list. }
  induction Hnd as [|fp l Hin _ IH]; cbn; [constructor|].
  destruct (retired o !! fp) as [r|] eqn:E; cbn; [|done]. constructor; [|done].
  rewrite (proj1 (Hk _ _ E)). intros (c & -> & (fp' & Hfp' & Hc)%list_elem_of_omap)%list_elem_of_fmap.
  destruct (retired o !! fp') as [r'|] eqn:E'; [|done]. injection Hc as <-. rewrite (proj1 (Hk _ _ E')) in Hin. done.
Qed.

(** What retiring does to one fingerprint: a CA of [prev] that is neither
    published, expired, distrusted nor kept already is kept. *)
Definition retired_now (prev next : gmap string Certificate) (now : Z) (o : caOverlap) (fp : string) : option retiredCA :=
  match retired o !! fp with
  | Some r => Some r
  | None =>
      c ← prev !! fp;
      if decide (0 < grace o ∧ next !! fp = None ∧ now < NotAfter c ∧ fp ∉ distrusted o)%Z then
        let until := match restoreCap o !! fp with Some limit => Z.min limit (now + grace o) | None => now + grace o end%Z in
        Some (mkRetiredCA c now (Z.min until (NotAfter c)))
      else None
  end.

Lemma retire_one_lookup next now o fp c fp' :
  (0 < grace o)%Z →
  retired (retire_one next now o (fp, c)) !! fp' =
    if decide (fp' = fp) then retired_now {[fp := c]} next now o fp else retired o !! fp'.
Proof.
  intros Hg. unfold retire_one, retired_now. rewrite lookup_singleton_eq. cbn [mbind option_bind].
  destruct (_ || _) eqn:Ex.
  - apply orb_true_iff in Ex as [[E%bool_decide_eq_true|E%bool_decide_eq_true]%orb_true_iff|E%bool_decide_eq_true].
    all: destruct (decide (fp' = fp)) as [->|]; [|done]; destruct (retired o !! fp); [done|]; rewrite decide_False; [done|].
    + destruct E. intros (_ & ? & _). congruence.
    + intros (_ & _ & ? & _). lia.
    + by intros (_ & _ & _ & ?).
  - apply orb_false_iff in Ex as [[E1%bool_decide_eq_false E2%bool_decide_eq_false]%orb_false_iff E3%bool_decide_eq_false].
    destruct (decide (is_Some (retired o !! fp))) as [[r Hr]|Hn].
    + destruct (decide (fp' = fp)) as [->|]; [by rewrite Hr|done].
    + destruct (decide (fp' = fp)) as [->|Hne]; cbn [report changed set_pending set_version set_retired retired].
      * rewrite lookup_insert_eq. apply eq_None_not_Some in Hn. rewrite Hn.
        assert (0 < grace o ∧ next !! fp = None ∧ now < NotAfter c ∧ fp ∉ distrusted o)%Z as Hall.
        { split_and!; [done|by apply eq_None_not_Some|lia|done]. }
        rewrite (decide_True _ _ Hall).
        do 2 f_equal. destruct (restoreCap o !! fp); repeat case_decide; lia.
      * by rewrite lookup_insert_ne.
Qed.

Lemma retire_lookup prev next now o fp :
  (0 < grace o)%Z → retired (retireLocked prev next now o) !! fp = retired_now prev next now o fp.
Proof.
  intros Hg. unfold retireLocked. rewrite decide_False by lia.
  assert (∀ l o1, NoDup l.*1 → same_base o o1 → restoreCap o1 = restoreCap o →
    (∀ fp c, (fp, c) ∈ l → retired o1 !! fp = retired o !! fp) →
    retired (foldl (retire_one next now) o1 l) !! fp =
      match (list_to_map l : gmap string Certificate) !! fp with Some c => retired_now {[fp := c]} next now o fp | None => retired o1 !! fp end) as Hfold.
  { induction l as [|[fp1 c1] l IH]; intros o1 Hnd Hb Hcap Hl; cbn [foldl]; [cbn; by rewrite lookup_empty|].
    rewrite list_to_map_cons. apply NoDup_cons in Hnd as [Hni Hnd].
    assert (same_base o1 (retire_one next now o1 (fp1, c1)) ∧ restoreCap (retire_one next now o1 (fp1, c1)) = restoreCap o1) as [Hb' Hcap'].
    { unfold retire_one. destruct (_ || _); [done|]. by case_decide. }
    assert (∀ fp', retired (retire_one next now o1 (fp1, c1)) !! fp' =
      if decide (fp' = fp1) then retired_now {[fp1 := c1]} next now o fp1 else retired o1 !! fp') as H1'.
    { intros fp'. rewrite retire_one_lookup by (rewrite (sb_grace _ _ Hb); done). case_decide; [|done]. unfold retired_now.
      rewrite (Hl fp1 c1) by left. by rewrite (sb_grace _ _ Hb), (sb_distrusted _ _ Hb), Hcap. }
    rewrite IH; [|done|by etrans|congruence|].
    2: { intros fp' c' Hin. rewrite H1', decide_False; [apply (Hl _ c'); by right|]. intros ->. destruct Hni.
         apply list_elem_of_fmap. by exists (fp1, c'). }
    destruct (decide (fp1 = fp)) as [<-|Hne].
    - rewrite lookup_insert_eq, H1', decide_True by done. by rewrite (not_elem_of_list_to_map_1 _ _ Hni).
    - rewrite lookup_insert_ne by done. destruct ((list_to_map l : gmap string Certificate) !! fp); [done|]. by rewrite H1', decide_False by done. }
  rewrite Hfold; [|apply NoDup_fst_map_to_list|done|done|done]. rewrite list_to_map_to_list.
  unfold retired_now. destruct (prev !! fp); [by rewrite lookup_singleton_eq|]. by destruct (retired o !! fp).
Qed.

End Kept.
