(* ===== verification/CaHistory.v ===== *)
(** * CaHistory

    Histories of the overlap of an external issuer's CAs: any sequence of
    refreshes, reads, distrust lists and attachments of the database, which
    other replicas and anyone with access to it may have changed in between.
    What every served bundle consists of, that a CA the issuer dropped is
    served for its grace, that the sequence number names the bundle, and
    that no change to the kept set goes untold. *)
From S2P Require Import Prelude Crypto Base64 AuditKeyring Store CaStore Pem CaOverlap CaKept.

Section History.
Context `{PemLaws} `{X509Laws}.

(** ** Histories *)

(** [Refresh] is a bundle fetched from the issuer, [Database] whatever
    happened to the database and how its next statements fare. *)
Inductive ca_op :=
| Refresh (body : string) (now : Z)
| Serve (now : Z)
| Distrust (fps : list string) (now : Z)
| Attach (trustDomain backend : string) (now : Z)
| Database (s : Store * faults).

Definition op_now (op : ca_op) : Z :=
  match op with Refresh _ t | Serve t | Distrust _ t | Attach _ _ t => t | Database _ => 0%Z end.

(** The bundle an operation hands out, if any, and what it leaves. *)
Definition ca_run (op : ca_op) (w : world) : option string * world :=
  match op with
  | Refresh body now => let '(r, w') := update body now w in (match r with Ok out => Some out | Err _ => None end, w')
  | Serve now => serve now w
  | Distrust fps now => (None, (distrust fps now w).2)
  | Attach td backend now => (None, (attachStore td backend now w).2)
  | Database s => (None, mkWorld (w_overlap w) (w_told w) s)
  end.

Definition ca_start (g : Z) (s : Store * faults) : world := mkWorld (newCAOverlap g) [] s.

Definition run_ops (ops : list ca_op) (w : world) : world := foldl (λ w op, (ca_run op w).2) w ops.

(** The issuer's last readable bundle and the last distrust list. *)
Definition note_op (acc : list Certificate * list string) (op : ca_op) : list Certificate * list string :=
  match op with
  | Refresh body _ => match parsePEMCerts body with Ok certs => (certs, acc.2) | Err _ => acc end
  | Distrust fps _ => (acc.1, fps)
  | _ => acc
  end.

Definition noted_ops (ops : list ca_op) : list Certificate * list string := foldl note_op ([], []) ops.
Definition issuer_certs (ops : list ca_op) : list Certificate := (noted_ops ops).1.
Definition distrust_list (ops : list ca_op) : list string := (noted_ops ops).2.

(** ** One operation *)

(** What the hook and the save do to the state. *)
Lemma unlock_spec now w :
  (∃ n, w_overlap (unlock now w) = set_saved n (set_pending [] (w_overlap w))) ∧
  w_told (unlock now w) = w_told w ++ pending (w_overlap w).
Proof.
  assert (∃ n, set_pending [] (w_overlap w) = set_saved n (set_pending [] (w_overlap w))) as Hid.
  { exists (saved (w_overlap w)). by destruct (w_overlap w). }
  unfold unlock. destruct (o_store (w_overlap w)) as [[td backend]|]; [|done]. case_decide; [done|].
  unfold save. cbn [w_overlap w_told w_store]. case_decide; [done|].
  destruct (SaveUpstreamCAs _ _ _ _ _) as [[?|?] ?]; [|done]. split; [by eexists|done].
Qed.

Lemma loadStored_overlap w : w_overlap (loadStored w).2 = w_overlap w ∧ w_told (loadStored w).2 = w_told w.
Proof. unfold loadStored. repeat case_match; done. Qed.

(** The locked part of an operation, with the rows its read returned. *)
Definition locked (op : ca_op) (o o' : caOverlap) : Prop :=
  match op with
  | Refresh body now =>
      match parsePEMCerts body with
      | Ok certs => ∃ stored, (o_store o = None → stored = None) ∧ o' = (update_locked stored certs now o).2
      | Err _ => o' = o
      end
  | Serve now => o' = (serve_locked now o).2
  | Distrust fps now => o' = (distrust_locked fps now o).2
  | Attach td backend now => o' = o ∨ ∃ stored, o' = attach_locked td backend stored now o
  | Database _ => o' = o
  end.

(** An operation that hands out a bundle has served it: no CA it keeps is
    past its time. *)
Definition handed (op : ca_op) (o : caOverlap) (out : string) : Prop :=
  out = bundle_of o ∧ served o = Some out ∧ ∀ fp r, retired o !! fp = Some r → (op_now op < rc_until r)%Z.

Lemma serveLocked_handed now o op : op_now op = now → handed op (serveLocked now o).2 (serveLocked now o).1.
Proof. intros <-. split_and!; [done..|]. by intros fp r [_ ?]%serve_retired. Qed.

(** The states of one operation: the locked change, then the hook and the
    save, unless the operation had nothing to do. *)
Lemma ca_run_locked op w :
  ∃ o', locked op (w_overlap w) o' ∧
    ((∃ n, w_overlap (ca_run op w).2 = set_saved n (set_pending [] o') ∧ w_told (ca_run op w).2 = w_told w ++ pending o') ∨
     (o' = w_overlap w ∧ w_overlap (ca_run op w).2 = o' ∧ w_told (ca_run op w).2 = w_told w)) ∧
    (∀ out, (ca_run op w).1 = Some out → handed op o' out).
Proof.
  assert (∀ now o t s, let w' := unlock now (mkWorld o t s) in
    ∃ n, w_overlap w' = set_saved n (set_pending [] o) ∧ w_told w' = t ++ pending o) as Hun.
  { intros now o t s w'. destruct (unlock_spec now (mkWorld o t s)) as [[n Hn] Ht]. by exists n. }
  destruct op as [body now|now|fps now|td backend now|s]; cbn [ca_run locked].
  - unfold update. destruct (parsePEMCerts body) as [certs|e] eqn:Ep; [|exists (w_overlap w); cbn; naive_solver].
    destruct (loadStored w) as [stored w1] eqn:El. pose proof (loadStored_overlap w) as [Ho Ht]. rewrite El in Ho, Ht. cbn in Ho, Ht.
    unfold on_overlap. rewrite Ho. destruct (update_locked stored certs now (w_overlap w)) as [out o'] eqn:Eu.
    exists o'. split; [|split].
    + exists stored. rewrite Eu. split; [|done]. intros Hs. unfold loadStored in El. rewrite Hs in El. by injection El.
    + left. rewrite <-Ht. apply Hun.
    + intros ? [= <-]. unfold update_locked in Eu. destruct (match stored with Some _ => _ | None => _ end) as [prev o1].
      match type of Eu with serveLocked now ?x = _ => pose proof (serveLocked_handed now x (Refresh body now) eq_refl) as Hh end.
      by rewrite Eu in Hh.
  - unfold serve, on_overlap. destruct (serve_locked now (w_overlap w)) as [out o'] eqn:Es. exists o'. split; [done|]. split; [left; apply Hun|].
    intros out' Eo. cbn in Eo. subst out. unfold serve_locked in Es. destruct (loaded (w_overlap w)); [|done].
    pose proof (serveLocked_handed now (w_overlap w) (Serve now) eq_refl) as Hh. destruct (serveLocked now (w_overlap w)). by injection Es as <- <-.
  - unfold distrust, on_overlap. destruct (distrust_locked fps now (w_overlap w)) as [n o'] eqn:Es. exists o'. split; [done|]. split; [left; apply Hun|done].
  - unfold attachStore. destruct (LoadUpstreamCAs td backend (w_store w)) as [[rows|e] s]; [|exists (w_overlap w); cbn; naive_solver].
    exists (attach_locked td backend rows now (w_overlap w)). split; [eauto|]. split; [left; apply Hun|done].
  - exists (w_overlap w). cbn. naive_solver.
Qed.

(** ** Every served bundle *)

(** A history leaves the overlap as the issuer's last bundle and the last
    distrust list say. *)
Definition follows (ops : list ca_op) (o : caOverlap) : Prop :=
  overlap_ok o ∧ fetched o = issuer_certs ops ∧ distrusted o = list_to_set (distrust_list ops).

Lemma start_follows g : follows [] (newCAOverlap g).
Proof.
  split; [|done]. split.
  - intros fp r. cbn. by rewrite lookup_empty.
  - intros fp c. cbn. by rewrite lookup_empty.
  - intros fp. cbn. rewrite lookup_empty. split; [by intros []|]. by intros (c & ?%not_elem_of_nil & _).
  - intros fp _. apply lookup_empty.
  - intros fp c. cbn. by rewrite lookup_empty.
Qed.

Lemma follows_side ops o n : follows ops o → follows ops (set_saved n (set_pending [] o)).
Proof. intros ([Hk Hi Hc Ha Hmem] & Hf & Hd). split; [|done]. by split. Qed.

Lemma noted_snoc ops op : noted_ops (ops ++ [op]) = note_op (noted_ops ops) op.
Proof. unfold noted_ops. by rewrite foldl_app. Qed.

Lemma update_base stored certs now o :
  fetched (update_locked stored certs now o).2 = certs ∧ distrusted (update_locked stored certs now o).2 = distrusted o ∧
  grace (update_locked stored certs now o).2 = grace o ∧ o_store (update_locked stored certs now o).2 = o_store o.
Proof.
  unfold update_locked. set (next := foldl _ ∅ certs).
  destruct (match stored with Some rows => mergeStoredLocked rows next now o | None => (current o, o) end) as [prev o1] eqn:E1.
  assert (same_base o o1) as Hb1.
  { destruct stored as [rows|]; [|by injection E1 as <- <-]. pose proof (merge_base rows next now o) as Hb. by rewrite E1 in Hb. }
  set (o2 := set_restoreCap ∅ (retireLocked prev next now o1)).
  assert (same_base o1 o2) as Hb2 by (destruct (retire_base prev next now o1); by split).
  set (o3 := foldl (drop_republished next) o2 _).
  assert (same_base o2 o3) as Hb3 by apply drop_republished_base.
  set (o4 := set_fetched certs next _).
  destruct (serve_base now o4) as (Hg & _ & Hf & _ & Hd & Hs). rewrite Hg, Hf, Hd, Hs.
  assert (distrusted o4 = distrusted o3 ∧ grace o4 = grace o3 ∧ o_store o4 = o_store o3) as (-> & -> & ->) by (unfold o4; by destruct (sameKeys _ _)).
  destruct Hb1, Hb2, Hb3. split_and!; [done|congruence..].
Qed.

Lemma locked_follows ops op o o' : follows ops o → locked op o o' → follows (ops ++ [op]) o'.
Proof.
  intros (Ho & Hf & Hd) Hl. unfold follows, issuer_certs, distrust_list in *. rewrite noted_snoc.
  destruct op as [body now|now|fps now|td backend now|s]; cbn [locked note_op] in *.
  - destruct (parsePEMCerts body) as [certs|e]; [|by subst]. destruct Hl as (stored & _ & ->).
    destruct (update_base stored certs now o) as (-> & -> & _). split; [by apply update_ok|done].
  - subst o'. unfold serve_locked. destruct (loaded o); [|done]. pose proof (serve_ok now o Ho) as Hs.
    destruct (serve_base now o) as (_ & _ & Hf' & _ & Hd' & _). destruct (serveLocked now o) as [b o1]. cbn in *. split; [done|]. split; congruence.
  - subst o'. destruct (distrust_ok fps now o Ho) as (Ho' & Hd' & Hf' & _). split_and!; [done|by rewrite Hf'|done].
  - destruct Hl as [->|(stored & ->)]; [done|]. destruct (attach_base td backend stored now o) as (Hf' & Hd' & _).
    split; [by apply attach_ok|]. split; congruence.
  - by subst.
Qed.

Lemma run_snoc ops op w : run_ops (ops ++ [op]) w = (ca_run op (run_ops ops w)).2.
Proof. unfold run_ops. by rewrite foldl_app. Qed.

Lemma ca_run_follows ops op w : follows ops (w_overlap w) → follows (ops ++ [op]) (w_overlap (ca_run op w).2).
Proof.
  intros Hw. destruct (ca_run_locked op w) as (o' & Hl & Hs & _). pose proof (locked_follows _ _ _ _ Hw Hl) as Ho'.
  destruct Hs as [(n & -> & _)|(_ & -> & _)]; [by apply follows_side|done].
Qed.

Lemma run_follows g s ops : follows ops (w_overlap (run_ops ops (ca_start g s))).
Proof.
  induction ops as [|op ops IH] using rev_ind; [apply start_follows|]. rewrite run_snoc. by apply ca_run_follows.
Qed.

(** C4. Whatever the history, the database and the faults: a bundle handed out
    is the issuer's last readable bundle, in the issuer's order, followed by
    CAs that have not expired, are not on the distrust list and are not
    published by the issuer, no two of them the same. *)
Theorem served_bundle g s ops op out :
  (ca_run op (run_ops ops (ca_start g s))).1 = Some out →
  ∃ kept, out = certs_pem (issuer_certs (ops ++ [op]) ++ kept) ∧ NoDup (fp_of <$> kept) ∧
    ∀ c, c ∈ kept → (op_now op < NotAfter c)%Z ∧ (fp_of c ∉ distrust_list (ops ++ [op])) ∧
      ∀ c', c' ∈ issuer_certs (ops ++ [op]) → fp_of c' ≠ fp_of c.
Proof.
  intros Hout. destruct (ca_run_locked op (run_ops ops (ca_start g s))) as (o' & Hl & _ & Hh).
  destruct (Hh _ Hout) as (-> & _ & Hnow). destruct (locked_follows _ _ _ _ (run_follows g s ops) Hl) as ([Hk Hi Hc Ha Hmem] & Hf & Hd).
  exists (kept_certs o'). rewrite <-Hf. split_and!; [done|by apply kept_certs_NoDup|].
  intros c (fp & r & Hr & <-)%kept_certs_elem. destruct (Hk _ _ Hr) as (Hfp & Hna & _ & Hdis). specialize (Hnow _ _ Hr).
  split_and!; [lia|rewrite Hfp; set_solver|]. intros c' Hc' E. rewrite Hfp in E.
  assert (retired o' !! fp = None) as Hn by (apply Ha, Hc; eauto). congruence.
Qed.

(** ** The sequence number *)

(** The bundles a history hands out, with the sequence number read after
    each. *)
Fixpoint handouts (ops : list ca_op) (w : world) : list (Z * string) :=
  match ops with
  | [] => []
  | op :: ops' =>
      let '(r, w') := ca_run op w in
      match r with Some out => [(sequence w', out)] | None => [] end ++ handouts ops' w'
  end.

(** What was handed out so far has a lower number, or is what is served. *)
Definition numbered (past : list (Z * string)) (o : caOverlap) : Prop :=
  ∀ n b, (n, b) ∈ past → (n <= o_seq o)%Z ∧ (n = o_seq o → served o = Some b).

Lemma serve_numbered past now o : numbered past o → numbered past (serveLocked now o).2.
Proof.
  intros Hp n b Hin. destruct (Hp n b Hin) as [Hn Hs]. pose proof (drop_ended_base now o (map_to_list (retired o))) as Hb.
  unfold serveLocked. cbn. set (o1 := foldl _ o _) in *. rewrite (sb_served _ _ Hb), (sb_seq _ _ Hb).
  destruct (served o) as [old|]; [case_decide as E; [split; [done|intros ?; by rewrite <-E, Hs]|lia]|].
  split; [done|]. intros ?. by specialize (Hs ltac:(done)).
Qed.

Lemma base_numbered past o o' : served o' = served o → o_seq o' = o_seq o → numbered past o → numbered past o'.
Proof. intros Hs Hq Hp n b Hin. rewrite Hs, Hq. by apply Hp. Qed.

Lemma locked_numbered past op o o' : locked op o o' → numbered past o → numbered past o'.
Proof.
  intros Hl Hp. destruct op as [body now|now|fps now|td backend now|s]; cbn [locked] in Hl.
  - destruct (parsePEMCerts body) as [certs|e]; [|by subst]. destruct Hl as (stored & _ & ->).
    unfold update_locked. set (next := foldl _ ∅ certs).
    pose proof (merged_base stored next now o) as Hb1.
    destruct (match stored with Some rows => mergeStoredLocked rows next now o | None => (current o, o) end) as [prev o1]. cbn [snd] in Hb1.
    apply serve_numbered. apply (base_numbered _ o); [..|done].
    all: pose proof (retire_base prev next now o1) as Hb2.
    all: pose proof (drop_republished_base next (set_restoreCap ∅ (retireLocked prev next now o1))
           (map_to_list (retired (set_restoreCap ∅ (retireLocked prev next now o1)))).*1) as Hb3.
    all: destruct Hb1, Hb2, Hb3; cbn in *; destruct (sameKeys _ _); cbn; congruence.
  - subst o'. unfold serve_locked. destruct (loaded o); [|done]. pose proof (serve_numbered past now o Hp) as Hs. by destruct (serveLocked now o).
  - subst o'. unfold distrust_locked.
    assert (∀ n o1, let o2 := (foldl distrust_one (n, o1) fps).2 in served o2 = served o1 ∧ o_seq o2 = o_seq o1) as Hf.
    { intros n o1. apply (foldl_inv (λ acc : nat * caOverlap, served acc.2 = served o1 ∧ o_seq acc.2 = o_seq o1)); [done|].
      intros [m o2] fp _ [Hs Hq]. unfold distrust_one. case_decide; [|done].
      cbn [snd]. destruct (drop_base fp "distrusted" (set_distrusted ({[fp]} ∪ distrusted o2) o2)). cbn in *. split; congruence. }
    specialize (Hf 0 (set_distrusted ∅ o)). destruct (foldl distrust_one _ fps) as [n o1]. cbn in Hf. destruct Hf as [Hs Hq].
    assert (numbered past o1) as Hp1 by by apply (base_numbered _ o). destruct (_ && _); [by apply serve_numbered|done].
  - destruct Hl as [->|(stored & ->)]; [done|]. unfold attach_locked. set (o1 := set_o_store (Some (td, backend)) o).
    pose proof (merge_base stored (current o1) now o1) as Hb2. destruct (mergeStoredLocked stored (current o1) now o1) as [prev o2]. cbn [snd] in Hb2.
    set (o3 := changed _). assert (numbered past o3) as Hp3.
    { pose proof (retire_base prev (current o2) now o2) as Hb3. apply (base_numbered _ o); [..|done]; destruct Hb2, Hb3; cbn in *; congruence. }
    destruct (loaded o3); [by apply serve_numbered|done].
  - by subst.
Qed.

Lemma handouts_after past ops w n b m b' :
  numbered past (w_overlap w) → (n, b) ∈ past → (m, b') ∈ handouts ops w → (n <= m)%Z ∧ (n = m → b = b').
Proof.
  revert w. induction ops as [|op ops IH]; intros w Hp Hin; [by intros ?%not_elem_of_nil|]. cbn [handouts].
  destruct (ca_run_locked op w) as (o' & Hl & Hs & Hh). pose proof (locked_numbered past _ _ _ Hl Hp) as Hp'.
  destruct (ca_run op w) as [r w'] eqn:Er. cbn [fst snd] in *.
  assert (served (w_overlap w') = served o' ∧ o_seq (w_overlap w') = o_seq o') as [Hsv Hsq].
  { destruct Hs as [(k & -> & _)|(_ & -> & _)]; done. }
  intros [Hout|Hout]%elem_of_app; [|apply (IH w'); [by apply (base_numbered _ o')|done..]].
  destruct r as [out|]; [|by apply not_elem_of_nil in Hout]. apply list_elem_of_singleton in Hout as [= -> ->].
  destruct (Hh _ eq_refl) as (_ & Hserved & _). unfold sequence. rewrite Hsq. destruct (Hp' _ _ Hin) as [Hle Heq].
  split; [done|]. intros E. specialize (Heq E). congruence.
Qed.

(** C35. Within a process the sequence number never goes back, and it names the
    bundle: two bundles handed out under the same number are the same
    bytes. *)
Theorem sequence_names_bundle g s ops i j n m b b' :
  let l := handouts ops (ca_start g s) in
  l !! i = Some (n, b) → l !! j = Some (m, b') → i ≤ j → (n <= m)%Z ∧ (n = m → b = b').
Proof.
  intros l. unfold l. generalize (ca_start g s) as w. clear l g s. revert i j.
  induction ops as [|op ops IH]; intros i j w; [done|]. cbn [handouts].
  destruct (ca_run op w) as [[out|] w'] eqn:Er; cbn [app]; [|apply IH]. intros Hi Hj Hij.
  destruct i as [|i], j as [|j]; [by simplify_eq/=|..|lia|cbn in Hi, Hj; eapply IH; eauto; lia].
  cbn in Hi, Hj. injection Hi as <- <-. assert (numbered [(sequence w', out)] (w_overlap w')) as Hnum.
  { destruct (ca_run_locked op w) as (o' & _ & Hs & Hh). rewrite Er in Hs, Hh. cbn in Hs, Hh. destruct (Hh _ eq_refl) as (_ & Hserved & _).
    unfold sequence. intros n1 b1 [= -> ->]%list_elem_of_singleton. split; [done|]. intros _.
    destruct Hs as [(k & -> & _)|(_ & -> & _)]; done. }
  eapply handouts_after; [exact Hnum|left|]. by eapply list_elem_of_lookup_2.
Qed.

(** ** A CA the issuer dropped *)

(** A server that keeps its CAs in memory. *)
Definition in_memory (op : ca_op) : Prop := match op with Attach _ _ _ => False | _ => True end.

Record alone (g : Z) (o : caOverlap) : Prop := {
  al_store : o_store o = None;
  al_cap : restoreCap o = ∅;
  al_grace : grace o = g
}.

(** [op] comes before [until] and neither publishes nor distrusts [fp]. *)
Definition spares (fp : string) (until : Z) (op : ca_op) : Prop :=
  match op with
  | Refresh body now => (now < until)%Z ∧ ∀ certs, parsePEMCerts body = Ok certs → fp ∉ fp_of <$> certs
  | Serve now => (now < until)%Z
  | Distrust fps now => (now < until)%Z ∧ fp ∉ fps
  | _ => True
  end.

(** A refresh of such a server, one fingerprint at a time. *)
Lemma update_alone g certs now o :
  (0 < g)%Z → overlap_ok o → alone g o → let o' := (update_locked None certs now o).2 in
  alone g o' ∧ ∀ fp, fp ∉ fp_of <$> certs → ∀ r, retired o' !! fp = Some r ↔
    retired_now (current o) (foldl (λ m c, <[fp_of c := c]> m) ∅ certs) now o fp = Some r ∧ (now < rc_until r)%Z.
Proof.
  intros Hg Ho [Hs Hcap Hgr]. destruct (update_base None certs now o) as (_ & _ & Hgr' & Hs').
  unfold update_locked in *. set (next := foldl _ ∅ certs) in *. set (o2 := set_restoreCap ∅ (retireLocked (current o) next now o)) in *.
  set (o3 := foldl (drop_republished next) o2 _) in *. set (o4 := if sameKeys (current o3) next then o3 else changed o3) in *.
  split.
  - split; [congruence| |congruence]. unfold serveLocked. cbn.
    rewrite drop_ended_cap. assert (restoreCap (set_fetched certs next o4) = restoreCap o3) as -> by (unfold o4; by destruct (sameKeys _ _)).
    unfold o3. by rewrite drop_republished_cap.
  - intros fp Hfp r. rewrite serve_retired. assert (retired (set_fetched certs next o4) = retired o3) as -> by (unfold o4; by destruct (sameKeys _ _)).
    unfold o3. rewrite republished_lookup. cbn [o2 set_restoreCap retired]. rewrite retire_lookup by lia.
    assert (next !! fp = None) as Hnext.
    { apply eq_None_not_Some. unfold next. rewrite index_spec, lookup_empty. intros [[? [=]]|(c & Hc & <-)]. destruct Hfp. by apply list_elem_of_fmap_2. }
    naive_solver.
Qed.

Lemma serve_alone g now o : alone g o → alone g (serveLocked now o).2.
Proof.
  intros [? ? ?]. destruct (serve_base now o) as (Hg & _ & _ & _ & _ & Hs). split; [congruence| |congruence].
  unfold serveLocked. cbn. by rewrite drop_ended_cap.
Qed.

Lemma locked_refresh body now certs o o' :
  parsePEMCerts body = Ok certs → locked (Refresh body now) o o' →
  ∃ stored, (o_store o = None → stored = None) ∧ o' = (update_locked stored certs now o).2.
Proof. intros Hb. cbn [locked]. by rewrite Hb. Qed.

Lemma spared_stays g fp r op o o' :
  (0 < g)%Z → overlap_ok o → alone g o → in_memory op → locked op o o' → spares fp (rc_until r) op →
  retired o !! fp = Some r → alone g o' ∧ retired o' !! fp = Some r.
Proof.
  intros Hg Ho Ha Hm Hl Hsp Hr. 
  destruct op as [body now|now|fps now|td backend now|s]; cbn [locked spares in_memory] in *; [| | |done|by subst].
  - destruct (parsePEMCerts body) as [certs|e]; [|by subst]. destruct Hl as (stored & Hn & ->). rewrite (Hn (al_store _ _ Ha)).
    destruct (update_alone g certs now o Hg Ho Ha) as [Ha' Hu]. destruct Hsp as [Hnow Hcs]. split; [done|]. apply Hu; [by apply Hcs|]. unfold retired_now. by rewrite Hr.
  - subst o'. unfold serve_locked. destruct (loaded o); [|done]. pose proof (serve_alone g now o Ha) as Hs. pose proof (serve_retired now o fp r) as Hsr.
    destruct (serveLocked now o). cbn in *. naive_solver.
  - subst o'. destruct Hsp as [Hnow Hfps]. unfold distrust_locked.
    assert (overlap_ok (set_distrusted ∅ o)) as Ho0.
    { destruct Ho as [Hk Hi Hc Hap Hmem]. split; [|done..]. eapply kept_ok_shrink; [exact Hk|done|apply empty_subseteq|done]. }
    pose proof (distrust_fold fps 0 _ Ho0) as Hf. pose proof (distrust_fold_cap fps 0 (set_distrusted ∅ o)) as Hc.
    destruct (foldl distrust_one _ fps) as [n o1]. cbn [snd] in *.
    destruct Hf as (_ & _ & _ & _ & Hret). destruct Hc as (Hc1 & Hc2 & Hc3).
    assert (alone g o1 ∧ retired o1 !! fp = Some r) as [Ha1 Hr1].
    { destruct Ha. split; [split; cbn in *; congruence|]. by rewrite Hret, decide_False. }
    destruct (_ && _); [|done]. split; [by apply serve_alone|]. by apply serve_retired.
Qed.

Lemma alone_side g o n : alone g o → alone g (set_saved n (set_pending [] o)).
Proof. by intros []. Qed.

Lemma alone_step g op o o' : (0 < g)%Z → overlap_ok o → alone g o → in_memory op → locked op o o' → alone g o'.
Proof.
  intros Hg Ho Ha Hm Hl. destruct op as [body now|now|fps now|td backend now|s]; cbn [locked in_memory] in *; [| | |done|by subst].
  - destruct (parsePEMCerts body) as [certs|e]; [|by subst]. destruct Hl as (stored & Hn & ->). rewrite (Hn (al_store _ _ Ha)).
    by destruct (update_alone g certs now o Hg Ho Ha).
  - subst o'. unfold serve_locked. destruct (loaded o); [|done]. pose proof (serve_alone g now o Ha). by destruct (serveLocked now o).
  - subst o'. unfold distrust_locked. pose proof (distrust_fold_cap fps 0 (set_distrusted ∅ o)) as Hc.
    destruct (foldl distrust_one _ fps) as [n o1]. cbn [snd] in *. destruct Hc as (Hc1 & Hc2 & Hc3).
    assert (alone g o1) by (destruct Ha; split; cbn in *; congruence). destruct (_ && _); [by apply serve_alone|done].
Qed.

Lemma run_alone g s ops : (0 < g)%Z → Forall in_memory ops → alone g (w_overlap (run_ops ops (ca_start g s))).
Proof.
  intros Hg. induction ops as [|op ops IH] using rev_ind; [done|]. intros [Hops Hop]%Forall_app. rewrite Forall_singleton in Hop.
  rewrite run_snoc. destruct (ca_run_locked op (run_ops ops (ca_start g s))) as (o' & Hl & Hs & _).
  pose proof (alone_step g op _ _ Hg (proj1 (run_follows g s ops)) (IH Hops) Hop Hl) as Ha.
  destruct Hs as [(n & -> & _)|(_ & -> & _)]; [by apply alone_side|done].
Qed.

Lemma kept_in_bundle o fp r : retired o !! fp = Some r → ∃ pre post, bundle_of o = certs_pem (pre ++ rc_cert r :: post).
Proof.
  intros Hr. unfold bundle_of.
  assert (rc_cert r ∈ fetched o ++ kept_certs o) as (pre & post & ->)%list_elem_of_split; [|by exists pre, post].
  apply elem_of_app. right. apply kept_certs_elem. by exists fp, r.
Qed.

(** The bundles of operations that spare a kept CA contain it. *)
Lemma spared_handouts g fp r ops w n b past :
  (0 < g)%Z → follows past (w_overlap w) → alone g (w_overlap w) → retired (w_overlap w) !! fp = Some r →
  Forall in_memory ops → Forall (spares fp (rc_until r)) ops → (n, b) ∈ handouts ops w →
  ∃ pre post, b = certs_pem (pre ++ rc_cert r :: post).
Proof.
  intros Hg. revert past w. induction ops as [|op ops IH]; intros past w Hf Ha Hr Hm Hsp; [by intros ?%not_elem_of_nil|].
  apply Forall_cons in Hm as [Hm Hms]. apply Forall_cons in Hsp as [Hsp Hsps]. cbn [handouts].
  destruct (ca_run_locked op w) as (o' & Hl & Hs & Hh). pose proof (ca_run_follows past op w Hf) as Hf'.
  destruct (spared_stays g fp r op _ o' Hg (proj1 Hf) Ha Hm Hl Hsp Hr) as [Ha' Hr'].
  destruct (ca_run op w) as [out w'] eqn:Er. cbn [fst snd] in *. intros [Hb|Hb]%elem_of_app.
  - destruct out as [out|]; [|by apply not_elem_of_nil in Hb]. apply list_elem_of_singleton in Hb as [= -> ->].
    destruct (Hh _ eq_refl) as (-> & _). by apply (kept_in_bundle _ _ _ Hr').
  - eapply IH; [exact Hf'|..|done|done|done]; destruct Hs as [(k & -> & _)|(_ & -> & _)]; first [done|by apply alone_side].
Qed.


(** ** Every change is told *)

Definition event_for (action fp : string) (es : list KeptCAEvent) : Prop :=
  ∃ e, e ∈ es ∧ ev_Action e = action ∧ ev_Fingerprint e = hex_encode fp.

Lemma event_app action fp es es' : event_for action fp (es ++ es') ↔ event_for action fp es ∨ event_for action fp es'.
Proof. unfold event_for. setoid_rewrite elem_of_app. naive_solver. Qed.

(** [es] accounts for how the kept set changed. *)
Definition accounts (before after : gmap string retiredCA) (es : list KeptCAEvent) : Prop :=
  ∀ fp, (before !! fp = None → is_Some (after !! fp) → event_for "kept" fp es) ∧
        (is_Some (before !! fp) → after !! fp = None → event_for "dropped" fp es).

Definition tells (o o' : caOverlap) : Prop := ∃ es, pending o' = pending o ++ es ∧ accounts (retired o) (retired o') es.

Lemma accounts_same m es : accounts m m es.
Proof. intros fp. split; [intros -> []; done|intros [? ->]; done]. Qed.

Lemma tells_quiet o o' : pending o' = pending o → retired o' = retired o → tells o o'.
Proof. intros Hp Hr. exists []. rewrite app_nil_r, Hr. split; [done|apply accounts_same]. Qed.

#[local] Instance tells_preorder : PreOrder tells.
Proof.
  split; [by intros o; apply tells_quiet|]. intros o1 o2 o3 (es & Hp & Ha) (es' & Hp' & Ha').
  exists (es ++ es'). rewrite Hp', Hp, app_assoc. split; [done|]. intros fp. specialize (Ha fp). specialize (Ha' fp).
  rewrite !event_app. destruct (retired o2 !! fp) eqn:E; naive_solver.
Qed.

Lemma drop_tells fp reason o : tells o (drop_ca fp reason o).
Proof.
  unfold drop_ca. destruct (retired o !! fp) as [r|] eqn:E; [|reflexivity].
  exists [mkKeptCAEvent "dropped" reason (Subject (rc_cert r)) (hex_encode fp) (rc_until r)]. split; [done|].
  intros fp'. cbn. destruct (decide (fp = fp')) as [<-|Hne].
  - rewrite lookup_delete_eq, E. split; [done|]. intros _ _. eexists. by split; [left|].
  - rewrite lookup_delete_ne by done. apply accounts_same.
Qed.

Lemma keep_tells fp reason c until r o :
  tells o (report "kept" reason c fp until (changed (set_retired (<[fp := r]> (retired o)) o))).
Proof.
  exists [mkKeptCAEvent "kept" reason (Subject c) (hex_encode fp) until]. split; [done|].
  intros fp'. cbn. destruct (decide (fp = fp')) as [<-|Hne].
  - rewrite lookup_insert_eq. split; [intros _ _; eexists; by split; [left|]|done].
  - rewrite lookup_insert_ne by done. apply accounts_same.
Qed.

Lemma foldl_tells {B} (f : caOverlap → B → caOverlap) l o : (∀ o x, tells o (f o x)) → tells o (foldl f o l).
Proof. intros Hf. apply (foldl_inv (tells o)); [reflexivity|]. intros o' x _ Ho'. etrans; [exact Ho'|apply Hf]. Qed.

Lemma serve_tells now o : tells o (serveLocked now o).2.
Proof.
  unfold serveLocked. cbn [snd]. etrans; [|by apply tells_quiet]. apply foldl_tells. intros o' [fp r]. unfold drop_ended.
  case_decide; [reflexivity|apply drop_tells].
Qed.

Lemma retire_tells prev next now o : tells o (retireLocked prev next now o).
Proof.
  unfold retireLocked. case_decide; [reflexivity|]. apply foldl_tells. intros o' [fp c]. unfold retire_one.
  destruct (_ || _); [reflexivity|]. destruct (decide (is_Some _)); [reflexivity|]. apply keep_tells.
Qed.

(** A kept CA whose time another replica changed stays kept. *)
Lemma move_tells o fp r r' : retired o !! fp = Some r → tells o (changed (set_retired (<[fp := r']> (retired o)) o)).
Proof.
  intros Hr. exists []. cbn. rewrite app_nil_r. split; [done|]. intros fp'.
  destruct (decide (fp = fp')) as [<-|Hne]; [rewrite lookup_insert_eq, Hr; done|]. rewrite lookup_insert_ne by done. apply accounts_same.
Qed.

Lemma merge_tells stored next now o : tells o (mergeStoredLocked stored next now o).2.
Proof.
  unfold mergeStoredLocked. apply (foldl_inv (λ acc : _ * caOverlap, tells o acc.2)); [by apply tells_quiet|].
  intros [prev o'] r _ Ho'. cbn [snd] in Ho'. etrans; [exact Ho'|]. unfold merge_row.
  destruct (ParseCertificate (DER r)) as [c|]; [|reflexivity]. destruct (negb (IsCA c)); [reflexivity|].
  destruct (IsZero (KeptUntil r)); [destruct (_ && _); [by apply tells_quiet|reflexivity]|]. cbv zeta.
  destruct (_ || _); [reflexivity|]. destruct (decide (now < _)%Z).
  - destruct (retired o' !! fp_of c) as [have|] eqn:E; [|apply keep_tells]. destruct (_ && _); [reflexivity|]. by eapply move_tells.
  - destruct (negb (baselined o)); [|reflexivity]. eexists. split; [reflexivity|apply accounts_same].
Qed.

Lemma locked_tells op o o' : locked op o o' → tells o o'.
Proof.
  intros Hl. destruct op as [body now|now|fps now|td backend now|s]; cbn [locked] in Hl.
  - destruct (parsePEMCerts body) as [certs|e]; [|by subst; reflexivity]. destruct Hl as (stored & _ & ->).
    unfold update_locked. set (next := foldl _ ∅ certs).
    assert (tells o (match stored with Some rows => mergeStoredLocked rows next now o | None => (current o, o) end).2) as H1'.
    { destruct stored; [apply merge_tells|reflexivity]. }
    destruct (match stored with Some rows => mergeStoredLocked rows next now o | None => (current o, o) end) as [prev o1].
    etrans; [exact H1'|]. etrans; [apply (retire_tells prev next now)|]. etrans; [|apply serve_tells].
    set (o2 := set_restoreCap ∅ (retireLocked prev next now o1)). etrans; [by apply (tells_quiet _ o2)|].
    etrans; [apply (foldl_tells (drop_republished next) (map_to_list (retired o2)).*1)|].
    + intros o' fp. unfold drop_republished. case_decide; [apply drop_tells|reflexivity].
    + by destruct (sameKeys _ _); apply tells_quiet.
  - subst o'. unfold serve_locked. destruct (loaded o); [|reflexivity]. pose proof (serve_tells now o). by destruct (serveLocked now o).
  - subst o'. unfold distrust_locked.
    assert (tells o (foldl distrust_one (0, set_distrusted ∅ o) fps).2) as Hf.
    { apply (foldl_inv (λ acc : nat * caOverlap, tells o acc.2)); [by apply tells_quiet|]. intros [n o1] fp _ Ho1. cbn [snd] in Ho1.
      etrans; [exact Ho1|]. unfold distrust_one. case_decide; cbn [snd]; [|by apply tells_quiet]. etrans; [|apply drop_tells]. by apply tells_quiet. }
    destruct (foldl distrust_one _ fps) as [n o1]. cbn in Hf. etrans; [exact Hf|]. destruct (_ && _); [apply serve_tells|reflexivity].
  - destruct Hl as [->|(stored & ->)]; [reflexivity|]. unfold attach_locked. set (o1 := set_o_store (Some (td, backend)) o).
    pose proof (merge_tells stored (current o1) now o1) as Hm. destruct (mergeStoredLocked stored (current o1) now o1) as [prev o2]. cbn [snd] in Hm.
    set (o3 := changed _). assert (tells o o3) as Ho3.
    { etrans; [by apply (tells_quiet _ o1)|]. etrans; [exact Hm|]. etrans; [apply (retire_tells prev (current o2) now)|]. by apply tells_quiet. }
    destruct (loaded o3); [|done]. etrans; [exact Ho3|apply serve_tells].
  - subst. reflexivity.
Qed.

Lemma run_quiet g s ops : pending (w_overlap (run_ops ops (ca_start g s))) = [].
Proof.
  induction ops as [|op ops IH] using rev_ind; [done|]. rewrite run_snoc.
  destruct (ca_run_locked op (run_ops ops (ca_start g s))) as (o' & _ & Hs & _). destruct Hs as [(n & -> & _)|(-> & -> & _)]; done.
Qed.

(** C37. Every change to the kept set is told to the hook with the operation
    that made it: a CA that is kept after it and was not before comes with
    an event "kept", one that is no longer kept with an event "dropped". *)
Theorem kept_changes_told g s ops op :
  let w := run_ops ops (ca_start g s) in
  let w' := (ca_run op w).2 in
  ∃ es, w_told w' = w_told w ++ es ∧ accounts (retired (w_overlap w)) (retired (w_overlap w')) es.
Proof.
  intros w w'. unfold w', w. destruct (ca_run_locked op (run_ops ops (ca_start g s))) as (o' & Hl & Hs & _).
  destruct (locked_tells _ _ _ Hl) as (es & Hp & Ha). rewrite run_quiet in Hp.
  destruct Hs as [(n & -> & ->)|(-> & -> & ->)].
  - rewrite Hp. by exists es.
  - exists []. rewrite app_nil_r. split; [done|apply accounts_same].
Qed.

End History.

(** ** Examples *)

#[local] Existing Instance Blocks.blocks.
#[local] Existing Instance Blocks.blocks_laws.
#[local] Existing Instance NamedKeys.named.
#[local] Existing Instance NamedKeys.named_laws.

Definition issuer_ca (k : string) : Certificate :=
  mkCertificate ("CA " +:+ k) ("CN=" +:+ k) true (4000000000 * Second) (Some (mkEcdsa 256 k)).

Definition noon : Z := 1790000000 * Second.

(** The issuer publishes two CAs, then drops the first. *)
Definition before_rotation : list ca_op := [Refresh (certs_pem [issuer_ca "old"; issuer_ca "new"]) noon].
Definition rotated : string := certs_pem [issuer_ca "new"].
Definition after_rotation : list ca_op := [Serve (noon + 2 * Hour); Refresh rotated (noon + 20 * Hour)].

Definition demo_store : Store * faults := (new_store driverSQLite, []).

Lemma served_bundle_witness :
  ∃ out, (ca_run (Refresh rotated (noon + Hour)) (run_ops before_rotation (ca_start (24 * Hour) demo_store))).1 = Some out ∧
  ∃ kept, out = certs_pem (issuer_certs (before_rotation ++ [Refresh rotated (noon + Hour)]) ++ kept) ∧ NoDup (fp_of <$> kept) ∧
    ∀ c, c ∈ kept → (noon + Hour < NotAfter c)%Z ∧ (fp_of c ∉ distrust_list (before_rotation ++ [Refresh rotated (noon + Hour)])) ∧
      ∀ c', c' ∈ issuer_certs (before_rotation ++ [Refresh rotated (noon + Hour)]) → fp_of c' ≠ fp_of c.
Proof.
  exists (certs_pem [issuer_ca "new"; issuer_ca "old"]).
  assert ((ca_run (Refresh rotated (noon + Hour)) (run_ops before_rotation (ca_start (24 * Hour) demo_store))).1 =
    Some (certs_pem [issuer_ca "new"; issuer_ca "old"])) as Hrun by (vm_compute; reflexivity).
  split; [exact Hrun|].
  exact (served_bundle (24 * Hour) demo_store before_rotation (Refresh rotated (noon + Hour)) _ Hrun).
Defined.

Lemma sequence_names_bundle_witness :
  ∃ n m b b', handouts (before_rotation ++ [Refresh rotated (noon + Hour)]) (ca_start (24 * Hour) demo_store) = [(n, b); (m, b')] ∧
    (n <= m)%Z ∧ (n = m → b = b').
Proof.
  exists 1%Z, 2%Z, (certs_pem [issuer_ca "old"; issuer_ca "new"]), (certs_pem [issuer_ca "new"; issuer_ca "old"]).
  assert (handouts (before_rotation ++ [Refresh rotated (noon + Hour)]) (ca_start (24 * Hour) demo_store) =
    [(1%Z, certs_pem [issuer_ca "old"; issuer_ca "new"]); (2%Z, certs_pem [issuer_ca "new"; issuer_ca "old"])]) as Hrun by (vm_compute; reflexivity).
  split; [exact Hrun|].
  apply (sequence_names_bundle (24 * Hour) demo_store (before_rotation ++ [Refresh rotated (noon + Hour)]) 0 1); rewrite ?Hrun; auto.
Defined.

