(* ===== verification/BundleSeq.v ===== *)
(** * BundleSeq

    The number of the trust bundle, spiffe_sequence
    (src/internal/server/identity/bundle_sequence.go): it is kept in the
    database with a digest of the trust material it was served for, so that
    it does not go back across a restart and replicas agree on it. *)
From S2P Require Import Prelude Crypto AuditKeyring Store CaStore.

Record DurableSequence := mkDurable {
  ds_seq : Z;
  ds_digest : string;
  ds_srcSeq : Z;
  retryAt : Z;
  resyncAt : Z
}.

Definition fresh_durable : DurableSequence := mkDurable 0 "" 0 zero_time zero_time.

(** What the source offers at one call: the anchors, the JWT keys unless
    they cannot be read, and its own count of changes, 0 for a source that
    does not count. *)
Record material := mkMaterial { mt_pem : string; mt_jwks : option string; mt_srcSeq : Z }.

Definition nul : string := String "000" "".

(** [materialDigest]. *)
Definition materialDigest (m : material) : option string :=
  (λ jwks, sha256_hex (mt_pem m +:+ nul +:+ jwks)) <$> mt_jwks m.

Definition sequenceRecheck : Z := 30 * Second.
Definition maxStoredSequence : Z := 281474976710656.

(** The state of the process, the database and the faults of its
    statements. *)
Abbreviation SeqM A := (DurableSequence * (Store * faults) → A * (DurableSequence * (Store * faults))).

(** The number that [digest] gets when the database holds [stored] and
    [storedDigest]. *)
Definition numbered_as (d : DurableSequence) (stored : Z) (storedDigest digest : string) (srcSeq : Z) : Z :=
  if bool_decide (storedDigest = digest) && (bool_decide (ds_seq d < stored)%Z || bool_decide (ds_seq d = 0%Z)) then stored
  else
    let step := wrap64 (srcSeq - ds_srcSeq d) in
    let step := if bool_decide (ds_seq d = 0%Z) || bool_decide (step < 1)%Z then 1%Z else step in
    wrap64 (Z.max (ds_seq d) stored + step).

(** [number], at [now]: the sequence, and whether there was no error. *)
Definition number (trustDomain digest : string) (srcSeq now : Z) : SeqM (Z * bool) := λ '(d, w),
  let failed w1 := ((ds_seq d, false), (mkDurable (ds_seq d) (ds_digest d) (ds_srcSeq d) (now + sequenceRecheck) (resyncAt d), w1)) in
  match LoadBundleSequence trustDomain w with
  | (Err _, w1) => failed w1
  | (Ok (stored, storedDigest), w1) =>
      if bool_decide (stored < 0)%Z || bool_decide (maxStoredSequence < stored)%Z then failed w1
      else if decide (digest = ds_digest d) then
        let seq := if bool_decide (storedDigest = digest) && bool_decide (ds_seq d < stored)%Z then stored else ds_seq d in
        ((seq, true), (mkDurable seq (ds_digest d) (ds_srcSeq d) (retryAt d) (now + sequenceRecheck), w1))
      else
        let seq := numbered_as d stored storedDigest digest srcSeq in
        if decide (seq = stored ∧ storedDigest = digest) then
          ((seq, true), (mkDurable seq digest srcSeq (retryAt d) (resyncAt d), w1))
        else
          match SaveBundleSequence trustDomain seq digest now w1 with
          | (Err ErrNotLeader, w2) => ((seq, true), (mkDurable seq digest srcSeq (retryAt d) (now + sequenceRecheck), w2))
          | (_, w2) => ((seq, true), (mkDurable seq digest srcSeq (retryAt d) zero_time, w2))
          end
  end.

(** [next]: [busy] when another caller is reading or writing the store. *)
Definition next_seq (trustDomain : string) (m : material) (busy : bool) (now : Z) : SeqM (Z * bool) := λ '(d, w),
  match materialDigest m with
  | None => ((ds_seq d, false), (d, w))
  | Some digest =>
      let current := bool_decide (digest = ds_digest d) && (IsZero (resyncAt d) || bool_decide (now < resyncAt d)%Z) in
      let holdOff := bool_decide (now < retryAt d)%Z in
      if current || holdOff || busy then ((ds_seq d, true), (d, w))
      else number trustDomain digest (mt_srcSeq m) now (d, w)
  end.

(** [NewDurableSequence]: the server does not start when it fails. *)
Definition NewDurableSequence (trustDomain : string) (m : material) (now : Z) (w : Store * faults) : option DurableSequence * (Store * faults) :=
  let '((_, ok), (d, w1)) := next_seq trustDomain m false now (fresh_durable, w) in
  (if (ok : bool) then Some d else None, w1).

Definition BundleSequence (trustDomain : string) (m : material) (busy : bool) (now : Z) : SeqM Z := λ x,
  let '((seq, _), y) := next_seq trustDomain m busy now x in (seq, y).

(** ** The number never goes back *)

(** Sources count from zero and below this bound, and the number is far
    from the end of its width. *)
Definition src_bound : Z := 1048576.

Definition small_src (m : material) : Prop := (0 <= mt_srcSeq m < src_bound)%Z.

Definition max_calls : Z := 134217728.

(** After [n] calls the number is at most this. *)
Definition seq_bound (n : nat) : Z := maxStoredSequence + Z.of_nat n * src_bound.

Record ds_ok (n : nat) (d : DurableSequence) : Prop := {
  ds_range : (0 <= ds_seq d <= seq_bound n)%Z;
  ds_src : (0 <= ds_srcSeq d < src_bound)%Z
}.

Lemma numbered_as_range n d stored sd digest src :
  (Z.of_nat n < max_calls)%Z → ds_ok n d → (0 <= stored <= maxStoredSequence)%Z → (0 <= src < src_bound)%Z →
  (ds_seq d <= numbered_as d stored sd digest src <= seq_bound (S n))%Z ∧ (stored <= numbered_as d stored sd digest src)%Z ∧
  (sd ≠ digest ∨ stored <= ds_seq d → ds_seq d < numbered_as d stored sd digest src ∨ (ds_seq d = 0 ∧ sd = digest))%Z ∧
  (sd ≠ digest → stored < numbered_as d stored sd digest src)%Z.
Proof.
  intros Hn [[H0 H1] [H2 H3]] Hst Hsrc. unfold numbered_as, seq_bound, src_bound, maxStoredSequence, max_calls in *.
  destruct (bool_decide (sd = digest) && _) eqn:E.
  - apply andb_true_iff in E as [Hd%bool_decide_eq_true E]. apply orb_true_iff in E as [E%bool_decide_eq_true|E%bool_decide_eq_true].
    all: split_and!; try lia; naive_solver lia.
  - rewrite (wrap64_id (src - ds_srcSeq d)) by (unfold in_int64, two63; lia).
    set (step := if _ || _ then _ else _). assert (1 <= step < 1048576)%Z as Hstep.
    { unfold step. destruct (bool_decide_reflect (ds_seq d = 0%Z)), (bool_decide_reflect (src - ds_srcSeq d < 1)%Z); cbn; lia. }
    rewrite wrap64_id by (unfold in_int64, two63; lia). split_and!; lia.
Qed.

Lemma number_mono n td digest src now d w seq ok d' w' :
  (Z.of_nat n < max_calls)%Z → ds_ok n d → (0 <= src < src_bound)%Z →
  number td digest src now (d, w) = ((seq, ok), (d', w')) → (ds_seq d <= seq)%Z ∧ ds_seq d' = seq ∧ ds_ok (S n) d'.
Proof.
  intros Hn Hd Hsrc. unfold number.
  assert (ds_seq d <= seq_bound (S n))%Z as Hle by (destruct Hd as [[_ H1] _]; unfold seq_bound, src_bound in *; lia).
  destruct (LoadBundleSequence td w) as [[[stored sd]|e] w1].
  2: { intros [= <- <- <- <-]. destruct Hd. by repeat split; cbn; lia. }
  destruct (bool_decide_reflect (stored < 0)%Z), (bool_decide_reflect (maxStoredSequence < stored)%Z); cbn [orb].
  1-3: intros [= <- <- <- <-]; destruct Hd; by repeat split; cbn; lia.
  case_decide.
  - set (s0 := if _ && _ then stored else ds_seq d). intros [= <- <- <- <-].
    assert (ds_seq d <= s0 <= seq_bound (S n))%Z as Hs0.
    { unfold s0. destruct (bool_decide_reflect (sd = digest)), (bool_decide_reflect (ds_seq d < stored)%Z); cbn; unfold seq_bound, src_bound in *; lia. }
    destruct Hd. repeat split; cbn; lia.
  - destruct (numbered_as_range n d stored sd digest src Hn Hd ltac:(lia) Hsrc) as ([Hlo Hhi] & _ & _ & _).
    set (s0 := numbered_as d stored sd digest src) in *. destruct Hd as [[? ?] [? ?]].
    case_decide; [intros [= <- <- <- <-]; repeat split; cbn; lia|].
    destruct (SaveBundleSequence td s0 digest now w1) as [[u|e] w2]; [|destruct e]; intros [= <- <- <- <-]; repeat split; cbn; lia.
Qed.

Lemma next_mono n td m busy now d w seq ok d' w' :
  (Z.of_nat n < max_calls)%Z → ds_ok n d → small_src m →
  next_seq td m busy now (d, w) = ((seq, ok), (d', w')) → (ds_seq d <= seq)%Z ∧ ds_seq d' = seq ∧ ds_ok (S n) d'.
Proof.
  intros Hn Hd Hm. assert (ds_ok (S n) d) as Hd' by (destruct Hd as [[? ?] ?]; split; [unfold seq_bound, src_bound in *; lia|done]).
  unfold next_seq. destruct (materialDigest m) as [digest|]; [|by intros [= <- <- <- <-]].
  destruct (_ || _ || _); [by intros [= <- <- <- <-]|]. by apply number_mono.
Qed.

(** A process asks for the number again and again; in between anything may
    happen to the database, and [busy] tells that another caller is at the
    store. *)
Inductive seq_op := Ask (m : material) (busy : bool) (now : Z) | Elsewhere (w : Store * faults).

Definition op_src (op : seq_op) : Prop := match op with Ask m _ _ => small_src m | Elsewhere _ => True end.

Fixpoint answers (td : string) (ops : list seq_op) (d : DurableSequence) (w : Store * faults) : list Z :=
  match ops with
  | [] => []
  | Ask m busy now :: ops' => let '(seq, (d', w')) := BundleSequence td m busy now (d, w) in seq :: answers td ops' d' w'
  | Elsewhere w' :: ops' => answers td ops' d w'
  end.

Lemma answers_above td ops n d w :
  (Z.of_nat (n + length ops) <= max_calls)%Z → ds_ok n d → Forall op_src ops →
  StronglySorted Z.le (answers td ops d w) ∧ Forall (Z.le (ds_seq d)) (answers td ops d w).
Proof.
  revert n d w. induction ops as [|[m busy now|w'] ops IH]; intros n d w Hn Hd Hops; cbn [answers]; [by repeat constructor|..].
  all: apply Forall_cons in Hops as [Hop Hops]; cbn [length] in Hn.
  - unfold BundleSequence. destruct (next_seq td m busy now (d, w)) as [[seq ok] [d' w']] eqn:E.
    destruct (next_mono n td m busy now d w seq ok d' w' ltac:(lia) Hd Hop E) as (Hle & Hseq & Hd').
    destruct (IH (S n) d' w' ltac:(lia) Hd' Hops) as [Hs Hall]. rewrite Hseq in Hall. split; [by constructor|]. constructor; [done|].
    eapply Forall_impl; [exact Hall|]. intros z Hz. lia.
  - apply (IH (S n)); [lia| |done]. destruct Hd as [[? ?] ?]. split; [unfold seq_bound, src_bound in *; lia|done].
Qed.

(** C36. While a process runs, spiffe_sequence never goes back: whatever the
    database holds and however its statements fare, each answer is at least
    the one before it. *)
Theorem sequence_never_back td ops m now w d w' :
  (Z.of_nat (S (length ops)) <= max_calls)%Z → small_src m → Forall op_src ops →
  NewDurableSequence td m now w = (Some d, w') → StronglySorted Z.le (ds_seq d :: answers td ops d w').
Proof.
  intros Hn Hm Hops. unfold NewDurableSequence. destruct (next_seq td m false now (fresh_durable, w)) as [[seq ok] [d1 w1]] eqn:E.
  destruct ok; [|done]. intros [= -> ->].
  destruct (next_mono 0 td m false now fresh_durable w seq true d w' eq_refl ltac:(done) Hm E) as (_ & _ & Hd).
  destruct (answers_above td ops 1 d w' ltac:(lia) Hd Hops). by constructor.
Qed.

(** ** Across restarts *)

(** The life of a server: it starts, or is asked for the number. *)
Inductive life := Boot (m : material) (now : Z) | Query (m : material) (now : Z).

Definition life_ok (l : life) : Prop :=
  match l with Boot m now | Query m now => small_src m ∧ (zero_time <= now)%Z ∧ is_Some (mt_jwks m) end.

(** The number and the digest of the material it is served for. *)
Definition live (td : string) (l : life) (st : option DurableSequence * Store) : list (Z * string) * (option DurableSequence * Store) :=
  match l with
  | Boot m now =>
      let '(od, w) := NewDurableSequence td m now (st.2, []) in
      (match od with Some d => [(ds_seq d, default "" (materialDigest m))] | None => [] end, (od, w.1))
  | Query m now =>
      match st.1 with
      | None => ([], st)
      | Some d =>
          let '(seq, (d', w)) := BundleSequence td m false now (d, (st.2, [])) in
          ([(seq, default "" (materialDigest m))], (Some d', w.1))
      end
  end.

Fixpoint lives (td : string) (ls : list life) (st : option DurableSequence * Store) : list (Z * string) :=
  match ls with
  | [] => []
  | l :: ls' => let '(out, st') := live td l st in out ++ lives td ls' st'
  end.

Definition stored_row (td : string) (s : Store) : Z * string :=
  match bundle_sequence (db s) !! td with Some r => (bs_seq r, bs_digest r) | None => (0%Z, "") end.

Lemma load_run td s : LoadBundleSequence td (s, []) = (Ok (stored_row td s), (s, [])).
Proof.
  unfold LoadBundleSequence, stored_row. erewrite bind_run by reflexivity. cbn. by destruct (bundle_sequence (db s) !! td).
Qed.

Lemma save_run td seq digest now s :
  IsLeader s = true → ((stored_row td s).1 < seq ∧ 0 < seq)%Z →
  ∃ s', SaveBundleSequence td seq digest now (s, []) = (Ok tt, (s', [])) ∧ IsLeader s' = true ∧ stored_row td s' = (seq, digest).
Proof.
  intros HL [Hs H0]. unfold SaveBundleSequence. rewrite leader_only_leader, statement_run by done. eexists. split_and!; [reflexivity|done|].
  unfold stored_row, save_sequence in *. cbn [db set_db fst snd] in *.
  destruct (bundle_sequence (db s) !! td) as [r|]; cbn [fst] in Hs; [rewrite decide_True by done|]; cbn; by rewrite lookup_insert_eq.
Qed.

(** Between two calls the process and the database agree. *)
Record agrees (n : nat) (td : string) (st : option DurableSequence * Store) : Prop := {
  ag_leader : IsLeader st.2 = true;
  ag_range : (0 <= (stored_row td st.2).1 <= Z.of_nat n * src_bound)%Z;
  ag_pos : (stored_row td st.2).2 ≠ "" → (0 < (stored_row td st.2).1)%Z;
  ag_proc d : st.1 = Some d →
    (ds_seq d, ds_digest d) = stored_row td st.2 ∧ (0 < ds_seq d)%Z ∧ resyncAt d = zero_time ∧ retryAt d = zero_time ∧ (0 <= ds_srcSeq d < src_bound)%Z
}.

Lemma digest_nonempty m : materialDigest m ≠ Some "".
Proof.
  unfold materialDigest. destruct (mt_jwks m) as [j|]; [|done]. cbn. intros [= E].
  apply (f_equal String.length) in E. unfold sha256_hex in E. rewrite hex_encode_length, sha256_length in E. done.
Qed.

(** A numbering in which nothing fails. *)
Lemma number_run n td digest src now d s :
  (Z.of_nat n < max_calls)%Z → IsLeader s = true → digest ≠ "" → digest ≠ ds_digest d →
  (0 <= (stored_row td s).1 <= Z.of_nat n * src_bound)%Z → ((stored_row td s).2 ≠ "" → 0 < (stored_row td s).1)%Z →
  (0 <= src < src_bound)%Z → (0 <= ds_srcSeq d < src_bound)%Z →
  (d = fresh_durable ∨ (0 < ds_seq d)%Z ∧ (ds_seq d, ds_digest d) = stored_row td s) → resyncAt d = zero_time → retryAt d = zero_time →
  ∃ seq d' s', number td digest src now (d, (s, [])) = ((seq, true), (d', (s', []))) ∧
    agrees (S n) td (Some d', s') ∧ stored_row td s' = (seq, digest) ∧ ds_seq d' = seq ∧
    ((stored_row td s).1 <= seq)%Z ∧ (seq = (stored_row td s).1 ↔ digest = (stored_row td s).2).
Proof.
  intros Hn HL Hne Hdig Hst Hspos Hsrc Hdsrc Hd Hre Hrt. unfold number. rewrite load_run. destruct (stored_row td s) as [stored sd] eqn:Est. cbn [fst snd] in *.
  assert (ds_ok n d) as Hok.
  { split; [|done]. destruct Hd as [->|[? [= -> _]]]; unfold seq_bound, maxStoredSequence, src_bound in *; cbn; lia. }
  assert (0 <= stored <= maxStoredSequence)%Z as Hrange by (unfold maxStoredSequence, src_bound, max_calls in *; lia).
  rewrite !bool_decide_eq_false_2 by lia. cbn [orb]. rewrite (decide_False _ _ Hdig).
  destruct (numbered_as_range n d stored sd digest src Hn Hok Hrange Hsrc) as ([Hlo Hhi] & Hge & Hgt & Hgt').
  set (seq := numbered_as d stored sd digest src) in *.
  assert (seq <= Z.of_nat (S n) * src_bound)%Z as Hbound.
  { unfold seq, numbered_as, src_bound, max_calls in *. destruct (_ && _); [lia|]. rewrite (wrap64_id (src - _)) by (unfold in_int64, two63; lia).
    assert (ds_seq d <= stored)%Z by (destruct Hd as [->|[? [= -> _]]]; cbn; lia).
    set (step := if _ || _ then _ else _). assert (1 <= step < 1048576)%Z.
    { unfold step. destruct (bool_decide_reflect (ds_seq d = 0%Z)), (bool_decide_reflect (src - ds_srcSeq d < 1)%Z); cbn; lia. }
    rewrite wrap64_id by (unfold in_int64, two63; lia). lia. }
  destruct (decide (sd = digest)) as [->|Hsd].
  - assert (seq = stored) as Hseq.
    { destruct Hd as [->|[_ [= _ E]]]; [|by rewrite E in Hdig]. unfold seq, numbered_as. rewrite bool_decide_eq_true_2 by done. cbn. by rewrite orb_true_r. }
    assert (0 < stored)%Z as Hpos by by apply Hspos.
    rewrite decide_True by done. exists seq, (mkDurable seq digest src (retryAt d) (resyncAt d)), s. rewrite Hseq in *.
    split_and!; try done. split; cbn; [done|rewrite Est; cbn; lia|by rewrite Est|]. intros d1 [= <-]. rewrite Est. cbn. done.
  - specialize (Hgt' Hsd). assert (0 < seq)%Z by lia.
    rewrite decide_False by (by intros [_ ?]).
    destruct (save_run td seq digest now s HL) as (s' & Hsave & HL' & Hrow); [by rewrite Est|]. rewrite Hsave.
    exists seq, (mkDurable seq digest src (retryAt d) zero_time), s'. split_and!; try done; [|split; [lia|congruence]].
    split; cbn; [done|rewrite Hrow; cbn; lia|by rewrite Hrow|]. intros d1 [= <-]. rewrite Hrow. cbn. done.
Qed.

Lemma agrees_more n td st : agrees n td st → agrees (S n) td st.
Proof. intros [HL [H0 H1] Hp Hd]. split; [done| |done|done]. unfold src_bound in *. lia. Qed.

(** One event of a life: what is served is what the database then holds,
    which never goes back, and is the old number exactly when the material
    is the old material. *)
Lemma live_run n td l st :
  (Z.of_nat n < max_calls)%Z → agrees n td st → life_ok l → (∃ m now, l = Boot m now) ∨ is_Some st.1 →
  ∃ seq digest st', live td l st = ([(seq, digest)], st') ∧ agrees (S n) td st' ∧ is_Some st'.1 ∧
    stored_row td st'.2 = (seq, digest) ∧ ((stored_row td st.2).1 <= seq)%Z ∧
    (seq = (stored_row td st.2).1 ↔ digest = (stored_row td st.2).2).
Proof.
  intros Hn Hag Hl Hrun. destruct st as [od s]. destruct Hag as [HL Hr Hp Hd]. cbn [fst snd] in *.
  assert (∃ m now, (l = Boot m now ∨ l = Query m now) ∧ small_src m ∧ (zero_time <= now)%Z ∧ is_Some (mt_jwks m)) as (m & now & Hlm & Hm & Hnow & Hj).
  { destruct l as [m now|m now]; exists m, now; destruct Hl as (? & ? & ?); eauto. }
  assert (∃ digest, materialDigest m = Some digest) as [digest Hdig] by (unfold materialDigest; destruct Hj as [j ->]; by eexists).
  assert (digest ≠ "") as Hne by (intros ->; by apply (digest_nonempty m)).
  assert (∀ d, resyncAt d = zero_time → retryAt d = zero_time → digest ≠ ds_digest d →
    next_seq td m false now (d, (s, [])) = number td digest (mt_srcSeq m) now (d, (s, []))) as Hnext.
  { intros d Hre Hrt E. unfold next_seq. rewrite Hdig, Hre, Hrt, (bool_decide_eq_false_2 _ E). cbn [andb orb].
    by rewrite bool_decide_eq_false_2 by lia. }
  destruct Hlm as [-> | ->]; cbn [live fst snd].
  - destruct (number_run n td digest (mt_srcSeq m) now fresh_durable s) as (seq & d' & s' & Hnum & Hag' & Hrow & Hseq & Hle & Hiff); try done; [by left|].
    unfold NewDurableSequence. rewrite (Hnext fresh_durable eq_refl eq_refl Hne), Hnum. rewrite Hdig. cbn [default fst].
    exists seq, digest, (Some d', s'). rewrite Hseq. split_and!; try done.
  - destruct Hrun as [(? & ? & [=])|[d ->]]. destruct (Hd d eq_refl) as (Hrow & Hpos & Hre & Hrt & Hsrc). unfold BundleSequence.
    destruct (decide (digest = ds_digest d)) as [E|E].
    + unfold next_seq. rewrite Hdig, Hre. rewrite (bool_decide_eq_true_2 _ E). cbn [andb orb]. cbn [IsZero]. unfold IsZero. rewrite bool_decide_eq_true_2 by done. cbn [orb].
      exists (ds_seq d), digest, (Some d, s). rewrite <-Hrow, E. cbn [default fst snd]. split_and!; try done.
      apply agrees_more. by split.
    + rewrite (Hnext d Hre Hrt E).
      destruct (number_run n td digest (mt_srcSeq m) now d s) as (seq & d' & s' & Hnum & Hag' & Hrow' & Hseq & Hle & Hiff); try done; [by right|].
      rewrite Hnum, Hdig. exists seq, digest, (Some d', s'). split_and!; try done.
Qed.

Lemma lives_above n td ls st i k dg :
  (Z.of_nat (n + length ls) <= max_calls)%Z → agrees n td st → is_Some st.1 → Forall life_ok ls →
  lives td ls st !! i = Some (k, dg) →
  ((stored_row td st.2).1 <= k)%Z ∧ (k = (stored_row td st.2).1 → dg = (stored_row td st.2).2) ∧
  (i = 0 → dg = (stored_row td st.2).2 → k = (stored_row td st.2).1).
Proof.
  revert n st i. induction ls as [|l ls IH]; intros n st i Hn Hag Hrun Hls; [done|]. cbn [length] in Hn. apply Forall_cons in Hls as [Hl Hls].
  destruct (live_run n td l st ltac:(lia) Hag Hl ltac:(by right)) as (seq & digest & st' & El & Hag' & Hrun' & Hrow & Hle & Hiff).
  cbn [lives]. rewrite El. cbn [app]. destruct i as [|i]; cbn.
  - intros [= <- <-]. naive_solver.
  - intros Hi. destruct (IH (S n) st' i ltac:(lia) Hag' Hrun' Hls Hi) as (Hle' & Heq & _). rewrite Hrow in Hle', Heq. cbn in Hle', Heq.
    split; [lia|]. split; [|done]. intros E. assert (k = seq) as -> by lia. rewrite (Heq eq_refl). by apply Hiff.
Qed.


(** ** Examples *)

Definition first_bundle : material := mkMaterial "anchor 1" (Some "keys") 1.
Definition second_bundle : material := mkMaterial "anchor 2" (Some "keys") 2.
Definition seq_store : Store := new_store driverSQLite.

Definition numbered_first : DurableSequence := mkDurable 1 (default "" (materialDigest first_bundle)) 1 zero_time zero_time.

(** The database loses a statement while the second bundle is numbered. *)
Definition seq_ops : list seq_op :=
  [Elsewhere (seq_store, [None; Some (Fail "busy")]); Ask second_bundle false 5; Ask first_bundle false 6].

Lemma demo_small : small_src first_bundle ∧ small_src second_bundle.
Proof. repeat split; vm_compute; congruence. Qed.

Lemma sequence_never_back_witness :
  ∃ w', NewDurableSequence "example.org" first_bundle 1 (seq_store, []) = (Some numbered_first, w') ∧
    StronglySorted Z.le (ds_seq numbered_first :: answers "example.org" seq_ops numbered_first w').
Proof.
  exists (NewDurableSequence "example.org" first_bundle 1 (seq_store, [])).2.
  assert ((NewDurableSequence "example.org" first_bundle 1 (seq_store, [])).1 = Some numbered_first) as Hfst by (vm_compute; reflexivity).
  pose proof (surjective_pairing (NewDurableSequence "example.org" first_bundle 1 (seq_store, []))) as Hrun. rewrite Hfst in Hrun.
  split; [exact Hrun|]. refine (sequence_never_back "example.org" seq_ops first_bundle 1 (seq_store, []) numbered_first _ _ _ _ Hrun).
  - vm_compute. discriminate.
  - apply demo_small.
  - apply Forall_cons_2; [exact I|]. apply Forall_cons_2; [apply demo_small|]. apply Forall_cons_2; [apply demo_small|]. apply Forall_nil_2.
Defined.

(** A restart with the same bundle, then with another one. *)
Definition demo_life : list life := [Query second_bundle 20; Boot second_bundle 30; Boot first_bundle 40].

